(** * Asteroids multiplayer: the server-side simulation core

    A shallow embedding of [src/server/ServerModels.ts] (the version with
    collision detection and the projectile pool) and of the
    [GameEventsHandler] implementation in [src/server/Server.ts].

    Conventions of the embedding.

    - A JavaScript [number] that holds a coordinate, an angle or a colour
      channel is an exact rational, [Qc]; counters that only ever hold
      integers ([curBigAsteroidsCount], [invincibleCountdown], the scores)
      are [Z].  Rounding of floating point arithmetic is not modelled.
    - Every [ServerBullet] instance lives in a store ([heap]) and the two
      arrays of [BulletHouse] hold references into it, so that "the same
      instance" has a meaning independent of the value of its fields.
    - [Math.random], [Date.now], [uuid], the helpers of [shared/Utils] and
      the trigonometric part of the [victor] library are not part of the
      sources; they are the fields of the class [Externals].  The result
      of the [n]-th call made to one of the impure ones is a function of
      [n]; the number of calls made so far is threaded through the code
      ([Ext]).
    - The [dtoObject] mirrors are write-only copies for the wire and are
      left out.

    The models of the client, which mirror the game data in the browser
    and draw it, follow those of the server; their conventions are given
    where they start. *)

From Stdlib Require Import QArith Qcanon ZArith Lqa Qround Sorted.
From stdpp Require Import base option strings numbers list pretty.

Local Open Scope Qc_scope.

(** ** Numbers *)

Definition num (z : Z) : Qc := Q2Qc (inject_Z z).
Definition frac (a : Z) (b : positive) : Qc := Q2Qc (a # b).

Definition gtb (a b : Qc) : bool := bool_decide (b < a).
Definition ltb (a b : Qc) : bool := bool_decide (a < b).

(** Turns a goal on [Qc] into the same goal on [Q], where [lra] works. *)
Ltac qc_to_q :=
  unfold Qclt, Qcle, num, frac in *;
  cbn [this Qcplus Qcopp Qcmult Qcminus Q2Qc] in *;
  repeat rewrite Qred_correct in *; unfold inject_Z in *.

(** ** Arrays

    [Array.prototype.pop] and [Array.prototype.splice(i, 1)]. *)

Definition Array_pop {A} (l : list A) : option A * list A :=
  (last l, removelast l).

Definition Array_splice1 {A} (i : nat) (l : list A) : list A := delete i l.

(** ** External calls

    A computation that calls the impure externals: it is given the number
    of calls made so far and returns the number made after it. *)

Definition Ext (A : Type) : Type := nat -> A * nat.

Definition ret {A} (a : A) : Ext A := fun n => (a, n).
Definition bind {A B} (m : Ext A) (k : A -> Ext B) : Ext B :=
  fun n => let (a, n') := m n in k a n'.
Definition call {A} (f : nat -> A) : Ext A := fun n => (f n, S n).

Notation "'let*' x ':=' m 'in' k" := (bind m (fun x => k))
  (at level 10, x pattern, m at level 100, k at level 200).

(** ** Data *)

(** [victor]: a mutable 2D vector. *)
Record Victor := mkVictor { vx : Qc; vy : Qc }.

Definition Victor_add (o v : Victor) : Victor :=
  mkVictor (vx v + vx o) (vy v + vy o).
Definition Victor_addScalar (s : Qc) (v : Victor) : Victor :=
  mkVictor (vx v + s) (vy v + s).
Definition Victor_multiplyScalar (s : Qc) (v : Victor) : Victor :=
  mkVictor (vx v * s) (vy v * s).
Definition Victor_subtractScalarX (s : Qc) (v : Victor) : Victor :=
  mkVictor (vx v - s) (vy v).
Definition Victor_subtractScalarY (s : Qc) (v : Victor) : Victor :=
  mkVictor (vx v) (vy v - s).

Record RGBColor := mkRGB { rgb_r : Qc; rgb_g : Qc; rgb_b : Qc }.

(** The data members of the interface [CollidingObject]. *)
Record CollidingData := mkCollidingData {
  c_x : Qc;
  c_y : Qc;
  c_vertices : list (Qc * Qc);
  c_minCollidingDistance : Qc;
  c_maxCollidingDistance : Qc
}.

Record ServerBullet := mkServerBullet {
  b_id : string;
  b_x : Qc;
  b_y : Qc;
  b_heading : Qc;
  b_firerId : option string;
  b_velocity : Victor;
  b_color : RGBColor;
  b_needsToBeRecycled : bool
}.

Record ServerPlayer := mkServerPlayer {
  p_id : string;
  p_name : string;
  p_origColor : RGBColor;
  p_currentColor : RGBColor;
  p_x : Qc;
  p_y : Qc;
  p_heading : Qc;
  p_showTail : bool;
  p_velocity : Victor;
  p_acceleration : Victor;
  p_boostingForce : Victor;
  p_rotation : Qc;
  p_isBoosting : bool;
  p_isFiring : bool;
  p_now : Qc;
  p_then : Qc;
  p_fireDelta : Qc;
  p_asteroidPoints : Z;
  p_killingPoints : Z;
  p_invincibleCountdown : Z
}.

Record ServerAsteroid := mkServerAsteroid {
  a_id : string;
  a_maxCollidingDistance : Qc;
  a_minCollidingDistance : Qc;
  a_vertices : list (Qc * Qc);
  a_x : Qc;
  a_y : Qc;
  a_rotation : Qc;
  a_rotationSpeed : Qc;
  a_velocity : Victor;
  a_speed : Qc;
  a_needNewTarget : bool;
  a_isBig : bool
}.

Record PlayerInputDTO := mkInput {
  i_up : bool; i_left : bool; i_right : bool; i_fire : bool
}.

(** A reference to a [ServerBullet] instance: its index in the store. *)
Abbreviation BulletRef := nat (only parsing).

(** A value of type [CollidingObject]: [instanceof] tells the three
    classes apart. A projectile is held by reference. *)
Inductive CollidingObject :=
  | OBullet (r : BulletRef)
  | OAsteroid (a : ServerAsteroid)
  | OPlayer (p : ServerPlayer).

(** ** What the sources do not contain *)

Class Externals := {
  (* the JavaScript runtime *)
  Math_random : nat -> Qc;
  Math_cos : Qc -> Qc;
  Math_sin : Qc -> Qc;
  Date_now : nat -> Qc;
  (* the uuid package *)
  uuid : nat -> string;
  (* shared/Constants *)
  HALF_PI : Qc;
  TWO_PI : Qc;
  (* shared/Utils *)
  Utils_map : Qc -> Qc -> Qc -> Qc -> Qc -> Qc;
  Utils_randInt : Qc -> Qc -> nat -> Qc;
  Utils_pickRandom : list ServerPlayer -> nat -> option ServerPlayer;
  (* the distance test that Utils.checkCollidedWith applies to a pair *)
  Utils_collided : CollidingData -> CollidingData -> bool;
  (* the victor package: what needs a square root or a rotation *)
  Victor_rotateBy : Qc -> Victor -> Victor;
  Victor_norm : Victor -> Victor;
  Victor_normalize : Victor -> Victor;
  Victor_magnitude : Victor -> Qc
}.

Section Model.
Context {E : Externals}.

(** ** ServerBullet *)

Definition ServerBullet_speed : Qc := num 10.
Definition ServerBullet_size : Qc := num 5.
Definition ServerBullet_vertices : list (Qc * Qc) :=
  [(0, - ServerBullet_size); (0, ServerBullet_size)].

(** [new ServerBullet()]: the field initialisers. *)
Definition new_ServerBullet : Ext ServerBullet :=
  let* id := call uuid in
  ret {| b_id := id; b_x := 0; b_y := 0; b_heading := 0;
         b_firerId := None; b_velocity := mkVictor 0 0;
         b_color := mkRGB (num 255) (num 255) (num 255);
         b_needsToBeRecycled := false |}.

Definition ServerBullet_data (b : ServerBullet) : CollidingData :=
  {| c_x := b_x b; c_y := b_y b; c_vertices := ServerBullet_vertices;
     c_minCollidingDistance := 0;
     c_maxCollidingDistance := ServerBullet_size |}.

Definition ServerBullet_setInitValues (firerId : string) (x y heading : Qc)
    (color : RGBColor) (b : ServerBullet) : ServerBullet :=
  {| b_id := b_id b;
     b_x := x;
     b_y := y;
     b_heading := heading;
     b_firerId := Some firerId;
     b_velocity :=
       Victor_multiplyScalar ServerBullet_speed
         (Victor_norm
            (Victor_rotateBy (heading + HALF_PI)
               (Victor_addScalar 1 (b_velocity b))));
     b_color := color;
     b_needsToBeRecycled := b_needsToBeRecycled b |}.

(** [x > width || x < 0 || y > height || y < 0] *)
Definition outOfBounds (width height x y : Qc) : bool :=
  gtb x width || ltb x 0 || gtb y height || ltb y 0.

Definition ServerBullet_update (width height : Qc) (b : ServerBullet)
    : ServerBullet :=
  let x := b_x b + vx (b_velocity b) in
  let y := b_y b + vy (b_velocity b) in
  {| b_id := b_id b;
     b_x := x;
     b_y := y;
     b_heading := b_heading b;
     b_firerId := b_firerId b;
     b_velocity := b_velocity b;
     b_color := b_color b;
     b_needsToBeRecycled :=
       if negb (b_needsToBeRecycled b) then outOfBounds width height x y
       else b_needsToBeRecycled b |}.

Definition ServerBullet_prepareRecycle (b : ServerBullet) : ServerBullet :=
  {| b_id := b_id b;
     b_x := - num 1000;
     b_y := - num 1000;
     b_heading := 0;
     b_firerId := None;
     b_velocity := Victor_multiplyScalar 0 (b_velocity b);
     b_color := b_color b;
     b_needsToBeRecycled := false |}.

(** ** BulletHouse *)

Record BulletHouse := mkBulletHouse {
  heap : list ServerBullet;
  recycledBullets : list BulletRef;
  bullets : list BulletRef
}.

Definition new_BulletHouse : BulletHouse :=
  {| heap := []; recycledBullets := []; bullets := [] |}.

Definition BulletHouse_createOrGetBullet (bh : BulletHouse)
    : Ext (BulletRef * BulletHouse) :=
  match Array_pop (recycledBullets bh) with
  | (Some r, rest) =>
      ret (r, {| heap := heap bh; recycledBullets := rest;
                 bullets := bullets bh |})
  | (None, _) =>
      let* b := new_ServerBullet in
      ret (length (heap bh),
           {| heap := heap bh ++ [b];
              recycledBullets := recycledBullets bh;
              bullets := bullets bh |})
  end.

Definition BulletHouse_fireBullet (firerId : string) (x y heading : Qc)
    (color : RGBColor) (bh : BulletHouse) : Ext BulletHouse :=
  let* (r, bh1) := BulletHouse_createOrGetBullet bh in
  ret {| heap :=
           alter (ServerBullet_setInitValues firerId x y heading color) r
             (heap bh1);
         recycledBullets := recycledBullets bh1;
         bullets := bullets bh1 ++ [r] |}.

(** [bullet.prepareRecycle(); recycled.push(bullet); bullets.splice(i, 1)] *)
Definition BulletHouse_recycleAt (i : nat) (r : BulletRef) (bh : BulletHouse)
    : BulletHouse :=
  {| heap := alter ServerBullet_prepareRecycle r (heap bh);
     recycledBullets := recycledBullets bh ++ [r];
     bullets := Array_splice1 i (bullets bh) |}.

Definition flagged (h : list ServerBullet) (r : BulletRef) : bool :=
  match h !! r with
  | Some b => b_needsToBeRecycled b
  | None => false
  end.

(** The body of [let i = bullets.length; while (i--) { ... }] in
    [BulletHouse.update], run from index [i] downwards. *)
Fixpoint BulletHouse_update_from (i : nat) (width height : Qc)
    (bh : BulletHouse) : BulletHouse :=
  match i with
  | O => bh
  | S j =>
      match bullets bh !! j with
      | Some r =>
          let bh1 :=
            {| heap := alter (ServerBullet_update width height) r (heap bh);
               recycledBullets := recycledBullets bh;
               bullets := bullets bh |} in
          BulletHouse_update_from j width height
            (if flagged (heap bh1) r then BulletHouse_recycleAt j r bh1
             else bh1)
      | None => bh
      end
  end.

Definition BulletHouse_update (width height : Qc) (bh : BulletHouse)
    : BulletHouse :=
  BulletHouse_update_from (length (bullets bh)) width height bh.

Definition hasId (h : list ServerBullet) (id : string) (r : BulletRef)
    : Prop :=
  b_id <$> h !! r = Some id.

#[global] Instance hasId_dec h id r : Decision (hasId h id r).
Proof. unfold hasId. apply _. Defined.

Definition BulletHouse_recycleBulletById (id : string) (bh : BulletHouse)
    : BulletHouse :=
  match list_find (hasId (heap bh) id) (bullets bh) with
  | Some (index, r) => BulletHouse_recycleAt index r bh
  | None => bh
  end.

Definition firedBy (h : list ServerBullet) (firerId : string) (r : BulletRef)
    : bool :=
  match h !! r with
  | Some b => bool_decide (b_firerId b = Some firerId)
  | None => false
  end.

Fixpoint BulletHouse_recycleBulletsByFirerId_from (i : nat)
    (firerId : string) (bh : BulletHouse) : BulletHouse :=
  match i with
  | O => bh
  | S j =>
      match bullets bh !! j with
      | Some r =>
          BulletHouse_recycleBulletsByFirerId_from j firerId
            (if firedBy (heap bh) firerId r then BulletHouse_recycleAt j r bh
             else bh)
      | None => bh
      end
  end.

Definition BulletHouse_recycleBulletsByFirerId (firerId : string)
    (bh : BulletHouse) : BulletHouse :=
  BulletHouse_recycleBulletsByFirerId_from (length (bullets bh)) firerId bh.

(** ** ServerPlayer *)

Definition ServerPlayer_maxSpeed : Qc := num 8.
Definition ServerPlayer_size : Qc := num 15.
Definition ServerPlayer_fireInterval : Qc := num 1000 / num 4.
Definition ServerPlayer_vertices : list (Qc * Qc) :=
  [(- ServerPlayer_size, ServerPlayer_size);
   (ServerPlayer_size, ServerPlayer_size);
   (0, - ServerPlayer_size)].
Definition ServerPlayer_maxCollidingDistance : Qc := frac 2121 100.
Definition ServerPlayer_minCollidingDistance : Qc := frac 67 10.

(** [get isInvincible()] *)
Definition ServerPlayer_isInvincible (p : ServerPlayer) : bool :=
  bool_decide (0 < p_invincibleCountdown p)%Z.

(** [new ServerPlayer(id, name, color, x, y, bulletHouse, handler)]; the
    two last arguments are the shared pool and the server, which the
    embedding passes as state. *)
Definition new_ServerPlayer (id name : string) (color : RGBColor) (x y : Qc)
    : Ext ServerPlayer :=
  let* t := call Date_now in
  ret {| p_id := id; p_name := name;
         p_origColor := color; p_currentColor := color;
         p_x := x; p_y := y; p_heading := HALF_PI; p_showTail := false;
         p_velocity := mkVictor 0 0; p_acceleration := mkVictor 0 0;
         p_boostingForce := mkVictor 0 0;
         p_rotation := 0; p_isBoosting := false;
         p_isFiring := false; p_now := 0; p_then := t; p_fireDelta := 0;
         p_asteroidPoints := 0; p_killingPoints := 0;
         p_invincibleCountdown := 255 |}.

Definition ServerPlayer_data (p : ServerPlayer) : CollidingData :=
  {| c_x := p_x p; c_y := p_y p; c_vertices := ServerPlayer_vertices;
     c_minCollidingDistance := ServerPlayer_minCollidingDistance;
     c_maxCollidingDistance := ServerPlayer_maxCollidingDistance |}.

Definition ServerPlayer_applyInput (input : PlayerInputDTO) (p : ServerPlayer)
    : ServerPlayer :=
  {| p_id := p_id p; p_name := p_name p;
     p_origColor := p_origColor p; p_currentColor := p_currentColor p;
     p_x := p_x p; p_y := p_y p; p_heading := p_heading p;
     p_showTail := p_showTail p;
     p_velocity := p_velocity p; p_acceleration := p_acceleration p;
     p_boostingForce := p_boostingForce p;
     p_rotation :=
       if i_left input then - frac 8 100
       else if i_right input then frac 8 100
       else if negb (i_left input) && negb (i_right input) then 0
       else p_rotation p;
     p_isBoosting := i_up input;
     p_isFiring := i_fire input;
     p_now := p_now p; p_then := p_then p; p_fireDelta := p_fireDelta p;
     p_asteroidPoints := p_asteroidPoints p;
     p_killingPoints := p_killingPoints p;
     p_invincibleCountdown := p_invincibleCountdown p |}.

Definition ServerPlayer_updateBoostingForce (isBoosting : bool)
    (heading : Qc) (boostingForce : Victor) : Victor :=
  if isBoosting then
    Victor_multiplyScalar (frac 1 10)
      (Victor_normalize
         (Victor_rotateBy (heading + HALF_PI)
            (Victor_addScalar 1 boostingForce)))
  else Victor_multiplyScalar 0 boostingForce.

(** [checkEdges]: the new value of one coordinate, for the extent
    [size] of the world along it. *)
Definition wrapEdge (size v : Qc) : Qc :=
  let r := ServerPlayer_size in
  if gtb v (size + r) then - r
  else if ltb v (- r) then size + r
  else v.

Definition ServerPlayer_checkEdges (width height : Qc) (p : ServerPlayer)
    : ServerPlayer :=
  {| p_id := p_id p; p_name := p_name p;
     p_origColor := p_origColor p; p_currentColor := p_currentColor p;
     p_x := wrapEdge width (p_x p);
     p_y := wrapEdge height (p_y p);
     p_heading := p_heading p; p_showTail := p_showTail p;
     p_velocity := p_velocity p; p_acceleration := p_acceleration p;
     p_boostingForce := p_boostingForce p;
     p_rotation := p_rotation p; p_isBoosting := p_isBoosting p;
     p_isFiring := p_isFiring p;
     p_now := p_now p; p_then := p_then p; p_fireDelta := p_fireDelta p;
     p_asteroidPoints := p_asteroidPoints p;
     p_killingPoints := p_killingPoints p;
     p_invincibleCountdown := p_invincibleCountdown p |}.

(** The first part of [update]: heading, forces, velocity, position and
    the edge check. *)
Definition ServerPlayer_move (width height : Qc) (p : ServerPlayer)
    : ServerPlayer :=
  let heading := p_heading p + p_rotation p in
  let boostingForce :=
    ServerPlayer_updateBoostingForce (p_isBoosting p) heading
      (p_boostingForce p) in
  let acceleration := Victor_add boostingForce (p_acceleration p) in
  let velocity := Victor_add acceleration (p_velocity p) in
  let velocity :=
    if gtb (Victor_magnitude velocity) ServerPlayer_maxSpeed then
      Victor_multiplyScalar ServerPlayer_maxSpeed (Victor_norm velocity)
    else velocity in
  let velocity := Victor_multiplyScalar (frac 99 100) velocity in
  let moved :=
    {| p_id := p_id p; p_name := p_name p;
       p_origColor := p_origColor p; p_currentColor := p_currentColor p;
       p_x := p_x p + vx velocity;
       p_y := p_y p + vy velocity;
       p_heading := heading; p_showTail := p_showTail p;
       p_velocity := velocity; p_acceleration := acceleration;
       p_boostingForce := boostingForce;
       p_rotation := p_rotation p; p_isBoosting := p_isBoosting p;
       p_isFiring := p_isFiring p;
       p_now := p_now p; p_then := p_then p; p_fireDelta := p_fireDelta p;
       p_asteroidPoints := p_asteroidPoints p;
       p_killingPoints := p_killingPoints p;
       p_invincibleCountdown := p_invincibleCountdown p |} in
  let edged := ServerPlayer_checkEdges width height moved in
  {| p_id := p_id edged; p_name := p_name edged;
     p_origColor := p_origColor edged;
     p_currentColor := p_currentColor edged;
     p_x := p_x edged; p_y := p_y edged;
     p_heading := p_heading edged; p_showTail := p_showTail edged;
     p_velocity := p_velocity edged;
     p_acceleration := Victor_multiplyScalar 0 (p_acceleration edged);
     p_boostingForce := p_boostingForce edged;
     p_rotation := p_rotation edged; p_isBoosting := p_isBoosting edged;
     p_isFiring := p_isFiring edged;
     p_now := p_now edged; p_then := p_then edged;
     p_fireDelta := p_fireDelta edged;
     p_asteroidPoints := p_asteroidPoints edged;
     p_killingPoints := p_killingPoints edged;
     p_invincibleCountdown := p_invincibleCountdown edged |}.

(** The second part of [update]: [if (this.isFiring) { ... }]. It returns
    the new values of [now], [then] and [fireDelta]. *)
Definition ServerPlayer_fire (p : ServerPlayer) (bh : BulletHouse)
    : Ext (Qc * Qc * Qc * BulletHouse) :=
  if p_isFiring p then
    let* now := call Date_now in
    let fireDelta := now - p_then p in
    if gtb fireDelta ServerPlayer_fireInterval then
      let* bh' :=
        BulletHouse_fireBullet (p_id p) (p_x p) (p_y p) (p_heading p)
          (p_origColor p) bh in
      ret (now, now, fireDelta, bh')
    else ret (now, p_then p, fireDelta, bh)
  else ret (p_now p, p_then p, p_fireDelta p, bh).

(** The blinking colour of an invincible player. *)
Definition ServerPlayer_blink (countdown : Z) (origColor : RGBColor)
    : Ext RGBColor :=
  if bool_decide (0 < countdown)%Z then
    let c := num countdown in
    let* r :=
      call (Utils_randInt (Utils_map c 0 (num 255) (rgb_r origColor) 0)
              (rgb_r origColor)) in
    let* g :=
      call (Utils_randInt (Utils_map c 0 (num 255) (rgb_g origColor) 0)
              (rgb_g origColor)) in
    let* b :=
      call (Utils_randInt (Utils_map c 0 (num 255) (rgb_b origColor) 0)
              (rgb_b origColor)) in
    ret (mkRGB r g b)
  else ret (mkRGB (rgb_r origColor) (rgb_g origColor) (rgb_b origColor)).

Definition ServerPlayer_update (width height : Qc) (p : ServerPlayer)
    (bh : BulletHouse) : Ext (ServerPlayer * BulletHouse) :=
  let p1 := ServerPlayer_move width height p in
  let* (now, then_, fireDelta, bh') := ServerPlayer_fire p1 bh in
  let showTail := gtb (Victor_magnitude (p_velocity p1)) 1 in
  let countdown :=
    if bool_decide (0 < p_invincibleCountdown p1)%Z
    then (p_invincibleCountdown p1 - 1)%Z
    else p_invincibleCountdown p1 in
  let* color := ServerPlayer_blink countdown (p_origColor p1) in
  ret ({| p_id := p_id p1; p_name := p_name p1;
          p_origColor := p_origColor p1; p_currentColor := color;
          p_x := p_x p1; p_y := p_y p1;
          p_heading := p_heading p1; p_showTail := showTail;
          p_velocity := p_velocity p1;
          p_acceleration := p_acceleration p1;
          p_boostingForce := p_boostingForce p1;
          p_rotation := p_rotation p1; p_isBoosting := p_isBoosting p1;
          p_isFiring := p_isFiring p1;
          p_now := now; p_then := then_; p_fireDelta := fireDelta;
          p_asteroidPoints := p_asteroidPoints p1;
          p_killingPoints := p_killingPoints p1;
          p_invincibleCountdown := countdown |}, bh').

Definition ServerPlayer_isCollisionTarget (h : list ServerBullet)
    (p : ServerPlayer) (other : CollidingObject) : bool :=
  match other with
  | OBullet r =>
      match h !! r with
      | Some b =>
          bool_decide (b_firerId b <> Some (p_id p))
          && negb (b_needsToBeRecycled b)
      | None => false
      end
  | OAsteroid _ => true
  | OPlayer _ => false
  end.

Definition ServerPlayer_increaseAsteroidPoint (p : ServerPlayer)
    : ServerPlayer :=
  {| p_id := p_id p; p_name := p_name p;
     p_origColor := p_origColor p; p_currentColor := p_currentColor p;
     p_x := p_x p; p_y := p_y p; p_heading := p_heading p;
     p_showTail := p_showTail p;
     p_velocity := p_velocity p; p_acceleration := p_acceleration p;
     p_boostingForce := p_boostingForce p;
     p_rotation := p_rotation p; p_isBoosting := p_isBoosting p;
     p_isFiring := p_isFiring p;
     p_now := p_now p; p_then := p_then p; p_fireDelta := p_fireDelta p;
     p_asteroidPoints := (p_asteroidPoints p + 1)%Z;
     p_killingPoints := p_killingPoints p;
     p_invincibleCountdown := p_invincibleCountdown p |}.

Definition ServerPlayer_increaseKillingPoint (p : ServerPlayer)
    : ServerPlayer :=
  {| p_id := p_id p; p_name := p_name p;
     p_origColor := p_origColor p; p_currentColor := p_currentColor p;
     p_x := p_x p; p_y := p_y p; p_heading := p_heading p;
     p_showTail := p_showTail p;
     p_velocity := p_velocity p; p_acceleration := p_acceleration p;
     p_boostingForce := p_boostingForce p;
     p_rotation := p_rotation p; p_isBoosting := p_isBoosting p;
     p_isFiring := p_isFiring p;
     p_now := p_now p; p_then := p_then p; p_fireDelta := p_fireDelta p;
     p_asteroidPoints := p_asteroidPoints p;
     p_killingPoints := (p_killingPoints p + 1)%Z;
     p_invincibleCountdown := p_invincibleCountdown p |}.

(** ** ServerAsteroid *)

Definition ServerAsteroid_bigAsteroidVertexCount : nat := 10.
Definition ServerAsteroid_smallAsteroidVertexCount : nat := 5.
Definition ServerAsteroid_outsideThreshold : Qc := num 50.

Definition ServerAsteroid_setRandomSpawnPoint (width height : Qc)
    : Ext (Qc * Qc) :=
  let* rand := call Math_random in
  if ltb rand (frac 25 100) then
    let* x := call (Utils_randInt (- num 200) (- num 100)) in
    let* y := call (Utils_randInt 0 height) in
    ret (x, y)
  else if ltb rand (frac 5 10) then
    let* x := call (Utils_randInt 0 width) in
    let* y := call (Utils_randInt (- num 200) (- num 100)) in
    ret (x, y)
  else if ltb rand (frac 75 100) then
    let* x := call (Utils_randInt (width + num 100) (width + num 200)) in
    let* y := call (Utils_randInt 0 height) in
    ret (x, y)
  else
    let* x := call (Utils_randInt 0 width) in
    let* y := call (Utils_randInt (height + num 100) (height + num 200)) in
    ret (x, y).

(** [for (let i = 0; i < vertexCount; i++) { ... this.vertices.push([x, y]) }],
    with [todo] rounds left to run. *)
Fixpoint ServerAsteroid_makeVertices (todo : nat) (i : Z) (vertexCount : Z)
    (minD maxD : Qc) : Ext (list (Qc * Qc)) :=
  match todo with
  | O => ret []
  | S todo' =>
      let angle := Utils_map (num i) 0 (num vertexCount) 0 TWO_PI in
      let* r := call (Utils_randInt minD maxD) in
      let* rest :=
        ServerAsteroid_makeVertices todo' (i + 1)%Z vertexCount minD maxD in
      ret ((r * Math_cos angle, r * Math_sin angle) :: rest)
  end.

(** [new ServerAsteroid(width, height, isBig, handler)] *)
Definition new_ServerAsteroid (width height : Qc) (isBig : bool)
    : Ext ServerAsteroid :=
  let* id := call uuid in
  let* (x, y) := ServerAsteroid_setRandomSpawnPoint width height in
  if isBig then
    let* rotationSpeed :=
      call (fun n => Utils_map (Math_random n) 0 1 (frac 1 100) (frac 3 100)) in
    let* speed := call (fun n => Utils_map (Math_random n) 0 1 1 (num 2)) in
    let* maxD := call (Utils_randInt (num 80) (num 100)) in
    let* minD := call (Utils_randInt (num 40) (num 60)) in
    let* vertices :=
      ServerAsteroid_makeVertices ServerAsteroid_bigAsteroidVertexCount 0
        (Z.of_nat ServerAsteroid_bigAsteroidVertexCount) minD maxD in
    ret {| a_id := id; a_maxCollidingDistance := maxD;
           a_minCollidingDistance := minD; a_vertices := vertices;
           a_x := x; a_y := y; a_rotation := 0;
           a_rotationSpeed := rotationSpeed;
           a_velocity := mkVictor 0 0; a_speed := speed;
           a_needNewTarget := true; a_isBig := isBig |}
  else
    let* rotationSpeed :=
      call (fun n => Utils_map (Math_random n) 0 1 (frac 5 100) (frac 7 100)) in
    let* speed :=
      call (fun n => Utils_map (Math_random n) 0 1 (frac 15 10) (frac 25 10)) in
    let* maxD := call (Utils_randInt (num 40) (num 60)) in
    let* minD := call (Utils_randInt (num 10) (num 30)) in
    let* vertices :=
      ServerAsteroid_makeVertices ServerAsteroid_smallAsteroidVertexCount 0
        (Z.of_nat ServerAsteroid_smallAsteroidVertexCount) minD maxD in
    ret {| a_id := id; a_maxCollidingDistance := maxD;
           a_minCollidingDistance := minD; a_vertices := vertices;
           a_x := x; a_y := y; a_rotation := 0;
           a_rotationSpeed := rotationSpeed;
           a_velocity := mkVictor 0 0; a_speed := speed;
           a_needNewTarget := true; a_isBig := isBig |}.

Definition ServerAsteroid_data (a : ServerAsteroid) : CollidingData :=
  {| c_x := a_x a; c_y := a_y a; c_vertices := a_vertices a;
     c_minCollidingDistance := a_minCollidingDistance a;
     c_maxCollidingDistance := a_maxCollidingDistance a |}.

(** [static createPieceOf(width, height, bigAsteroid)] *)
Definition ServerAsteroid_createPieceOf (width height : Qc)
    (bigAsteroid : ServerAsteroid) : Ext ServerAsteroid :=
  let* asteroid := new_ServerAsteroid width height false in
  let* dx :=
    call (fun n => Utils_map (Math_random n) 0 1 (- num 20) (num 20)) in
  let* dy :=
    call (fun n => Utils_map (Math_random n) 0 1 (- num 20) (num 20)) in
  let* velx := call (fun n => Utils_map (Math_random n) 0 1 (- 1) 1) in
  let* vely := call (fun n => Utils_map (Math_random n) 0 1 (- 1) 1) in
  ret {| a_id := a_id asteroid;
         a_maxCollidingDistance := a_maxCollidingDistance asteroid;
         a_minCollidingDistance := a_minCollidingDistance asteroid;
         a_vertices := a_vertices asteroid;
         a_x := a_x bigAsteroid + dx;
         a_y := a_y bigAsteroid + dy;
         a_rotation := a_rotation asteroid;
         a_rotationSpeed := a_rotationSpeed asteroid;
         a_velocity :=
           Victor_multiplyScalar (a_speed asteroid)
             (Victor_norm (mkVictor velx vely));
         a_speed := a_speed asteroid;
         a_needNewTarget := false;
         a_isBig := a_isBig asteroid |}.

Definition ServerAsteroid_setTarget (x y : Qc) (a : ServerAsteroid)
    : Ext ServerAsteroid :=
  let* speed :=
    if a_isBig a
    then call (fun n => Utils_map (Math_random n) 0 1 1 (num 2))
    else call (fun n => Utils_map (Math_random n) 0 1 (frac 15 10) (frac 25 10))
  in
  let v :=
    Victor_multiplyScalar speed
      (Victor_norm
         (Victor_subtractScalarY (a_y a)
            (Victor_subtractScalarX (a_x a) (mkVictor x y)))) in
  ret {| a_id := a_id a;
         a_maxCollidingDistance := a_maxCollidingDistance a;
         a_minCollidingDistance := a_minCollidingDistance a;
         a_vertices := a_vertices a;
         a_x := a_x a; a_y := a_y a;
         a_rotation := a_rotation a;
         a_rotationSpeed := a_rotationSpeed a;
         a_velocity := mkVictor (vx v) (vy v);
         a_speed := speed;
         a_needNewTarget := false;
         a_isBig := a_isBig a |}.

Definition ServerAsteroid_update (width height : Qc) (a : ServerAsteroid)
    : ServerAsteroid :=
  let x := a_x a + vx (a_velocity a) in
  let y := a_y a + vy (a_velocity a) in
  let size := a_maxCollidingDistance a in
  let outsideThreshold := ServerAsteroid_outsideThreshold in
  {| a_id := a_id a;
     a_maxCollidingDistance := a_maxCollidingDistance a;
     a_minCollidingDistance := a_minCollidingDistance a;
     a_vertices := a_vertices a;
     a_x := x; a_y := y;
     a_rotation := a_rotation a + a_rotationSpeed a;
     a_rotationSpeed := a_rotationSpeed a;
     a_velocity := a_velocity a;
     a_speed := a_speed a;
     a_needNewTarget :=
       if negb (a_needNewTarget a) then
         gtb (x - size) (width + outsideThreshold)
         || ltb (x + size) (- outsideThreshold)
         || gtb (y - size) (height + outsideThreshold)
         || ltb (y + size) (- outsideThreshold)
       else a_needNewTarget a;
     a_isBig := a_isBig a |}.

Definition ServerAsteroid_isCollisionTarget (h : list ServerBullet)
    (a : ServerAsteroid) (other : CollidingObject) : bool :=
  match other with
  | OBullet r =>
      match h !! r with
      | Some b => negb (b_needsToBeRecycled b)
      | None => false
      end
  | _ => false
  end.

(** ** ServerBullet as a CollidingObject: nothing to do *)

Definition ServerBullet_isCollisionTarget (other : CollidingObject) : bool :=
  false.

(** ** ServerGameData *)

(** [players] is a [Map<string, ServerPlayer>]: the entries in insertion
    order, each under the key [p_id]. *)
Record ServerGameData := mkServerGameData {
  players : list ServerPlayer;
  bulletHouse : BulletHouse;
  asteroids : list ServerAsteroid;
  curBigAsteroidsCount : Z
}.

Definition ServerGameData_width : Qc := num 4000.
Definition ServerGameData_height : Qc := num 4000.
Definition ServerGameData_minBigAsteroidCount : Z := 7.
Definition ServerGameData_bigAsteroidCountMultiplesOfPlayer : Z := 3.

(** [Map.prototype.get], [set] and [delete]. *)
Definition Players_get (id : string) (ps : list ServerPlayer)
    : option ServerPlayer :=
  List.find (fun p => bool_decide (p_id p = id)) ps.

Fixpoint Players_alter (f : ServerPlayer -> ServerPlayer) (id : string)
    (ps : list ServerPlayer) : list ServerPlayer :=
  match ps with
  | [] => []
  | p :: ps' =>
      if bool_decide (p_id p = id) then f p :: ps'
      else p :: Players_alter f id ps'
  end.

Definition Players_set (id : string) (v : ServerPlayer)
    (ps : list ServerPlayer) : list ServerPlayer :=
  match Players_get id ps with
  | Some _ => Players_alter (fun _ => v) id ps
  | None => ps ++ [v]
  end.

Definition Players_delete (id : string) (ps : list ServerPlayer)
    : list ServerPlayer :=
  filter (fun p => p_id p <> id) ps.

(** [this.asteroids.push(new ServerAsteroid(w, h, true, handler));
     this.curBigAsteroidsCount++], [count] times: the loop of the
    constructor and the loop of the top-up. *)
Fixpoint ServerGameData_pushBigAsteroids (count : nat) (gd : ServerGameData)
    : Ext ServerGameData :=
  match count with
  | O => ret gd
  | S count' =>
      let* a :=
        new_ServerAsteroid ServerGameData_width ServerGameData_height true in
      ServerGameData_pushBigAsteroids count'
        {| players := players gd;
           bulletHouse := bulletHouse gd;
           asteroids := asteroids gd ++ [a];
           curBigAsteroidsCount := (curBigAsteroidsCount gd + 1)%Z |}
  end.

Definition new_ServerGameData : Ext ServerGameData :=
  ServerGameData_pushBigAsteroids
    (Z.to_nat ServerGameData_minBigAsteroidCount)
    {| players := []; bulletHouse := new_BulletHouse; asteroids := [];
       curBigAsteroidsCount := 0 |}.

Definition ServerGameData_addPlayer (id name : string) (color : RGBColor)
    (gd : ServerGameData) : Ext (ServerPlayer * ServerGameData) :=
  let* newPlayer :=
    new_ServerPlayer id name color
      (ServerGameData_width / num 2) (ServerGameData_height / num 2) in
  ret (newPlayer,
       {| players := Players_set id newPlayer (players gd);
          bulletHouse := bulletHouse gd;
          asteroids := asteroids gd;
          curBigAsteroidsCount := curBigAsteroidsCount gd |}).

Definition ServerGameData_removePlayerById (id : string)
    (gd : ServerGameData) : option ServerPlayer * ServerGameData :=
  match Players_get id (players gd) with
  | Some player =>
      (Some player,
       {| players := Players_delete id (players gd);
          bulletHouse := bulletHouse gd;
          asteroids := asteroids gd;
          curBigAsteroidsCount := curBigAsteroidsCount gd |})
  | None => (None, gd)
  end.

Definition ServerGameData_removeAsteroidById (id : string)
    (gd : ServerGameData) : option ServerAsteroid * ServerGameData :=
  match list_find (fun a => id = a_id a) (asteroids gd) with
  | Some (index, removing) =>
      (Some removing,
       {| players := players gd;
          bulletHouse := bulletHouse gd;
          asteroids := Array_splice1 index (asteroids gd);
          curBigAsteroidsCount := curBigAsteroidsCount gd |})
  | None => (None, gd)
  end.

Definition ServerGameData_breakAsteroid (asteroid : ServerAsteroid)
    (gd : ServerGameData) : Ext ServerGameData :=
  let (removed, gd1) := ServerGameData_removeAsteroidById (a_id asteroid) gd in
  match removed with
  | Some removed =>
      if a_isBig removed then
        let width := ServerGameData_width in
        let height := ServerGameData_height in
        let* p1 := ServerAsteroid_createPieceOf width height removed in
        let* p2 := ServerAsteroid_createPieceOf width height removed in
        let* p3 := ServerAsteroid_createPieceOf width height removed in
        ret {| players := players gd1;
               bulletHouse := bulletHouse gd1;
               asteroids := asteroids gd1 ++ [p1; p2; p3];
               curBigAsteroidsCount := (curBigAsteroidsCount gd1 - 1)%Z |}
      else ret gd1
  | None => ret gd1
  end.

Definition ServerGameData_getPlayerWithId (id : string) (gd : ServerGameData)
    : option ServerPlayer :=
  Players_get id (players gd).

Definition ServerGameData_recycleBulletById (id : string)
    (gd : ServerGameData) : ServerGameData :=
  {| players := players gd;
     bulletHouse := BulletHouse_recycleBulletById id (bulletHouse gd);
     asteroids := asteroids gd;
     curBigAsteroidsCount := curBigAsteroidsCount gd |}.

Definition ServerGameData_recycleBulletsByFirerId (firerId : string)
    (gd : ServerGameData) : ServerGameData :=
  {| players := players gd;
     bulletHouse := BulletHouse_recycleBulletsByFirerId firerId (bulletHouse gd);
     asteroids := asteroids gd;
     curBigAsteroidsCount := curBigAsteroidsCount gd |}.

(** *** The first half of [update]: every entity advances *)

(** [players.forEach(player => player.update(width, height))] *)
Fixpoint ServerGameData_updatePlayers (ps : list ServerPlayer)
    (bh : BulletHouse) : Ext (list ServerPlayer * BulletHouse) :=
  match ps with
  | [] => ret ([], bh)
  | p :: ps' =>
      let* (p', bh1) :=
        ServerPlayer_update ServerGameData_width ServerGameData_height p bh in
      let* (ps'', bh2) := ServerGameData_updatePlayers ps' bh1 in
      ret (p' :: ps'', bh2)
  end.

(** [for (let i = 0; i < asteroids.length; i++) { ... }]: [todo] is what
    lies at index [i] and beyond; an asteroid removed by
    [asteroids.splice(i--, 1)] is left out of the result. *)
Fixpoint ServerGameData_updateAsteroids (ps : list ServerPlayer)
    (todo : list ServerAsteroid) : Ext (list ServerAsteroid) :=
  match todo with
  | [] => ret []
  | a :: todo' =>
      let asteroid :=
        ServerAsteroid_update ServerGameData_width ServerGameData_height a in
      if a_needNewTarget asteroid then
        if a_isBig asteroid then
          let* randPlayer := call (Utils_pickRandom ps) in
          let* asteroid' :=
            match randPlayer with
            | Some randPlayer =>
                ServerAsteroid_setTarget (p_x randPlayer) (p_y randPlayer)
                  asteroid
            | None =>
                let* tx := call (Utils_randInt 0 ServerGameData_width) in
                let* ty := call (Utils_randInt 0 ServerGameData_height) in
                ServerAsteroid_setTarget tx ty asteroid
            end in
          let* rest := ServerGameData_updateAsteroids ps todo' in
          ret (asteroid' :: rest)
        else ServerGameData_updateAsteroids ps todo'
      else
        let* rest := ServerGameData_updateAsteroids ps todo' in
        ret (asteroid :: rest)
  end.

Definition ServerGameData_advance (gd : ServerGameData)
    : Ext ServerGameData :=
  let* (ps, bh) :=
    ServerGameData_updatePlayers (players gd) (bulletHouse gd) in
  let bh' :=
    BulletHouse_update ServerGameData_width ServerGameData_height bh in
  let* asts := ServerGameData_updateAsteroids ps (asteroids gd) in
  ret {| players := ps; bulletHouse := bh'; asteroids := asts;
         curBigAsteroidsCount := curBigAsteroidsCount gd |}.

(** *** The end of [update]: the top-up of big asteroids *)

Definition ServerGameData_neededBigAsteroidCount (gd : ServerGameData) : Z :=
  Z.max ServerGameData_minBigAsteroidCount
    (Z.of_nat (length (players gd))
     * ServerGameData_bigAsteroidCountMultiplesOfPlayer).

Definition ServerGameData_topUp (gd : ServerGameData) : Ext ServerGameData :=
  let neededBigAsteroidCount := ServerGameData_neededBigAsteroidCount gd in
  if bool_decide (curBigAsteroidsCount gd < neededBigAsteroidCount)%Z then
    let count := (neededBigAsteroidCount - curBigAsteroidsCount gd)%Z in
    ServerGameData_pushBigAsteroids (Z.to_nat count) gd
  else ret gd.

(** ** Server: the GameEventsHandler *)

(** A socket, with the player it plays ([me]) named by its id: the
    player of a socket is stored under the socket's id. *)
Record DomainSocket := mkDomainSocket {
  s_id : string;
  s_me : option string
}.

(** What [ServerSocketEventsHelper] emits, by receiving socket; a player
    stands for its [dtoObject]. *)
Inductive SocketEvent :=
  | LoggedInEvent (socket player : string)
  | PlayerLeftEvent (socket player : string)
  | KilledByAsteroidEvent (socket killed : string)
  | KilledByPlayerEvent (socket killer killed : string)
  | GameDataEvent (socket : string).

Record Server := mkServer {
  connectedSockets : list DomainSocket;
  gameData : ServerGameData;
  sent : list SocketEvent;
  calls : nat
}.

Definition withGameData (gd : ServerGameData) (s : Server) : Server :=
  {| connectedSockets := connectedSockets s; gameData := gd;
     sent := sent s; calls := calls s |}.

(** Runs a method of [gameData] that calls the externals. *)
Definition runGameData (m : Ext ServerGameData) (s : Server) : Server :=
  let (gd, n) := m (calls s) in
  {| connectedSockets := connectedSockets s; gameData := gd;
     sent := sent s; calls := n |}.

Definition emit (e : SocketEvent) (s : Server) : Server :=
  {| connectedSockets := connectedSockets s; gameData := gameData s;
     sent := sent s ++ [e]; calls := calls s |}.

Definition clearMe (sock : DomainSocket) : DomainSocket :=
  {| s_id := s_id sock; s_me := None |}.

(** [const socket = this.connectedSockets.find(s => s.id === id);
     if (socket) { socket.me = null; send(socket) }] *)
Definition Server_notifyKilled (id : string)
    (event : string -> SocketEvent) (s : Server) : Server :=
  match list_find (fun sock => s_id sock = id) (connectedSockets s) with
  | Some (i, sock) =>
      emit (event (s_id sock))
        {| connectedSockets := alter clearMe i (connectedSockets s);
           gameData := gameData s; sent := sent s; calls := calls s |}
  | None => s
  end.

(** [if (bullet.firerId)]: [null] and the empty string are falsy. *)
Definition truthy (o : option string) : option string :=
  match o with
  | Some str => if bool_decide (str = EmptyString) then None else Some str
  | None => None
  end.

Definition Server_asteroidKilledPlayer (asteroid : ServerAsteroid)
    (player : ServerPlayer) (s : Server) : Server :=
  let (killedPlayer, gd1) :=
    ServerGameData_removePlayerById (p_id player) (gameData s) in
  let s1 :=
    match killedPlayer with
    | Some killedPlayer =>
        let gd2 :=
          ServerGameData_recycleBulletsByFirerId (p_id killedPlayer) gd1 in
        Server_notifyKilled (p_id killedPlayer)
          (fun sock => KilledByAsteroidEvent sock (p_id killedPlayer))
          (withGameData gd2 s)
    | None => s
    end in
  runGameData (ServerGameData_breakAsteroid asteroid (gameData s1)) s1.

Definition alterPlayer (f : ServerPlayer -> ServerPlayer) (id : string)
    (gd : ServerGameData) : ServerGameData :=
  {| players := Players_alter f id (players gd);
     bulletHouse := bulletHouse gd;
     asteroids := asteroids gd;
     curBigAsteroidsCount := curBigAsteroidsCount gd |}.

Definition Server_bulletKilledAsteroid (bullet : BulletRef)
    (asteroid : ServerAsteroid) (s : Server) : Server :=
  match heap (bulletHouse (gameData s)) !! bullet with
  | Some b =>
      let s1 :=
        match truthy (b_firerId b) with
        | Some firerId =>
            match ServerGameData_getPlayerWithId firerId (gameData s) with
            | Some firer =>
                let s' :=
                  runGameData
                    (ServerGameData_breakAsteroid asteroid (gameData s)) s in
                withGameData
                  (alterPlayer ServerPlayer_increaseAsteroidPoint (p_id firer)
                     (gameData s')) s'
            | None => s
            end
        | None => s
        end in
      withGameData
        (ServerGameData_recycleBulletById (b_id b) (gameData s1)) s1
  | None => s
  end.

Definition Server_bulletKilledPlayer (bullet : BulletRef)
    (player : ServerPlayer) (s : Server) : Server :=
  match heap (bulletHouse (gameData s)) !! bullet with
  | Some b =>
      let s1 :=
        match truthy (b_firerId b) with
        | Some firerId =>
            match ServerGameData_getPlayerWithId firerId (gameData s) with
            | Some firer =>
                let (killedPlayer, gd1) :=
                  ServerGameData_removePlayerById (p_id player) (gameData s) in
                match killedPlayer with
                | Some killedPlayer =>
                    let gd2 :=
                      ServerGameData_recycleBulletsByFirerId
                        (p_id killedPlayer) gd1 in
                    let s' :=
                      Server_notifyKilled (p_id killedPlayer)
                        (fun sock =>
                           KilledByPlayerEvent sock (p_id firer)
                             (p_id killedPlayer))
                        (withGameData gd2 s) in
                    withGameData
                      (alterPlayer ServerPlayer_increaseKillingPoint
                         (p_id firer) (gameData s')) s'
                | None => s
                end
            | None => s
            end
        | None => s
        end in
      withGameData
        (ServerGameData_recycleBulletById (b_id b) (gameData s1)) s1
  | None => s
  end.

(** ** Collision dispatch *)

Definition dataOf (s : Server) (o : CollidingObject) : option CollidingData :=
  match o with
  | OBullet r => ServerBullet_data <$> heap (bulletHouse (gameData s)) !! r
  | OAsteroid a => Some (ServerAsteroid_data a)
  | OPlayer p => Some (ServerPlayer_data p)
  end.

(** [obj.isCollisionTarget(other)] *)
Definition isCollisionTarget (s : Server) (obj other : CollidingObject)
    : bool :=
  let h := heap (bulletHouse (gameData s)) in
  match obj with
  | OBullet _ => ServerBullet_isCollisionTarget other
  | OAsteroid a => ServerAsteroid_isCollisionTarget h a other
  | OPlayer p => ServerPlayer_isCollisionTarget h p other
  end.

Definition ServerPlayer_processCollidedWith (p : ServerPlayer)
    (other : CollidingObject) (s : Server) : Server :=
  match other with
  | OBullet r => Server_bulletKilledPlayer r p s
  | OAsteroid a => Server_asteroidKilledPlayer a p s
  | OPlayer _ => s
  end.

Definition ServerAsteroid_processCollidedWith (a : ServerAsteroid)
    (other : CollidingObject) (s : Server) : Server :=
  match other with
  | OBullet r => Server_bulletKilledAsteroid r a s
  | _ => s
  end.

Definition ServerBullet_processCollidedWith (other : CollidingObject)
    (s : Server) : Server := s.

(** [obj.processCollidedWith(other)] *)
Definition processCollidedWith (obj other : CollidingObject) (s : Server)
    : Server :=
  match obj with
  | OBullet _ => ServerBullet_processCollidedWith other s
  | OAsteroid a => ServerAsteroid_processCollidedWith a other s
  | OPlayer p => ServerPlayer_processCollidedWith p other s
  end.

Definition collides (s : Server) (obj other : CollidingObject) : bool :=
  match dataOf s obj, dataOf s other with
  | Some d, Some d' => Utils_collided d d'
  | _, _ => false
  end.

(** Modelled from the spec: [Utils.checkCollidedWith(obj, othersArray)],
    of [shared/Utils], which is not among the sources.  Per section 4.3
    every candidate [other] is put to [obj.isCollisionTarget] and to the
    broad-phase distance test, and a confirmed hit is resolved by
    [obj.processCollidedWith(other)].  The distance test is the parameter
    [Utils_collided].  The candidates are those that the arrays held when
    the call was made, in order; their fields are read when their turn
    comes. *)
Definition Utils_checkCollidedWith (obj : CollidingObject)
    (othersArray : list (list CollidingObject)) (s : Server) : Server :=
  foldl
    (fun s other =>
       if isCollisionTarget s obj other && collides s obj other
       then processCollidedWith obj other s
       else s)
    s (concat othersArray).

Definition ServerPlayer_checkCollidedWith (p : ServerPlayer)
    (othersArray : list (list CollidingObject)) (s : Server) : Server :=
  if ServerPlayer_isInvincible p then s
  else Utils_checkCollidedWith (OPlayer p) othersArray s.

Definition ServerAsteroid_checkCollidedWith (a : ServerAsteroid)
    (othersArray : list (list CollidingObject)) (s : Server) : Server :=
  Utils_checkCollidedWith (OAsteroid a) othersArray s.

Definition ServerBullet_checkCollidedWith
    (othersArray : list (list CollidingObject)) (s : Server) : Server := s.

(** ** ServerGameData.update *)

Definition bulletObjects (s : Server) : list CollidingObject :=
  OBullet <$> bullets (bulletHouse (gameData s)).

Definition asteroidObjects (s : Server) : list CollidingObject :=
  OAsteroid <$> asteroids (gameData s).

(** [let i = asteroids.length; while (i--) asteroids[i].checkCollidedWith(bullets)],
    from index [i] downwards.  Reading past the end of the array gives
    [undefined], and the call on it throws: [None]. *)
Fixpoint ServerGameData_collideAsteroids_from (i : nat) (s : Server)
    : option Server :=
  match i with
  | O => Some s
  | S j =>
      match asteroids (gameData s) !! j with
      | Some a =>
          ServerGameData_collideAsteroids_from j
            (ServerAsteroid_checkCollidedWith a [bulletObjects s] s)
      | None => None
      end
  end.

(** [players.forEach(player => player.checkCollidedWith(asteroids, bullets))]:
    [Map.prototype.forEach] visits the entries in insertion order and
    skips one deleted before its turn. *)
Definition ServerGameData_collidePlayers (s : Server) : Server :=
  foldl
    (fun s id =>
       match Players_get id (players (gameData s)) with
       | Some player =>
           ServerPlayer_checkCollidedWith player
             [asteroidObjects s; bulletObjects s] s
       | None => s
       end)
    s (p_id <$> players (gameData s)).

(** [update] up to and including the two collision passes. *)
Definition ServerGameData_simulate (s : Server) : option Server :=
  let s1 := runGameData (ServerGameData_advance (gameData s)) s in
  match
    ServerGameData_collideAsteroids_from (length (asteroids (gameData s1))) s1
  with
  | Some s2 => Some (ServerGameData_collidePlayers s2)
  | None => None
  end.

Definition ServerGameData_update (s : Server) : option Server :=
  match ServerGameData_simulate s with
  | Some s3 => Some (runGameData (ServerGameData_topUp (gameData s3)) s3)
  | None => None
  end.

(** ** Server: sockets and the game loop *)

Definition new_Server : Server :=
  runGameData new_ServerGameData
    {| connectedSockets := [];
       gameData :=
         {| players := []; bulletHouse := new_BulletHouse; asteroids := [];
            curBigAsteroidsCount := 0 |};
       sent := []; calls := 0 |}.

Definition socketMe (id : string) (s : Server) : option string :=
  match list_find (fun sock => s_id sock = id) (connectedSockets s) with
  | Some (_, sock) => s_me sock
  | None => None
  end.

Definition Server_onConnectedEvent (socket : string) (s : Server) : Server :=
  {| connectedSockets :=
       connectedSockets s ++ [{| s_id := socket; s_me := None |}];
     gameData := gameData s; sent := sent s; calls := calls s |}.

Definition Server_onDisconnectedEvent (socket : string) (s : Server)
    : Server :=
  let me := socketMe socket s in
  let s1 :=
    match list_find (fun sock => s_id sock = socket) (connectedSockets s) with
    | Some (i, _) =>
        {| connectedSockets := Array_splice1 i (connectedSockets s);
           gameData := gameData s; sent := sent s; calls := calls s |}
    | None => s
    end in
  match me with
  | Some id =>
      let gd1 := snd (ServerGameData_removePlayerById id (gameData s1)) in
      let gd2 := ServerGameData_recycleBulletsByFirerId id gd1 in
      emit (PlayerLeftEvent socket id) (withGameData gd2 s1)
  | None => s1
  end.

Definition setMe (me : string) (sock : DomainSocket) : DomainSocket :=
  {| s_id := s_id sock; s_me := Some me |}.

Definition Server_onTryLoggingInEvent (socket name : string)
    (color : RGBColor) (s : Server) : Server :=
  match list_find (fun sock => s_id sock = socket) (connectedSockets s) with
  | Some (i, sock) =>
      match s_me sock with
      | Some _ => s
      | None =>
          let (res, n) :=
            ServerGameData_addPlayer (s_id sock) name color (gameData s)
              (calls s) in
          let (newPlayer, gd) := (res : ServerPlayer * ServerGameData) in
          emit (LoggedInEvent (s_id sock) (p_id newPlayer))
            {| connectedSockets :=
                 alter (setMe (p_id newPlayer)) i (connectedSockets s);
               gameData := gd; sent := sent s; calls := n |}
      end
  | None => s
  end.

Definition Server_onPlayerInputEvent (socket : string)
    (playerInput : PlayerInputDTO) (s : Server) : Server :=
  match socketMe socket s with
  | Some id =>
      withGameData
        (alterPlayer (ServerPlayer_applyInput playerInput) id (gameData s)) s
  | None => s
  end.

Definition Server_gameUpdateLoop (s : Server) : option Server :=
  match ServerGameData_update s with
  | Some s' =>
      Some
        {| connectedSockets := connectedSockets s';
           gameData := gameData s';
           sent :=
             sent s'
             ++ ((fun sock => GameDataEvent (s_id sock))
                   <$> connectedSockets s');
           calls := calls s' |}
  | None => None
  end.

End Model.

(** * The client models

    A shallow embedding of the classes [ClientGameData], [ClientPlayer],
    [ClientBullet] and [ClientAsteroid]: the mirror of the game data that
    the browser keeps, and the code that draws it.

    - The canvas, [P5Functions], is not part of the sources.  Every client
      object holds the same canvas; a drawing method is modelled by the
      sequence of calls it makes on it, in order ([P5Call]), and reads the
      size of the canvas from [p5_width] and [p5_height].
    - A drawing method that reads [vertices[i][j]] throws a [TypeError]
      when [vertices[i]] is missing, and passes [undefined] when only
      [vertices[i][j]] is: the first ends the drawing ([Draw_throw]), the
      second is the argument [None].
    - [Utils.updateArrayData] and [Constants.QUARTER_PI] are not part of
      the sources; they are the fields of [ClientExternals]. *)

(** ** The data sent by the server *)

Record PlayerDTO := mkPlayerDTO {
  dp_id : string;
  dp_name : string;
  dp_color : RGBColor;
  dp_x : Qc;
  dp_y : Qc;
  dp_size : Qc;
  dp_heading : Qc;
  dp_vertices : list (list Qc);
  dp_showTail : bool;
  dp_asteroidPoints : Z;
  dp_killingPoints : Z
}.

Record BulletDTO := mkBulletDTO {
  db_id : string;
  db_heading : Qc;
  db_x : Qc;
  db_y : Qc;
  db_vertices : list (list Qc);
  db_color : RGBColor
}.

Record AsteroidDTO := mkAsteroidDTO {
  da_id : string;
  da_vertices : list (list Qc);
  da_x : Qc;
  da_y : Qc;
  da_rotation : Qc
}.

Record GameDataDTO := mkGameDataDTO {
  d_width : Qc;
  d_height : Qc;
  d_players : list PlayerDTO;
  d_bullets : list BulletDTO;
  d_asteroids : list AsteroidDTO
}.

(** ** The canvas *)

(** A call on the canvas.  [fill] and [stroke] take one grey level or
    three channels; a coordinate read from a vertex may be [undefined]. *)
Inductive P5Call :=
  | P5_background (gray : Qc)
  | P5_save
  | P5_restore
  | P5_translate (x y : Qc)
  | P5_scale (s : Qc)
  | P5_rotate (angle : Qc)
  | P5_fill (channels : list Qc)
  | P5_noFill
  | P5_stroke (channels : list Qc)
  | P5_strokeWeight (weight : Qc)
  | P5_rect (x y w h : Qc)
  | P5_ellipse (x y w h : Qc)
  | P5_triangle (x1 y1 x2 y2 x3 y3 : option Qc)
  | P5_line (x1 y1 x2 y2 : Qc)
  | P5_text (str : string) (x y size : Qc)
  | P5_beginShape
  | P5_endShape
  | P5_vertex (x y : option Qc).

Record P5Functions := mkP5 { p5_width : Qc; p5_height : Qc }.

(** A drawing computation: given the number of calls made to the impure
    externals so far, it returns its result, or [None] when it threw, the
    calls it made on the canvas until then, and the new number. *)
Definition Draw (A : Type) : Type := nat -> option A * list P5Call * nat.

Definition Draw_ret {A} (a : A) : Draw A := fun n => (Some a, [], n).

Definition Draw_bind {A B} (m : Draw A) (k : A -> Draw B) : Draw B :=
  fun n =>
    match m n with
    | (Some a, calls, n') =>
        match k a n' with
        | (r, calls', n'') => (r, calls ++ calls', n'')
        end
    | (None, calls, n') => (None, calls, n')
    end.

Definition Draw_throw {A} : Draw A := fun n => (None, [], n).

Definition Draw_call (c : P5Call) : Draw unit := fun n => (Some tt, [c], n).

Definition Draw_ext {A} (m : Ext A) : Draw A :=
  fun n => match m n with (a, n') => (Some a, [], n') end.

Notation "m ;; k" := (Draw_bind m (fun _ => k))
  (at level 100, k at level 200, right associativity).

(** [for (let x of l) f(x)] *)
Fixpoint Draw_forOf {A} (f : A -> Draw unit) (l : list A) : Draw unit :=
  match l with
  | [] => Draw_ret tt
  | x :: l' => f x;; Draw_forOf f l'
  end.

Definition Math_min (a b : Qc) : Qc := if ltb b a then b else a.
Definition Math_max (a b : Qc) : Qc := if gtb b a then b else a.

(** [Array.prototype.sort] with a comparator: the sort is stable
    (ECMAScript 2019), so an element moves in front of the ones behind it
    only when the comparator puts it strictly after them. *)
Fixpoint Array_sort_insert {A} (cmp : A -> A -> Z) (x : A) (l : list A)
    : list A :=
  match l with
  | [] => [x]
  | y :: l' =>
      if bool_decide (cmp x y <= 0)%Z then x :: y :: l'
      else y :: Array_sort_insert cmp x l'
  end.

Fixpoint Array_sort {A} (cmp : A -> A -> Z) (l : list A) : list A :=
  match l with
  | [] => []
  | x :: l' => Array_sort_insert cmp x (Array_sort cmp l')
  end.

(** ** What the sources do not contain *)

Class ClientExternals := {
  (* shared/Constants *)
  QUARTER_PI : Qc;
  (* shared/Utils: existing array, new data, matcher, updater, creator *)
  Utils_updateArrayData :
    forall A B : Type,
      list A -> list B -> (A -> B -> bool) -> (A -> B -> A) -> (B -> A)
      -> list A
}.

(** ** ClientPlayer *)

Record ClientPlayer := mkClientPlayer {
  cp_id : string;
  cp_name : string;
  cp_size : Qc;
  cp_vertices : list (list Qc);
  cp_nameOffset : Qc;
  cp_tailSize : Qc;
  cp_color : RGBColor;
  cp_x : Qc;
  cp_y : Qc;
  cp_heading : Qc;
  cp_showTail : bool;
  cp_asteroidPoints : Z;
  cp_killingPoints : Z
}.

Record ClientBullet := mkClientBullet {
  cb_id : string;
  cb_vertices : list (list Qc);
  cb_x : Qc;
  cb_y : Qc;
  cb_heading : Qc;
  cb_color : RGBColor
}.

Record ClientAsteroid := mkClientAsteroid {
  ca_id : string;
  ca_vertices : list (list Qc);
  ca_x : Qc;
  ca_y : Qc;
  ca_rotation : Qc
}.

Record ClientGameData := mkClientGameData {
  cg_players : list ClientPlayer;
  cg_bullets : list ClientBullet;
  cg_asteroids : list ClientAsteroid;
  cg_playerViewMinX : Qc;
  cg_playerViewMaxX : Qc;
  cg_playerViewMinY : Qc;
  cg_playerViewMaxY : Qc;
  cg_width : Qc;
  cg_height : Qc
}.

Section ClientModel.
Context {E : Externals} {C : ClientExternals}.

Definition ClientPlayer_tailMinRotation : Qc := QUARTER_PI.
Definition ClientPlayer_tailMaxRotation : Qc := num 3 * QUARTER_PI.

Definition new_ClientPlayer (dto : PlayerDTO) : ClientPlayer :=
  {| cp_id := dp_id dto;
     cp_name := dp_name dto;
     cp_size := dp_size dto;
     cp_vertices := dp_vertices dto;
     cp_nameOffset := - dp_size dto * num 2;
     cp_tailSize := dp_size dto * frac 13 10;
     cp_color := dp_color dto;
     cp_x := dp_x dto;
     cp_y := dp_y dto;
     cp_heading := dp_heading dto;
     cp_showTail := dp_showTail dto;
     cp_asteroidPoints := dp_asteroidPoints dto;
     cp_killingPoints := dp_killingPoints dto |}.

Definition ClientPlayer_update (newData : PlayerDTO) (p : ClientPlayer)
    : ClientPlayer :=
  {| cp_id := cp_id p;
     cp_name := cp_name p;
     cp_size := cp_size p;
     cp_vertices := cp_vertices p;
     cp_nameOffset := cp_nameOffset p;
     cp_tailSize := cp_tailSize p;
     cp_color := dp_color newData;
     cp_x := dp_x newData;
     cp_y := dp_y newData;
     cp_heading := dp_heading newData;
     cp_showTail := dp_showTail newData;
     cp_asteroidPoints := dp_asteroidPoints newData;
     cp_killingPoints := dp_killingPoints newData |}.

Definition rgb (color : RGBColor) : list Qc :=
  [rgb_r color; rgb_g color; rgb_b color].

Definition ClientPlayer_draw (p : ClientPlayer) : Draw unit :=
  Draw_call P5_save;;
  Draw_call (P5_translate (cp_x p) (cp_y p));;
  (* write name above *)
  Draw_call P5_save;;
  Draw_call (P5_translate 0 (cp_nameOffset p));;
  Draw_call (P5_fill [num 255]);;
  Draw_call (P5_text (cp_name p) 0 0 (num 24));;
  Draw_call P5_restore;;
  Draw_call (P5_fill (rgb (cp_color p)));;
  Draw_call (P5_stroke (rgb (cp_color p)));;
  Draw_call (P5_rotate (cp_heading p - HALF_PI));;
  match cp_vertices p !! 0%nat, cp_vertices p !! 1%nat,
        cp_vertices p !! 2%nat with
  | Some v0, Some v1, Some v2 =>
      Draw_call
        (P5_triangle (v0 !! 0%nat) (v0 !! 1%nat) (v1 !! 0%nat) (v1 !! 1%nat)
           (v2 !! 0%nat) (v2 !! 1%nat))
  | _, _, _ => Draw_throw
  end;;
  (if cp_showTail p then
     Draw_call P5_save;;
     Draw_call (P5_stroke (rgb (cp_color p)));;
     Draw_call (P5_strokeWeight (num 3));;
     Draw_call (P5_translate 0 (cp_size p));;
     Draw_bind (Draw_ext (call Math_random)) (fun r =>
     Draw_call
       (P5_rotate
          (Utils_map r 0 1 ClientPlayer_tailMinRotation
             ClientPlayer_tailMaxRotation));;
     Draw_call (P5_line 0 0 (cp_tailSize p) 0);;
     Draw_call P5_restore)
   else Draw_ret tt);;
  Draw_call P5_restore.

Definition ClientPlayer_drawMinimapVersion (scaleFactor : Qc) (isMe : bool)
    (p : ClientPlayer) : Draw unit :=
  Draw_call P5_save;;
  Draw_call (P5_translate (cp_x p * scaleFactor) (cp_y p * scaleFactor));;
  let size := cp_size p * scaleFactor * num 12 in
  Draw_call (P5_fill (rgb (cp_color p)));;
  Draw_call (P5_stroke (rgb (cp_color p)));;
  Draw_call (P5_ellipse 0 0 size size);;
  (if isMe then
     Draw_call (P5_fill [num 255; 0; 0]);;
     Draw_call (P5_text "🌟" 0 0 (num 80))
   else Draw_ret tt);;
  Draw_call P5_restore.

(** ** ClientBullet *)

Definition new_ClientBullet (data : BulletDTO) : ClientBullet :=
  {| cb_id := db_id data;
     cb_vertices := db_vertices data;
     cb_x := db_x data;
     cb_y := db_y data;
     cb_heading := db_heading data;
     cb_color := db_color data |}.

Definition ClientBullet_update (data : BulletDTO) (b : ClientBullet)
    : ClientBullet :=
  {| cb_id := cb_id b;
     cb_vertices := cb_vertices b;
     cb_x := db_x data;
     cb_y := db_y data;
     cb_heading := db_heading data;
     cb_color := db_color data |}.

Definition ClientBullet_draw (b : ClientBullet) : Draw unit :=
  Draw_call P5_save;;
  Draw_call (P5_translate (cb_x b) (cb_y b));;
  Draw_call (P5_rotate (cb_heading b - HALF_PI));;
  Draw_call P5_noFill;;
  Draw_call (P5_stroke (rgb (cb_color b)));;
  Draw_call (P5_strokeWeight (num 5));;
  Draw_call P5_beginShape;;
  match cb_vertices b !! 0%nat with
  | Some v0 => Draw_call (P5_vertex (v0 !! 0%nat) (v0 !! 1%nat))
  | None => Draw_throw
  end;;
  match cb_vertices b !! 1%nat with
  | Some v1 => Draw_call (P5_vertex (v1 !! 0%nat) (v1 !! 1%nat))
  | None => Draw_throw
  end;;
  Draw_call P5_endShape;;
  Draw_call P5_restore.

(** ** ClientAsteroid *)

Definition new_ClientAsteroid (dto : AsteroidDTO) : ClientAsteroid :=
  {| ca_id := da_id dto;
     ca_vertices := da_vertices dto;
     ca_x := da_x dto;
     ca_y := da_y dto;
     ca_rotation := da_rotation dto |}.

Definition ClientAsteroid_update (newData : AsteroidDTO) (a : ClientAsteroid)
    : ClientAsteroid :=
  {| ca_id := ca_id a;
     ca_vertices := ca_vertices a;
     ca_x := da_x newData;
     ca_y := da_y newData;
     ca_rotation := da_rotation newData |}.

Definition ClientAsteroid_draw (a : ClientAsteroid) : Draw unit :=
  Draw_call P5_save;;
  Draw_call (P5_translate (ca_x a) (ca_y a));;
  Draw_call (P5_rotate (ca_rotation a));;
  Draw_call (P5_fill [num 255]);;
  Draw_call (P5_stroke [num 255]);;
  Draw_call P5_beginShape;;
  Draw_forOf
    (fun vertex => Draw_call (P5_vertex (vertex !! 0%nat) (vertex !! 1%nat)))
    (ca_vertices a);;
  Draw_call P5_endShape;;
  Draw_call P5_restore.

(** ** ClientGameData *)

Definition ClientGameData_playerViewScaleRatio : Qc := frac 36 10.
Definition ClientGameData_minimapScaleFactor : Qc := frac 2 10.
Definition ClientGameData_pointsVerticalSpacing : Qc := num 200.
Definition ClientGameData_pointsHorizontalSpacing1 : Qc := num 600.
Definition ClientGameData_pointsHorizontalSpacing2 : Qc := num 400.
Definition ClientGameData_pointsTextSize : Qc := num 100.
Definition ClientGameData_labelNickname : string := "Name".
Definition ClientGameData_labelAsteroidPoint : string := "Asteroid".
Definition ClientGameData_labelKillingPoint : string := "PK".

Definition new_ClientGameData : ClientGameData :=
  {| cg_players := []; cg_bullets := []; cg_asteroids := [];
     cg_playerViewMinX := 0; cg_playerViewMaxX := 0;
     cg_playerViewMinY := 0; cg_playerViewMaxY := 0;
     cg_width := 0; cg_height := 0 |}.

(** update client data with new server data *)
Definition ClientGameData_update (newData : GameDataDTO) (g : ClientGameData)
    : ClientGameData :=
  let players :=
    Utils_updateArrayData _ _ (cg_players g) (d_players newData)
      (fun e n => bool_decide (cp_id e = dp_id n))
      (fun e n => ClientPlayer_update n e) new_ClientPlayer in
  let bullets :=
    Utils_updateArrayData _ _ (cg_bullets g) (d_bullets newData)
      (fun e n => bool_decide (cb_id e = db_id n))
      (fun e n => ClientBullet_update n e) new_ClientBullet in
  let asteroids :=
    Utils_updateArrayData _ _ (cg_asteroids g) (d_asteroids newData)
      (fun e n => bool_decide (ca_id e = da_id n))
      (fun e n => ClientAsteroid_update n e) new_ClientAsteroid in
  if bool_decide (cg_width g <> d_width newData)
     || bool_decide (cg_height g <> d_height newData)
  then
    let playerViewMinX :=
      d_width newData / num 2 / ClientGameData_playerViewScaleRatio in
    let playerViewMinY :=
      d_height newData / num 2 / ClientGameData_playerViewScaleRatio in
    {| cg_players := players; cg_bullets := bullets;
       cg_asteroids := asteroids;
       cg_playerViewMinX := playerViewMinX;
       cg_playerViewMaxX := d_width newData - playerViewMinX;
       cg_playerViewMinY := playerViewMinY;
       cg_playerViewMaxY := d_height newData - playerViewMinY;
       cg_width := d_width newData;
       cg_height := d_height newData |}
  else
    {| cg_players := players; cg_bullets := bullets;
       cg_asteroids := asteroids;
       cg_playerViewMinX := cg_playerViewMinX g;
       cg_playerViewMaxX := cg_playerViewMaxX g;
       cg_playerViewMinY := cg_playerViewMinY g;
       cg_playerViewMaxY := cg_playerViewMaxY g;
       cg_width := cg_width g;
       cg_height := cg_height g |}.

Definition ClientPlayer_score (p : ClientPlayer) : Z :=
  (cp_asteroidPoints p + cp_killingPoints p * 2)%Z.

(** The rows of the points table: [for (let i = 0; i < count; i++)], with
    [k] turns of the loop left. *)
Fixpoint ClientGameData_drawRows (players : list ClientPlayer) (i k : nat)
    : Draw unit :=
  match k with
  | O => Draw_ret tt
  | S k' =>
      match players !! i with
      | Some player =>
          Draw_call P5_save;;
          Draw_call
            (P5_translate 0
               (ClientGameData_pointsVerticalSpacing
                * (num (Z.of_nat i) + num 1)));;
          (if bool_decide (i = 0%nat)
           then Draw_call (P5_fill [num 255; 0; 0])
           else Draw_call (P5_fill [num 255]));;
          Draw_call
            (P5_text (cp_name player) 0 0 ClientGameData_pointsTextSize);;
          Draw_call
            (P5_translate ClientGameData_pointsHorizontalSpacing1 0);;
          Draw_call
            (P5_text (pretty (cp_asteroidPoints player)) 0 0
               ClientGameData_pointsTextSize);;
          Draw_call
            (P5_translate ClientGameData_pointsHorizontalSpacing2 0);;
          Draw_call
            (P5_text (pretty (cp_killingPoints player)) 0 0
               ClientGameData_pointsTextSize);;
          Draw_call P5_restore;;
          ClientGameData_drawRows players (S i) k'
      | None => Draw_throw
      end
  end.

Definition withPlayers (players : list ClientPlayer) (g : ClientGameData)
    : ClientGameData :=
  {| cg_players := players; cg_bullets := cg_bullets g;
     cg_asteroids := cg_asteroids g;
     cg_playerViewMinX := cg_playerViewMinX g;
     cg_playerViewMaxX := cg_playerViewMaxX g;
     cg_playerViewMinY := cg_playerViewMinY g;
     cg_playerViewMaxY := cg_playerViewMaxY g;
     cg_width := cg_width g;
     cg_height := cg_height g |}.

(** [draw] returns nothing; it sorts [this.players] in place, so the
    model returns the game data it leaves. *)
Definition ClientGameData_draw (p5 : P5Functions) (myId : option string)
    (g : ClientGameData) : Draw ClientGameData :=
  Draw_call (P5_background 0);;
  Draw_call P5_save;;
  (* if 'I' am playing, keep me in the center of the canvas
     else, show the whole canvas *)
  let me :=
    List.find (fun player => bool_decide (myId = Some (cp_id player)))
      (cg_players g) in
  match me with
  | Some me =>
      Draw_call (P5_translate (p5_width p5 / num 2) (p5_height p5 / num 2));;
      Draw_call (P5_scale ClientGameData_playerViewScaleRatio);;
      let x :=
        Math_min (Math_max (cp_x me) (cg_playerViewMinX g))
          (cg_playerViewMaxX g) in
      let y :=
        Math_min (Math_max (cp_y me) (cg_playerViewMinY g))
          (cg_playerViewMaxY g) in
      Draw_call (P5_translate (- x) (- y))
  | None => Draw_ret tt
  end;;
  Draw_forOf ClientPlayer_draw (cg_players g);;
  Draw_forOf ClientBullet_draw (cg_bullets g);;
  Draw_forOf ClientAsteroid_draw (cg_asteroids g);;
  Draw_call P5_restore;;
  (* draw minimap at bottom-right corner of the canvas *)
  Draw_call P5_save;;
  Draw_call (P5_translate (p5_width p5) (p5_height p5));;
  let minimapWidth := p5_width p5 * ClientGameData_minimapScaleFactor in
  let minimapHeight := p5_height p5 * ClientGameData_minimapScaleFactor in
  Draw_call (P5_translate (- minimapWidth) (- minimapHeight));;
  Draw_call (P5_fill [0]);;
  Draw_call (P5_stroke [num 255]);;
  Draw_call (P5_strokeWeight (num 8));;
  Draw_call (P5_rect 0 0 minimapWidth minimapHeight);;
  Draw_forOf
    (fun player =>
       ClientPlayer_drawMinimapVersion ClientGameData_minimapScaleFactor
         (match me with
          | Some me => bool_decide (cp_id player = cp_id me)
          | None => false
          end)
         player)
    (cg_players g);;
  Draw_call P5_restore;;
  (* draw player points at top-left corner of the canvas *)
  let players :=
    Array_sort
      (fun a b => (ClientPlayer_score b - ClientPlayer_score a)%Z)
      (cg_players g) in
  Draw_call P5_save;;
  Draw_call (P5_translate (num 400) (num 200));;
  let count := Nat.min (length players) 7 in
  (if bool_decide (0 < count)%nat then
     (* draw header *)
     Draw_call P5_save;;
     Draw_call (P5_fill [num 255]);;
     Draw_call
       (P5_text ClientGameData_labelNickname 0 0
          ClientGameData_pointsTextSize);;
     Draw_call (P5_translate ClientGameData_pointsHorizontalSpacing1 0);;
     Draw_call
       (P5_text ClientGameData_labelAsteroidPoint 0 0
          ClientGameData_pointsTextSize);;
     Draw_call (P5_translate ClientGameData_pointsHorizontalSpacing2 0);;
     Draw_call
       (P5_text ClientGameData_labelKillingPoint 0 0
          ClientGameData_pointsTextSize);;
     Draw_call P5_restore
   else Draw_ret tt);;
  ClientGameData_drawRows players 0 count;;
  Draw_call P5_restore;;
  Draw_ret (withPlayers players g).

End ClientModel.

(** ** A sample of the externals

    Rational stand-ins, to run the code on concrete inputs: a fixed
    sequence for [Math.random], linear interpolation for [Utils.map],
    circle overlap for the distance test, truncated series for the
    trigonometric functions and the 1-norm for the length of a vector. *)

Definition sample_random (n : nat) : Qc :=
  frac (Z.of_nat ((n * 7 + 3) mod 10)) 10.

Definition sample_map (v a b c d : Qc) : Qc :=
  c + (d - c) * ((v - a) / (b - a)).

Definition sample_randInt (lo hi : Qc) (n : nat) : Qc :=
  num (Qfloor (sample_random n * (hi - lo + 1))) + lo.

Definition sample_pickRandom (l : list ServerPlayer) (n : nat)
    : option ServerPlayer :=
  l !! Z.to_nat (Qfloor (sample_random n * num (Z.of_nat (length l)))).

Definition sample_collided (d d' : CollidingData) : bool :=
  let dx := c_x d - c_x d' in
  let dy := c_y d - c_y d' in
  let r := c_maxCollidingDistance d + c_maxCollidingDistance d' in
  ltb (dx * dx + dy * dy) (r * r).

Definition sample_cos (x : Qc) : Qc := 1 - x * x / num 2.
Definition sample_sin (x : Qc) : Qc := x - x * x * x / num 6.
Definition sample_abs (x : Qc) : Qc := if ltb x 0 then - x else x.
Definition sample_magnitude (v : Victor) : Qc :=
  sample_abs (vx v) + sample_abs (vy v).
Definition sample_norm (v : Victor) : Victor :=
  let m := sample_magnitude v in
  if bool_decide (m = 0) then mkVictor 1 0
  else mkVictor (vx v / m) (vy v / m).
Definition sample_rotateBy (angle : Qc) (v : Victor) : Victor :=
  mkVictor (vx v * sample_cos angle - vy v * sample_sin angle)
           (vx v * sample_sin angle + vy v * sample_cos angle).

Definition sampleExternals : Externals :=
  {| Math_random := sample_random;
     Math_cos := sample_cos;
     Math_sin := sample_sin;
     Date_now := fun n => num (1000 * Z.of_nat n);
     uuid := fun n => pretty n;
     HALF_PI := frac 157 100;
     TWO_PI := frac 628 100;
     Utils_map := sample_map;
     Utils_randInt := sample_randInt;
     Utils_pickRandom := sample_pickRandom;
     Utils_collided := sample_collided;
     Victor_rotateBy := sample_rotateBy;
     Victor_norm := sample_norm;
     Victor_normalize := sample_norm;
     Victor_magnitude := sample_magnitude |}.

(** Stand-ins on which the laws of the trigonometric functions and of
    [victor] hold exactly: angles are counted in quarter turns, so that
    [HALF_PI] is 1, and a direction is one of the four of the compass. *)
Definition compass_quadrant (x : Qc) : Z := (Qfloor x mod 4)%Z.

Definition compass_cos (x : Qc) : Qc :=
  match compass_quadrant x with
  | 0%Z => 1
  | 2%Z => - 1
  | _ => 0
  end.

Definition compass_sin (x : Qc) : Qc :=
  match compass_quadrant x with
  | 1%Z => 1
  | 3%Z => - 1
  | _ => 0
  end.

Definition compass_sign (x : Qc) : Qc :=
  if ltb 0 x then 1 else if ltb x 0 then - 1 else 0.

Definition compass_norm (v : Victor) : Victor :=
  mkVictor (compass_sign (vx v)) (compass_sign (vy v)).

(** Right for a vector on the diagonal, which is all that the code turns. *)
Definition compass_rotateBy (angle : Qc) (v : Victor) : Victor :=
  mkVictor (vx v * compass_cos (angle + 1)) (vx v * compass_sin (angle + 1)).

Definition compassExternals : Externals :=
  {| Math_random := sample_random;
     Math_cos := compass_cos;
     Math_sin := compass_sin;
     Date_now := fun n => num (1000 * Z.of_nat n);
     uuid := fun n => pretty n;
     HALF_PI := 1;
     TWO_PI := num 4;
     Utils_map := sample_map;
     Utils_randInt := sample_randInt;
     Utils_pickRandom := sample_pickRandom;
     Utils_collided := sample_collided;
     Victor_rotateBy := compass_rotateBy;
     Victor_norm := compass_norm;
     Victor_normalize := compass_norm;
     Victor_magnitude := sample_magnitude |}.

Local Close Scope Qc_scope.

(** ** Specification vocabulary *)

(** *** The projectile pool *)

(** The state [prepareRecycle] leaves a projectile in. *)
Definition isReset (b : ServerBullet) : Prop :=
  b_firerId b = None
  /\ b_x b = (- num 1000)%Qc /\ b_y b = (- num 1000)%Qc
  /\ b_velocity b = mkVictor 0%Qc 0%Qc
  /\ b_needsToBeRecycled b = false.

(** The instance [r] exists and does not carry the recycle flag. *)
Definition unflagged (h : list ServerBullet) (r : nat) : Prop :=
  exists b, h !! r = Some b /\ b_needsToBeRecycled b = false.

Record pool_inv (bh : BulletHouse) : Prop := {
  (* no instance is held twice, in one array or across the two *)
  pool_nodup : NoDup (bullets bh ++ recycledBullets bh);
  (* the instances allocated so far are those the two arrays hold *)
  pool_all :
    forall r, r < length (heap bh) <-> r ∈ bullets bh ++ recycledBullets bh;
  (* a recycled instance is in the reset state *)
  pool_reset :
    forall r, r ∈ recycledBullets bh ->
      exists b, heap bh !! r = Some b /\ isReset b;
  (* between two operations no active instance carries the recycle flag *)
  pool_active : forall r, r ∈ bullets bh -> unflagged (heap bh) r
}.

(** The states of the pool: what its four operations make of the empty
    pool. *)
Inductive pool_reachable {E : Externals} : BulletHouse -> Prop :=
  | pool_new : pool_reachable new_BulletHouse
  | pool_fireBullet bh firerId x y heading color n :
      pool_reachable bh ->
      pool_reachable (BulletHouse_fireBullet firerId x y heading color bh n).1
  | pool_update bh width height :
      pool_reachable bh ->
      pool_reachable (BulletHouse_update width height bh)
  | pool_recycleBulletById bh id :
      pool_reachable bh ->
      pool_reachable (BulletHouse_recycleBulletById id bh)
  | pool_recycleBulletsByFirerId bh firerId :
      pool_reachable bh ->
      pool_reachable (BulletHouse_recycleBulletsByFirerId firerId bh).

(** What [BulletHouse.update] makes of one active projectile. *)
Definition ServerBullet_afterPoolUpdate {E : Externals} (width height : Qc)
    (b : ServerBullet) : ServerBullet :=
  let b' := ServerBullet_update width height b in
  if b_needsToBeRecycled b' then ServerBullet_prepareRecycle b' else b'.

(** *** Big asteroids *)

Definition bigAsteroids (l : list ServerAsteroid) : list ServerAsteroid :=
  filter (fun a => a_isBig a = true) l.

Definition bigAsteroidCount (l : list ServerAsteroid) : Z :=
  Z.of_nat (length (bigAsteroids l)).

Definition counter_ok (gd : ServerGameData) : Prop :=
  curBigAsteroidsCount gd = bigAsteroidCount (asteroids gd).

(** What the code relies on in [Math] and in the [victor] package when it
    turns a heading into a vector.  [Math.cos] and [Math.sin] of an angle
    are the coordinates of a unit vector, and adding a half turn, twice
    [HALF_PI], reverses it.  [rotateBy(a)] of [victor] turns a vector by
    its own angle plus [a]; the diagonal (1, 1) has the angle of half of
    [HALF_PI], so it ends, as long as before, at the angle [a + HALF_PI].
    [norm] and [normalize] are one function, which keeps the direction of
    a vector and makes its length 1. *)
Definition victor_laws {E : Externals} : Prop :=
  (forall x,
     (Math_cos x * Math_cos x + Math_sin x * Math_sin x = 1)%Qc)
  /\ (forall x, Math_cos (x + HALF_PI + HALF_PI)%Qc = (- Math_cos x)%Qc)
  /\ (forall x, Math_sin (x + HALF_PI + HALF_PI)%Qc = (- Math_sin x)%Qc)
  /\ (forall a,
        exists k,
          (0 < k)%Qc
          /\ Victor_rotateBy a (mkVictor 1%Qc 1%Qc)
             = mkVictor (k * Math_cos (a + HALF_PI))%Qc
                 (k * Math_sin (a + HALF_PI))%Qc)
  /\ (forall k x,
        (0 < k)%Qc ->
        Victor_norm (mkVictor (k * Math_cos x)%Qc (k * Math_sin x)%Qc)
        = mkVictor (Math_cos x) (Math_sin x))
  /\ (forall v, Victor_normalize v = Victor_norm v).

(** A piece that [createPieceOf] makes of [big]: small, and displaced
    from it by two values of [Utils.map(Math.random(), 0, 1, -20, 20)]. *)
Definition pieceOf {E : Externals} (big piece : ServerAsteroid) : Prop :=
  a_isBig piece = false
  /\ exists k k' : nat,
       a_x piece
       = (a_x big + Utils_map (Math_random k) 0 1 (- num 20) (num 20))%Qc
       /\ a_y piece
          = (a_y big + Utils_map (Math_random k') 0 1 (- num 20) (num 20))%Qc.

(** [piece] lies within 20 of [big] along each axis. *)
Definition nearTo (big piece : ServerAsteroid) : Prop :=
  (a_x big - num 20 <= a_x piece)%Qc /\ (a_x piece <= a_x big + num 20)%Qc
  /\ (a_y big - num 20 <= a_y piece)%Qc
  /\ (a_y piece <= a_y big + num 20)%Qc.

(** *** The states of the server

    What the socket events, the game loop, the three methods of
    [GameEventsHandler] and the public methods of [ServerGameData], called
    with any arguments, make of a new server. *)
Inductive reachable {E : Externals} : Server -> Prop :=
  | reach_new : reachable new_Server
  | reach_onConnectedEvent socket s :
      reachable s -> reachable (Server_onConnectedEvent socket s)
  | reach_onDisconnectedEvent socket s :
      reachable s -> reachable (Server_onDisconnectedEvent socket s)
  | reach_onTryLoggingInEvent socket name color s :
      reachable s -> reachable (Server_onTryLoggingInEvent socket name color s)
  | reach_onPlayerInputEvent socket input s :
      reachable s -> reachable (Server_onPlayerInputEvent socket input s)
  | reach_gameUpdateLoop s s' :
      reachable s -> Server_gameUpdateLoop s = Some s' -> reachable s'
  | reach_asteroidKilledPlayer a p s :
      reachable s -> reachable (Server_asteroidKilledPlayer a p s)
  | reach_bulletKilledAsteroid r a s :
      reachable s -> reachable (Server_bulletKilledAsteroid r a s)
  | reach_bulletKilledPlayer r p s :
      reachable s -> reachable (Server_bulletKilledPlayer r p s)
  | reach_addPlayer id name color s :
      reachable s ->
      reachable
        (runGameData
           (fun n =>
              let (res, n') :=
                ServerGameData_addPlayer id name color (gameData s) n in
              (res.2, n')) s)
  | reach_removePlayerById id s :
      reachable s ->
      reachable
        (withGameData (ServerGameData_removePlayerById id (gameData s)).2 s)
  | reach_breakAsteroid a s :
      reachable s ->
      reachable (runGameData (ServerGameData_breakAsteroid a (gameData s)) s)
  | reach_recycleBulletById id s :
      reachable s ->
      reachable
        (withGameData (ServerGameData_recycleBulletById id (gameData s)) s)
  | reach_recycleBulletsByFirerId id s :
      reachable s ->
      reachable
        (withGameData
           (ServerGameData_recycleBulletsByFirerId id (gameData s)) s).

Definition server_counter_ok (s : Server) : Prop := counter_ok (gameData s).

(** *** Asteroid ids *)

(** The ids are pairwise distinct and each was returned by one of the
    first [n] calls to the externals. *)
Definition ids_issued {E : Externals} (n : nat) (ids : list string) : Prop :=
  NoDup ids /\ forall id, id ∈ ids -> exists k, k < n /\ id = uuid k.

Definition fresh_ok {E : Externals} (s : Server) : Prop :=
  ids_issued (calls s) (a_id <$> asteroids (gameData s)).

(** *** The pool of the server *)

Definition server_pool_ok (s : Server) : Prop :=
  pool_inv (bulletHouse (gameData s)).

(** *** Invincible ships *)

(** The ship stored under [id] is invincible, with countdown [c]. *)
Definition shielded (id : string) (c : Z) (s : Server) : Prop :=
  exists p, Players_get id (players (gameData s)) = Some p
    /\ p_invincibleCountdown p = c /\ (0 < c)%Z.

(** *** Properties of the game data

    A property of the game data and of the number of external calls made
    so far, as a property of the server. *)
Definition onServer (J : ServerGameData -> nat -> Prop) (s : Server) : Prop :=
  J (gameData s) (calls s).

(** *** Ships and projectiles in the world *)

(** The ship is within its own size of the world. *)
Definition shipInWorld (p : ServerPlayer) : Prop :=
  (- ServerPlayer_size <= p_x p <= ServerGameData_width + ServerPlayer_size
   /\ - ServerPlayer_size <= p_y p
      <= ServerGameData_height + ServerPlayer_size)%Qc.

Definition bulletInWorld (b : ServerBullet) : Prop :=
  (0 <= b_x b <= ServerGameData_width /\ 0 <= b_y b <= ServerGameData_height)%Qc.

Definition activeInWorld (bh : BulletHouse) : Prop :=
  forall r, r ∈ bullets bh -> exists b, heap bh !! r = Some b /\ bulletInWorld b.

Definition pool_in_world (gd : ServerGameData) : Prop :=
  pool_inv (bulletHouse gd) /\ activeInWorld (bulletHouse gd).

(** The ids of the projectile instances, in the order of the store. *)
Definition bullet_ids (bh : BulletHouse) : list string := b_id <$> heap bh.

(** *** The states of a running server

    What [Server.start] sets going: the socket events and the game loop,
    and nothing else; a socket that connects has a non-empty id that no
    connected socket has. *)
Inductive running {E : Externals} : Server -> Prop :=
  | run_new : running new_Server
  | run_onConnectedEvent socket s :
      running s ->
      socket <> EmptyString ->
      socket ∉ s_id <$> connectedSockets s ->
      running (Server_onConnectedEvent socket s)
  | run_onDisconnectedEvent socket s :
      running s -> running (Server_onDisconnectedEvent socket s)
  | run_onTryLoggingInEvent socket name color s :
      running s -> running (Server_onTryLoggingInEvent socket name color s)
  | run_onPlayerInputEvent socket input s :
      running s -> running (Server_onPlayerInputEvent socket input s)
  | run_gameUpdateLoop s s' :
      running s -> Server_gameUpdateLoop s = Some s' -> running s'.

(** The states in which a handler of the game events can be called: in a
    turn of the loop of a running server, the state after the movement
    step, and the states that calls of the handlers lead to from there. *)
Inductive in_play {E : Externals} : Server -> Prop :=
  | play_running s : running s -> in_play s
  | play_advance s :
      in_play s ->
      in_play (runGameData (ServerGameData_advance (gameData s)) s)
  | play_asteroidKilledPlayer a p s :
      in_play s -> in_play (Server_asteroidKilledPlayer a p s)
  | play_bulletKilledAsteroid r a s :
      in_play s -> in_play (Server_bulletKilledAsteroid r a s)
  | play_bulletKilledPlayer r p s :
      in_play s -> in_play (Server_bulletKilledPlayer r p s).

(** Every active projectile has a firer id, and that id is the key of a
    player. *)
Definition firers_live (gd : ServerGameData) : Prop :=
  forall r, r ∈ bullets (bulletHouse gd) ->
    exists b fid,
      heap (bulletHouse gd) !! r = Some b
      /\ b_firerId b = Some fid
      /\ fid ∈ p_id <$> players gd.

(** What [gameUpdateLoop] sends after the update. *)
Definition broadcast (s : Server) : Server :=
  {| connectedSockets := connectedSockets s;
     gameData := gameData s;
     sent :=
       sent s ++ ((fun sock => GameDataEvent (s_id sock)) <$> connectedSockets s);
     calls := calls s |}.

(** The firers of the active instances are among [ids]. *)
Definition firers_among (ids : list string) (bh : BulletHouse) : Prop :=
  forall r, r ∈ bullets bh ->
    exists b fid,
      heap bh !! r = Some b /\ b_firerId b = Some fid /\ fid ∈ ids.

Definition pool_firers (s : Server) : Prop :=
  pool_inv (bulletHouse (gameData s)) /\ firers_live (gameData s).

(** *** Sockets and players *)

(** The player that the first socket of id [id] plays. *)
Definition meOf (id : string) (cs : list DomainSocket) : option string :=
  match list_find (fun sock => s_id sock = id) cs with
  | Some (_, sock) => s_me sock
  | None => None
  end.

(** The sockets have ids of their own, none empty, and a socket plays
    the player stored under its id exactly when there is one. *)
Definition sockets_agree (s : Server) : Prop :=
  NoDup (s_id <$> connectedSockets s)
  /\ (forall sock, sock ∈ connectedSockets s -> s_id sock <> EmptyString)
  /\ (forall id,
        meOf id (connectedSockets s)
        = if bool_decide (id ∈ p_id <$> players (gameData s))
          then Some id else None).

(** *** Asteroids and their targets *)

(** The asteroid has a target: it is not waiting for one. *)
Definition targeted (a : ServerAsteroid) : Prop := a_needNewTarget a = false.

(** What the movement step keeps of the asteroids: the big ones, and the
    small ones that are still within reach of the world after they
    moved. *)
Definition keptByMove {E : Externals} (a : ServerAsteroid) : Prop :=
  a_isBig a = true
  \/ a_needNewTarget
       (ServerAsteroid_update ServerGameData_width ServerGameData_height a)
     = false.

#[global] Instance keptByMove_dec {E : Externals} a : Decision (keptByMove a).
Proof. unfold keptByMove. apply _. Defined.

(** The asteroid [a'] is [a] one step on: same id and size class, moved
    by its velocity. *)
Definition movedFrom (a a' : ServerAsteroid) : Prop :=
  a_id a' = a_id a /\ a_isBig a' = a_isBig a
  /\ a_x a' = (a_x a + vx (a_velocity a))%Qc
  /\ a_y a' = (a_y a + vy (a_velocity a))%Qc
  /\ a_needNewTarget a' = false.

(** A big asteroid as the constructor leaves it: waiting for a target
    and at rest. *)
Definition justSpawned (a : ServerAsteroid) : Prop :=
  a_needNewTarget a = true /\ a_isBig a = true
  /\ a_velocity a = mkVictor 0%Qc 0%Qc.

Definition all_targeted (s : Server) : Prop :=
  Forall targeted (asteroids (gameData s)).

(** *** One turn of the game loop *)

(** A notice of death, sent to the socket of the ship. *)
Definition isKillNotice (e : SocketEvent) : Prop :=
  match e with
  | KilledByAsteroidEvent _ _ | KilledByPlayerEvent _ _ _ => True
  | _ => False
  end.

(** Since [s0]: no player was added, no socket came or went, and only
    notices of death were sent. *)
Definition since (s0 s : Server) : Prop :=
  (p_id <$> players (gameData s)) `sublist_of` (p_id <$> players (gameData s0))
  /\ s_id <$> connectedSockets s = s_id <$> connectedSockets s0
  /\ exists notices, sent s = sent s0 ++ notices /\ Forall isKillNotice notices.

(** ** The vocabulary of the client *)

Local Open Scope Qc_scope.

(** What a sequence of calls does to a state that follows the canvas:
    [step] is the effect of one call, [None] when the call is not
    allowed in that state. *)
Fixpoint observe {S : Type} (step : S -> P5Call -> option S) (s : S)
    (calls : list P5Call) : option S :=
  match calls with
  | [] => Some s
  | c :: calls' =>
      match step s c with
      | Some s' => observe step s' calls'
      | None => None
      end
  end.

(** The number of saved drawing states: [save] pushes one, [restore]
    pops one and is not allowed when there is none. *)
Definition depth_step (d : nat) (c : P5Call) : option nat :=
  match c with
  | P5_save => Some (S d)
  | P5_restore => match d with O => None | S d' => Some d' end
  | _ => Some d
  end.

Definition depth_after : nat -> list P5Call -> option nat :=
  observe depth_step.

(** The strings written at a given text size, in order. *)
Definition text_of_size (size : Qc) (c : P5Call) : list string :=
  match c with
  | P5_text str _ _ size' => if bool_decide (size' = size) then [str] else []
  | _ => []
  end.

Definition texts_of_size (size : Qc) (calls : list P5Call) : list string :=
  flat_map (text_of_size size) calls.

Definition text_step (size : Qc) (s : list string) (c : P5Call)
    : option (list string) :=
  Some (s ++ text_of_size size c).

(** [Draw_wp step m s Q]: whatever the externals have done, the calls of
    [m] are allowed from [s], and the outcome of [m] and the state they
    lead to satisfy [Q]. *)
Definition Draw_wp {St A : Type} (step : St -> P5Call -> option St)
    (m : Draw A) (s : St) (Q : option A -> St -> Prop) : Prop :=
  forall n, exists s', observe step s (m n).1.2 = Some s' /\ Q (m n).1.1 s'.

(** The strings written at the size of the table of points. *)
Definition points_step : list string -> P5Call -> option (list string) :=
  text_step ClientGameData_pointsTextSize.

(** The ships and projectiles have the vertices that their drawing
    methods read. *)
Definition vertices_ok (g : ClientGameData) : Prop :=
  Forall (fun p => (3 <= length (cp_vertices p))%nat) (cg_players g)
  /\ Forall (fun b => (2 <= length (cb_vertices b))%nat) (cg_bullets g).

(** The states of the client: it starts empty, then takes the data the
    server sends and draws. *)
Inductive client_reachable {E : Externals} {C : ClientExternals}
    : ClientGameData -> Prop :=
  | client_new : client_reachable new_ClientGameData
  | client_update newData g :
      client_reachable g -> client_reachable (ClientGameData_update newData g)
  | client_draw p5 myId g n g' calls n' :
      client_reachable g ->
      ClientGameData_draw p5 myId g n = (Some g', calls, n') ->
      client_reachable g'.

(** The bounds of the camera are those of the size of the world. *)
Definition view_fits (g : ClientGameData) : Prop :=
  cg_playerViewMinX g
  = cg_width g / num 2 / ClientGameData_playerViewScaleRatio
  /\ cg_playerViewMaxX g = cg_width g - cg_playerViewMinX g
  /\ cg_playerViewMinY g
     = cg_height g / num 2 / ClientGameData_playerViewScaleRatio
  /\ cg_playerViewMaxY g = cg_height g - cg_playerViewMinY g.

(** [a] has at least the points of [b]. *)
Definition byScore (a b : ClientPlayer) : Prop :=
  (ClientPlayer_score b <= ClientPlayer_score a)%Z.

(** What a row of the table of points says of a player. *)
Definition pointsRow (p : ClientPlayer) : list string :=
  [cp_name p; pretty (cp_asteroidPoints p); pretty (cp_killingPoints p)].

(** The players as [draw] leaves them. *)
Definition sortedByScore (players : list ClientPlayer) : list ClientPlayer :=
  Array_sort (fun a b => (ClientPlayer_score b - ClientPlayer_score a)%Z)
    players.

Local Close Scope Qc_scope.

(** ** Sample states *)

(** Two shots, one from outside the world, then one update of the pool. *)
Definition samplePoolFired : BulletHouse :=
  (BulletHouse_fireBullet (E := sampleExternals) "ann"
     (num 2000) (num 2000) (frac 157 100) (mkRGB (num 255) 0%Qc 0%Qc)
     (BulletHouse_fireBullet (E := sampleExternals) "bob"
        (- num 100)%Qc (num 50) 0%Qc (mkRGB 0%Qc 0%Qc (num 255))
        new_BulletHouse 0).1 1).1.

Definition sampleBullet : ServerBullet :=
  match heap samplePoolFired !! 0 with
  | Some b => b
  | None => (new_ServerBullet (E := sampleExternals) 0).1
  end.

Definition samplePool : BulletHouse :=
  BulletHouse_update (num 4000) (num 4000) samplePoolFired.

(** A server with three players logged in, the first of them firing. *)
Definition sampleServer : Server :=
  Server_onPlayerInputEvent "sock1" (mkInput true false false true)
    (Server_onTryLoggingInEvent (E := sampleExternals) "sock3" "cid"
       (mkRGB 0%Qc 0%Qc (num 255))
       (Server_onConnectedEvent "sock3"
          (Server_onTryLoggingInEvent (E := sampleExternals) "sock2" "bob"
             (mkRGB 0%Qc (num 255) 0%Qc)
             (Server_onConnectedEvent "sock2"
                (Server_onTryLoggingInEvent (E := sampleExternals) "sock1"
                   "ann" (mkRGB (num 255) 0%Qc 0%Qc)
                   (Server_onConnectedEvent "sock1"
                      (new_Server (E := sampleExternals)))))))).

(** The same server one tick later. *)
Definition sampleServerNext : Server :=
  match ServerGameData_update (E := sampleExternals) sampleServer with
  | Some s => s
  | None => sampleServer
  end.

Definition sampleAsteroid : ServerAsteroid :=
  match asteroids (gameData sampleServer) with
  | a :: _ => a
  | [] => (new_ServerAsteroid (E := sampleExternals) 0%Qc 0%Qc true 0).1
  end.

(** The first of the three ships, still invincible after its login. *)
Definition samplePlayer : ServerPlayer :=
  match players (gameData sampleServer) with
  | p :: _ => p
  | [] => (new_ServerPlayer (E := sampleExternals) "" "" (mkRGB 0%Qc 0%Qc 0%Qc)
             (num 4000) (num 4000) 0).1
  end.

(** A ship that is no longer invincible. *)
Definition sampleShip (id : string) (x y : Qc) : ServerPlayer :=
  {| p_id := id; p_name := id;
     p_origColor := mkRGB (num 255) 0%Qc 0%Qc;
     p_currentColor := mkRGB (num 255) 0%Qc 0%Qc;
     p_x := x; p_y := y; p_heading := 0%Qc; p_showTail := false;
     p_velocity := mkVictor 0%Qc 0%Qc; p_acceleration := mkVictor 0%Qc 0%Qc;
     p_boostingForce := mkVictor 0%Qc 0%Qc;
     p_rotation := 0%Qc; p_isBoosting := false; p_isFiring := false;
     p_now := 0%Qc; p_then := 0%Qc; p_fireDelta := 0%Qc;
     p_asteroidPoints := 0; p_killingPoints := 0;
     p_invincibleCountdown := 0 |}.

Definition sampleShot (id firerId : string) (x y : Qc) : ServerBullet :=
  {| b_id := id; b_x := x; b_y := y; b_heading := 0%Qc;
     b_firerId := Some firerId; b_velocity := mkVictor (num 10) 0%Qc;
     b_color := mkRGB (num 255) (num 255) (num 255);
     b_needsToBeRecycled := false |}.

(** Two ships, each with a shot in flight, both sockets connected. *)
Definition duelServer : Server :=
  {| connectedSockets :=
       [{| s_id := "ann"; s_me := Some "ann" |};
        {| s_id := "bob"; s_me := Some "bob" |}];
     gameData :=
       {| players :=
            [sampleShip "ann" (num 100) (num 100);
             sampleShip "bob" (num 200) (num 100)];
          bulletHouse :=
            {| heap :=
                 [sampleShot "b0" "ann" (num 195) (num 100);
                  sampleShot "b1" "bob" (num 300) (num 300)];
               recycledBullets := [];
               bullets := [0; 1] |};
          asteroids := [];
          curBigAsteroidsCount := 0 |};
     sent := []; calls := 0 |}.

(** The sample server after one turn of the game loop. *)
Definition sampleServerLooped : Server :=
  match Server_gameUpdateLoop (E := sampleExternals) sampleServer with
  | Some s => s
  | None => sampleServer
  end.

(** The externals of the sample, with a [Utils.randInt] that returns the
    low end of the range. *)
Definition lowExternals : Externals :=
  {| Math_random := sample_random;
     Math_cos := sample_cos;
     Math_sin := sample_sin;
     Date_now := fun n => num (1000 * Z.of_nat n);
     uuid := fun n => pretty n;
     HALF_PI := frac 157 100;
     TWO_PI := frac 628 100;
     Utils_map := sample_map;
     Utils_randInt := fun lo _ _ => lo;
     Utils_pickRandom := sample_pickRandom;
     Utils_collided := sample_collided;
     Victor_rotateBy := sample_rotateBy;
     Victor_norm := sample_norm;
     Victor_normalize := sample_norm;
     Victor_magnitude := sample_magnitude |}.

(** The client: stand-ins for its externals, and a first message of
    the server. *)

Local Open Scope Qc_scope.

(** A stand-in for [Utils.updateArrayData]: the new array has one element
    for every element of the new data, the updated old one when there is
    a match and a new one otherwise. *)
Definition sample_updateArrayData (A B : Type) (existing : list A)
    (newData : list B) (matcher : A -> B -> bool) (updater : A -> B -> A)
    (creator : B -> A) : list A :=
  (fun n =>
     match List.find (fun e => matcher e n) existing with
     | Some e => updater e n
     | None => creator n
     end) <$> newData.

Definition sampleClientExternals : ClientExternals :=
  {| QUARTER_PI := frac 785 1000;
     Utils_updateArrayData := sample_updateArrayData |}.

Definition samplePlayerDTO (id : string) (x y : Qc) (showTail : bool)
    (asteroidPoints killingPoints : Z) : PlayerDTO :=
  {| dp_id := id; dp_name := id;
     dp_color := mkRGB (num 255) 0 0;
     dp_x := x; dp_y := y; dp_size := num 15; dp_heading := 0;
     dp_vertices :=
       [[- num 15; num 15]; [num 15; num 15]; [0; - num 15]];
     dp_showTail := showTail;
     dp_asteroidPoints := asteroidPoints;
     dp_killingPoints := killingPoints |}.

Definition sampleGameDataDTO : GameDataDTO :=
  {| d_width := num 4000; d_height := num 4000;
     d_players :=
       [samplePlayerDTO "ann" (num 100) (num 2000) true 1 0;
        samplePlayerDTO "bob" (num 3000) (num 3000) false 0 2];
     d_bullets :=
       [{| db_id := "b0"; db_heading := 0; db_x := num 120;
           db_y := num 2000; db_vertices := [[0; - num 5]; [0; num 5]];
           db_color := mkRGB (num 255) 0 0 |}];
     d_asteroids :=
       [{| da_id := "a0";
           da_vertices := [[num 50; 0]; [0; num 50]; [- num 50; 0]];
           da_x := num 500; da_y := num 500; da_rotation := 0 |}] |}.

Definition sampleP5 : P5Functions :=
  {| p5_width := num 4000; p5_height := num 4000 |}.

(** The client after the first message of the server. *)
Definition sampleClient : ClientGameData :=
  ClientGameData_update (C := sampleClientExternals) sampleGameDataDTO
    new_ClientGameData.

Local Close Scope Qc_scope.

(** * Proofs *)

(** ** The projectile pool *)

Section PoolProofs.
Context {E : Externals}.

Local Arguments ServerBullet_update : simpl never.
Local Arguments ServerBullet_prepareRecycle : simpl never.
Local Arguments ServerBullet_setInitValues : simpl never.

Lemma prepareRecycle_isReset b : isReset (ServerBullet_prepareRecycle b).
Proof.
  unfold isReset, ServerBullet_prepareRecycle, Victor_multiplyScalar; simpl.
  by rewrite !Qcmult_0_r.
Qed.

Lemma elem_of_delete_ne {A} (l : list A) j x y :
  l !! j = Some y -> x <> y -> x ∈ delete j l <-> x ∈ l.
Proof.
  intros Hj Hne. rewrite (delete_Permutation l j y Hj) at 2.
  rewrite elem_of_cons. intuition congruence.
Qed.

Lemma NoDup_delete_notin {A} (l : list A) j x :
  NoDup l -> l !! j = Some x -> x ∉ delete j l.
Proof.
  intros Hnd Hj. rewrite (delete_Permutation l j x Hj) in Hnd.
  by apply NoDup_cons in Hnd as [? _].
Qed.

Lemma Array_pop_Some {A} (l : list A) x rest :
  Array_pop l = (Some x, rest) -> l = rest ++ [x].
Proof.
  unfold Array_pop. intros [= Hl <-].
  apply last_Some in Hl as [l' ->]. by rewrite removelast_last.
Qed.

Lemma Array_pop_None {A} (l : list A) rest :
  Array_pop l = (None, rest) -> l = [].
Proof. unfold Array_pop. intros [= Hl _]. by apply last_None. Qed.

(** Recycling the active instance at index [j]; every other active
    instance is unflagged. *)
Lemma recycleAt_inv bh j r :
  NoDup (bullets bh ++ recycledBullets bh) ->
  (forall r', r' < length (heap bh) <-> r' ∈ bullets bh ++ recycledBullets bh) ->
  (forall r', r' ∈ recycledBullets bh -> exists b, heap bh !! r' = Some b /\ isReset b) ->
  (forall r', r' ∈ bullets bh -> r' <> r -> unflagged (heap bh) r') ->
  bullets bh !! j = Some r ->
  pool_inv (BulletHouse_recycleAt j r bh).
Proof.
  intros Hnd Hall Hres Hact Hj.
  pose proof (delete_Permutation _ _ _ Hj) as Hp.
  assert (Hin : r ∈ bullets bh) by by eapply list_elem_of_lookup_2.
  assert (Hperm : Array_splice1 j (bullets bh) ++ recycledBullets bh ++ [r]
                  ≡ₚ bullets bh ++ recycledBullets bh).
  { unfold Array_splice1. rewrite Hp at 2.
    rewrite (Permutation_app_comm (recycledBullets bh) [r]). simpl.
    by rewrite Permutation_middle. }
  pose proof (proj1 (NoDup_app _ _) Hnd) as (Hnd1 & Hdisj & Hnd2).
  split; simpl.
  - by rewrite Hperm.
  - intros r'. rewrite length_alter, Hperm. apply Hall.
  - intros r' Hr'. apply elem_of_app in Hr' as [Hr'|Hr'].
    + destruct (Hres r' Hr') as (b & Hb & Hrs). exists b; split; [|done].
      rewrite list_lookup_alter_ne; [done|].
      intros <-. exact (Hdisj _ Hin Hr').
    + apply list_elem_of_singleton in Hr'. subst r'.
      assert (Hlt : r < length (heap bh)).
      { apply Hall, elem_of_app; by left. }
      apply lookup_lt_is_Some in Hlt as [b Hb].
      exists (ServerBullet_prepareRecycle b). split.
      * by rewrite list_lookup_alter_eq, Hb.
      * apply prepareRecycle_isReset.
  - intros r' Hr'. unfold Array_splice1 in Hr'.
    assert (r' <> r).
    { intros ->. exact (NoDup_delete_notin _ _ _ Hnd1 Hj Hr'). }
    apply list_elem_of_delete_inv in Hr'.
    unfold unflagged. rewrite list_lookup_alter_ne by done. by apply Hact.
Qed.

Lemma recycleAt_pool_inv bh j r :
  pool_inv bh -> bullets bh !! j = Some r ->
  pool_inv (BulletHouse_recycleAt j r bh).
Proof.
  intros [Hnd Hall Hres Hact] Hj. apply recycleAt_inv; auto.
Qed.

Lemma update_step_inv bh width height j r :
  pool_inv bh -> bullets bh !! j = Some r ->
  let bh1 :=
    {| heap := alter (ServerBullet_update width height) r (heap bh);
       recycledBullets := recycledBullets bh;
       bullets := bullets bh |} in
  pool_inv (if flagged (heap bh1) r then BulletHouse_recycleAt j r bh1
            else bh1).
Proof.
  intros [Hnd Hall Hres Hact] Hj bh1.
  assert (Hin : r ∈ bullets bh) by by eapply list_elem_of_lookup_2.
  pose proof (proj1 (NoDup_app _ _) Hnd) as (Hnd1 & Hdisj & Hnd2).
  assert (Hres1 : forall r', r' ∈ recycledBullets bh ->
            exists b, heap bh1 !! r' = Some b /\ isReset b).
  { intros r' Hr'. destruct (Hres r' Hr') as (b & Hb & Hrs).
    exists b; split; [|done]. simpl. rewrite list_lookup_alter_ne; [done|].
    intros <-. exact (Hdisj _ Hin Hr'). }
  assert (Hall1 : forall r', r' < length (heap bh1)
            <-> r' ∈ bullets bh ++ recycledBullets bh).
  { intros r'. simpl. rewrite length_alter. apply Hall. }
  assert (Hact1 : forall r', r' ∈ bullets bh -> r' <> r ->
            unflagged (heap bh1) r').
  { intros r' Hr' Hne. unfold unflagged. simpl.
    rewrite list_lookup_alter_ne by done. by apply Hact. }
  destruct (flagged (heap bh1) r) eqn:Hfl.
  - by apply recycleAt_inv.
  - split; try done. intros r' Hr'.
    destruct (decide (r' = r)) as [->|Hne]; [|by apply Hact1].
    destruct (Hact r Hr') as (b & Hb & _). unfold flagged in Hfl.
    exists (ServerBullet_update width height b).
    simpl in *. rewrite list_lookup_alter_eq, Hb in *. by simpl in *.
Qed.

Lemma update_from_inv i width height bh :
  pool_inv bh -> pool_inv (BulletHouse_update_from i width height bh).
Proof.
  revert bh. induction i as [|j IH]; intros bh Hinv; simpl; [done|].
  destruct (bullets bh !! j) as [r|] eqn:Hj; [|done].
  apply IH. by apply update_step_inv.
Qed.

Lemma recycleBulletsByFirerId_from_inv i firerId bh :
  pool_inv bh ->
  pool_inv (BulletHouse_recycleBulletsByFirerId_from i firerId bh).
Proof.
  revert bh. induction i as [|j IH]; intros bh Hinv; simpl; [done|].
  destruct (bullets bh !! j) as [r|] eqn:Hj; [|done].
  apply IH. destruct (firedBy _ _ r); [|done]. by apply recycleAt_pool_inv.
Qed.

Lemma recycleBulletById_inv id bh :
  pool_inv bh -> pool_inv (BulletHouse_recycleBulletById id bh).
Proof.
  intros Hinv. unfold BulletHouse_recycleBulletById.
  destruct (list_find _ _) as [[i r]|] eqn:Hf; [|done].
  apply list_find_Some in Hf as (Hi & _). by apply recycleAt_pool_inv.
Qed.

(** What [fireBullet] does, in full. *)
Lemma fireBullet_spec firerId x y heading color bh n bh' n' :
  pool_inv bh ->
  BulletHouse_fireBullet firerId x y heading color bh n = (bh', n') ->
  exists r b0,
    bullets bh' = bullets bh ++ [r]
    /\ b_needsToBeRecycled b0 = false
    /\ b_velocity b0 = mkVictor 0%Qc 0%Qc
    /\ heap bh' !! r
       = Some (ServerBullet_setInitValues firerId x y heading color b0)
    /\ (forall r', r' <> r -> r' < length (heap bh) ->
          heap bh' !! r' = heap bh !! r')
    /\ ((recycledBullets bh = recycledBullets bh' ++ [r]
         /\ heap bh !! r = Some b0
         /\ length (heap bh') = length (heap bh))
        \/ (recycledBullets bh = [] /\ recycledBullets bh' = []
            /\ r = length (heap bh)
            /\ length (heap bh') = S (length (heap bh)))).
Proof.
  intros [Hnd Hall Hres Hact].
  unfold BulletHouse_fireBullet, BulletHouse_createOrGetBullet, bind.
  destruct (Array_pop (recycledBullets bh)) as [[r|] rest] eqn:Hpop.
  - apply Array_pop_Some in Hpop. unfold ret. intros [= <- _]. simpl.
    destruct (Hres r) as (b & Hb & Hrs).
    { rewrite Hpop. apply elem_of_app; right. by apply list_elem_of_singleton. }
    exists r, b. destruct Hrs as (_ & _ & _ & Hv & Hf).
    split; [done|]. split; [done|]. split; [done|].
    split; [by rewrite list_lookup_alter_eq, Hb|].
    split; [intros r' Hne _; by rewrite list_lookup_alter_ne|].
    left. by rewrite length_alter.
  - apply Array_pop_None in Hpop. unfold new_ServerBullet, bind, call, ret.
    intros [= <- _]. simpl.
    exists (length (heap bh)), (new_ServerBullet n).1.
    split; [done|]. split; [reflexivity|]. split; [reflexivity|].
    split.
    { rewrite list_lookup_alter_eq, lookup_app_r, Nat.sub_diag by done.
      done. }
    split.
    { intros r' Hne Hlt. rewrite list_lookup_alter_ne by done.
      by rewrite lookup_app_l. }
    right. by rewrite length_alter, length_app, Nat.add_1_r.
Qed.

Lemma fireBullet_inv firerId x y heading color bh n :
  pool_inv bh ->
  pool_inv (BulletHouse_fireBullet firerId x y heading color bh n).1.
Proof.
  intros Hinv.
  destruct (BulletHouse_fireBullet _ _ _ _ _ _ _) as [bh' n'] eqn:Hf.
  destruct (fireBullet_spec _ _ _ _ _ _ _ _ _ Hinv Hf)
    as (r & b0 & Hb & Hfl & _ & Hr & Hoth & Hcase).
  destruct Hinv as [Hnd Hall Hres Hact]. simpl.
  pose proof (proj1 (NoDup_app _ _) Hnd) as (Hnd1 & Hdisj & Hnd2).
  assert (Hnew : unflagged (heap bh') r).
  { eexists. split; [done|]. done. }
  destruct Hcase as [(Hrec & Hb0 & Hlen)|(Hrec & Hrec' & -> & Hlen)].
  - assert (Hperm : bullets bh' ++ recycledBullets bh'
                    ≡ₚ bullets bh ++ recycledBullets bh).
    { rewrite Hb, Hrec, <-(assoc_L (++)). f_equiv.
      apply Permutation_app_comm. }
    assert (Hrin : r ∈ recycledBullets bh).
    { rewrite Hrec. apply elem_of_app; right.
      by apply list_elem_of_singleton. }
    assert (Hold : forall r', r' ∈ bullets bh ++ recycledBullets bh' ->
              heap bh' !! r' = heap bh !! r').
    { intros r' Hr'. apply Hoth.
      - intros ->. rewrite Hrec in Hnd. apply elem_of_app in Hr' as [Hr'|Hr'].
        + exact (Hdisj _ Hr' Hrin).
        + apply NoDup_app in Hnd as (_ & _ & Hnd).
          apply NoDup_app in Hnd as (_ & Hnd & _).
          eapply Hnd; [done|]. by apply list_elem_of_singleton.
      - apply Hall. rewrite Hrec. rewrite !elem_of_app in *. tauto. }
    split.
    + by rewrite Hperm.
    + intros r'. rewrite Hlen, Hperm. apply Hall.
    + intros r' Hr'. rewrite Hold by (apply elem_of_app; by right).
      apply Hres. rewrite Hrec. apply elem_of_app; by left.
    + intros r' Hr'. rewrite Hb in Hr'. apply elem_of_app in Hr' as [Hr'|Hr'].
      * unfold unflagged. rewrite Hold by (apply elem_of_app; by left).
        by apply Hact.
      * apply list_elem_of_singleton in Hr'. by subst r'.
  - rewrite Hrec in Hnd, Hall. rewrite app_nil_r in Hnd, Hall.
    split.
    + rewrite Hrec', app_nil_r, Hb. apply NoDup_app. split; [done|]. split.
      * intros r' Hr' Hr2. apply list_elem_of_singleton in Hr2. subst r'.
        apply Hall in Hr'. lia.
      * apply NoDup_singleton.
    + intros r'. rewrite Hlen, Hrec', app_nil_r, Hb.
      rewrite elem_of_app, list_elem_of_singleton, <-Hall. lia.
    + intros r' Hr'. rewrite Hrec' in Hr'. by apply elem_of_nil in Hr'.
    + intros r' Hr'. rewrite Hb in Hr'. apply elem_of_app in Hr' as [Hr'|Hr'].
      * unfold unflagged. rewrite Hoth.
        -- by apply Hact.
        -- apply Hall in Hr'. lia.
        -- by apply Hall.
      * apply list_elem_of_singleton in Hr'. by subst r'.
Qed.

Lemma pool_reachable_inv bh : pool_reachable bh -> pool_inv bh.
Proof.
  induction 1.
  - split; simpl; [constructor| | |].
    + intros r. rewrite elem_of_nil. lia.
    + intros r Hr. by apply elem_of_nil in Hr.
    + intros r Hr. by apply elem_of_nil in Hr.
  - by apply fireBullet_inv.
  - by apply update_from_inv.
  - by apply recycleBulletById_inv.
  - by apply recycleBulletsByFirerId_from_inv.
Qed.

Lemma update_from_frame i width height bh r :
  (forall k, k < i -> bullets bh !! k <> Some r) ->
  heap (BulletHouse_update_from i width height bh) !! r = heap bh !! r
  /\ (r ∈ bullets (BulletHouse_update_from i width height bh)
      <-> r ∈ bullets bh)
  /\ (r ∈ recycledBullets (BulletHouse_update_from i width height bh)
      <-> r ∈ recycledBullets bh).
Proof.
  revert bh. induction i as [|j IH]; intros bh Hk; simpl; [done|].
  destruct (bullets bh !! j) as [r'|] eqn:Hj; [|done].
  assert (Hne : r <> r') by (intros ->; by apply (Hk j); [lia|]).
  set (bh2 := if flagged _ r' then _ else _).
  assert (H2 : heap bh2 !! r = heap bh !! r
          /\ (r ∈ bullets bh2 <-> r ∈ bullets bh)
          /\ (r ∈ recycledBullets bh2 <-> r ∈ recycledBullets bh)
          /\ (forall k, k < j -> bullets bh2 !! k = bullets bh !! k)).
  { subst bh2. destruct (flagged _ r'); simpl.
    - rewrite !list_lookup_alter_ne by done. split; [done|]. split.
      { by apply elem_of_delete_ne with r'. }
      split.
      { rewrite elem_of_app, list_elem_of_singleton. intuition congruence. }
      intros k Hlt. unfold Array_splice1. by rewrite list_lookup_delete_lt.
    - rewrite !list_lookup_alter_ne by done. done. }
  destruct H2 as (Hh & Hb & Hr & Hlk).
  destruct (IH bh2) as (Hh' & Hb' & Hr').
  { intros k Hlt. rewrite Hlk by done. apply Hk. lia. }
  rewrite Hh', Hb', Hr'. done.
Qed.

(** The fate of the instance at index [k] when the loop of
    [BulletHouse.update] runs from an index beyond it. *)
Lemma update_from_at i width height bh k r b :
  NoDup (bullets bh) ->
  bullets bh !! k = Some r -> k < i -> i <= length (bullets bh) ->
  heap bh !! r = Some b ->
  if b_needsToBeRecycled (ServerBullet_update width height b) then
    (r ∉ bullets (BulletHouse_update_from i width height bh))
    /\ r ∈ recycledBullets (BulletHouse_update_from i width height bh)
    /\ heap (BulletHouse_update_from i width height bh) !! r
       = Some (ServerBullet_prepareRecycle
                 (ServerBullet_update width height b))
  else
    r ∈ bullets (BulletHouse_update_from i width height bh)
    /\ (r ∈ recycledBullets (BulletHouse_update_from i width height bh)
        <-> r ∈ recycledBullets bh)
    /\ heap (BulletHouse_update_from i width height bh) !! r
       = Some (ServerBullet_update width height b).
Proof.
  revert bh. induction i as [|j IH]; intros bh Hnd Hk Hlt Hle Hb; [lia|].
  cbn [BulletHouse_update_from heap recycledBullets bullets].
  destruct (bullets bh !! j) as [r'|] eqn:Hj.
  2:{ apply lookup_ge_None in Hj. lia. }
  destruct (decide (j = k)) as [->|Hjk].
  - assert (r' = r) as -> by congruence.
    set (bh2 := if flagged _ r then _ else _).
    assert (Hfr : forall k', k' < k -> bullets bh2 !! k' <> Some r).
    { intros k' Hk'.
      assert (bullets bh2 !! k' = bullets bh !! k') as ->.
      { subst bh2. destruct (flagged _ r); simpl; [|done].
        unfold Array_splice1. by rewrite list_lookup_delete_lt. }
      intros Hc. pose proof (NoDup_lookup _ _ _ _ Hnd Hc Hk). lia. }
    destruct (update_from_frame k width height bh2 r Hfr) as (Hh' & Hb' & Hr').
    assert (Hfl : flagged (alter (ServerBullet_update width height) r (heap bh)) r
                  = b_needsToBeRecycled (ServerBullet_update width height b)).
    { unfold flagged. by rewrite list_lookup_alter_eq, Hb. }
    subst bh2. rewrite Hfl in *.
    destruct (b_needsToBeRecycled (ServerBullet_update width height b));
      simpl in *.
    + split.
      { intros Hin. apply Hb' in Hin.
        exact (NoDup_delete_notin _ _ _ Hnd Hk Hin). }
      split.
      { apply Hr'. apply elem_of_app; right. by apply list_elem_of_singleton. }
      by rewrite Hh', list_lookup_alter_eq, list_lookup_alter_eq, Hb.
    + split; [apply Hb'; by eapply list_elem_of_lookup_2|]. split; [done|].
      by rewrite Hh', list_lookup_alter_eq, Hb.
  - assert (Hne : r <> r').
    { intros ->. pose proof (NoDup_lookup _ _ _ _ Hnd Hj Hk). lia. }
    set (bh2 := if flagged _ r' then _ else _).
    assert (H2 : NoDup (bullets bh2) /\ bullets bh2 !! k = Some r
                 /\ j <= length (bullets bh2) /\ heap bh2 !! r = Some b
                 /\ (r ∈ recycledBullets bh2 <-> r ∈ recycledBullets bh)).
    { subst bh2. destruct (flagged _ r'); simpl.
      - unfold Array_splice1. split.
        { eapply sublist_NoDup; [exact Hnd|apply sublist_delete]. }
        split; [rewrite list_lookup_delete_lt by lia; done|].
        split; [rewrite length_delete by (by eexists); lia|].
        split; [by rewrite !list_lookup_alter_ne|].
        rewrite elem_of_app, list_elem_of_singleton. intuition congruence.
      - split; [done|]. split; [done|]. split; [lia|].
        split; [by rewrite list_lookup_alter_ne|done]. }
    destruct H2 as (Hnd2 & Hk2 & Hle2 & Hb2 & Hr2).
    specialize (IH bh2 Hnd2 Hk2 ltac:(lia) Hle2 Hb2).
    destruct (b_needsToBeRecycled (ServerBullet_update width height b));
      [exact IH|].
    destruct IH as (? & HrIH & ?). split; [done|]. split; [|done].
    rewrite HrIH. exact Hr2.
Qed.

Lemma outOfBounds_spec (width height x y : Qc) :
  outOfBounds width height x y = false
  <-> (0 <= x <= width /\ 0 <= y <= height)%Qc.
Proof.
  unfold outOfBounds, gtb, ltb.
  rewrite !orb_false_iff, !bool_decide_eq_false, <-!Qcle_ngt. tauto.
Qed.

(** C2: between two operations of the pool every instance allocated so
    far is held by exactly one of the two arrays, once, and an instance
    on the recycled array is in the state [prepareRecycle] leaves it in:
    no firer, position (-1000, -1000), zero velocity, flag cleared. *)
Theorem pool_partition_and_reset (bh : BulletHouse) :
  pool_reachable bh ->
  (forall r, r < length (heap bh) ->
     (r ∈ bullets bh /\ r ∉ recycledBullets bh)
     \/ ((r ∉ bullets bh) /\ r ∈ recycledBullets bh))
  /\ NoDup (bullets bh) /\ NoDup (recycledBullets bh)
  /\ (forall r, r ∈ bullets bh ++ recycledBullets bh -> r < length (heap bh))
  /\ (forall r, r ∈ recycledBullets bh ->
        exists b, heap bh !! r = Some b
          /\ b_firerId b = None
          /\ b_x b = (- num 1000)%Qc /\ b_y b = (- num 1000)%Qc
          /\ b_velocity b = mkVictor 0%Qc 0%Qc
          /\ b_needsToBeRecycled b = false).
Proof.
  intros Hreach. destruct (pool_reachable_inv bh Hreach) as [Hnd Hall Hres _].
  pose proof (proj1 (NoDup_app _ _) Hnd) as (Hnd1 & Hdisj & Hnd2).
  split.
  { intros r Hr. apply Hall, elem_of_app in Hr as [Hr|Hr].
    - left. split; [done|]. by apply Hdisj.
    - right. split; [|done]. intros Hb. exact (Hdisj _ Hb Hr). }
  split; [done|]. split; [done|]. split; [intros r; apply Hall|].
  exact Hres.
Qed.

(** C7: an active projectile is unflagged; [update] sets its flag
    exactly when the new position lies outside [0, width] x [0, height];
    neither [update] nor [setInitValues] clears a flag that is set, only
    [prepareRecycle] does; and the pool update that sees the flag takes
    the instance off the active array and puts it, reset, on the recycled
    one, while an instance that stays in bounds stays active. *)
Theorem projectile_leaving_bounds_is_recycled (bh : BulletHouse)
    (width height : Qc) (r : nat) (b : ServerBullet) :
  pool_reachable bh -> r ∈ bullets bh -> heap bh !! r = Some b ->
  b_needsToBeRecycled b = false
  /\ b_x (ServerBullet_update width height b) = (b_x b + vx (b_velocity b))%Qc
  /\ b_y (ServerBullet_update width height b) = (b_y b + vy (b_velocity b))%Qc
  /\ (b_needsToBeRecycled (ServerBullet_update width height b) = false
      <-> (0 <= b_x (ServerBullet_update width height b) <= width
           /\ 0 <= b_y (ServerBullet_update width height b) <= height)%Qc)
  /\ (forall b0, b_needsToBeRecycled b0 = true ->
        b_needsToBeRecycled (ServerBullet_update width height b0) = true)
  /\ (forall firerId x y heading color b0,
        b_needsToBeRecycled
          (ServerBullet_setInitValues firerId x y heading color b0)
        = b_needsToBeRecycled b0)
  /\ (forall b0, b_needsToBeRecycled (ServerBullet_prepareRecycle b0) = false)
  /\ (if b_needsToBeRecycled (ServerBullet_update width height b) then
        (r ∉ bullets (BulletHouse_update width height bh))
        /\ r ∈ recycledBullets (BulletHouse_update width height bh)
        /\ heap (BulletHouse_update width height bh) !! r
           = Some (ServerBullet_prepareRecycle
                     (ServerBullet_update width height b))
        /\ isReset (ServerBullet_prepareRecycle
                      (ServerBullet_update width height b))
      else
        r ∈ bullets (BulletHouse_update width height bh)
        /\ (r ∉ recycledBullets (BulletHouse_update width height bh))
        /\ heap (BulletHouse_update width height bh) !! r
           = Some (ServerBullet_update width height b)).
Proof.
  intros Hreach Hin Hb.
  destruct (pool_reachable_inv bh Hreach) as [Hnd Hall Hres Hact].
  pose proof (proj1 (NoDup_app _ _) Hnd) as (Hnd1 & Hdisj & Hnd2).
  assert (Hfl : b_needsToBeRecycled b = false).
  { destruct (Hact r Hin) as (b' & Hb' & Hf). congruence. }
  split; [done|]. split; [done|]. split; [done|]. split.
  { unfold ServerBullet_update. cbn [b_needsToBeRecycled b_x b_y].
    rewrite Hfl. cbn [negb]. apply outOfBounds_spec. }
  split.
  { intros b0 Hb0. unfold ServerBullet_update. cbn [b_needsToBeRecycled].
    by rewrite Hb0. }
  split; [done|]. split; [done|].
  apply list_elem_of_lookup_1 in Hin as Hk. destruct Hk as [k Hk].
  pose proof (lookup_lt_Some _ _ _ Hk) as Hlt.
  pose proof (update_from_at (length (bullets bh)) width height bh k r b
                Hnd1 Hk Hlt (Nat.le_refl _) Hb) as Hat.
  unfold BulletHouse_update.
  destruct (b_needsToBeRecycled (ServerBullet_update width height b)).
  - destruct Hat as (? & ? & ?). split; [done|]. split; [done|].
    split; [done|]. apply prepareRecycle_isReset.
  - destruct Hat as (? & Hr & ?). split; [done|]. split; [|done].
    intros Hc. apply Hr in Hc. exact (Hdisj _ Hin Hc).
Qed.

(** The unit vector of a heading: the diagonal turned by
    [heading + HALF_PI] and normalised points against
    (cos heading, sin heading). *)
Lemma heading_vector (heading : Qc) :
  victor_laws ->
  Victor_norm
    (Victor_rotateBy (heading + HALF_PI)%Qc (mkVictor 1%Qc 1%Qc))
  = mkVictor (- Math_cos heading)%Qc (- Math_sin heading)%Qc.
Proof.
  intros (_ & Hcos & Hsin & Hrot & Hnorm & _).
  destruct (Hrot (heading + HALF_PI)%Qc) as (k & Hk & ->).
  rewrite (Hnorm k _ Hk). by rewrite Hcos, Hsin.
Qed.

(** C8: [fireBullet] takes the last instance of the recycled array, or
    allocates one when that array is empty, appends it to the active
    array, and leaves it with the firer id, position, heading and colour
    it was given.  Its velocity is what [setInitValues] makes of the
    heading alone: the vector (1, 1) turned by [heading + HALF_PI],
    normalised and scaled by the speed.  With [Math] and [victor] as
    [victor_laws] has them, that is 10 times the unit vector
    (- cos heading, - sin heading): its length is the speed, 10, and its
    direction is the one in which a ship at rest with that heading starts
    to thrust. *)
Theorem fireBullet_initialises (bh : BulletHouse) (n : nat)
    (firerId : string) (x y heading : Qc) (color : RGBColor) :
  victor_laws ->
  pool_reachable bh ->
  exists r b,
    bullets (BulletHouse_fireBullet firerId x y heading color bh n).1
    = bullets bh ++ [r]
    /\ heap (BulletHouse_fireBullet firerId x y heading color bh n).1 !! r
       = Some b
    /\ ((recycledBullets bh
         = recycledBullets
             (BulletHouse_fireBullet firerId x y heading color bh n).1 ++ [r]
         /\ r < length (heap bh))
        \/ (recycledBullets bh = []
            /\ recycledBullets
                 (BulletHouse_fireBullet firerId x y heading color bh n).1
               = []
            /\ r = length (heap bh)))
    /\ b_firerId b = Some firerId
    /\ b_x b = x /\ b_y b = y /\ b_heading b = heading /\ b_color b = color
    /\ b_velocity b
       = Victor_multiplyScalar ServerBullet_speed
           (Victor_norm
              (Victor_rotateBy (heading + HALF_PI)%Qc (mkVictor 1%Qc 1%Qc)))
    /\ b_velocity b
       = mkVictor (num 10 * - Math_cos heading)%Qc
           (num 10 * - Math_sin heading)%Qc
    /\ (vx (b_velocity b) * vx (b_velocity b)
        + vy (b_velocity b) * vy (b_velocity b))%Qc
       = (num 10 * num 10)%Qc
    /\ ServerPlayer_updateBoostingForce true heading (mkVictor 0%Qc 0%Qc)
       = mkVictor (frac 1 10 * - Math_cos heading)%Qc
           (frac 1 10 * - Math_sin heading)%Qc.
Proof.
  intros laws Hreach. pose proof (pool_reachable_inv bh Hreach) as Hinv.
  destruct (BulletHouse_fireBullet _ _ _ _ _ _ _) as [bh' n'] eqn:Hf.
  destruct (fireBullet_spec _ _ _ _ _ _ _ _ _ Hinv Hf)
    as (r & b0 & Hb & _ & Hv & Hr & _ & Hcase).
  exists r, (ServerBullet_setInitValues firerId x y heading color b0).
  cbn [fst]. split; [done|]. split; [done|]. split.
  { destruct Hcase as [(Hrec & Hb0 & _)|(? & ? & ? & _)]; [left|by right].
    split; [done|]. by eapply lookup_lt_Some. }
  unfold ServerBullet_setInitValues.
  cbn [b_firerId b_x b_y b_heading b_color b_velocity].
  rewrite Hv. unfold Victor_addScalar. cbn [vx vy].
  rewrite Qcplus_0_l. repeat (split; [done|]).
  rewrite (heading_vector _ laws).
  unfold Victor_multiplyScalar, ServerBullet_speed.
  cbn [vx vy]. split; [f_equal; ring|]. split.
  { pose proof (proj1 laws) as Hunit.
    transitivity
      (num 10 * num 10
       * (Math_cos heading * Math_cos heading
          + Math_sin heading * Math_sin heading))%Qc; [ring|].
    rewrite Hunit. ring. }
  unfold ServerPlayer_updateBoostingForce, Victor_addScalar.
  cbn [vx vy]. rewrite Qcplus_0_l.
  pose proof laws as (_ & _ & _ & _ & _ & Hsame). rewrite Hsame.
  rewrite (heading_vector _ laws). unfold Victor_multiplyScalar. cbn [vx vy].
  f_equal; ring.
Qed.

End PoolProofs.

(** ** The count of big asteroids *)

Section AsteroidProofs.
Context {E : Externals}.

Lemma bigAsteroidCount_app l1 l2 :
  bigAsteroidCount (l1 ++ l2) = (bigAsteroidCount l1 + bigAsteroidCount l2)%Z.
Proof.
  unfold bigAsteroidCount, bigAsteroids. rewrite filter_app, length_app. lia.
Qed.

Lemma bigAsteroidCount_cons a l :
  bigAsteroidCount (a :: l)
  = ((if a_isBig a then 1 else 0) + bigAsteroidCount l)%Z.
Proof.
  unfold bigAsteroidCount, bigAsteroids. rewrite filter_cons.
  destruct (a_isBig a); case_decide; try done; simpl; lia.
Qed.

Lemma bigAsteroidCount_delete l i a :
  l !! i = Some a ->
  bigAsteroidCount l
  = ((if a_isBig a then 1 else 0) + bigAsteroidCount (delete i l))%Z.
Proof.
  intros Hi. rewrite <-bigAsteroidCount_cons.
  unfold bigAsteroidCount, bigAsteroids.
  by rewrite (delete_Permutation l i a Hi) at 1.
Qed.

Lemma new_ServerAsteroid_isBig width height isBig n a n' :
  new_ServerAsteroid width height isBig n = (a, n') -> a_isBig a = isBig.
Proof.
  unfold new_ServerAsteroid, bind, call, ret.
  destruct (ServerAsteroid_setRandomSpawnPoint _ _ _) as [[x y] n1].
  destruct isBig; destruct (ServerAsteroid_makeVertices _ _ _ _ _ _);
    by intros [= <- _].
Qed.

Lemma createPieceOf_isBig width height big n a n' :
  ServerAsteroid_createPieceOf width height big n = (a, n') ->
  a_isBig a = false.
Proof.
  unfold ServerAsteroid_createPieceOf, bind, call, ret.
  destruct (new_ServerAsteroid _ _ _ _) as [a0 n1] eqn:Hnew.
  apply new_ServerAsteroid_isBig in Hnew. by intros [= <- _].
Qed.

Lemma setTarget_isBig x y a n a' n' :
  ServerAsteroid_setTarget x y a n = (a', n') -> a_isBig a' = a_isBig a.
Proof.
  unfold ServerAsteroid_setTarget, bind, call, ret.
  destruct (a_isBig a); by intros [= <- _].
Qed.

Lemma pushBigAsteroids_spec count gd n gd' n' :
  ServerGameData_pushBigAsteroids count gd n = (gd', n') ->
  players gd' = players gd /\ bulletHouse gd' = bulletHouse gd
  /\ curBigAsteroidsCount gd' = (curBigAsteroidsCount gd + Z.of_nat count)%Z
  /\ exists new, asteroids gd' = asteroids gd ++ new
       /\ length new = count /\ Forall (fun a => a_isBig a = true) new.
Proof.
  revert gd n. induction count as [|c IH]; intros gd n.
  - intros [= <- _]. split; [done|]. split; [done|]. split; [lia|].
    exists []. by rewrite app_nil_r.
  - cbn [ServerGameData_pushBigAsteroids]. unfold bind.
    destruct (new_ServerAsteroid _ _ _ _) as [a n1] eqn:Hnew.
    apply new_ServerAsteroid_isBig in Hnew.
    intros Hrec. apply IH in Hrec as (Hp & Hb & Hc & new & Ha & Hl & Hf).
    simpl in *. split; [done|]. split; [done|]. split; [lia|].
    exists (a :: new). rewrite Ha, <-(assoc_L (++)). simpl.
    split; [done|]. split; [by rewrite Hl|]. by constructor.
Qed.

Lemma bigAsteroidCount_all_big l :
  Forall (fun a => a_isBig a = true) l ->
  bigAsteroidCount l = Z.of_nat (length l).
Proof.
  induction 1 as [|a l Ha _ IH]; [done|].
  rewrite bigAsteroidCount_cons, IH, Ha. simpl length. lia.
Qed.

Lemma pushBigAsteroids_counter count gd n gd' n' :
  ServerGameData_pushBigAsteroids count gd n = (gd', n') ->
  counter_ok gd -> counter_ok gd'.
Proof.
  unfold counter_ok. intros Hrun Hok.
  destruct (pushBigAsteroids_spec _ _ _ _ _ Hrun)
    as (_ & _ & Hc & new & Ha & Hl & Hf).
  rewrite Hc, Ha, bigAsteroidCount_app, (bigAsteroidCount_all_big new) by done.
  lia.
Qed.

Lemma new_ServerGameData_counter n gd n' :
  new_ServerGameData n = (gd, n') -> counter_ok gd.
Proof. intros H. by eapply pushBigAsteroids_counter. Qed.

Lemma breakAsteroid_spec asteroid gd n gd' n' :
  ServerGameData_breakAsteroid asteroid gd n = (gd', n') ->
  players gd' = players gd /\ bulletHouse gd' = bulletHouse gd
  /\ (counter_ok gd -> counter_ok gd').
Proof.
  unfold ServerGameData_breakAsteroid, ServerGameData_removeAsteroidById.
  destruct (list_find _ _) as [[i removed]|] eqn:Hf; [|by intros [= <- _]].
  apply list_find_Some in Hf as (Hi & _ & _).
  pose proof (bigAsteroidCount_delete _ _ _ Hi) as Hd.
  destruct (a_isBig removed) eqn:Hbig; unfold counter_ok.
  - unfold bind, ret.
    destruct (ServerAsteroid_createPieceOf _ _ _ n) as [p1 n1] eqn:H1.
    destruct (ServerAsteroid_createPieceOf _ _ _ n1) as [p2 n2] eqn:H2.
    destruct (ServerAsteroid_createPieceOf _ _ _ n2) as [p3 n3] eqn:H3.
    apply createPieceOf_isBig in H1, H2, H3.
    intros [= <- _]. simpl. split; [done|]. split; [done|]. intros Hok.
    rewrite bigAsteroidCount_app, !bigAsteroidCount_cons, H1, H2, H3.
    unfold Array_splice1. change (bigAsteroidCount []) with 0%Z. lia.
  - intros [= <- _]. simpl. split; [done|]. split; [done|]. intros Hok.
    unfold Array_splice1. lia.
Qed.
End AsteroidProofs.

(** ** Invariants of the collision passes

    A property of the server that the three methods of
    [GameEventsHandler] preserve is preserved by both collision passes. *)

Section HandlerInvariant.
Context {E : Externals}.
Variable I : Server -> Prop.
Hypothesis I_asteroidKilledPlayer :
  forall a p s, I s -> I (Server_asteroidKilledPlayer a p s).
Hypothesis I_bulletKilledAsteroid :
  forall r a s, I s -> I (Server_bulletKilledAsteroid r a s).
Hypothesis I_bulletKilledPlayer :
  forall r p s, I s -> I (Server_bulletKilledPlayer r p s).

Lemma processCollidedWith_pres obj other s :
  I s -> I (processCollidedWith obj other s).
Proof using All.
  destruct obj, other; simpl; auto.
Qed.

Lemma Utils_checkCollidedWith_pres obj othersArray s :
  I s -> I (Utils_checkCollidedWith obj othersArray s).
Proof using All.
  unfold Utils_checkCollidedWith. generalize (concat othersArray) as l.
  intros l. revert s. induction l as [|o l IH]; intros s Hs; simpl; [done|].
  apply IH. destruct (_ && _); [|done]. by apply processCollidedWith_pres.
Qed.

Lemma collideAsteroids_from_pres i s s' :
  ServerGameData_collideAsteroids_from i s = Some s' -> I s -> I s'.
Proof using All.
  revert s. induction i as [|j IH]; intros s; simpl.
  - by intros [= <-].
  - destruct (asteroids (gameData s) !! j) as [a|]; [|done].
    intros Hrun Hs. eapply IH; [done|].
    by apply Utils_checkCollidedWith_pres.
Qed.

Lemma collidePlayers_pres s : I s -> I (ServerGameData_collidePlayers s).
Proof using All.
  unfold ServerGameData_collidePlayers.
  generalize (p_id <$> players (gameData s)) as ids. intros ids. revert s.
  induction ids as [|id ids IH]; intros s Hs; simpl; [done|].
  apply IH. destruct (Players_get _ _) as [p|]; [|done].
  unfold ServerPlayer_checkCollidedWith.
  destruct (ServerPlayer_isInvincible p); [done|].
  by apply Utils_checkCollidedWith_pres.
Qed.
End HandlerInvariant.

Section CounterProofs.
Context {E : Externals}.

Lemma counter_ok_ext gd gd' :
  asteroids gd' = asteroids gd ->
  curBigAsteroidsCount gd' = curBigAsteroidsCount gd ->
  counter_ok gd -> counter_ok gd'.
Proof. unfold counter_ok. by intros -> ->. Qed.

Lemma runGameData_breakAsteroid_counter a s :
  server_counter_ok s ->
  server_counter_ok (runGameData (ServerGameData_breakAsteroid a (gameData s)) s).
Proof.
  unfold server_counter_ok, runGameData. intros Hs.
  destruct (ServerGameData_breakAsteroid _ _ _) as [gd n] eqn:Hb.
  apply breakAsteroid_spec in Hb as (_ & _ & Hb). simpl. auto.
Qed.

Lemma notifyKilled_gameData id ev s :
  gameData (Server_notifyKilled id ev s) = gameData s.
Proof. unfold Server_notifyKilled. by destruct (list_find _ _) as [[??]|]. Qed.

Lemma asteroidKilledPlayer_counter a p s :
  server_counter_ok s -> server_counter_ok (Server_asteroidKilledPlayer a p s).
Proof.
  intros Hs. unfold Server_asteroidKilledPlayer.
  destruct (ServerGameData_removePlayerById _ _) as [[k|] gd1] eqn:Hr;
    apply runGameData_breakAsteroid_counter; [|done].
  unfold server_counter_ok. rewrite notifyKilled_gameData. simpl.
  unfold ServerGameData_removePlayerById in Hr.
  destruct (Players_get _ _); [|done]. injection Hr as _ <-. done.
Qed.

Lemma bulletKilledAsteroid_counter r a s :
  server_counter_ok s -> server_counter_ok (Server_bulletKilledAsteroid r a s).
Proof.
  intros Hs. unfold Server_bulletKilledAsteroid.
  destruct (_ !! r) as [b|]; [|done].
  set (s1 := match truthy _ with Some _ => _ | None => _ end).
  assert (Hs1 : server_counter_ok s1).
  { subst s1. destruct (truthy _) as [fid|]; [|done].
    destruct (ServerGameData_getPlayerWithId _ _) as [firer|]; [|done].
    apply (runGameData_breakAsteroid_counter a) in Hs. exact Hs. }
  exact Hs1.
Qed.

Lemma bulletKilledPlayer_counter r p s :
  server_counter_ok s -> server_counter_ok (Server_bulletKilledPlayer r p s).
Proof.
  intros Hs. unfold Server_bulletKilledPlayer.
  destruct (_ !! r) as [b|]; [|done].
  set (s1 := match truthy _ with Some _ => _ | None => _ end).
  assert (Hs1 : server_counter_ok s1).
  { subst s1. destruct (truthy _) as [fid|]; [|done].
    destruct (ServerGameData_getPlayerWithId _ _) as [firer|]; [|done].
    destruct (ServerGameData_removePlayerById _ _) as [[k|] gd1] eqn:Hr;
      [|done].
    unfold server_counter_ok. simpl. rewrite notifyKilled_gameData. simpl.
    unfold ServerGameData_removePlayerById in Hr.
    destruct (Players_get _ _); [|done]. injection Hr as _ <-. done. }
  exact Hs1.
Qed.

Lemma updateAsteroids_bigCount ps todo n asts n' :
  ServerGameData_updateAsteroids ps todo n = (asts, n') ->
  bigAsteroidCount asts = bigAsteroidCount todo.
Proof.
  revert n asts n'. induction todo as [|a todo IH]; intros n asts n'.
  - by intros [= <- _].
  - cbn [ServerGameData_updateAsteroids].
    set (a1 := ServerAsteroid_update _ _ a).
    assert (Hbig : a_isBig a1 = a_isBig a) by done.
    rewrite (bigAsteroidCount_cons a). rewrite <-Hbig. clearbody a1.
    destruct (a_needNewTarget a1).
    + destruct (a_isBig a1) eqn:Hb.
      * unfold bind at 1. unfold call at 1.
        unfold bind at 1.
        set (m := match Utils_pickRandom ps n with Some _ => _ | None => _ end).
        destruct (m (S n)) as [a2 n2] eqn:Hm.
        assert (a_isBig a2 = true) as Hb2.
        { subst m. destruct (Utils_pickRandom ps n).
          - apply setTarget_isBig in Hm. congruence.
          - unfold bind, call in Hm. apply setTarget_isBig in Hm. congruence. }
        unfold bind.
        destruct (ServerGameData_updateAsteroids ps todo n2) as [rest n3] eqn:Hr.
        intros [= <- _]. rewrite bigAsteroidCount_cons, Hb2.
        by rewrite (IH _ _ _ Hr).
      * intros Hr. rewrite (IH _ _ _ Hr). lia.
    + unfold bind.
      destruct (ServerGameData_updateAsteroids ps todo n) as [rest n3] eqn:Hr.
      intros [= <- _]. rewrite bigAsteroidCount_cons.
      by rewrite (IH _ _ _ Hr).
Qed.

Lemma advance_counter gd n gd' n' :
  ServerGameData_advance gd n = (gd', n') -> counter_ok gd -> counter_ok gd'.
Proof.
  unfold ServerGameData_advance, bind, ret.
  destruct (ServerGameData_updatePlayers _ _ _) as [[ps bh] n1].
  destruct (ServerGameData_updateAsteroids _ _ _) as [asts n2] eqn:Ha.
  apply updateAsteroids_bigCount in Ha.
  intros [= <- _]. unfold counter_ok. simpl. by rewrite Ha.
Qed.

Lemma topUp_spec gd n gd' n' :
  ServerGameData_topUp gd n = (gd', n') ->
  players gd' = players gd /\ bulletHouse gd' = bulletHouse gd
  /\ exists new,
       asteroids gd' = asteroids gd ++ new
       /\ Forall (fun a => a_isBig a = true) new
       /\ Z.of_nat (length new)
          = Z.max 0 (ServerGameData_neededBigAsteroidCount gd
                     - curBigAsteroidsCount gd)
       /\ curBigAsteroidsCount gd'
          = Z.max (curBigAsteroidsCount gd)
              (ServerGameData_neededBigAsteroidCount gd).
Proof.
  unfold ServerGameData_topUp. case_bool_decide as Hlt.
  - intros Hrun. apply pushBigAsteroids_spec in Hrun
      as (Hp & Hb & Hc & new & Ha & Hl & Hf).
    split; [done|]. split; [done|]. exists new.
    split; [done|]. split; [done|]. split; lia.
  - intros [= <- _]. split; [done|]. split; [done|]. exists [].
    rewrite app_nil_r. split; [done|]. split; [done|]. simpl. split; lia.
Qed.

Lemma topUp_counter gd n gd' n' :
  ServerGameData_topUp gd n = (gd', n') -> counter_ok gd -> counter_ok gd'.
Proof.
  unfold ServerGameData_topUp. case_bool_decide.
  - apply pushBigAsteroids_counter.
  - by intros [= <- _].
Qed.

Lemma simulate_counter s s3 :
  ServerGameData_simulate s = Some s3 ->
  server_counter_ok s -> server_counter_ok s3.
Proof.
  unfold ServerGameData_simulate. intros Hrun Hs.
  set (s1 := runGameData _ s) in Hrun.
  assert (Hs1 : server_counter_ok s1).
  { subst s1. unfold runGameData, server_counter_ok.
    destruct (ServerGameData_advance _ _) as [gd n] eqn:Ha. simpl.
    by eapply advance_counter. }
  destruct (ServerGameData_collideAsteroids_from _ _) as [s2|] eqn:Hc;
    [|done].
  injection Hrun as <-.
  apply (collidePlayers_pres server_counter_ok);
    auto using asteroidKilledPlayer_counter, bulletKilledAsteroid_counter,
               bulletKilledPlayer_counter.
  eapply (collideAsteroids_from_pres server_counter_ok); eauto
    using asteroidKilledPlayer_counter, bulletKilledAsteroid_counter,
          bulletKilledPlayer_counter.
Qed.

Lemma update_counter s s' :
  ServerGameData_update s = Some s' ->
  server_counter_ok s -> server_counter_ok s'.
Proof.
  unfold ServerGameData_update. intros Hrun Hs.
  destruct (ServerGameData_simulate s) as [s3|] eqn:Hsim; [|done].
  injection Hrun as <-. apply simulate_counter in Hsim; [|done].
  unfold runGameData, server_counter_ok.
  destruct (ServerGameData_topUp _ _) as [gd n] eqn:Ht. simpl.
  by eapply topUp_counter.
Qed.

Lemma removePlayerById_frame id gd :
  asteroids (ServerGameData_removePlayerById id gd).2 = asteroids gd
  /\ curBigAsteroidsCount (ServerGameData_removePlayerById id gd).2
     = curBigAsteroidsCount gd
  /\ bulletHouse (ServerGameData_removePlayerById id gd).2 = bulletHouse gd.
Proof.
  unfold ServerGameData_removePlayerById. by destruct (Players_get _ _).
Qed.

Lemma reachable_counter_ok s : reachable s -> server_counter_ok s.
Proof.
  induction 1 as [|sock s _ IH|sock s _ IH|sock name color s _ IH
                  |sock input s _ IH|s s' _ IH Hloop|a p s _ IH|r a s _ IH
                  |r p s _ IH|id name color s _ IH|id s _ IH|a s _ IH
                  |id s _ IH|id s _ IH].
  - unfold new_Server, runGameData, server_counter_ok.
    destruct (new_ServerGameData _) as [gd n] eqn:Hn. simpl.
    by eapply new_ServerGameData_counter.
  - exact IH.
  - unfold Server_onDisconnectedEvent, server_counter_ok.
    destruct (socketMe _ _);
      destruct (list_find _ _) as [[??]|]; simpl; try exact IH;
      (eapply counter_ok_ext; [| |exact IH]; simpl;
       apply removePlayerById_frame).
  - unfold Server_onTryLoggingInEvent.
    destruct (list_find _ _) as [[i sock']|]; [|done].
    destruct (s_me sock'); [done|].
    unfold ServerGameData_addPlayer, bind, ret.
    destruct (new_ServerPlayer _ _ _ _ _ _) as [pl n]. exact IH.
  - unfold Server_onPlayerInputEvent. destruct (socketMe _ _); exact IH.
  - unfold Server_gameUpdateLoop in Hloop.
    destruct (ServerGameData_update s) as [s1|] eqn:Hu; [|done].
    injection Hloop as <-. exact (update_counter s s1 Hu IH).
  - by apply asteroidKilledPlayer_counter.
  - by apply bulletKilledAsteroid_counter.
  - by apply bulletKilledPlayer_counter.
  - unfold runGameData, ServerGameData_addPlayer, bind, ret.
    destruct (new_ServerPlayer _ _ _ _ _ _) as [pl n]. exact IH.
  - unfold server_counter_ok. simpl.
    eapply counter_ok_ext; [| |exact IH]; apply removePlayerById_frame.
  - by apply runGameData_breakAsteroid_counter.
  - exact IH.
  - exact IH.
Qed.

(** C10: in every state of the server the counter [curBigAsteroidsCount]
    is the number of asteroids of the collection that are big. *)
Theorem counter_is_big_asteroid_count (s : Server) :
  reachable s ->
  curBigAsteroidsCount (gameData s)
  = Z.of_nat
      (length (filter (fun a => a_isBig a = true) (asteroids (gameData s)))).
Proof. apply reachable_counter_ok. Qed.

(** C1: a tick that completes ends with the top-up, which appends as
    many new big asteroids as the count of big asteroids after the
    collision passes falls short of [max(7, 3 * players.size)], and none
    otherwise; so the number of big asteroids at the end of the tick is at
    least [max(7, 3 * players.size)]. *)
Theorem update_keeps_population_floor (s s' : Server) :
  reachable s -> ServerGameData_update s = Some s' ->
  exists s3 new,
    ServerGameData_simulate s = Some s3
    /\ players (gameData s') = players (gameData s3)
    /\ asteroids (gameData s') = asteroids (gameData s3) ++ new
    /\ Forall (fun a => a_isBig a = true) new
    /\ Z.of_nat (length new)
       = Z.max 0
           (Z.max 7 (Z.of_nat (length (players (gameData s3))) * 3)
            - bigAsteroidCount (asteroids (gameData s3)))
    /\ (Z.max 7 (3 * Z.of_nat (length (players (gameData s'))))
        <= bigAsteroidCount (asteroids (gameData s')))%Z.
Proof.
  intros Hreach Hrun. apply reachable_counter_ok in Hreach.
  unfold ServerGameData_update in Hrun.
  destruct (ServerGameData_simulate s) as [s3|] eqn:Hsim; [|done].
  injection Hrun as <-. apply simulate_counter in Hsim; [|done].
  exists s3. unfold runGameData.
  destruct (ServerGameData_topUp _ _) as [gd n] eqn:Ht. simpl.
  destruct (topUp_spec _ _ _ _ Ht) as (Hp & _ & new & Ha & Hf & Hl & Hc).
  exists new. unfold server_counter_ok, counter_ok in Hsim.
  unfold ServerGameData_neededBigAsteroidCount,
    ServerGameData_minBigAsteroidCount,
    ServerGameData_bigAsteroidCountMultiplesOfPlayer in *.
  rewrite Hsim in Hl, Hc.
  split; [done|]. split; [done|]. split; [done|]. split; [done|].
  split; [done|].
  rewrite Ha, Hp, bigAsteroidCount_app, (bigAsteroidCount_all_big new) by done.
  lia.
Qed.

End CounterProofs.

Section BreakProofs.
Context {E : Externals}.

Lemma createPieceOf_pieceOf width height big n a n' :
  ServerAsteroid_createPieceOf width height big n = (a, n') ->
  pieceOf big a.
Proof.
  intros Hc. split; [by eapply createPieceOf_isBig|].
  revert Hc. unfold ServerAsteroid_createPieceOf, bind, call, ret.
  destruct (new_ServerAsteroid _ _ _ _) as [a0 n1].
  intros [= <- _]. by exists n1, (S n1).
Qed.

Lemma removeAsteroidById_unique (asteroid : ServerAsteroid) gd :
  asteroid ∈ asteroids gd -> NoDup (a_id <$> asteroids gd) ->
  exists l1 l2,
    asteroids gd = l1 ++ asteroid :: l2
    /\ ServerGameData_removeAsteroidById (a_id asteroid) gd
       = (Some asteroid,
          {| players := players gd; bulletHouse := bulletHouse gd;
             asteroids := l1 ++ l2;
             curBigAsteroidsCount := curBigAsteroidsCount gd |}).
Proof.
  intros Hin Hnd. unfold ServerGameData_removeAsteroidById.
  destruct (list_find _ _) as [[i removed]|] eqn:Hf.
  - apply list_find_Some in Hf as (Hi & Hid & _).
    apply list_elem_of_lookup_1 in Hin as [j Hj].
    assert (i = j) as ->.
    { eapply NoDup_lookup; [exact Hnd| |].
      - rewrite list_lookup_fmap, Hi. simpl. by rewrite <-Hid.
      - by rewrite list_lookup_fmap, Hj. }
    assert (removed = asteroid) as -> by congruence.
    exists (take j (asteroids gd)), (drop (S j) (asteroids gd)).
    split; [by rewrite take_drop_middle|].
    unfold Array_splice1. by rewrite delete_take_drop.
  - apply list_find_None in Hf. rewrite Forall_forall in Hf.
    by destruct (Hf asteroid Hin).
Qed.

Lemma pieceOf_nearTo (big piece : ServerAsteroid) :
  (forall k, (0 <= Math_random k)%Qc /\ (Math_random k < 1)%Qc) ->
  (forall v lo hi : Qc,
     (0 <= v <= 1)%Qc -> (lo <= hi)%Qc ->
     (lo <= Utils_map v 0 1 lo hi <= hi)%Qc) ->
  pieceOf big piece -> nearTo big piece.
Proof.
  intros Hrandom Hmap (_ & k & k' & Hx & Hy). unfold nearTo.
  rewrite Hx, Hy. clear Hx Hy.
  assert (Hle : (- num 20 <= num 20)%Qc) by (vm_compute; discriminate).
  assert (Hin : forall j, (0 <= Math_random j <= 1)%Qc).
  { intros j. destruct (Hrandom j) as [H0 H1]. split; [done|].
    by apply Qclt_le_weak. }
  pose proof (Hmap _ _ _ (Hin k) Hle) as [Hx0 Hx1].
  pose proof (Hmap _ _ _ (Hin k') Hle) as [Hy0 Hy1].
  revert Hx0 Hx1 Hy0 Hy1.
  generalize (Utils_map (Math_random k) 0 1 (- num 20) (num 20))%Qc.
  generalize (Utils_map (Math_random k') 0 1 (- num 20) (num 20))%Qc.
  intros dy dx. qc_to_q. intros. repeat split; lra.
Qed.

(** C3: [breakAsteroid] on an asteroid of the world, whose ids are
    pairwise distinct, takes that asteroid out of the collection; for a
    big one it appends exactly three small asteroids, each displaced from
    the position of the removed one by values of
    [Utils.map(Math.random(), 0, 1, -20, 20)], hence within 20 of it
    along each axis, and lowers the counter by one; for a small one it
    appends nothing and leaves the counter.  The bound on the
    displacement is that of the target range of [Utils.map]: it holds as
    long as [Math.random] returns a value from 0 up to 1 and [Utils.map]
    takes the range from 0 to 1 into its target range. *)
Theorem breakAsteroid_splits_big_only (asteroid : ServerAsteroid)
    (gd : ServerGameData) (n : nat) :
  (forall k, (0 <= Math_random k)%Qc /\ (Math_random k < 1)%Qc) ->
  (forall v lo hi : Qc,
     (0 <= v <= 1)%Qc -> (lo <= hi)%Qc ->
     (lo <= Utils_map v 0 1 lo hi <= hi)%Qc) ->
  asteroid ∈ asteroids gd -> NoDup (a_id <$> asteroids gd) ->
  exists l1 l2,
    asteroids gd = l1 ++ asteroid :: l2
    /\ players (ServerGameData_breakAsteroid asteroid gd n).1 = players gd
    /\ bulletHouse (ServerGameData_breakAsteroid asteroid gd n).1
       = bulletHouse gd
    /\ if a_isBig asteroid then
         (exists p1 p2 p3,
            asteroids (ServerGameData_breakAsteroid asteroid gd n).1
            = (l1 ++ l2) ++ [p1; p2; p3]
            /\ pieceOf asteroid p1 /\ pieceOf asteroid p2
            /\ pieceOf asteroid p3
            /\ nearTo asteroid p1 /\ nearTo asteroid p2
            /\ nearTo asteroid p3)
         /\ curBigAsteroidsCount (ServerGameData_breakAsteroid asteroid gd n).1
            = (curBigAsteroidsCount gd - 1)%Z
       else
         asteroids (ServerGameData_breakAsteroid asteroid gd n).1 = l1 ++ l2
         /\ curBigAsteroidsCount (ServerGameData_breakAsteroid asteroid gd n).1
            = curBigAsteroidsCount gd.
Proof.
  intros Hrandom Hmap Hin Hnd.
  destruct (removeAsteroidById_unique asteroid gd Hin Hnd)
    as (l1 & l2 & Hl & Hrm).
  exists l1, l2. split; [done|].
  unfold ServerGameData_breakAsteroid. rewrite Hrm.
  destruct (a_isBig asteroid).
  - unfold bind, ret.
    destruct (ServerAsteroid_createPieceOf _ _ _ n) as [p1 n1] eqn:H1.
    destruct (ServerAsteroid_createPieceOf _ _ _ n1) as [p2 n2] eqn:H2.
    destruct (ServerAsteroid_createPieceOf _ _ _ n2) as [p3 n3] eqn:H3.
    apply createPieceOf_pieceOf in H1, H2, H3. simpl.
    split; [done|]. split; [done|]. split; [|done].
    exists p1, p2, p3.
    repeat (split; [done|]).
    split; [by apply pieceOf_nearTo|].
    split; by apply pieceOf_nearTo.
  - simpl. done.
Qed.

End BreakProofs.

(** ** Ships: invincibility, eligibility, wraparound *)

Section ShipProofs.
Context {E : Externals}.

Lemma update_countdown width height p bh n :
  p_invincibleCountdown (ServerPlayer_update width height p bh n).1.1
  = if bool_decide (0 < p_invincibleCountdown p)%Z
    then (p_invincibleCountdown p - 1)%Z
    else p_invincibleCountdown p.
Proof.
  unfold ServerPlayer_update, bind, ret.
  destruct (ServerPlayer_fire _ _ _) as [[[[now then_] fireDelta] bh'] n1].
  destruct (ServerPlayer_blink _ _ _) as [color n2]. done.
Qed.

Lemma update_id width height p bh n :
  p_id (ServerPlayer_update width height p bh n).1.1 = p_id p.
Proof.
  unfold ServerPlayer_update, bind, ret.
  destruct (ServerPlayer_fire _ _ _) as [[[[now then_] fireDelta] bh'] n1].
  destruct (ServerPlayer_blink _ _ _) as [color n2]. done.
Qed.

Lemma updatePlayers_countdown ps bh n :
  Forall2
    (fun p p' =>
       p_id p' = p_id p
       /\ p_invincibleCountdown p'
          = if bool_decide (0 < p_invincibleCountdown p)%Z
            then (p_invincibleCountdown p - 1)%Z
            else p_invincibleCountdown p)
    ps (ServerGameData_updatePlayers ps bh n).1.1.
Proof.
  revert bh n. induction ps as [|p ps IH]; intros bh n; simpl; [constructor|].
  unfold bind.
  pose proof (update_countdown ServerGameData_width ServerGameData_height
                p bh n) as Hc.
  pose proof (update_id ServerGameData_width ServerGameData_height
                p bh n) as Hi.
  destruct (ServerPlayer_update _ _ p bh n) as [[p' bh1] n1].
  specialize (IH bh1 n1).
  destruct (ServerGameData_updatePlayers ps bh1 n1) as [[ps' bh2] n2].
  simpl in *. by constructor.
Qed.


(** C6: a ship is willing to collide with a projectile that another
    firer (or none) fired and that is not flagged for recycling, and
    with any asteroid, and with nothing else; an asteroid with a
    projectile that is not flagged, and with nothing else; a projectile
    with nothing, and its collision check does nothing. *)
Theorem collision_eligibility :
  (forall h s other,
     ServerPlayer_isCollisionTarget h s other = true
     <-> (exists r b, other = OBullet r /\ h !! r = Some b
            /\ b_firerId b <> Some (p_id s)
            /\ b_needsToBeRecycled b = false)
         \/ (exists a, other = OAsteroid a))
  /\ (forall h a other,
        ServerAsteroid_isCollisionTarget h a other = true
        <-> exists r b, other = OBullet r /\ h !! r = Some b
              /\ b_needsToBeRecycled b = false)
  /\ (forall other, ServerBullet_isCollisionTarget other = false)
  /\ (forall othersArray s, ServerBullet_checkCollidedWith othersArray s = s)
  /\ (forall r othersArray s,
        Utils_checkCollidedWith (OBullet r) othersArray s = s).
Proof.
  split.
  { intros h s [r|a|p]; simpl.
    - destruct (h !! r) as [b|] eqn:Hb.
      + rewrite andb_true_iff, bool_decide_eq_true, negb_true_iff. split.
        * intros [? ?]. left. by exists r, b.
        * intros [(r' & b' & ? & ? & ? & ?)|(a & ?)]; by simplify_eq.
      + split; [done|].
        intros [(r' & b' & ? & ? & ? & ?)|(a & ?)]; by simplify_eq.
    - split; [|done]. intros _. right. by exists a.
    - split; [done|].
      intros [(r' & b' & ? & ? & ? & ?)|(a & ?)]; by simplify_eq. }
  split.
  { intros h a [r|a'|p]; simpl.
    - destruct (h !! r) as [b|] eqn:Hb.
      + rewrite negb_true_iff. split.
        * intros ?. by exists r, b.
        * intros (r' & b' & ? & ? & ?); by simplify_eq.
      + split; [done|]. intros (r' & b' & ? & ? & ?); by simplify_eq.
    - split; [done|]. intros (r' & b' & ? & ? & ?); by simplify_eq.
    - split; [done|]. intros (r' & b' & ? & ? & ?); by simplify_eq. }
  split; [done|]. split; [done|].
  intros r othersArray s. unfold Utils_checkCollidedWith.
  generalize (concat othersArray). intros l. revert s.
  induction l as [|o l IH]; intros s; simpl; [done|]. apply IH.
Qed.

Lemma wrapEdge_spec (size v : Qc) :
  (0 <= size)%Qc ->
  ((size + ServerPlayer_size < v)%Qc -> wrapEdge size v = (- ServerPlayer_size)%Qc)
  /\ ((v < - ServerPlayer_size)%Qc -> wrapEdge size v = (size + ServerPlayer_size)%Qc)
  /\ ((- ServerPlayer_size <= v <= size + ServerPlayer_size)%Qc ->
      wrapEdge size v = v).
Proof.
  intros Hsize. unfold wrapEdge, gtb, ltb. split; [|split].
  - intros Hgt. by rewrite bool_decide_eq_true_2.
  - intros Hlt. rewrite bool_decide_eq_false_2, bool_decide_eq_true_2; try done.
    unfold ServerPlayer_size in *. intros Hgt. qc_to_q. lra.
  - intros [Hlo Hhi]. rewrite !bool_decide_eq_false_2; try done.
    + by apply Qcle_not_lt.
    + by apply Qcle_not_lt.
Qed.

(** C9: with [r] the size of the ship and a world of extent [width] by
    [height], the edge check sends [x > width + r] to [-r] and [x < -r]
    to [width + r], sends [y > height + r] to [-r] and [y < -r] to
    [height + r], and leaves a coordinate within those bounds as it
    is. *)
Theorem checkEdges_wraps_around (width height : Qc) (p : ServerPlayer) :
  (0 <= width)%Qc -> (0 <= height)%Qc ->
  ((width + ServerPlayer_size < p_x p)%Qc ->
   p_x (ServerPlayer_checkEdges width height p) = (- ServerPlayer_size)%Qc)
  /\ ((p_x p < - ServerPlayer_size)%Qc ->
      p_x (ServerPlayer_checkEdges width height p)
      = (width + ServerPlayer_size)%Qc)
  /\ ((- ServerPlayer_size <= p_x p <= width + ServerPlayer_size)%Qc ->
      p_x (ServerPlayer_checkEdges width height p) = p_x p)
  /\ ((height + ServerPlayer_size < p_y p)%Qc ->
      p_y (ServerPlayer_checkEdges width height p) = (- ServerPlayer_size)%Qc)
  /\ ((p_y p < - ServerPlayer_size)%Qc ->
      p_y (ServerPlayer_checkEdges width height p)
      = (height + ServerPlayer_size)%Qc)
  /\ ((- ServerPlayer_size <= p_y p <= height + ServerPlayer_size)%Qc ->
      p_y (ServerPlayer_checkEdges width height p) = p_y p)
  /\ ServerPlayer_size = num 15.
Proof.
  intros Hw Hh.
  destruct (wrapEdge_spec width (p_x p) Hw) as (Hx1 & Hx2 & Hx3).
  destruct (wrapEdge_spec height (p_y p) Hh) as (Hy1 & Hy2 & Hy3).
  unfold ServerPlayer_checkEdges. cbn [p_x p_y]. tauto.
Qed.

End ShipProofs.

(** ** A projectile kills a ship *)

Section KillProofs.

Lemma Players_get_Some id ps p :
  Players_get id ps = Some p -> p_id p = id /\ p ∈ ps.
Proof.
  unfold Players_get. intros Hf. apply find_some in Hf as [Hin Hid].
  apply bool_decide_eq_true in Hid. split; [done|].
  by apply list_elem_of_In.
Qed.

Lemma Players_get_delete_eq id ps :
  Players_get id (Players_delete id ps) = None.
Proof.
  unfold Players_get, Players_delete.
  induction ps as [|p ps IH]; [done|].
  rewrite filter_cons. case_decide as Hp; [|done].
  simpl. by rewrite bool_decide_eq_false_2.
Qed.

Lemma Players_get_delete_ne id id' ps :
  id <> id' ->
  Players_get id (Players_delete id' ps) = Players_get id ps.
Proof.
  intros Hne. unfold Players_get, Players_delete.
  induction ps as [|p ps IH]; [done|].
  rewrite filter_cons. case_decide as Hp; simpl.
  - by rewrite IH.
  - rewrite bool_decide_eq_false_2; [done|]. congruence.
Qed.

Lemma Players_get_alter f id id' ps :
  (forall p, p_id (f p) = p_id p) ->
  Players_get id (Players_alter f id' ps)
  = if bool_decide (id = id') then f <$> Players_get id ps
    else Players_get id ps.
Proof.
  intros Hf. unfold Players_get.
  induction ps as [|p ps IH]; simpl; [by case_bool_decide|].
  destruct (bool_decide (p_id p = id')) eqn:Hp; simpl.
  - apply bool_decide_eq_true in Hp. rewrite Hf.
    case_bool_decide as Hid.
    + subst id. rewrite bool_decide_eq_true_2 by done. done.
    + rewrite bool_decide_eq_false_2 by congruence. done.
  - apply bool_decide_eq_false in Hp.
    destruct (bool_decide (p_id p = id)) eqn:Hq; [|exact IH].
    apply bool_decide_eq_true in Hq.
    rewrite bool_decide_eq_false_2 by congruence. done.
Qed.

Lemma firedBy_prepareRecycle h id r r' :
  firedBy (alter ServerBullet_prepareRecycle r h) id r'
  = if bool_decide (r' = r) then false else firedBy h id r'.
Proof.
  unfold firedBy. case_bool_decide as Hr.
  - subst r'. rewrite list_lookup_alter_eq. by destruct (h !! r).
  - by rewrite list_lookup_alter_ne.
Qed.

Lemma recycleAt_noneFiredBy id j r bh :
  (forall r', r' ∈ bullets bh -> firedBy (heap bh) id r' = false) ->
  forall r', r' ∈ bullets (BulletHouse_recycleAt j r bh) ->
    firedBy (heap (BulletHouse_recycleAt j r bh)) id r' = false.
Proof.
  intros Hall r' Hr'. simpl in *. rewrite firedBy_prepareRecycle.
  case_bool_decide; [done|]. apply Hall.
  by apply list_elem_of_delete_inv in Hr'.
Qed.

Lemma recycleBulletsByFirerId_from_none id i bh :
  i <= length (bullets bh) ->
  (forall k r', i <= k -> bullets bh !! k = Some r' ->
     firedBy (heap bh) id r' = false) ->
  forall r', r' ∈ bullets (BulletHouse_recycleBulletsByFirerId_from i id bh) ->
    firedBy (heap (BulletHouse_recycleBulletsByFirerId_from i id bh)) id r'
    = false.
Proof.
  revert bh. induction i as [|j IH]; intros bh Hle Hdone; simpl.
  - intros r' Hr'. apply list_elem_of_lookup_1 in Hr' as [k Hk].
    apply (Hdone k); [lia|done].
  - destruct (bullets bh !! j) as [r|] eqn:Hj.
    2:{ apply lookup_ge_None in Hj. lia. }
    apply IH.
    + destruct (firedBy (heap bh) id r); simpl; [|lia].
      unfold Array_splice1. rewrite length_delete by (by eexists). lia.
    + intros k r' Hk Hr'. destruct (firedBy (heap bh) id r) eqn:Hfb.
      * simpl in *. rewrite firedBy_prepareRecycle.
        case_bool_decide; [done|]. unfold Array_splice1 in Hr'.
        rewrite list_lookup_delete_ge in Hr' by done.
        apply (Hdone (S k)); [lia|done].
      * destruct (decide (k = j)) as [->|Hne].
        -- congruence.
        -- apply (Hdone k); [lia|done].
Qed.

Lemma recycleBulletsByFirerId_none id bh :
  forall r', r' ∈ bullets (BulletHouse_recycleBulletsByFirerId id bh) ->
    firedBy (heap (BulletHouse_recycleBulletsByFirerId id bh)) id r' = false.
Proof.
  apply recycleBulletsByFirerId_from_none; [done|].
  intros k r' Hk Hr'. apply lookup_lt_Some in Hr'. lia.
Qed.

Lemma recycleBulletById_noneFiredBy id bid bh :
  (forall r', r' ∈ bullets bh -> firedBy (heap bh) id r' = false) ->
  forall r', r' ∈ bullets (BulletHouse_recycleBulletById bid bh) ->
    firedBy (heap (BulletHouse_recycleBulletById bid bh)) id r' = false.
Proof.
  intros Hall. unfold BulletHouse_recycleBulletById.
  destruct (list_find _ _) as [[i r]|]; [|done].
  by apply recycleAt_noneFiredBy.
Qed.

Lemma notifyKilled_spec id ev s :
  gameData (Server_notifyKilled id ev s) = gameData s
  /\ match list_find (fun sock => s_id sock = id) (connectedSockets s) with
     | Some (i, sock) =>
         sent (Server_notifyKilled id ev s) = sent s ++ [ev id]
         /\ connectedSockets (Server_notifyKilled id ev s)
            = alter clearMe i (connectedSockets s)
     | None =>
         sent (Server_notifyKilled id ev s) = sent s
         /\ connectedSockets (Server_notifyKilled id ev s)
            = connectedSockets s
     end.
Proof.
  unfold Server_notifyKilled.
  destruct (list_find _ _) as [[i sock]|] eqn:Hf; [|done].
  apply list_find_Some in Hf as (_ & <- & _). done.
Qed.

(** [bulletKilledPlayer], case by case: when the firer of the projectile
    is found and the victim is in the live collection, the victim is
    removed, every projectile it fired is recycled, its socket (when one
    is connected) is told and the firer is credited; when the projectile
    has no firer id, or its firer is not found, the one effect is that
    the projectile that hit is recycled by id. *)
Lemma bulletKilledPlayer_cases (s : Server) (bullet : nat)
    (b : ServerBullet) (player : ServerPlayer) :
  heap (bulletHouse (gameData s)) !! bullet = Some b ->
  ((truthy (b_firerId b) = None
    \/ (exists firerId,
          truthy (b_firerId b) = Some firerId
          /\ ServerGameData_getPlayerWithId firerId (gameData s) = None)) ->
   Server_bulletKilledPlayer bullet player s
   = withGameData (ServerGameData_recycleBulletById (b_id b) (gameData s)) s)
  /\ (forall firerId firer killed,
        truthy (b_firerId b) = Some firerId ->
        ServerGameData_getPlayerWithId firerId (gameData s) = Some firer ->
        ServerGameData_getPlayerWithId (p_id player) (gameData s)
        = Some killed ->
        ServerGameData_getPlayerWithId (p_id player)
          (gameData (Server_bulletKilledPlayer bullet player s)) = None
        /\ (forall r,
              r ∈ bullets (bulletHouse
                             (gameData
                                (Server_bulletKilledPlayer bullet player s))) ->
              firedBy
                (heap (bulletHouse
                         (gameData
                            (Server_bulletKilledPlayer bullet player s))))
                (p_id player) r = false)
        /\ match
             list_find (fun sock => s_id sock = p_id player)
               (connectedSockets s)
           with
           | Some (i, sock) =>
               sent (Server_bulletKilledPlayer bullet player s)
               = sent s
                 ++ [KilledByPlayerEvent (p_id player) firerId (p_id player)]
               /\ connectedSockets (Server_bulletKilledPlayer bullet player s)
                  = alter clearMe i (connectedSockets s)
           | None =>
               sent (Server_bulletKilledPlayer bullet player s) = sent s
               /\ connectedSockets (Server_bulletKilledPlayer bullet player s)
                  = connectedSockets s
           end
        /\ (firerId <> p_id player ->
            ServerGameData_getPlayerWithId firerId
              (gameData (Server_bulletKilledPlayer bullet player s))
            = Some (ServerPlayer_increaseKillingPoint firer))).
Proof.
  intros Hb. unfold Server_bulletKilledPlayer. rewrite Hb. split.
  { intros [->|(firerId & -> & ->)]; done. }
  intros firerId firer killed -> Hfirer Hkilled. rewrite Hfirer.
  unfold ServerGameData_removePlayerById.
  unfold ServerGameData_getPlayerWithId in *. rewrite Hkilled.
  apply Players_get_Some in Hfirer as Hf. destruct Hf as [Hfid _].
  apply Players_get_Some in Hkilled as Hk. destruct Hk as [Hkid _].
  rewrite Hfid, Hkid.
  match goal with
  | |- context [Server_notifyKilled ?i ?e ?s0] =>
      destruct (notifyKilled_spec i e s0) as (Hgd & Hsock);
      set (s1 := Server_notifyKilled i e s0) in *
  end.
  cbn [gameData withGameData connectedSockets sent] in *.
  cbn [ServerGameData_recycleBulletById ServerGameData_recycleBulletsByFirerId
       alterPlayer players bulletHouse] in *.
  rewrite Hgd.
  unfold ServerGameData_recycleBulletById,
    ServerGameData_recycleBulletsByFirerId, alterPlayer.
  cbn [players bulletHouse].
  split.
  { rewrite Players_get_alter by done.
    rewrite Players_get_delete_eq. by case_bool_decide. }
  split.
  { apply recycleBulletById_noneFiredBy, recycleBulletsByFirerId_none. }
  split.
  { destruct (list_find _ _) as [[i sock]|]; exact Hsock. }
  intros Hne. rewrite Players_get_alter by done.
  rewrite bool_decide_eq_true_2 by done.
  rewrite Players_get_delete_ne by done.
  unfold Players_get in *. by rewrite Hfirer.
Qed.

End KillProofs.

(** ** Asteroid ids and the completion of a tick *)

Section FreshProofs.
Context {E : Externals}.
Hypothesis uuid_inj : forall m n : nat, uuid m = uuid n -> m = n.

Lemma setRandomSpawnPoint_calls width height n xy n' :
  ServerAsteroid_setRandomSpawnPoint width height n = (xy, n') -> n <= n'.
Proof.
  unfold ServerAsteroid_setRandomSpawnPoint, bind, call, ret.
  repeat case_match; intros [= _ <-]; lia.
Qed.

Lemma makeVertices_calls todo i count minD maxD n vs n' :
  ServerAsteroid_makeVertices todo i count minD maxD n = (vs, n') -> n <= n'.
Proof.
  revert i n vs n'. induction todo as [|todo IH]; intros i n vs n'; simpl.
  - intros [= _ <-]. lia.
  - unfold bind, call, ret.
    destruct (ServerAsteroid_makeVertices _ _ _ _ _ _) as [rest n1] eqn:Hr.
    apply IH in Hr. intros [= _ <-]. lia.
Qed.

Lemma new_ServerAsteroid_id width height isBig n a n' :
  new_ServerAsteroid width height isBig n = (a, n') ->
  a_id a = uuid n /\ n < n'.
Proof.
  unfold new_ServerAsteroid, bind, call, ret.
  destruct (ServerAsteroid_setRandomSpawnPoint _ _ _) as [[x y] n1] eqn:Hs.
  apply setRandomSpawnPoint_calls in Hs.
  destruct isBig;
    destruct (ServerAsteroid_makeVertices _ _ _ _ _ _) as [vs n2] eqn:Hv;
    apply makeVertices_calls in Hv; intros [= <- <-]; simpl; split; try done;
    lia.
Qed.

Lemma createPieceOf_id width height big n a n' :
  ServerAsteroid_createPieceOf width height big n = (a, n') ->
  a_id a = uuid n /\ n < n'.
Proof.
  unfold ServerAsteroid_createPieceOf, bind, call, ret.
  destruct (new_ServerAsteroid _ _ _ _) as [a0 n1] eqn:Hnew.
  apply new_ServerAsteroid_id in Hnew as [Hid Hlt].
  intros [= <- <-]. simpl. split; [done|lia].
Qed.

Lemma setTarget_id x y a n a' n' :
  ServerAsteroid_setTarget x y a n = (a', n') -> a_id a' = a_id a /\ n <= n'.
Proof.
  unfold ServerAsteroid_setTarget, bind, call, ret.
  destruct (a_isBig a); intros [= <- <-]; simpl; split; try done; lia.
Qed.

Lemma ids_issued_mono n n' ids :
  n <= n' -> ids_issued n ids -> ids_issued n' ids.
Proof.
  intros Hle [Hnd Hall]. split; [done|].
  intros id Hid. destruct (Hall id Hid) as (k & Hk & ->). exists k.
  split; [lia|done].
Qed.

Lemma ids_issued_sublist n ids ids' :
  ids' `sublist_of` ids -> ids_issued n ids -> ids_issued n ids'.
Proof.
  intros Hsub [Hnd Hall]. split.
  - eapply sublist_NoDup; [exact Hnd|exact Hsub].
  - intros id Hid. apply Hall. by eapply elem_of_sublist.
Qed.

Lemma ids_issued_snoc n m n' ids :
  ids_issued n ids -> n <= m -> m < n' -> ids_issued n' (ids ++ [uuid m]).
Proof using uuid_inj.
  intros [Hnd Hall] Hle Hlt. split.
  - apply NoDup_app. split; [done|]. split; [|apply NoDup_singleton].
    intros id Hid Hin. apply list_elem_of_singleton in Hin. subst id.
    destruct (Hall _ Hid) as (k & Hk & Heq). apply uuid_inj in Heq. lia.
  - intros id Hid. apply elem_of_app in Hid as [Hid|Hid].
    + destruct (Hall id Hid) as (k & Hk & ->). exists k. split; [lia|done].
    + apply list_elem_of_singleton in Hid. subst id. by exists m.
Qed.

Lemma pushBigAsteroids_ids count gd n gd' n' :
  ServerGameData_pushBigAsteroids count gd n = (gd', n') ->
  ids_issued n (a_id <$> asteroids gd) ->
  n <= n' /\ ids_issued n' (a_id <$> asteroids gd').
Proof using uuid_inj.
  revert gd n. induction count as [|c IH]; intros gd n.
  - by intros [= <- <-].
  - cbn [ServerGameData_pushBigAsteroids]. unfold bind.
    destruct (new_ServerAsteroid _ _ _ _) as [a n1] eqn:Hnew.
    apply new_ServerAsteroid_id in Hnew as [Hid Hlt].
    intros Hrec Hids. apply IH in Hrec as [Hle Hrec].
    + split; [lia|done].
    + cbn [asteroids]. rewrite fmap_app. simpl. rewrite Hid.
      by apply (ids_issued_snoc n n n1).
Qed.

Lemma breakAsteroid_ids asteroid gd n gd' n' :
  ServerGameData_breakAsteroid asteroid gd n = (gd', n') ->
  ids_issued n (a_id <$> asteroids gd) ->
  n <= n' /\ ids_issued n' (a_id <$> asteroids gd').
Proof using uuid_inj.
  unfold ServerGameData_breakAsteroid, ServerGameData_removeAsteroidById.
  destruct (list_find _ _) as [[i removed]|] eqn:Hf; [|by intros [= <- <-]].
  intros Hrun Hids.
  assert (Hdel : ids_issued n (a_id <$> Array_splice1 i (asteroids gd))).
  { eapply ids_issued_sublist; [|exact Hids]. unfold Array_splice1.
    rewrite list_fmap_delete. apply sublist_delete. }
  destruct (a_isBig removed).
  - revert Hrun. unfold bind, ret.
    destruct (ServerAsteroid_createPieceOf _ _ _ n) as [p1 n1] eqn:H1.
    destruct (ServerAsteroid_createPieceOf _ _ _ n1) as [p2 n2] eqn:H2.
    destruct (ServerAsteroid_createPieceOf _ _ _ n2) as [p3 n3] eqn:H3.
    apply createPieceOf_id in H1 as [Hi1 Hl1].
    apply createPieceOf_id in H2 as [Hi2 Hl2].
    apply createPieceOf_id in H3 as [Hi3 Hl3].
    intros [= <- <-]. split; [lia|]. cbn [asteroids].
    rewrite fmap_app. simpl. rewrite Hi1, Hi2, Hi3.
    change ([uuid n; uuid n1; uuid n2]) with ([uuid n] ++ [uuid n1] ++ [uuid n2]).
    rewrite !(assoc_L (++)).
    apply (ids_issued_snoc n2 n2 n3); [|lia|lia].
    apply (ids_issued_snoc n1 n1 n2); [|lia|lia].
    by apply (ids_issued_snoc n n n1).
  - injection Hrun as <- <-. done.
Qed.

Lemma updateAsteroids_ids ps todo n asts n' :
  ServerGameData_updateAsteroids ps todo n = (asts, n') ->
  n <= n' /\ (a_id <$> asts) `sublist_of` (a_id <$> todo).
Proof.
  revert n asts n'. induction todo as [|a todo IH]; intros n asts n'.
  - by intros [= <- <-].
  - cbn [ServerGameData_updateAsteroids].
    set (a1 := ServerAsteroid_update _ _ a).
    assert (Hid : a_id a1 = a_id a) by done. clearbody a1.
    rewrite fmap_cons, <-Hid.
    destruct (a_needNewTarget a1).
    + destruct (a_isBig a1) eqn:Hb.
      * unfold bind at 1. unfold call at 1. unfold bind at 1.
        set (m := match Utils_pickRandom ps n with Some _ => _ | None => _ end).
        destruct (m (S n)) as [a2 n2] eqn:Hm.
        assert (a_id a2 = a_id a1 /\ S n <= n2) as [Hid2 Hle2].
        { subst m. destruct (Utils_pickRandom ps n).
          - by apply setTarget_id in Hm.
          - unfold bind, call in Hm. apply setTarget_id in Hm as [? ?].
            split; [done|lia]. }
        unfold bind.
        destruct (ServerGameData_updateAsteroids ps todo n2) as [rest n3] eqn:Hr.
        apply IH in Hr as [Hle Hsub].
        intros [= <- <-]. split; [lia|]. rewrite fmap_cons, Hid2.
        by constructor.
      * intros Hr. apply IH in Hr as [Hle Hsub]. split; [done|].
        by constructor.
    + unfold bind.
      destruct (ServerGameData_updateAsteroids ps todo n) as [rest n3] eqn:Hr.
      apply IH in Hr as [Hle Hsub].
      intros [= <- <-]. split; [done|]. rewrite fmap_cons. by constructor.
Qed.

Lemma createOrGetBullet_calls bh n res n' :
  BulletHouse_createOrGetBullet bh n = (res, n') -> n <= n'.
Proof.
  unfold BulletHouse_createOrGetBullet, new_ServerBullet, bind, call, ret.
  destruct (Array_pop _) as [[r|] rest]; intros [= _ <-]; lia.
Qed.

Lemma fireBullet_calls firerId x y heading color bh n bh' n' :
  BulletHouse_fireBullet firerId x y heading color bh n = (bh', n') -> n <= n'.
Proof.
  unfold BulletHouse_fireBullet, bind, ret.
  destruct (BulletHouse_createOrGetBullet bh n) as [[r bh1] n1] eqn:Hc.
  apply createOrGetBullet_calls in Hc. by intros [= _ <-].
Qed.

Lemma ServerPlayer_update_calls width height p bh n res n' :
  ServerPlayer_update width height p bh n = (res, n') -> n <= n'.
Proof.
  unfold ServerPlayer_update, bind, ret.
  destruct (ServerPlayer_fire _ _ _) as [[[[now then_] fireDelta] bh'] n1] eqn:Hf.
  assert (n <= n1).
  { revert Hf. unfold ServerPlayer_fire, bind, call, ret.
    destruct (p_isFiring _); [|intros [= _ _ _ _ <-]; lia].
    destruct (gtb _ _); [|intros [= _ _ _ _ <-]; lia].
    destruct (BulletHouse_fireBullet _ _ _ _ _ _ _) as [bh2 n2] eqn:Hfb.
    apply fireBullet_calls in Hfb. intros [= _ _ _ _ <-]. lia. }
  destruct (ServerPlayer_blink _ _ _) as [color n2] eqn:Hbl.
  assert (n1 <= n2).
  { revert Hbl. unfold ServerPlayer_blink, bind, call, ret.
    case_bool_decide; intros [= _ <-]; lia. }
  intros [= _ <-]. lia.
Qed.

Lemma updatePlayers_calls ps bh n res n' :
  ServerGameData_updatePlayers ps bh n = (res, n') -> n <= n'.
Proof.
  revert bh n res n'. induction ps as [|p ps IH]; intros bh n res n'; simpl.
  - intros [= _ <-]. lia.
  - unfold bind, ret.
    destruct (ServerPlayer_update _ _ p bh n) as [[p' bh1] n1] eqn:Hu.
    apply ServerPlayer_update_calls in Hu.
    destruct (ServerGameData_updatePlayers ps bh1 n1) as [[ps' bh2] n2] eqn:Hr.
    apply IH in Hr. intros [= _ <-]. lia.
Qed.

Lemma advance_ids gd n gd' n' :
  ServerGameData_advance gd n = (gd', n') ->
  ids_issued n (a_id <$> asteroids gd) ->
  ids_issued n' (a_id <$> asteroids gd').
Proof.
  unfold ServerGameData_advance, bind, ret.
  destruct (ServerGameData_updatePlayers _ _ _) as [[ps bh] n1] eqn:Hp.
  apply updatePlayers_calls in Hp.
  destruct (ServerGameData_updateAsteroids _ _ _) as [asts n2] eqn:Ha.
  apply updateAsteroids_ids in Ha as [Hle Hsub].
  intros [= <- <-] Hids. cbn [asteroids].
  eapply ids_issued_sublist; [exact Hsub|].
  eapply ids_issued_mono; [|exact Hids]. lia.
Qed.

Lemma topUp_ids gd n gd' n' :
  ServerGameData_topUp gd n = (gd', n') ->
  ids_issued n (a_id <$> asteroids gd) ->
  ids_issued n' (a_id <$> asteroids gd').
Proof using uuid_inj.
  unfold ServerGameData_topUp. case_bool_decide.
  - intros Hrun Hids. by apply (pushBigAsteroids_ids _ _ _ _ _ Hrun).
  - by intros [= <- <-].
Qed.

Lemma runGameData_breakAsteroid_fresh a s :
  fresh_ok s ->
  fresh_ok (runGameData (ServerGameData_breakAsteroid a (gameData s)) s).
Proof using uuid_inj.
  unfold fresh_ok, runGameData. intros Hs.
  destruct (ServerGameData_breakAsteroid _ _ _) as [gd n] eqn:Hb.
  by apply breakAsteroid_ids in Hb as [_ Hb].
Qed.

Lemma asteroidKilledPlayer_fresh a p s :
  fresh_ok s -> fresh_ok (Server_asteroidKilledPlayer a p s).
Proof using uuid_inj.
  intros Hs. unfold Server_asteroidKilledPlayer.
  destruct (ServerGameData_removePlayerById _ _) as [[k|] gd1] eqn:Hr;
    apply runGameData_breakAsteroid_fresh; [|done].
  unfold fresh_ok, Server_notifyKilled.
  unfold ServerGameData_removePlayerById in Hr.
  destruct (Players_get _ _); [|done]. injection Hr as _ <-.
  by destruct (list_find _ _) as [[??]|].
Qed.

Lemma bulletKilledAsteroid_fresh r a s :
  fresh_ok s -> fresh_ok (Server_bulletKilledAsteroid r a s).
Proof using uuid_inj.
  intros Hs. unfold Server_bulletKilledAsteroid.
  destruct (_ !! r) as [b|]; [|done].
  set (s1 := match truthy _ with Some _ => _ | None => _ end).
  assert (Hs1 : fresh_ok s1).
  { subst s1. destruct (truthy _) as [fid|]; [|done].
    destruct (ServerGameData_getPlayerWithId _ _) as [firer|]; [|done].
    apply (runGameData_breakAsteroid_fresh a) in Hs. exact Hs. }
  exact Hs1.
Qed.

Lemma bulletKilledPlayer_fresh r p s :
  fresh_ok s -> fresh_ok (Server_bulletKilledPlayer r p s).
Proof.
  intros Hs. unfold Server_bulletKilledPlayer.
  destruct (_ !! r) as [b|]; [|done].
  set (s1 := match truthy _ with Some _ => _ | None => _ end).
  assert (Hs1 : fresh_ok s1).
  { subst s1. destruct (truthy _) as [fid|]; [|done].
    destruct (ServerGameData_getPlayerWithId _ _) as [firer|]; [|done].
    destruct (ServerGameData_removePlayerById _ _) as [[k|] gd1] eqn:Hr;
      [|done].
    unfold fresh_ok, Server_notifyKilled.
    unfold ServerGameData_removePlayerById in Hr.
    destruct (Players_get _ _); [|done]. injection Hr as _ <-.
    by destruct (list_find _ _) as [[??]|]. }
  exact Hs1.
Qed.

(** Once [breakAsteroid] has been called on the asteroid that stood at
    index [j], no asteroid carries its id and the collection still has
    at least [j] elements. *)
Lemma breakAsteroid_self j a gd n gd' n' :
  ServerGameData_breakAsteroid a gd n = (gd', n') ->
  ids_issued n (a_id <$> asteroids gd) ->
  asteroids gd !! j = Some a
  \/ (j <= length (asteroids gd) /\ a_id a ∉ a_id <$> asteroids gd) ->
  j <= length (asteroids gd') /\ a_id a ∉ a_id <$> asteroids gd'.
Proof using uuid_inj.
  unfold ServerGameData_breakAsteroid, ServerGameData_removeAsteroidById.
  intros Hrun [Hnd Hall] Hcase.
  destruct (list_find _ _) as [[i removed]|] eqn:Hf.
  - apply list_find_Some in Hf as (Hi & Hid & _).
    destruct Hcase as [Hj|[_ Hnotin]].
    2:{ exfalso. apply Hnotin. rewrite Hid.
        apply list_elem_of_fmap_2. by eapply list_elem_of_lookup_2. }
    assert (i = j) as ->.
    { eapply NoDup_lookup; [exact Hnd| |].
      - rewrite list_lookup_fmap, Hi. simpl. by rewrite <-Hid.
      - by rewrite list_lookup_fmap, Hj. }
    assert (removed = a) as -> by congruence.
    assert (Hlen : j <= length (Array_splice1 j (asteroids gd))).
    { unfold Array_splice1. rewrite length_delete by (by eexists).
      apply lookup_lt_Some in Hj. lia. }
    assert (Hgone : a_id a ∉ a_id <$> Array_splice1 j (asteroids gd)).
    { unfold Array_splice1. rewrite list_fmap_delete.
      apply NoDup_delete_notin; [done|]. by rewrite list_lookup_fmap, Hj. }
    destruct (Hall (a_id a)) as (k & Hk & Hak).
    { apply list_elem_of_fmap_2. by eapply list_elem_of_lookup_2. }
    destruct (a_isBig a).
    + revert Hrun. unfold bind, ret.
      destruct (ServerAsteroid_createPieceOf _ _ _ n) as [p1 n1] eqn:H1.
      destruct (ServerAsteroid_createPieceOf _ _ _ n1) as [p2 n2] eqn:H2.
      destruct (ServerAsteroid_createPieceOf _ _ _ n2) as [p3 n3] eqn:H3.
      apply createPieceOf_id in H1 as [Hi1 Hl1].
      apply createPieceOf_id in H2 as [Hi2 Hl2].
      apply createPieceOf_id in H3 as [Hi3 Hl3].
      intros [= <- <-]. cbn [asteroids]. split.
      * rewrite length_app. lia.
      * rewrite fmap_app, elem_of_app. intros [Hin|Hin]; [done|].
        simpl in Hin. rewrite Hi1, Hi2, Hi3, Hak in Hin.
        rewrite !elem_of_cons, elem_of_nil in Hin.
        destruct Hin as [Heq|[Heq|[Heq|[]]]]; apply uuid_inj in Heq; lia.
    + injection Hrun as <- <-. done.
  - injection Hrun as <- <-. destruct Hcase as [Hj|Hc]; [|done].
    apply list_find_None in Hf. rewrite Forall_forall in Hf.
    exfalso. apply (Hf a); [|done]. by eapply list_elem_of_lookup_2.
Qed.

Lemma bulletKilledAsteroid_self j a r s :
  fresh_ok s ->
  asteroids (gameData s) !! j = Some a
  \/ (j <= length (asteroids (gameData s))
      /\ a_id a ∉ a_id <$> asteroids (gameData s)) ->
  asteroids (gameData (Server_bulletKilledAsteroid r a s)) !! j = Some a
  \/ (j <= length (asteroids (gameData (Server_bulletKilledAsteroid r a s)))
      /\ a_id a ∉ a_id
                  <$> asteroids (gameData (Server_bulletKilledAsteroid r a s))).
Proof using uuid_inj.
  intros Hs Hcase. unfold Server_bulletKilledAsteroid.
  destruct (_ !! r) as [b|]; [|done].
  destruct (truthy _) as [fid|]; [|done].
  destruct (ServerGameData_getPlayerWithId _ _) as [firer|]; [|done].
  right. unfold runGameData.
  destruct (ServerGameData_breakAsteroid _ _ _) as [gd n] eqn:Hb.
  cbn [gameData withGameData ServerGameData_recycleBulletById alterPlayer
       asteroids].
  eapply breakAsteroid_self; [exact Hb|exact Hs|exact Hcase].
Qed.

Lemma asteroid_checkCollidedWith_length j a othersArray s :
  fresh_ok s -> asteroids (gameData s) !! j = Some a ->
  fresh_ok (ServerAsteroid_checkCollidedWith a othersArray s)
  /\ j <= length
            (asteroids
               (gameData (ServerAsteroid_checkCollidedWith a othersArray s))).
Proof using uuid_inj.
  intros Hs Hj.
  unfold ServerAsteroid_checkCollidedWith, Utils_checkCollidedWith.
  assert (Hcase : asteroids (gameData s) !! j = Some a
            \/ (j <= length (asteroids (gameData s))
                /\ a_id a ∉ a_id <$> asteroids (gameData s))) by by left.
  clear Hj. revert s Hs Hcase.
  induction (concat othersArray) as [|o l IH]; intros s Hs Hcase; simpl.
  - split; [done|]. destruct Hcase as [Hj|[? _]]; [|done].
    apply lookup_lt_Some in Hj. lia.
  - destruct (_ && _); [|by apply IH].
    destruct o as [r|a'|p]; simpl; try by apply IH.
    apply IH.
    + by apply bulletKilledAsteroid_fresh.
    + by apply bulletKilledAsteroid_self.
Qed.

Lemma collideAsteroids_from_total i s :
  fresh_ok s -> i <= length (asteroids (gameData s)) ->
  exists s', ServerGameData_collideAsteroids_from i s = Some s'.
Proof using uuid_inj.
  revert s. induction i as [|j IH]; intros s Hs Hle; simpl; [by eexists|].
  destruct (asteroids (gameData s) !! j) as [a|] eqn:Hj.
  2:{ apply lookup_ge_None in Hj. lia. }
  destruct (asteroid_checkCollidedWith_length j a [bulletObjects s] s Hs Hj)
    as [Hs1 Hle1].
  by apply IH.
Qed.

Lemma simulate_fresh s s3 :
  ServerGameData_simulate s = Some s3 -> fresh_ok s -> fresh_ok s3.
Proof using uuid_inj.
  unfold ServerGameData_simulate. intros Hrun Hs.
  set (s1 := runGameData _ s) in Hrun.
  assert (Hs1 : fresh_ok s1).
  { subst s1. unfold runGameData, fresh_ok.
    destruct (ServerGameData_advance _ _) as [gd n] eqn:Ha. simpl.
    by eapply advance_ids. }
  destruct (ServerGameData_collideAsteroids_from _ _) as [s2|] eqn:Hc;
    [|done].
  injection Hrun as <-.
  apply (collidePlayers_pres fresh_ok);
    auto using asteroidKilledPlayer_fresh, bulletKilledAsteroid_fresh,
               bulletKilledPlayer_fresh.
  eapply (collideAsteroids_from_pres fresh_ok); eauto
    using asteroidKilledPlayer_fresh, bulletKilledAsteroid_fresh,
          bulletKilledPlayer_fresh.
Qed.

Lemma update_fresh s s' :
  ServerGameData_update s = Some s' -> fresh_ok s -> fresh_ok s'.
Proof using uuid_inj.
  unfold ServerGameData_update. intros Hrun Hs.
  destruct (ServerGameData_simulate s) as [s3|] eqn:Hsim; [|done].
  injection Hrun as <-. apply simulate_fresh in Hsim; [|done].
  unfold runGameData, fresh_ok.
  destruct (ServerGameData_topUp _ _) as [gd n] eqn:Ht. simpl.
  by eapply topUp_ids.
Qed.

Lemma reachable_fresh s : reachable s -> fresh_ok s.
Proof using uuid_inj.
  induction 1 as [|sock s _ IH|sock s _ IH|sock name color s _ IH
                  |sock input s _ IH|s s' _ IH Hloop|a p s _ IH|r a s _ IH
                  |r p s _ IH|id name color s _ IH|id s _ IH|a s _ IH
                  |id s _ IH|id s _ IH].
  - unfold new_Server, runGameData, fresh_ok, new_ServerGameData.
    destruct (ServerGameData_pushBigAsteroids _ _ _) as [gd n] eqn:Hn. simpl.
    apply pushBigAsteroids_ids in Hn as [_ Hn]; [done|].
    split; [constructor|]. intros id Hid. by apply elem_of_nil in Hid.
  - exact IH.
  - unfold Server_onDisconnectedEvent, fresh_ok.
    destruct (socketMe _ _);
      destruct (list_find _ _) as [[??]|]; simpl; try exact IH;
      by rewrite (proj1 (removePlayerById_frame _ _)).
  - unfold Server_onTryLoggingInEvent.
    destruct (list_find _ _) as [[i sock']|]; [|done].
    destruct (s_me sock'); [done|].
    unfold ServerGameData_addPlayer, new_ServerPlayer, bind, call, ret.
    unfold fresh_ok. simpl. eapply ids_issued_mono; [|exact IH]. lia.
  - unfold Server_onPlayerInputEvent. destruct (socketMe _ _); exact IH.
  - unfold Server_gameUpdateLoop in Hloop.
    destruct (ServerGameData_update s) as [s1|] eqn:Hu; [|done].
    injection Hloop as <-. exact (update_fresh s s1 Hu IH).
  - by apply asteroidKilledPlayer_fresh.
  - by apply bulletKilledAsteroid_fresh.
  - by apply bulletKilledPlayer_fresh.
  - unfold runGameData, ServerGameData_addPlayer, new_ServerPlayer, bind,
      call, ret.
    unfold fresh_ok. simpl. eapply ids_issued_mono; [|exact IH]. lia.
  - unfold fresh_ok. simpl. by rewrite (proj1 (removePlayerById_frame _ _)).
  - by apply runGameData_breakAsteroid_fresh.
  - exact IH.
  - exact IH.
Qed.

(** The ids of the asteroids of the world are pairwise distinct, as
    long as [uuid] never returns the same id twice. *)
Theorem asteroid_ids_distinct (s : Server) :
  reachable s -> NoDup (a_id <$> asteroids (gameData s)).
Proof using uuid_inj. intros Hs. by destruct (reachable_fresh s Hs). Qed.

(** A tick completes: as long as [uuid] never returns the same id twice,
    the reverse loop of the first collision pass never reads past the end
    of the array of asteroids. *)
Theorem update_completes (s : Server) :
  reachable s -> exists s', ServerGameData_update s = Some s'.
Proof using uuid_inj.
  intros Hs. apply reachable_fresh in Hs.
  unfold ServerGameData_update, ServerGameData_simulate.
  set (s1 := runGameData _ s).
  assert (Hs1 : fresh_ok s1).
  { subst s1. unfold runGameData, fresh_ok.
    destruct (ServerGameData_advance _ _) as [gd n] eqn:Ha. simpl.
    by eapply advance_ids. }
  destruct (collideAsteroids_from_total (length (asteroids (gameData s1))) s1
              Hs1 (Nat.le_refl _)) as [s2 ->].
  by eexists.
Qed.

End FreshProofs.

(** ** The pool of a running server *)

Section ServerPoolProofs.
Context {E : Externals}.

Lemma ServerPlayer_update_pool width height p bh n :
  pool_inv bh -> pool_inv (ServerPlayer_update width height p bh n).1.2.
Proof.
  intros Hinv. unfold ServerPlayer_update, bind, ret.
  destruct (ServerPlayer_fire _ _ _) as [[[[now then_] fireDelta] bh'] n1] eqn:Hf.
  assert (Hbh' : pool_inv bh').
  { revert Hf. unfold ServerPlayer_fire, bind, call, ret.
    destruct (p_isFiring _); [|by intros [= _ _ _ <- _]].
    destruct (gtb _ _); [|by intros [= _ _ _ <- _]].
    pose proof (fireBullet_inv
                  (p_id (ServerPlayer_move width height p))
                  (p_x (ServerPlayer_move width height p))
                  (p_y (ServerPlayer_move width height p))
                  (p_heading (ServerPlayer_move width height p))
                  (p_origColor (ServerPlayer_move width height p))
                  bh (S n) Hinv) as Hfire.
    destruct (BulletHouse_fireBullet _ _ _ _ _ _ _) as [bh2 n2].
    by intros [= _ _ _ <- _]. }
  destruct (ServerPlayer_blink _ _ _) as [color n2]. done.
Qed.

Lemma updatePlayers_pool ps bh n :
  pool_inv bh -> pool_inv (ServerGameData_updatePlayers ps bh n).1.2.
Proof.
  revert bh n. induction ps as [|p ps IH]; intros bh n Hinv; simpl; [done|].
  unfold bind.
  pose proof (ServerPlayer_update_pool ServerGameData_width
                ServerGameData_height p bh n Hinv) as Hp.
  destruct (ServerPlayer_update _ _ p bh n) as [[p' bh1] n1].
  specialize (IH bh1 n1 Hp).
  destruct (ServerGameData_updatePlayers ps bh1 n1) as [[ps' bh2] n2]. done.
Qed.

Lemma advance_pool gd n :
  pool_inv (bulletHouse gd) ->
  pool_inv (bulletHouse (ServerGameData_advance gd n).1).
Proof.
  intros Hinv. unfold ServerGameData_advance, bind, ret.
  pose proof (updatePlayers_pool (players gd) (bulletHouse gd) n Hinv) as Hp.
  destruct (ServerGameData_updatePlayers _ _ _) as [[ps bh] n1].
  destruct (ServerGameData_updateAsteroids _ _ _) as [asts n2].
  simpl in *. by apply update_from_inv.
Qed.

Lemma runGameData_breakAsteroid_pool a s :
  server_pool_ok s ->
  server_pool_ok (runGameData (ServerGameData_breakAsteroid a (gameData s)) s).
Proof.
  unfold server_pool_ok, runGameData. intros Hs.
  destruct (ServerGameData_breakAsteroid _ _ _) as [gd n] eqn:Hb.
  apply breakAsteroid_spec in Hb as (_ & Hb & _). simpl. by rewrite Hb.
Qed.

Lemma asteroidKilledPlayer_pool a p s :
  server_pool_ok s -> server_pool_ok (Server_asteroidKilledPlayer a p s).
Proof.
  intros Hs. unfold Server_asteroidKilledPlayer.
  destruct (ServerGameData_removePlayerById _ _) as [[k|] gd1] eqn:Hr;
    apply runGameData_breakAsteroid_pool; [|done].
  unfold server_pool_ok. rewrite notifyKilled_gameData. simpl.
  apply recycleBulletsByFirerId_from_inv.
  unfold ServerGameData_removePlayerById in Hr.
  destruct (Players_get _ _); [|done]. injection Hr as _ <-. done.
Qed.

Lemma bulletKilledAsteroid_pool r a s :
  server_pool_ok s -> server_pool_ok (Server_bulletKilledAsteroid r a s).
Proof.
  intros Hs. unfold Server_bulletKilledAsteroid.
  destruct (_ !! r) as [b|]; [|done].
  set (s1 := match truthy _ with Some _ => _ | None => _ end).
  assert (Hs1 : server_pool_ok s1).
  { subst s1. destruct (truthy _) as [fid|]; [|done].
    destruct (ServerGameData_getPlayerWithId _ _) as [firer|]; [|done].
    apply (runGameData_breakAsteroid_pool a) in Hs. exact Hs. }
  unfold server_pool_ok. simpl. by apply recycleBulletById_inv.
Qed.

Lemma bulletKilledPlayer_pool r p s :
  server_pool_ok s -> server_pool_ok (Server_bulletKilledPlayer r p s).
Proof.
  intros Hs. unfold Server_bulletKilledPlayer.
  destruct (_ !! r) as [b|]; [|done].
  set (s1 := match truthy _ with Some _ => _ | None => _ end).
  assert (Hs1 : server_pool_ok s1).
  { subst s1. destruct (truthy _) as [fid|]; [|done].
    destruct (ServerGameData_getPlayerWithId _ _) as [firer|]; [|done].
    destruct (ServerGameData_removePlayerById _ _) as [[k|] gd1] eqn:Hr;
      [|done].
    unfold server_pool_ok. simpl. rewrite notifyKilled_gameData. simpl.
    apply recycleBulletsByFirerId_from_inv.
    unfold ServerGameData_removePlayerById in Hr.
    destruct (Players_get _ _); [|done]. injection Hr as _ <-. done. }
  unfold server_pool_ok. simpl. by apply recycleBulletById_inv.
Qed.

Lemma update_pool s s' :
  ServerGameData_update s = Some s' -> server_pool_ok s -> server_pool_ok s'.
Proof.
  unfold ServerGameData_update, ServerGameData_simulate. intros Hrun Hs.
  set (s1 := runGameData _ s) in Hrun.
  assert (Hs1 : server_pool_ok s1).
  { subst s1. unfold runGameData, server_pool_ok.
    pose proof (advance_pool (gameData s) (calls s) Hs) as Ha.
    by destruct (ServerGameData_advance _ _) as [gd n]. }
  destruct (ServerGameData_collideAsteroids_from _ _) as [s2|] eqn:Hc;
    [|done].
  injection Hrun as <-.
  assert (Hs3 : server_pool_ok (ServerGameData_collidePlayers s2)).
  { apply (collidePlayers_pres server_pool_ok);
      auto using asteroidKilledPlayer_pool, bulletKilledAsteroid_pool,
                 bulletKilledPlayer_pool.
    eapply (collideAsteroids_from_pres server_pool_ok); eauto
      using asteroidKilledPlayer_pool, bulletKilledAsteroid_pool,
            bulletKilledPlayer_pool. }
  unfold runGameData, server_pool_ok.
  destruct (ServerGameData_topUp _ _) as [gd n] eqn:Ht. simpl.
  apply topUp_spec in Ht as (_ & -> & _). exact Hs3.
Qed.

(** In every state of the server the pool is partitioned and the
    recycled instances are reset. *)
Theorem server_pool_invariant (s : Server) :
  reachable s -> pool_inv (bulletHouse (gameData s)).
Proof.
  induction 1 as [|sock s _ IH|sock s _ IH|sock name color s _ IH
                  |sock input s _ IH|s s' _ IH Hloop|a p s _ IH|r a s _ IH
                  |r p s _ IH|id name color s _ IH|id s _ IH|a s _ IH
                  |id s _ IH|id s _ IH].
  - unfold new_Server, runGameData, new_ServerGameData.
    destruct (ServerGameData_pushBigAsteroids _ _ _) as [gd n] eqn:Hn. simpl.
    apply pushBigAsteroids_spec in Hn as (_ & -> & _). simpl.
    apply (pool_reachable_inv _ pool_new).
  - exact IH.
  - unfold Server_onDisconnectedEvent.
    destruct (socketMe _ _);
      destruct (list_find _ _) as [[??]|]; simpl; try exact IH;
      apply recycleBulletsByFirerId_from_inv;
      by rewrite (proj2 (proj2 (removePlayerById_frame _ _))).
  - unfold Server_onTryLoggingInEvent.
    destruct (list_find _ _) as [[i sock']|]; [|done].
    destruct (s_me sock'); [done|]. exact IH.
  - unfold Server_onPlayerInputEvent. destruct (socketMe _ _); exact IH.
  - unfold Server_gameUpdateLoop in Hloop.
    destruct (ServerGameData_update s) as [s1|] eqn:Hu; [|done].
    injection Hloop as <-. exact (update_pool s s1 Hu IH).
  - by apply asteroidKilledPlayer_pool.
  - by apply bulletKilledAsteroid_pool.
  - by apply bulletKilledPlayer_pool.
  - exact IH.
  - simpl. by rewrite (proj2 (proj2 (removePlayerById_frame _ _))).
  - by apply runGameData_breakAsteroid_pool.
  - simpl. by apply recycleBulletById_inv.
  - simpl. by apply recycleBulletsByFirerId_from_inv.
Qed.

End ServerPoolProofs.

(** ** An invincible ship survives the tick *)

Section ImmunityProofs.
Context {E : Externals}.

Lemma shielded_alterPlayer f id' id c s :
  (forall p, p_id (f p) = p_id p) ->
  (forall p, p_invincibleCountdown (f p) = p_invincibleCountdown p) ->
  shielded id c s ->
  shielded id c (withGameData (alterPlayer f id' (gameData s)) s).
Proof.
  intros Hid Hc (p & Hp & Hcp & Hpos). unfold shielded. simpl.
  rewrite Players_get_alter by done. rewrite Hp.
  case_bool_decide; eexists; split; try done.
  simpl. by rewrite Hc.
Qed.

Lemma shielded_ext id c s s' :
  players (gameData s') = players (gameData s) ->
  shielded id c s -> shielded id c s'.
Proof. unfold shielded. by intros ->. Qed.

Lemma breakAsteroid_players a gd n :
  players (ServerGameData_breakAsteroid a gd n).1 = players gd.
Proof.
  destruct (ServerGameData_breakAsteroid _ _ _) as [gd' n'] eqn:Hb.
  apply breakAsteroid_spec in Hb as (Hp & _). exact Hp.
Qed.

Lemma runGameData_breakAsteroid_shielded id c a s :
  shielded id c s ->
  shielded id c (runGameData (ServerGameData_breakAsteroid a (gameData s)) s).
Proof.
  apply shielded_ext. unfold runGameData.
  pose proof (breakAsteroid_players a (gameData s) (calls s)) as Hp.
  by destruct (ServerGameData_breakAsteroid _ _ _).
Qed.

Lemma bulletKilledAsteroid_shielded id c r a s :
  shielded id c s -> shielded id c (Server_bulletKilledAsteroid r a s).
Proof.
  intros Hs. unfold Server_bulletKilledAsteroid.
  destruct (_ !! r) as [b|]; [|done].
  set (s1 := match truthy _ with Some _ => _ | None => _ end).
  assert (Hs1 : shielded id c s1).
  { subst s1. destruct (truthy _) as [fid|]; [|done].
    destruct (ServerGameData_getPlayerWithId _ _) as [firer|]; [|done].
    apply shielded_alterPlayer; [done|done|].
    by apply runGameData_breakAsteroid_shielded. }
  eapply shielded_ext; [|exact Hs1]. done.
Qed.

Lemma removed_other_shielded id c q s k gd1 ev :
  p_id q <> id -> shielded id c s ->
  ServerGameData_removePlayerById (p_id q) (gameData s) = (Some k, gd1) ->
  shielded id c
    (Server_notifyKilled (p_id k) ev
       (withGameData (ServerGameData_recycleBulletsByFirerId (p_id k) gd1) s)).
Proof.
  intros Hne (p & Hp & Hcp & Hpos) Hr.
  unfold ServerGameData_removePlayerById in Hr.
  destruct (Players_get (p_id q) _); [|done]. injection Hr as _ <-.
  exists p. rewrite notifyKilled_gameData. simpl.
  rewrite Players_get_delete_ne by done. done.
Qed.

Lemma asteroidKilledPlayer_shielded id c a q s :
  p_id q <> id ->
  shielded id c s -> shielded id c (Server_asteroidKilledPlayer a q s).
Proof.
  intros Hne Hs. unfold Server_asteroidKilledPlayer.
  destruct (ServerGameData_removePlayerById _ _) as [[k|] gd1] eqn:Hr;
    apply runGameData_breakAsteroid_shielded; [|done].
  by eapply removed_other_shielded.
Qed.

Lemma bulletKilledPlayer_shielded id c r q s :
  p_id q <> id ->
  shielded id c s -> shielded id c (Server_bulletKilledPlayer r q s).
Proof.
  intros Hne Hs. unfold Server_bulletKilledPlayer.
  destruct (_ !! r) as [b|]; [|done].
  set (s1 := match truthy _ with Some _ => _ | None => _ end).
  assert (Hs1 : shielded id c s1).
  { subst s1. destruct (truthy _) as [fid|]; [|done].
    destruct (ServerGameData_getPlayerWithId _ _) as [firer|]; [|done].
    destruct (ServerGameData_removePlayerById _ _) as [[k|] gd1] eqn:Hr;
      [|done].
    apply shielded_alterPlayer; [done|done|].
    by eapply removed_other_shielded. }
  eapply shielded_ext; [|exact Hs1]. done.
Qed.

Lemma asteroid_checkCollidedWith_shielded id c a othersArray s :
  shielded id c s ->
  shielded id c (ServerAsteroid_checkCollidedWith a othersArray s).
Proof.
  unfold ServerAsteroid_checkCollidedWith, Utils_checkCollidedWith.
  revert s. induction (concat othersArray) as [|o l IH]; intros s Hs; simpl;
    [done|].
  apply IH. destruct (_ && _); [|done].
  destruct o as [r|a'|p]; simpl; try done.
  by apply bulletKilledAsteroid_shielded.
Qed.

Lemma player_checkCollidedWith_shielded id c q othersArray s :
  p_id q <> id ->
  shielded id c s ->
  shielded id c (Utils_checkCollidedWith (OPlayer q) othersArray s).
Proof.
  intros Hne. unfold Utils_checkCollidedWith.
  revert s. induction (concat othersArray) as [|o l IH]; intros s Hs; simpl;
    [done|].
  apply IH. destruct (_ && _); [|done].
  destruct o as [r|a'|p]; simpl; try done.
  - by apply bulletKilledPlayer_shielded.
  - by apply asteroidKilledPlayer_shielded.
Qed.

Lemma collideAsteroids_from_shielded id c i s s' :
  ServerGameData_collideAsteroids_from i s = Some s' ->
  shielded id c s -> shielded id c s'.
Proof.
  revert s. induction i as [|j IH]; intros s; simpl.
  - by intros [= <-].
  - destruct (asteroids (gameData s) !! j) as [a|]; [|done].
    intros Hrun Hs. eapply IH; [done|].
    by apply asteroid_checkCollidedWith_shielded.
Qed.

Lemma collidePlayers_shielded id c s :
  shielded id c s -> shielded id c (ServerGameData_collidePlayers s).
Proof.
  unfold ServerGameData_collidePlayers.
  generalize (p_id <$> players (gameData s)) as ids. intros ids. revert s.
  induction ids as [|id' ids IH]; intros s Hs; simpl; [done|].
  apply IH. destruct (Players_get id' _) as [q|] eqn:Hq; [|done].
  unfold ServerPlayer_checkCollidedWith.
  destruct (ServerPlayer_isInvincible q) eqn:Hinv; [done|].
  apply player_checkCollidedWith_shielded; [|done].
  apply Players_get_Some in Hq as Hid. destruct Hid as [Hid _].
  intros Heq. subst id'.
  destruct Hs as (p & Hp & Hcp & Hpos). rewrite Heq, Hp in Hq.
  injection Hq as <-. unfold ServerPlayer_isInvincible in Hinv.
  apply bool_decide_eq_false in Hinv. lia.
Qed.

Lemma Players_get_Forall2 (R : ServerPlayer -> ServerPlayer -> Prop) id ps ps' p :
  Forall2 (fun p p' => p_id p' = p_id p /\ R p p') ps ps' ->
  Players_get id ps = Some p ->
  exists p', Players_get id ps' = Some p' /\ R p p'.
Proof.
  unfold Players_get. induction 1 as [|q q' ps ps' [Hid HR] _ IH]; [done|].
  simpl. rewrite Hid. destruct (bool_decide (p_id q = id)).
  - intros [= <-]. by exists q'.
  - exact IH.
Qed.

(** A ship whose countdown is above 1 when a tick starts is still in the
    live collection when the tick ends, with its countdown lowered by
    one: no collision was resolved against it. *)
Theorem invincible_ship_survives_tick (s s' : Server) (id : string)
    (p : ServerPlayer) :
  ServerGameData_update s = Some s' ->
  Players_get id (players (gameData s)) = Some p ->
  (1 < p_invincibleCountdown p)%Z ->
  exists p',
    Players_get id (players (gameData s')) = Some p'
    /\ p_invincibleCountdown p' = (p_invincibleCountdown p - 1)%Z.
Proof.
  intros Hrun Hp Hc.
  unfold ServerGameData_update, ServerGameData_simulate in Hrun.
  set (s1 := runGameData _ s) in Hrun.
  assert (Hs1 : shielded id (p_invincibleCountdown p - 1) s1).
  { subst s1. unfold runGameData, shielded, ServerGameData_advance, bind, ret.
    pose proof (updatePlayers_countdown (players (gameData s))
                  (bulletHouse (gameData s)) (calls s)) as Hf.
    destruct (ServerGameData_updatePlayers _ _ _) as [[ps bh] n1].
    destruct (ServerGameData_updateAsteroids _ _ _) as [asts n2].
    simpl in *.
    destruct (Players_get_Forall2 _ id _ _ p Hf Hp) as (p' & Hp' & Hcp').
    exists p'. split; [done|]. rewrite Hcp'.
    rewrite bool_decide_eq_true_2 by lia. split; [done|lia]. }
  destruct (ServerGameData_collideAsteroids_from _ _) as [s2|] eqn:Hc2;
    [|done].
  injection Hrun as <-.
  apply (collideAsteroids_from_shielded _ _ _ _ _ Hc2) in Hs1.
  apply collidePlayers_shielded in Hs1.
  destruct Hs1 as (p' & Hp' & Hcp' & _). exists p'. split; [|done].
  unfold runGameData.
  destruct (ServerGameData_topUp _ _) as [gd n] eqn:Ht. simpl.
  apply topUp_spec in Ht as (-> & _). done.
Qed.

End ImmunityProofs.

(** ** Socket events *)

Section EventProofs.
Context {E : Externals}.

Lemma list_find_alter_same {A} (P : A -> Prop) `{forall x, Decision (P x)}
    (f : A -> A) (l : list A) i x :
  (forall y, P (f y) <-> P y) ->
  list_find P l = Some (i, x) ->
  list_find P (alter f i l) = Some (i, f x).
Proof.
  intros Hf Hfind. apply list_find_Some in Hfind as (Hi & HP & Hleast).
  apply list_find_Some. split; [by rewrite list_lookup_alter_eq, Hi|].
  split; [by apply Hf|].
  intros j y Hj Hlt. rewrite list_lookup_alter_ne in Hj by lia.
  by apply (Hleast j).
Qed.

Lemma Players_get_app id ps qs :
  Players_get id (ps ++ qs)
  = match Players_get id ps with
    | Some p => Some p
    | None => Players_get id qs
    end.
Proof.
  unfold Players_get. induction ps as [|p ps IH]; simpl; [done|].
  by destruct (bool_decide (p_id p = id)).
Qed.

Lemma Players_get_set id id' v ps :
  p_id v = id' ->
  Players_get id (Players_set id' v ps)
  = if bool_decide (id = id') then Some v else Players_get id ps.
Proof.
  intros Hv. unfold Players_set.
  destruct (Players_get id' ps) as [old|] eqn:Hold.
  - revert Hold. unfold Players_get.
    induction ps as [|p ps IH]; simpl; [done|].
    destruct (bool_decide (p_id p = id')) eqn:Hp; simpl.
    + intros _. apply bool_decide_eq_true in Hp. rewrite Hv.
      case_bool_decide as Hid.
      * subst id. by rewrite bool_decide_eq_true_2.
      * rewrite !bool_decide_eq_false_2 by congruence. done.
    + intros Hold. apply bool_decide_eq_false in Hp. rewrite (IH Hold).
      destruct (bool_decide (p_id p = id)) eqn:Hq; [|done].
      apply bool_decide_eq_true in Hq.
      rewrite bool_decide_eq_false_2 by congruence. done.
  - rewrite Players_get_app. case_bool_decide as Hid.
    + subst id. rewrite Hold. unfold Players_get. simpl.
      by rewrite bool_decide_eq_true_2.
    + destruct (Players_get id ps); [done|]. unfold Players_get. simpl.
      rewrite bool_decide_eq_false_2 by congruence. done.
Qed.

Lemma half_of_world : (num 4000 / num 2 = num 2000)%Qc.
Proof. apply Qc_is_canon. reflexivity. Qed.


Lemma login_leaves_player socket name color s :
  match
    list_find (fun sock => s_id sock = socket)
      (connectedSockets (Server_onTryLoggingInEvent socket name color s))
  with
  | Some (_, sock) => s_me sock <> None
  | None => True
  end.
Proof.
  unfold Server_onTryLoggingInEvent.
  destruct (list_find _ (connectedSockets s)) as [[i sock]|] eqn:Hf.
  - destruct (s_me sock) as [me|] eqn:Hme.
    + rewrite Hf. congruence.
    + destruct (ServerGameData_addPlayer _ _ _ _ _) as [[newPlayer gd] n].
      cbn [connectedSockets emit].
      rewrite (list_find_alter_same _ (setMe (p_id newPlayer)) _ i sock);
        done.
  - by rewrite Hf.
Qed.

(** A second login attempt of a socket, whatever name and colour it
    brings, changes nothing: the state is that of the first. *)
Theorem login_twice_is_login_once (socket name1 name2 : string)
    (color1 color2 : RGBColor) (s : Server) :
  Server_onTryLoggingInEvent socket name2 color2
    (Server_onTryLoggingInEvent socket name1 color1 s)
  = Server_onTryLoggingInEvent socket name1 color1 s.
Proof.
  pose proof (login_leaves_player socket name1 color1 s) as Hme.
  set (s1 := Server_onTryLoggingInEvent socket name1 color1 s) in *.
  unfold Server_onTryLoggingInEvent.
  destruct (list_find _ (connectedSockets s1)) as [[i sock]|]; [|done].
  by destruct (s_me sock).
Qed.


(** A disconnection takes the socket off the list; when the socket has a
    player, the player leaves the live collection, every projectile it
    fired is recycled and the socket is told; the other players and the
    asteroids are left alone. *)
Theorem disconnect_removes_player_and_bullets (socket : string) (s : Server) :
  match socketMe socket s with
  | Some id =>
      ServerGameData_getPlayerWithId id
        (gameData (Server_onDisconnectedEvent socket s)) = None
      /\ (forall r,
            r ∈ bullets
                  (bulletHouse (gameData (Server_onDisconnectedEvent socket s))) ->
            firedBy
              (heap
                 (bulletHouse (gameData (Server_onDisconnectedEvent socket s))))
              id r = false)
      /\ sent (Server_onDisconnectedEvent socket s)
         = sent s ++ [PlayerLeftEvent socket id]
      /\ (forall id', id' <> id ->
            ServerGameData_getPlayerWithId id'
              (gameData (Server_onDisconnectedEvent socket s))
            = ServerGameData_getPlayerWithId id' (gameData s))
  | None =>
      gameData (Server_onDisconnectedEvent socket s) = gameData s
      /\ sent (Server_onDisconnectedEvent socket s) = sent s
  end
  /\ asteroids (gameData (Server_onDisconnectedEvent socket s))
     = asteroids (gameData s)
  /\ curBigAsteroidsCount (gameData (Server_onDisconnectedEvent socket s))
     = curBigAsteroidsCount (gameData s)
  /\ connectedSockets (Server_onDisconnectedEvent socket s)
     = match
         list_find (fun sock => s_id sock = socket) (connectedSockets s)
       with
       | Some (i, _) => delete i (connectedSockets s)
       | None => connectedSockets s
       end.
Proof.
  unfold Server_onDisconnectedEvent.
  set (s1 := match list_find _ _ with Some _ => _ | None => s end).
  assert (Hs1 : gameData s1 = gameData s /\ sent s1 = sent s
                /\ connectedSockets s1
                   = match
                       list_find (fun sock => s_id sock = socket)
                         (connectedSockets s)
                     with
                     | Some (i, _) => delete i (connectedSockets s)
                     | None => connectedSockets s
                     end).
  { subst s1. by destruct (list_find _ _) as [[i sock]|]. }
  destruct Hs1 as (Hgd & Hsent & Hsocks).
  destruct (socketMe socket s) as [id|] eqn:Hme; [|by rewrite Hgd].
  cbn [gameData sent connectedSockets emit withGameData].
  rewrite Hgd, Hsent.
  unfold ServerGameData_removePlayerById, ServerGameData_getPlayerWithId,
    ServerGameData_recycleBulletsByFirerId.
  destruct (Players_get id (players (gameData s))) as [p|] eqn:Hp;
    cbn [snd players bulletHouse asteroids curBigAsteroidsCount].
  - split; [|done]. split; [apply Players_get_delete_eq|].
    split; [apply recycleBulletsByFirerId_none|]. split; [done|].
    intros id' Hne. by apply Players_get_delete_ne.
  - split; [|done]. split; [done|].
    split; [apply recycleBulletsByFirerId_none|]. done.
Qed.

Lemma delete_snoc {A} (l : list A) (x : A) : delete (length l) (l ++ [x]) = l.
Proof. induction l as [|y l IH]; [done|]. simpl. by rewrite IH. Qed.

(** A socket that connects and disconnects at once leaves no trace, as
    long as no connected socket has its id. *)
Theorem connect_then_disconnect (socket : string) (s : Server) :
  socket ∉ s_id <$> connectedSockets s ->
  Server_onDisconnectedEvent socket (Server_onConnectedEvent socket s) = s.
Proof.
  intros Hfresh.
  assert (Hfind :
            list_find (fun sock => s_id sock = socket)
              (connectedSockets s ++ [{| s_id := socket; s_me := None |}])
            = Some (length (connectedSockets s),
                    {| s_id := socket; s_me := None |})).
  { apply list_find_Some. split.
    { by rewrite lookup_app_r, Nat.sub_diag. }
    split; [done|]. intros j y Hj Hlt Hy.
    rewrite lookup_app_l in Hj by done. apply Hfresh.
    apply list_elem_of_fmap. exists y. split; [done|].
    by eapply list_elem_of_lookup_2. }
  unfold Server_onDisconnectedEvent, Server_onConnectedEvent, socketMe.
  cbn [connectedSockets]. rewrite Hfind. cbn [s_me].
  unfold Array_splice1.
  rewrite delete_snoc. by destruct s.
Qed.

Lemma applyInput_frame input p :
  p_id (ServerPlayer_applyInput input p) = p_id p
  /\ p_x (ServerPlayer_applyInput input p) = p_x p
  /\ p_y (ServerPlayer_applyInput input p) = p_y p
  /\ p_heading (ServerPlayer_applyInput input p) = p_heading p
  /\ p_velocity (ServerPlayer_applyInput input p) = p_velocity p
  /\ p_asteroidPoints (ServerPlayer_applyInput input p) = p_asteroidPoints p
  /\ p_killingPoints (ServerPlayer_applyInput input p) = p_killingPoints p
  /\ p_invincibleCountdown (ServerPlayer_applyInput input p)
     = p_invincibleCountdown p.
Proof. done. Qed.

(** A keyboard event reaches one player only, the one of the socket that
    sent it, and sets its three controls: left wins over right, and with
    neither the ship stops turning.  It moves no ship and changes no
    score; from a socket without a player it changes nothing at all. *)
Theorem input_sets_controls_only (socket : string) (input : PlayerInputDTO)
    (s : Server) :
  (forall id,
     ServerGameData_getPlayerWithId id
       (gameData (Server_onPlayerInputEvent socket input s))
     = if bool_decide (socketMe socket s = Some id)
       then ServerPlayer_applyInput input
              <$> ServerGameData_getPlayerWithId id (gameData s)
       else ServerGameData_getPlayerWithId id (gameData s))
  /\ (forall p,
        p_isBoosting (ServerPlayer_applyInput input p) = i_up input
        /\ p_isFiring (ServerPlayer_applyInput input p) = i_fire input
        /\ p_rotation (ServerPlayer_applyInput input p)
           = (if i_left input then (- frac 8 100)%Qc
              else if i_right input then frac 8 100 else 0%Qc)
        /\ p_id (ServerPlayer_applyInput input p) = p_id p
        /\ p_x (ServerPlayer_applyInput input p) = p_x p
        /\ p_y (ServerPlayer_applyInput input p) = p_y p
        /\ p_heading (ServerPlayer_applyInput input p) = p_heading p
        /\ p_velocity (ServerPlayer_applyInput input p) = p_velocity p
        /\ p_asteroidPoints (ServerPlayer_applyInput input p)
           = p_asteroidPoints p
        /\ p_killingPoints (ServerPlayer_applyInput input p)
           = p_killingPoints p
        /\ p_invincibleCountdown (ServerPlayer_applyInput input p)
           = p_invincibleCountdown p)
  /\ length (players (gameData (Server_onPlayerInputEvent socket input s)))
     = length (players (gameData s))
  /\ bulletHouse (gameData (Server_onPlayerInputEvent socket input s))
     = bulletHouse (gameData s)
  /\ asteroids (gameData (Server_onPlayerInputEvent socket input s))
     = asteroids (gameData s)
  /\ connectedSockets (Server_onPlayerInputEvent socket input s)
     = connectedSockets s
  /\ sent (Server_onPlayerInputEvent socket input s) = sent s
  /\ (socketMe socket s = None ->
      Server_onPlayerInputEvent socket input s = s).
Proof.
  unfold Server_onPlayerInputEvent, ServerGameData_getPlayerWithId.
  destruct (socketMe socket s) as [me|] eqn:Hme.
  - split.
    { intros id. cbn [gameData withGameData alterPlayer players].
      rewrite Players_get_alter by done.
      case_bool_decide as H1; case_bool_decide as H2; congruence. }
    split.
    { intros p. cbn. destruct (i_left input), (i_right input); done. }
    split.
    { cbn [gameData withGameData alterPlayer players].
      induction (players (gameData s)) as [|p ps IH]; [done|]. simpl.
      destruct (bool_decide (p_id p = me)); simpl; [done|]. by rewrite IH. }
    done.
  - split; [intros id; by rewrite bool_decide_eq_false_2|].
    split; [|done].
    intros p. cbn. destruct (i_left input), (i_right input); done.
Qed.

End EventProofs.

(** ** The other two handlers *)

Section HandlerProofs.
Context {E : Externals}.

(** [breakAsteroid] reads the asteroids and the counter only. *)
Lemma breakAsteroid_ext a gd1 gd2 n :
  asteroids gd1 = asteroids gd2 ->
  curBigAsteroidsCount gd1 = curBigAsteroidsCount gd2 ->
  asteroids (ServerGameData_breakAsteroid a gd1 n).1
  = asteroids (ServerGameData_breakAsteroid a gd2 n).1
  /\ curBigAsteroidsCount (ServerGameData_breakAsteroid a gd1 n).1
     = curBigAsteroidsCount (ServerGameData_breakAsteroid a gd2 n).1
  /\ (ServerGameData_breakAsteroid a gd1 n).2
     = (ServerGameData_breakAsteroid a gd2 n).2.
Proof.
  intros Ha Hc.
  unfold ServerGameData_breakAsteroid, ServerGameData_removeAsteroidById.
  rewrite Ha.
  destruct (list_find _ (asteroids gd2)) as [[i removed]|]; [|done].
  destruct (a_isBig removed); [|done].
  unfold bind, ret.
  destruct (ServerAsteroid_createPieceOf _ _ _ n) as [p1 n1].
  destruct (ServerAsteroid_createPieceOf _ _ _ n1) as [p2 n2].
  destruct (ServerAsteroid_createPieceOf _ _ _ n2) as [p3 n3].
  simpl. by rewrite Hc.
Qed.

Lemma runGameData_breakAsteroid_fields a s :
  players (gameData (runGameData (ServerGameData_breakAsteroid a (gameData s)) s))
  = players (gameData s)
  /\ bulletHouse
       (gameData (runGameData (ServerGameData_breakAsteroid a (gameData s)) s))
     = bulletHouse (gameData s)
  /\ asteroids
       (gameData (runGameData (ServerGameData_breakAsteroid a (gameData s)) s))
     = asteroids (ServerGameData_breakAsteroid a (gameData s) (calls s)).1
  /\ curBigAsteroidsCount
       (gameData (runGameData (ServerGameData_breakAsteroid a (gameData s)) s))
     = curBigAsteroidsCount
         (ServerGameData_breakAsteroid a (gameData s) (calls s)).1
  /\ sent (runGameData (ServerGameData_breakAsteroid a (gameData s)) s)
     = sent s
  /\ connectedSockets
       (runGameData (ServerGameData_breakAsteroid a (gameData s)) s)
     = connectedSockets s.
Proof.
  unfold runGameData.
  destruct (ServerGameData_breakAsteroid _ _ _) as [gd n] eqn:Hb.
  apply breakAsteroid_spec in Hb as (Hp & Hbh & _). done.
Qed.

(** [asteroidKilledPlayer]: the ship leaves the live collection, its
    projectiles are recycled and its socket is told, if the ship was
    still there; the asteroid is broken either way. *)
Theorem asteroidKilledPlayer_resolution (s : Server)
    (asteroid : ServerAsteroid) (player : ServerPlayer) :
  ServerGameData_getPlayerWithId (p_id player)
    (gameData (Server_asteroidKilledPlayer asteroid player s)) = None
  /\ (forall id, id <> p_id player ->
        ServerGameData_getPlayerWithId id
          (gameData (Server_asteroidKilledPlayer asteroid player s))
        = ServerGameData_getPlayerWithId id (gameData s))
  /\ asteroids (gameData (Server_asteroidKilledPlayer asteroid player s))
     = asteroids
         (ServerGameData_breakAsteroid asteroid (gameData s) (calls s)).1
  /\ curBigAsteroidsCount
       (gameData (Server_asteroidKilledPlayer asteroid player s))
     = curBigAsteroidsCount
         (ServerGameData_breakAsteroid asteroid (gameData s) (calls s)).1
  /\ match ServerGameData_getPlayerWithId (p_id player) (gameData s) with
     | Some killed =>
         (forall r,
            r ∈ bullets
                  (bulletHouse
                     (gameData
                        (Server_asteroidKilledPlayer asteroid player s))) ->
            firedBy
              (heap
                 (bulletHouse
                    (gameData
                       (Server_asteroidKilledPlayer asteroid player s))))
              (p_id player) r = false)
         /\ match
              list_find (fun sock => s_id sock = p_id player)
                (connectedSockets s)
            with
            | Some (i, sock) =>
                sent (Server_asteroidKilledPlayer asteroid player s)
                = sent s
                  ++ [KilledByAsteroidEvent (p_id player) (p_id player)]
                /\ connectedSockets
                     (Server_asteroidKilledPlayer asteroid player s)
                   = alter clearMe i (connectedSockets s)
            | None =>
                sent (Server_asteroidKilledPlayer asteroid player s) = sent s
                /\ connectedSockets
                     (Server_asteroidKilledPlayer asteroid player s)
                   = connectedSockets s
            end
     | None =>
         bulletHouse (gameData (Server_asteroidKilledPlayer asteroid player s))
         = bulletHouse (gameData s)
         /\ sent (Server_asteroidKilledPlayer asteroid player s) = sent s
         /\ connectedSockets (Server_asteroidKilledPlayer asteroid player s)
            = connectedSockets s
     end.
Proof.
  unfold Server_asteroidKilledPlayer, ServerGameData_removePlayerById,
    ServerGameData_getPlayerWithId.
  destruct (Players_get (p_id player) (players (gameData s))) as [killed|]
    eqn:Hk.
  - apply Players_get_Some in Hk as Hid. destruct Hid as [Hid _].
    rewrite Hid.
    set (s1 := Server_notifyKilled _ _ _).
    destruct (runGameData_breakAsteroid_fields asteroid s1)
      as (-> & -> & -> & -> & -> & ->).
    pose proof (notifyKilled_spec (p_id player)
                  (fun sock => KilledByAsteroidEvent sock (p_id player))
                  (withGameData
                     (ServerGameData_recycleBulletsByFirerId (p_id player)
                        {| players :=
                             Players_delete (p_id player)
                               (players (gameData s));
                           bulletHouse := bulletHouse (gameData s);
                           asteroids := asteroids (gameData s);
                           curBigAsteroidsCount :=
                             curBigAsteroidsCount (gameData s) |}) s))
      as (Hgd & Hsock).
    fold s1 in Hgd, Hsock.
    assert (Hcalls : calls s1 = calls s).
    { subst s1. unfold Server_notifyKilled.
      by destruct (list_find _ _) as [[??]|]. }
    rewrite Hgd, Hcalls.
    cbn [gameData withGameData ServerGameData_recycleBulletsByFirerId players
         bulletHouse] in *.
    split; [apply Players_get_delete_eq|].
    split; [intros id Hne; by apply Players_get_delete_ne|].
    destruct (breakAsteroid_ext asteroid
                (ServerGameData_recycleBulletsByFirerId (p_id player)
                   {| players :=
                        Players_delete (p_id player) (players (gameData s));
                      bulletHouse := bulletHouse (gameData s);
                      asteroids := asteroids (gameData s);
                      curBigAsteroidsCount :=
                        curBigAsteroidsCount (gameData s) |})
                (gameData s) (calls s) eq_refl eq_refl) as (Ha & Hc & _).
    split; [exact Ha|]. split; [exact Hc|].
    split; [apply recycleBulletsByFirerId_none|].
    exact Hsock.
  - destruct (runGameData_breakAsteroid_fields asteroid s)
      as (-> & -> & -> & -> & -> & ->).
    rewrite Hk. done.
Qed.

(** [bulletKilledAsteroid]: the asteroid is broken and the firer
    credited, with one asteroid point more and its killing points as
    they were, only when the projectile has a firer id and that player
    is found; without one the asteroid and the players are untouched.
    The projectile is recycled by id either way, and nothing is sent. *)
Theorem bulletKilledAsteroid_resolution (s : Server) (bullet : nat)
    (b : ServerBullet) (asteroid : ServerAsteroid) :
  heap (bulletHouse (gameData s)) !! bullet = Some b ->
  bulletHouse (gameData (Server_bulletKilledAsteroid bullet asteroid s))
  = BulletHouse_recycleBulletById (b_id b) (bulletHouse (gameData s))
  /\ sent (Server_bulletKilledAsteroid bullet asteroid s) = sent s
  /\ connectedSockets (Server_bulletKilledAsteroid bullet asteroid s)
     = connectedSockets s
  /\ ((truthy (b_firerId b) = None
       \/ (exists firerId,
             truthy (b_firerId b) = Some firerId
             /\ ServerGameData_getPlayerWithId firerId (gameData s) = None)) ->
      asteroids (gameData (Server_bulletKilledAsteroid bullet asteroid s))
      = asteroids (gameData s)
      /\ curBigAsteroidsCount
           (gameData (Server_bulletKilledAsteroid bullet asteroid s))
         = curBigAsteroidsCount (gameData s)
      /\ players (gameData (Server_bulletKilledAsteroid bullet asteroid s))
         = players (gameData s))
  /\ (forall firerId firer,
        truthy (b_firerId b) = Some firerId ->
        ServerGameData_getPlayerWithId firerId (gameData s) = Some firer ->
        asteroids (gameData (Server_bulletKilledAsteroid bullet asteroid s))
        = asteroids
            (ServerGameData_breakAsteroid asteroid (gameData s) (calls s)).1
        /\ curBigAsteroidsCount
             (gameData (Server_bulletKilledAsteroid bullet asteroid s))
           = curBigAsteroidsCount
               (ServerGameData_breakAsteroid asteroid (gameData s) (calls s)).1
        /\ ServerGameData_getPlayerWithId firerId
             (gameData (Server_bulletKilledAsteroid bullet asteroid s))
           = Some (ServerPlayer_increaseAsteroidPoint firer)
        /\ p_asteroidPoints (ServerPlayer_increaseAsteroidPoint firer)
           = (p_asteroidPoints firer + 1)%Z
        /\ p_killingPoints (ServerPlayer_increaseAsteroidPoint firer)
           = p_killingPoints firer
        /\ (forall id, id <> firerId ->
              ServerGameData_getPlayerWithId id
                (gameData (Server_bulletKilledAsteroid bullet asteroid s))
              = ServerGameData_getPlayerWithId id (gameData s))).
Proof.
  intros Hb. unfold Server_bulletKilledAsteroid. rewrite Hb.
  unfold ServerGameData_getPlayerWithId.
  destruct (truthy (b_firerId b)) as [fid|] eqn:Ht.
  2:{ split; [done|]. split; [done|]. split; [done|]. split; [done|].
      intros ? ? [=]. }
  destruct (Players_get fid (players (gameData s))) as [firer|] eqn:Hf.
  2:{ split; [done|]. split; [done|]. split; [done|]. split; [done|].
      intros ? ? [= <-]. congruence. }
  apply Players_get_Some in Hf as Hid. destruct Hid as [Hid _].
  destruct (runGameData_breakAsteroid_fields asteroid s)
    as (Hp & Hbh & Ha & Hc & Hsent & Hsock).
  cbn [gameData withGameData ServerGameData_recycleBulletById alterPlayer
       bulletHouse sent connectedSockets asteroids curBigAsteroidsCount
       players].
  rewrite Hp, Hbh, Ha, Hc, Hsent, Hsock, Hid.
  split; [done|]. split; [done|]. split; [done|]. split.
  { intros [[=]|(fid' & [= <-] & Hnone)]. congruence. }
  intros fid' firer' [= <-] Hf'. assert (firer' = firer) as -> by congruence.
  split; [done|]. split; [done|]. split.
  { rewrite Players_get_alter by done.
    rewrite bool_decide_eq_true_2 by done. by rewrite Hf. }
  split; [reflexivity|]. split; [reflexivity|].
  intros id Hne. rewrite Players_get_alter by done.
  by rewrite bool_decide_eq_false_2.
Qed.

End HandlerProofs.

(** ** Invariants of the game data

    A property of the game data (and of the number of external calls
    made) that every operation of [ServerGameData] preserves holds in
    every state of the server. *)

Section GameDataInvariant.
Context {E : Externals}.
Variable J : ServerGameData -> nat -> Prop.
Hypothesis J_new : J (new_ServerGameData 0).1 (new_ServerGameData 0).2.
Hypothesis J_addPlayer :
  forall id name color gd n,
    J gd n ->
    J (ServerGameData_addPlayer id name color gd n).1.2
      (ServerGameData_addPlayer id name color gd n).2.
Hypothesis J_removePlayerById :
  forall id gd n, J gd n -> J (ServerGameData_removePlayerById id gd).2 n.
Hypothesis J_recycleBulletById :
  forall id gd n, J gd n -> J (ServerGameData_recycleBulletById id gd) n.
Hypothesis J_recycleBulletsByFirerId :
  forall id gd n, J gd n -> J (ServerGameData_recycleBulletsByFirerId id gd) n.
Hypothesis J_breakAsteroid :
  forall a gd n,
    J gd n ->
    J (ServerGameData_breakAsteroid a gd n).1
      (ServerGameData_breakAsteroid a gd n).2.
Hypothesis J_applyInput :
  forall input id gd n,
    J gd n -> J (alterPlayer (ServerPlayer_applyInput input) id gd) n.
Hypothesis J_increaseAsteroidPoint :
  forall id gd n,
    J gd n -> J (alterPlayer ServerPlayer_increaseAsteroidPoint id gd) n.
Hypothesis J_increaseKillingPoint :
  forall id gd n,
    J gd n -> J (alterPlayer ServerPlayer_increaseKillingPoint id gd) n.
Hypothesis J_advance :
  forall gd n,
    J gd n -> J (ServerGameData_advance gd n).1 (ServerGameData_advance gd n).2.
Hypothesis J_topUp :
  forall gd n,
    J gd n -> J (ServerGameData_topUp gd n).1 (ServerGameData_topUp gd n).2.

Lemma notifyKilled_calls id ev s : calls (Server_notifyKilled id ev s) = calls s.
Proof. unfold Server_notifyKilled. by destruct (list_find _ _) as [[??]|]. Qed.

Lemma J_runBreakAsteroid a s :
  onServer J s ->
  onServer J (runGameData (ServerGameData_breakAsteroid a (gameData s)) s).
Proof using J_breakAsteroid.
  unfold onServer, runGameData. intros Hs.
  pose proof (J_breakAsteroid a _ _ Hs) as Hb.
  by destruct (ServerGameData_breakAsteroid _ _ _).
Qed.

Lemma J_killed id ev s :
  onServer J s ->
  onServer J
    (Server_notifyKilled id ev
       (withGameData
          (ServerGameData_recycleBulletsByFirerId id
             (ServerGameData_removePlayerById id (gameData s)).2) s)).
Proof using J_removePlayerById J_recycleBulletsByFirerId.
  unfold onServer. intros Hs.
  rewrite notifyKilled_gameData, notifyKilled_calls. simpl. auto.
Qed.

Lemma removePlayerById_Some id gd k gd1 :
  ServerGameData_removePlayerById id gd = (Some k, gd1) ->
  p_id k = id /\ gd1 = (ServerGameData_removePlayerById id gd).2.
Proof.
  intros Hr. rewrite Hr. split; [|done].
  unfold ServerGameData_removePlayerById in Hr.
  destruct (Players_get id (players gd)) as [p|] eqn:Hp; [|done].
  injection Hr as <- _. by apply Players_get_Some in Hp as [? _].
Qed.

Lemma J_asteroidKilledPlayer a p s :
  onServer J s -> onServer J (Server_asteroidKilledPlayer a p s).
Proof using J_removePlayerById J_recycleBulletsByFirerId J_breakAsteroid.
  intros Hs. unfold Server_asteroidKilledPlayer.
  destruct (ServerGameData_removePlayerById _ _) as [[k|] gd1] eqn:Hr;
    apply J_runBreakAsteroid; [|done].
  apply removePlayerById_Some in Hr as [-> ->]. by apply J_killed.
Qed.

Lemma J_bulletKilledAsteroid r a s :
  onServer J s -> onServer J (Server_bulletKilledAsteroid r a s).
Proof using J_recycleBulletById J_breakAsteroid J_increaseAsteroidPoint.
  intros Hs. unfold Server_bulletKilledAsteroid.
  destruct (_ !! r) as [b|]; [|done].
  set (s1 := match truthy _ with Some _ => _ | None => _ end).
  assert (Hs1 : onServer J s1).
  { subst s1. destruct (truthy _) as [fid|]; [|done].
    destruct (ServerGameData_getPlayerWithId _ _) as [firer|]; [|done].
    apply (J_runBreakAsteroid a) in Hs. unfold onServer in *. simpl. auto. }
  unfold onServer in *. simpl. auto.
Qed.

Lemma J_bulletKilledPlayer r p s :
  onServer J s -> onServer J (Server_bulletKilledPlayer r p s).
Proof using J_removePlayerById J_recycleBulletsByFirerId J_recycleBulletById
            J_increaseKillingPoint.
  intros Hs. unfold Server_bulletKilledPlayer.
  destruct (_ !! r) as [b|]; [|done].
  set (s1 := match truthy _ with Some _ => _ | None => _ end).
  assert (Hs1 : onServer J s1).
  { subst s1. destruct (truthy _) as [fid|]; [|done].
    destruct (ServerGameData_getPlayerWithId _ _) as [firer|]; [|done].
    destruct (ServerGameData_removePlayerById _ _) as [[k|] gd1] eqn:Hr;
      [|done].
    apply removePlayerById_Some in Hr as [-> ->].
    apply (J_killed (p_id p)
             (fun sock => KilledByPlayerEvent sock (p_id firer) (p_id p)))
      in Hs.
    unfold onServer in *. simpl. auto. }
  unfold onServer in *. simpl. auto.
Qed.

Lemma J_update s s' :
  ServerGameData_update s = Some s' -> onServer J s -> onServer J s'.
Proof using All.
  unfold ServerGameData_update, ServerGameData_simulate. intros Hrun Hs.
  set (s1 := runGameData _ s) in Hrun.
  assert (Hs1 : onServer J s1).
  { subst s1. unfold runGameData, onServer.
    pose proof (J_advance _ _ Hs) as Ha.
    by destruct (ServerGameData_advance _ _). }
  destruct (ServerGameData_collideAsteroids_from _ _) as [s2|] eqn:Hc;
    [|done].
  injection Hrun as <-.
  assert (Hs3 : onServer J (ServerGameData_collidePlayers s2)).
  { apply (collidePlayers_pres (onServer J));
      auto using J_asteroidKilledPlayer, J_bulletKilledAsteroid,
                 J_bulletKilledPlayer.
    eapply (collideAsteroids_from_pres (onServer J)); eauto
      using J_asteroidKilledPlayer, J_bulletKilledAsteroid,
            J_bulletKilledPlayer. }
  unfold runGameData, onServer.
  pose proof (J_topUp _ _ Hs3) as Ht.
  by destruct (ServerGameData_topUp _ _).
Qed.

Lemma reachable_J s : reachable s -> onServer J s.
Proof using All.
  induction 1 as [|sock s _ IH|sock s _ IH|sock name color s _ IH
                  |sock input s _ IH|s s' _ IH Hloop|a p s _ IH|r a s _ IH
                  |r p s _ IH|id name color s _ IH|id s _ IH|a s _ IH
                  |id s _ IH|id s _ IH].
  - unfold new_Server, runGameData, onServer. cbn [calls].
    pose proof J_new as Hn. by destruct (new_ServerGameData 0).
  - exact IH.
  - unfold Server_onDisconnectedEvent.
    set (s1 := match list_find _ _ with Some _ => _ | None => s end).
    assert (Hs1 : onServer J s1 /\ gameData s1 = gameData s).
    { subst s1. by destruct (list_find _ _) as [[??]|]. }
    destruct Hs1 as [Hs1 Hgd]. destruct (socketMe _ _) as [id|]; [|done].
    unfold onServer in *. simpl. auto.
  - unfold Server_onTryLoggingInEvent.
    destruct (list_find _ _) as [[i sock']|]; [|done].
    destruct (s_me sock'); [done|].
    pose proof (J_addPlayer (s_id sock') name color _ _ IH) as Ha.
    destruct (ServerGameData_addPlayer _ _ _ _ _) as [[pl gd] n]. exact Ha.
  - unfold Server_onPlayerInputEvent. destruct (socketMe _ _); [|done].
    unfold onServer in *. simpl. auto.
  - unfold Server_gameUpdateLoop in Hloop.
    destruct (ServerGameData_update s) as [s1|] eqn:Hu; [|done].
    injection Hloop as <-. exact (J_update s s1 Hu IH).
  - by apply J_asteroidKilledPlayer.
  - by apply J_bulletKilledAsteroid.
  - by apply J_bulletKilledPlayer.
  - unfold runGameData, onServer.
    pose proof (J_addPlayer id name color _ _ IH) as Ha.
    destruct (ServerGameData_addPlayer _ _ _ _ _) as [[pl gd] n]. exact Ha.
  - unfold onServer in *. simpl. auto.
  - by apply J_runBreakAsteroid.
  - unfold onServer in *. simpl. auto.
  - unfold onServer in *. simpl. auto.
Qed.

End GameDataInvariant.

(** ** Invariants of the ships *)

Section PlayerInvariant.
Context {E : Externals}.
Variable P : ServerPlayer -> Prop.
Hypothesis P_new :
  forall id name color n,
    P (new_ServerPlayer id name color
         (ServerGameData_width / num 2)%Qc (ServerGameData_height / num 2)%Qc
         n).1.
Hypothesis P_update :
  forall p bh n,
    P p ->
    P (ServerPlayer_update ServerGameData_width ServerGameData_height p bh n).1.1.
Hypothesis P_applyInput :
  forall input p, P p -> P (ServerPlayer_applyInput input p).
Hypothesis P_increaseAsteroidPoint :
  forall p, P p -> P (ServerPlayer_increaseAsteroidPoint p).
Hypothesis P_increaseKillingPoint :
  forall p, P p -> P (ServerPlayer_increaseKillingPoint p).

Lemma Forall_Players_alter f id ps :
  (forall p, P p -> P (f p)) -> Forall P ps -> Forall P (Players_alter f id ps).
Proof.
  intros Hf. induction 1 as [|p ps Hp Hps IH]; simpl; [done|].
  destruct (bool_decide (p_id p = id)); constructor; auto.
Qed.

Lemma Forall_Players_set id v ps :
  P v -> Forall P ps -> Forall P (Players_set id v ps).
Proof.
  intros Hv Hps. unfold Players_set. destruct (Players_get id ps).
  - by apply Forall_Players_alter.
  - apply Forall_app. by split; [|constructor].
Qed.

Lemma Forall_updatePlayers ps bh n :
  Forall P ps -> Forall P (ServerGameData_updatePlayers ps bh n).1.1.
Proof using P_update.
  revert bh n. induction ps as [|p ps IH]; intros bh n Hps; simpl; [done|].
  apply Forall_cons in Hps as [Hp Hps]. unfold bind.
  pose proof (P_update p bh n Hp) as Hu.
  destruct (ServerPlayer_update _ _ p bh n) as [[p' bh1] n1].
  specialize (IH bh1 n1 Hps).
  destruct (ServerGameData_updatePlayers ps bh1 n1) as [[ps' bh2] n2].
  simpl in *. by constructor.
Qed.

Lemma reachable_players_Forall s :
  reachable s -> Forall P (players (gameData s)).
Proof using All.
  apply (reachable_J (fun gd _ => Forall P (players gd))).
  - pose proof (pushBigAsteroids_spec
                  (Z.to_nat ServerGameData_minBigAsteroidCount)
                  {| players := []; bulletHouse := new_BulletHouse;
                     asteroids := []; curBigAsteroidsCount := 0 |} 0) as Hn.
    unfold new_ServerGameData.
    destruct (ServerGameData_pushBigAsteroids _ _ _) as [gd n].
    destruct (Hn gd n eq_refl) as (Hp & _). simpl. rewrite Hp. constructor.
  - intros id name color gd n Hgd.
    unfold ServerGameData_addPlayer, bind, ret.
    pose proof (P_new id name color n) as Hp.
    destruct (new_ServerPlayer _ _ _ _ _ _) as [pl n1]. simpl.
    by apply Forall_Players_set.
  - intros id gd n Hgd. unfold ServerGameData_removePlayerById.
    destruct (Players_get _ _); [|done]. simpl.
    unfold Players_delete. rewrite Forall_forall in *.
    intros q Hq. apply Hgd. by apply list_elem_of_filter in Hq as [_ ?].
  - done.
  - done.
  - intros a gd n Hgd.
    destruct (ServerGameData_breakAsteroid a gd n) as [gd' n'] eqn:Hb.
    apply breakAsteroid_spec in Hb as (Hp & _). simpl. by rewrite Hp.
  - intros input id gd n Hgd. apply Forall_Players_alter; auto.
  - intros id gd n Hgd. apply Forall_Players_alter; auto.
  - intros id gd n Hgd. apply Forall_Players_alter; auto.
  - intros gd n Hgd. unfold ServerGameData_advance, bind, ret.
    pose proof (Forall_updatePlayers (players gd) (bulletHouse gd) n Hgd) as Hu.
    destruct (ServerGameData_updatePlayers _ _ _) as [[ps bh] n1].
    destruct (ServerGameData_updateAsteroids _ _ _) as [asts n2]. done.
  - intros gd n Hgd.
    destruct (ServerGameData_topUp gd n) as [gd' n'] eqn:Ht.
    apply topUp_spec in Ht as (Hp & _). simpl. by rewrite Hp.
Qed.

End PlayerInvariant.

Section WorldProofs.
Context {E : Externals}.

Lemma wrapEdge_range (size v : Qc) :
  (0 <= size)%Qc ->
  (- ServerPlayer_size <= wrapEdge size v <= size + ServerPlayer_size)%Qc.
Proof.
  intros Hsize. unfold wrapEdge, gtb, ltb.
  case_bool_decide as Hgt.
  - unfold ServerPlayer_size in *. qc_to_q. lra.
  - case_bool_decide as Hlt.
    + unfold ServerPlayer_size in *. qc_to_q. lra.
    + split; by apply Qcnot_lt_le.
Qed.

Lemma update_position width height p bh n :
  p_x (ServerPlayer_update width height p bh n).1.1
  = p_x (ServerPlayer_move width height p)
  /\ p_y (ServerPlayer_update width height p bh n).1.1
     = p_y (ServerPlayer_move width height p).
Proof.
  unfold ServerPlayer_update, bind, ret.
  destruct (ServerPlayer_fire _ _ _) as [[[[now then_] fireDelta] bh'] n1].
  destruct (ServerPlayer_blink _ _ _) as [color n2]. done.
Qed.

Lemma world_nonneg :
  (0 <= ServerGameData_width)%Qc /\ (0 <= ServerGameData_height)%Qc.
Proof. split; unfold ServerGameData_width, ServerGameData_height; qc_to_q; lra. Qed.

(** The ships never leave the world by more than their size: in every
    state of the server each ship has both coordinates between -15 and
    4015. *)
Theorem ships_stay_in_world (s : Server) (p : ServerPlayer) :
  reachable s -> p ∈ players (gameData s) ->
  (- num 15 <= p_x p <= num 4015 /\ - num 15 <= p_y p <= num 4015)%Qc.
Proof.
  intros Hs Hp.
  assert (Hall : Forall shipInWorld (players (gameData s))).
  { apply reachable_players_Forall; [| |done|done|done|done].
    - intros id name color n.
      unfold shipInWorld, new_ServerPlayer, bind, call, ret.
      cbn [fst p_x p_y]. unfold ServerGameData_width, ServerGameData_height.
      rewrite half_of_world. unfold ServerPlayer_size. qc_to_q. lra.
    - intros q bh n _. unfold shipInWorld.
      destruct (update_position ServerGameData_width ServerGameData_height
                  q bh n) as [-> ->].
      destruct world_nonneg as [Hw Hh].
      split; by apply wrapEdge_range. }
  rewrite Forall_forall in Hall. specialize (Hall p Hp).
  unfold shipInWorld, ServerPlayer_size, ServerGameData_width,
    ServerGameData_height in Hall.
  revert Hall. qc_to_q. lra.
Qed.

(** The invincibility countdown of every ship of the server lies between
    0 and 255. *)
Theorem countdown_in_range (s : Server) (p : ServerPlayer) :
  reachable s -> p ∈ players (gameData s) ->
  (0 <= p_invincibleCountdown p <= 255)%Z.
Proof.
  intros Hs Hp.
  assert (Hall : Forall (fun p => (0 <= p_invincibleCountdown p <= 255)%Z)
                   (players (gameData s))).
  { apply reachable_players_Forall; [done| |done|done|done|done].
    intros q bh n Hq. rewrite update_countdown. case_bool_decide; lia. }
  rewrite Forall_forall in Hall. by apply Hall.
Qed.

End WorldProofs.

(** ** Recycling by firer and by id *)

Section RecycleProofs.
Context {E : Externals}.

Lemma filter_ext_in {A} (P Q : A -> Prop) `{forall x, Decision (P x)}
    `{forall x, Decision (Q x)} (l : list A) :
  (forall x, x ∈ l -> P x <-> Q x) -> filter P l = filter Q l.
Proof.
  induction l as [|x l IH]; intros Hext; [done|].
  rewrite !filter_cons.
  rewrite IH by (intros y Hy; apply Hext; by right).
  destruct (decide (P x)) as [HP|HP], (decide (Q x)) as [HQ|HQ]; try done.
  - destruct HQ. apply Hext; [by left|done].
  - destruct HP. apply Hext; [by left|done].
Qed.

Lemma take_delete_same {A} (l : list A) j : take j (delete j l) = take j l.
Proof.
  revert j. induction l as [|x l IH]; intros [|j]; simpl; try done.
  by rewrite IH.
Qed.

Lemma drop_delete_same {A} (l : list A) j : drop j (delete j l) = drop (S j) l.
Proof.
  revert j. induction l as [|x l IH]; intros [|j]; simpl; try done.
Qed.

(** The loop of [recycleBulletsByFirerId], run from index [i]: the two
    arrays. *)
Lemma recycleBulletsByFirerId_from_lists i id bh :
  NoDup (bullets bh) -> i <= length (bullets bh) ->
  bullets (BulletHouse_recycleBulletsByFirerId_from i id bh)
  = filter (fun r => firedBy (heap bh) id r = false) (take i (bullets bh))
    ++ drop i (bullets bh)
  /\ recycledBullets (BulletHouse_recycleBulletsByFirerId_from i id bh)
     = recycledBullets bh
       ++ reverse
            (filter (fun r => firedBy (heap bh) id r = true)
               (take i (bullets bh))).
Proof.
  revert bh. induction i as [|j IH]; intros bh Hnd Hle.
  { simpl. rewrite take_0, drop_0. simpl. by rewrite app_nil_r. }
  cbn [BulletHouse_recycleBulletsByFirerId_from].
  destruct (bullets bh !! j) as [r|] eqn:Hj.
  2:{ apply lookup_ge_None in Hj. lia. }
  rewrite (take_S_r _ _ _ Hj), !filter_app, !filter_cons, !filter_nil.
  destruct (firedBy (heap bh) id r) eqn:Hfb.
  - destruct (IH (BulletHouse_recycleAt j r bh)) as [Hb Hr].
    { simpl. unfold Array_splice1.
      eapply sublist_NoDup; [exact Hnd|apply sublist_delete]. }
    { simpl. unfold Array_splice1. rewrite length_delete by (by eexists). lia. }
    rewrite Hb, Hr. cbn [bullets recycledBullets heap BulletHouse_recycleAt].
    unfold Array_splice1. rewrite take_delete_same, drop_delete_same.
    assert (Hext : forall v r', r' ∈ take j (bullets bh) ->
              firedBy (alter ServerBullet_prepareRecycle r (heap bh)) id r' = v
              <-> firedBy (heap bh) id r' = v).
    { intros v r' Hr'. rewrite firedBy_prepareRecycle.
      rewrite bool_decide_eq_false_2; [done|]. intros ->.
      apply elem_of_take in Hr' as (k & Hk & Hlt).
      pose proof (NoDup_lookup _ _ _ _ Hnd Hk Hj). lia. }
    rewrite (filter_ext_in _ (fun r' => firedBy (heap bh) id r' = false))
      by apply Hext.
    rewrite (filter_ext_in (fun r' => firedBy _ id r' = true)
               (fun r' => firedBy (heap bh) id r' = true))
      by apply Hext.
    rewrite decide_False by done. rewrite decide_True by done.
    rewrite app_nil_r, reverse_app. simpl. rewrite <-!(assoc_L (++)).
    done.
  - destruct (IH bh Hnd ltac:(lia)) as [Hb Hr]. rewrite Hb, Hr.
    rewrite decide_True by done. rewrite decide_False by done.
    rewrite app_nil_r, <-(assoc_L (++)). simpl.
    by rewrite (drop_S _ _ _ Hj).
Qed.

(** An instance that [firerId] did not fire is not touched. *)
Lemma recycleBulletsByFirerId_from_other i id bh r :
  firedBy (heap bh) id r = false ->
  heap (BulletHouse_recycleBulletsByFirerId_from i id bh) !! r = heap bh !! r.
Proof.
  revert bh. induction i as [|j IH]; intros bh Hr; simpl; [done|].
  destruct (bullets bh !! j) as [r'|]; [|done].
  destruct (firedBy (heap bh) id r') eqn:Hfb; [|by apply IH].
  rewrite IH.
  - simpl. rewrite list_lookup_alter_ne; [done|]. congruence.
  - simpl. rewrite firedBy_prepareRecycle. by case_bool_decide.
Qed.

(** An active instance that [firerId] fired is reset. *)
Lemma recycleBulletsByFirerId_from_fired i id bh k r :
  NoDup (bullets bh) -> i <= length (bullets bh) ->
  bullets bh !! k = Some r -> k < i ->
  firedBy (heap bh) id r = true ->
  heap (BulletHouse_recycleBulletsByFirerId_from i id bh) !! r
  = ServerBullet_prepareRecycle <$> heap bh !! r.
Proof.
  revert bh. induction i as [|j IH]; intros bh Hnd Hle Hk Hlt Hr; [lia|].
  cbn [BulletHouse_recycleBulletsByFirerId_from].
  destruct (bullets bh !! j) as [r'|] eqn:Hj.
  2:{ apply lookup_ge_None in Hj. lia. }
  destruct (decide (j = k)) as [->|Hjk].
  - assert (r' = r) as -> by congruence. rewrite Hr.
    rewrite recycleBulletsByFirerId_from_other.
    + simpl. by rewrite list_lookup_alter_eq.
    + simpl. rewrite firedBy_prepareRecycle. by rewrite bool_decide_eq_true_2.
  - assert (Hne : r <> r').
    { intros ->. pose proof (NoDup_lookup _ _ _ _ Hnd Hj Hk). lia. }
    destruct (firedBy (heap bh) id r') eqn:Hfb.
    + rewrite IH.
      * simpl. by rewrite list_lookup_alter_ne.
      * simpl. unfold Array_splice1.
        eapply sublist_NoDup; [exact Hnd|apply sublist_delete].
      * simpl. unfold Array_splice1.
        rewrite length_delete by (by eexists). lia.
      * simpl. unfold Array_splice1. by rewrite list_lookup_delete_lt by lia.
      * lia.
      * simpl. rewrite firedBy_prepareRecycle.
        by rewrite bool_decide_eq_false_2.
    + apply IH; try done; lia.
Qed.

Lemma recycleBulletsByFirerId_lists (firerId : string) (bh : BulletHouse) :
  NoDup (bullets bh) ->
  bullets (BulletHouse_recycleBulletsByFirerId firerId bh)
  = filter (fun r => firedBy (heap bh) firerId r = false) (bullets bh)
  /\ recycledBullets (BulletHouse_recycleBulletsByFirerId firerId bh)
     = recycledBullets bh
       ++ reverse
            (filter (fun r => firedBy (heap bh) firerId r = true) (bullets bh))
  /\ (forall r,
        firedBy (heap bh) firerId r = false ->
        heap (BulletHouse_recycleBulletsByFirerId firerId bh) !! r
        = heap bh !! r)
  /\ (forall r,
        r ∈ bullets bh -> firedBy (heap bh) firerId r = true ->
        heap (BulletHouse_recycleBulletsByFirerId firerId bh) !! r
        = ServerBullet_prepareRecycle <$> heap bh !! r).
Proof.
  intros Hnd. unfold BulletHouse_recycleBulletsByFirerId.
  destruct (recycleBulletsByFirerId_from_lists (length (bullets bh)) firerId
              bh Hnd (Nat.le_refl _)) as [Hb Hr].
  rewrite firstn_all, drop_all, app_nil_r in Hb. rewrite firstn_all in Hr.
  split; [done|]. split; [done|]. split.
  - intros r. apply recycleBulletsByFirerId_from_other.
  - intros r Hin Hfb. apply list_elem_of_lookup_1 in Hin as [k Hk].
    apply (recycleBulletsByFirerId_from_fired _ _ _ k); try done.
    by eapply lookup_lt_Some.
Qed.

(** [recycleBulletsByFirerId] takes off the active array exactly the
    instances that [firerId] fired and leaves the others in their order;
    it appends the ones it took to the recycled array, last to first, and
    resets them; it touches no other instance. *)
Theorem recycleBulletsByFirerId_exact (firerId : string) (bh : BulletHouse) :
  NoDup (bullets bh) ->
  bullets (BulletHouse_recycleBulletsByFirerId firerId bh)
  = filter (fun r => firedBy (heap bh) firerId r = false) (bullets bh)
  /\ recycledBullets (BulletHouse_recycleBulletsByFirerId firerId bh)
     = recycledBullets bh
       ++ reverse
            (filter (fun r => firedBy (heap bh) firerId r = true) (bullets bh))
  /\ (forall r,
        firedBy (heap bh) firerId r = false ->
        heap (BulletHouse_recycleBulletsByFirerId firerId bh) !! r
        = heap bh !! r)
  /\ (forall r,
        r ∈ bullets bh -> firedBy (heap bh) firerId r = true ->
        heap (BulletHouse_recycleBulletsByFirerId firerId bh) !! r
        = ServerBullet_prepareRecycle <$> heap bh !! r).
Proof. apply recycleBulletsByFirerId_lists. Qed.

End RecycleProofs.

(** ** The projectiles of a running server *)

Section BulletProofs.
Context {E : Externals}.

Local Arguments ServerBullet_update : simpl never.
Local Arguments ServerBullet_prepareRecycle : simpl never.

Lemma update_from_inWorld i bh :
  pool_inv bh -> i <= length (bullets bh) ->
  (forall k r, i <= k -> bullets bh !! k = Some r ->
     exists b, heap bh !! r = Some b /\ bulletInWorld b) ->
  activeInWorld
    (BulletHouse_update_from i ServerGameData_width ServerGameData_height bh).
Proof.
  revert bh. induction i as [|j IH]; intros bh Hinv Hle Hdone.
  { intros r Hr. apply list_elem_of_lookup_1 in Hr as [k Hk].
    apply (Hdone k); [lia|done]. }
  cbn [BulletHouse_update_from].
  destruct (bullets bh !! j) as [r|] eqn:Hj.
  2:{ apply lookup_ge_None in Hj. lia. }
  pose proof (update_step_inv bh ServerGameData_width ServerGameData_height
                j r Hinv Hj) as Hstep.
  cbv zeta in Hstep.
  destruct Hinv as [Hnd Hall Hres Hact].
  pose proof (proj1 (NoDup_app _ _) Hnd) as (Hnd1 & _ & _).
  assert (Hin : r ∈ bullets bh) by by eapply list_elem_of_lookup_2.
  destruct (Hact r Hin) as (b & Hb & Hfl).
  assert (Hflag :
            flagged
              (alter (ServerBullet_update ServerGameData_width
                        ServerGameData_height) r (heap bh)) r
            = b_needsToBeRecycled
                (ServerBullet_update ServerGameData_width
                   ServerGameData_height b)).
  { unfold flagged. by rewrite list_lookup_alter_eq, Hb. }
  cbn [heap] in Hstep |- *. rewrite Hflag in *.
  destruct (b_needsToBeRecycled
              (ServerBullet_update ServerGameData_width
                 ServerGameData_height b)) eqn:Hout.
  - apply IH; [exact Hstep| |].
    + simpl. unfold Array_splice1. rewrite length_delete by (by eexists). lia.
    + intros k r' Hk Hr'. simpl in Hr'. unfold Array_splice1 in Hr'.
      rewrite list_lookup_delete_ge in Hr' by done.
      assert (Hne : r' <> r).
      { intros ->. pose proof (NoDup_lookup _ _ _ _ Hnd1 Hj Hr'). lia. }
      simpl. rewrite !list_lookup_alter_ne by done.
      apply (Hdone (S k)); [lia|done].
  - apply IH; [exact Hstep|simpl; lia|].
    intros k r' Hk Hr'. simpl in Hr'. simpl.
    destruct (decide (k = j)) as [->|Hkj].
    + assert (r' = r) as -> by congruence.
      rewrite list_lookup_alter_eq, Hb. eexists. split; [done|].
      unfold ServerBullet_update in Hout. cbn [b_needsToBeRecycled] in Hout.
      rewrite Hfl in Hout. cbn [negb] in Hout.
      apply outOfBounds_spec in Hout. exact Hout.
    + assert (Hne : r' <> r).
      { intros ->. pose proof (NoDup_lookup _ _ _ _ Hnd1 Hj Hr'). lia. }
      rewrite list_lookup_alter_ne by done. apply (Hdone k); [lia|done].
Qed.

Lemma recycleAt_inWorld j r bh :
  NoDup (bullets bh) -> bullets bh !! j = Some r ->
  activeInWorld bh -> activeInWorld (BulletHouse_recycleAt j r bh).
Proof.
  intros Hnd Hj Hw r' Hr'. simpl in *. unfold Array_splice1 in Hr'.
  assert (Hne : r' <> r).
  { intros ->. exact (NoDup_delete_notin _ _ _ Hnd Hj Hr'). }
  rewrite list_lookup_alter_ne by done. apply Hw.
  by apply list_elem_of_delete_inv in Hr'.
Qed.

Lemma pool_inv_NoDup bh : pool_inv bh -> NoDup (bullets bh).
Proof. intros [Hnd _ _ _]. by apply NoDup_app in Hnd as (? & _). Qed.

Lemma recycleBulletsByFirerId_inWorld id bh :
  NoDup (bullets bh) ->
  activeInWorld bh -> activeInWorld (BulletHouse_recycleBulletsByFirerId id bh).
Proof.
  intros Hnd Hw r Hr.
  destruct (recycleBulletsByFirerId_lists id bh Hnd) as (Hb & _ & Hoth & _).
  rewrite Hb in Hr. apply list_elem_of_filter in Hr as [Hnf Hr].
  rewrite Hoth by done. by apply Hw.
Qed.

Lemma recycleBulletById_inWorld id bh :
  NoDup (bullets bh) ->
  activeInWorld bh -> activeInWorld (BulletHouse_recycleBulletById id bh).
Proof.
  intros Hnd Hw. unfold BulletHouse_recycleBulletById.
  destruct (list_find _ _) as [[i r]|] eqn:Hf; [|done].
  apply list_find_Some in Hf as (Hi & _). by apply recycleAt_inWorld.
Qed.

Lemma new_ServerGameData_fields n :
  players (new_ServerGameData n).1 = []
  /\ bulletHouse (new_ServerGameData n).1 = new_BulletHouse.
Proof.
  pose proof (pushBigAsteroids_spec
                (Z.to_nat ServerGameData_minBigAsteroidCount)
                {| players := []; bulletHouse := new_BulletHouse;
                   asteroids := []; curBigAsteroidsCount := 0 |} n) as Hn.
  unfold new_ServerGameData.
  destruct (ServerGameData_pushBigAsteroids _ _ _) as [gd n'].
  by destruct (Hn gd n' eq_refl) as (? & ? & _).
Qed.

Lemma breakAsteroid_bulletHouse a gd n :
  bulletHouse (ServerGameData_breakAsteroid a gd n).1 = bulletHouse gd.
Proof.
  destruct (ServerGameData_breakAsteroid a gd n) as [gd' n'] eqn:Hb.
  by apply breakAsteroid_spec in Hb as (_ & ? & _).
Qed.

Lemma topUp_bulletHouse gd n :
  bulletHouse (ServerGameData_topUp gd n).1 = bulletHouse gd.
Proof.
  destruct (ServerGameData_topUp gd n) as [gd' n'] eqn:Ht.
  by apply topUp_spec in Ht as (_ & ? & _).
Qed.

Lemma addPlayer_bulletHouse id name color gd n :
  bulletHouse (ServerGameData_addPlayer id name color gd n).1.2
  = bulletHouse gd.
Proof. done. Qed.

Lemma reachable_pool_in_world s : reachable s -> pool_in_world (gameData s).
Proof.
  apply (reachable_J (fun gd _ => pool_in_world gd)); unfold pool_in_world.
  - destruct (new_ServerGameData_fields 0) as [_ ->]. split.
    + apply pool_reachable_inv. constructor.
    + intros r Hr. by apply elem_of_nil in Hr.
  - done.
  - intros id gd n. by rewrite (proj2 (proj2 (removePlayerById_frame id gd))).
  - intros id gd n [Hinv Hw]. simpl. split.
    + by apply recycleBulletById_inv.
    + apply recycleBulletById_inWorld; [by apply pool_inv_NoDup|done].
  - intros id gd n [Hinv Hw]. simpl. split.
    + by apply recycleBulletsByFirerId_from_inv.
    + apply recycleBulletsByFirerId_inWorld; [by apply pool_inv_NoDup|done].
  - intros a gd n. by rewrite breakAsteroid_bulletHouse.
  - done.
  - done.
  - done.
  - intros gd n [Hinv _]. unfold ServerGameData_advance, bind, ret.
    pose proof (updatePlayers_pool (players gd) (bulletHouse gd) n Hinv) as Hp.
    destruct (ServerGameData_updatePlayers _ _ _) as [[ps bh] n1].
    destruct (ServerGameData_updateAsteroids _ _ _) as [asts n2].
    simpl in *. split; [by apply update_from_inv|].
    apply update_from_inWorld; [done|done|].
    intros k r Hk Hr. apply lookup_lt_Some in Hr. lia.
  - intros gd n. by rewrite topUp_bulletHouse.
Qed.

(** Every projectile in flight is inside the world: in every state of
    the server each active projectile has both coordinates between 0 and
    4000. *)
Theorem active_bullets_in_world (s : Server) (r : nat) (b : ServerBullet) :
  reachable s ->
  r ∈ bullets (bulletHouse (gameData s)) ->
  heap (bulletHouse (gameData s)) !! r = Some b ->
  (0 <= b_x b <= num 4000 /\ 0 <= b_y b <= num 4000)%Qc.
Proof.
  intros Hs Hr Hb. destruct (reachable_pool_in_world s Hs) as [_ Hw].
  destruct (Hw r Hr) as (b' & Hb' & Hin).
  assert (b' = b) as -> by congruence. exact Hin.
Qed.

End BulletProofs.

(** ** The ids of the projectiles *)

Section BulletIdProofs.
Context {E : Externals}.
Hypothesis uuid_inj : forall m n : nat, uuid m = uuid n -> m = n.

Local Arguments ServerBullet_update : simpl never.
Local Arguments ServerBullet_prepareRecycle : simpl never.
Local Arguments ServerBullet_setInitValues : simpl never.

Lemma fmap_b_id_alter (g : ServerBullet -> ServerBullet) (r : nat)
    (h : list ServerBullet) :
  (forall b, b_id (g b) = b_id b) -> b_id <$> alter g r h = b_id <$> h.
Proof.
  intros Hg. apply list_eq. intros i. rewrite !list_lookup_fmap.
  destruct (decide (i = r)) as [->|Hne].
  - rewrite list_lookup_alter_eq. destruct (h !! r); simpl; [|done].
    by rewrite Hg.
  - by rewrite list_lookup_alter_ne.
Qed.

Lemma recycleAt_ids j r bh :
  bullet_ids (BulletHouse_recycleAt j r bh) = bullet_ids bh.
Proof. unfold bullet_ids. simpl. by apply fmap_b_id_alter. Qed.

Lemma update_from_ids i width height bh :
  bullet_ids (BulletHouse_update_from i width height bh) = bullet_ids bh.
Proof.
  revert bh. induction i as [|j IH]; intros bh; simpl; [done|].
  destruct (bullets bh !! j) as [r|]; [|done]. rewrite IH.
  destruct (flagged _ r); [rewrite recycleAt_ids|];
    unfold bullet_ids; simpl; by apply fmap_b_id_alter.
Qed.

Lemma recycleBulletsByFirerId_from_ids i id bh :
  bullet_ids (BulletHouse_recycleBulletsByFirerId_from i id bh)
  = bullet_ids bh.
Proof.
  revert bh. induction i as [|j IH]; intros bh; simpl; [done|].
  destruct (bullets bh !! j) as [r|]; [|done]. rewrite IH.
  destruct (firedBy _ _ r); [apply recycleAt_ids|done].
Qed.

Lemma recycleBulletById_ids id bh :
  bullet_ids (BulletHouse_recycleBulletById id bh) = bullet_ids bh.
Proof.
  unfold BulletHouse_recycleBulletById.
  destruct (list_find _ _) as [[i r]|]; [apply recycleAt_ids|done].
Qed.

Lemma fireBullet_ids firerId x y heading color bh n :
  ids_issued n (bullet_ids bh) ->
  n <= (BulletHouse_fireBullet firerId x y heading color bh n).2
  /\ ids_issued (BulletHouse_fireBullet firerId x y heading color bh n).2
       (bullet_ids (BulletHouse_fireBullet firerId x y heading color bh n).1).
Proof using uuid_inj.
  intros Hids.
  unfold BulletHouse_fireBullet, BulletHouse_createOrGetBullet, bind.
  destruct (Array_pop (recycledBullets bh)) as [[r|] rest].
  - unfold ret. simpl. split; [done|]. unfold bullet_ids. simpl.
    by rewrite fmap_b_id_alter.
  - unfold new_ServerBullet, bind, call, ret. simpl. split; [lia|].
    unfold bullet_ids. simpl. rewrite fmap_b_id_alter by done.
    rewrite fmap_app. simpl. apply (ids_issued_snoc uuid_inj n n (S n)); [done|lia|lia].
Qed.

Lemma ServerPlayer_update_bullet_ids width height p bh n :
  ids_issued n (bullet_ids bh) ->
  ids_issued (ServerPlayer_update width height p bh n).2
    (bullet_ids (ServerPlayer_update width height p bh n).1.2).
Proof using uuid_inj.
  intros Hids.
  destruct (ServerPlayer_update width height p bh n) as [[p' bh'] n'] eqn:Hu.
  pose proof (ServerPlayer_update_calls _ _ _ _ _ _ _ Hu) as Hle.
  revert Hu. unfold ServerPlayer_update, bind, ret.
  destruct (ServerPlayer_fire _ _ _) as [[[[now then_] fireDelta] bh1] n1] eqn:Hf.
  destruct (ServerPlayer_blink _ _ _) as [color n2] eqn:Hbl.
  intros [= _ <- <-]. simpl.
  assert (Hn12 : n1 <= n2).
  { revert Hbl. unfold ServerPlayer_blink, bind, call, ret.
    case_bool_decide; intros [= _ <-]; lia. }
  apply (ids_issued_mono n1); [done|].
  revert Hf. unfold ServerPlayer_fire, bind, call, ret.
  destruct (p_isFiring _); [|by intros [= _ _ _ <- <-]].
  destruct (gtb _ _).
  2:{ intros [= _ _ _ <- <-]. by apply (ids_issued_mono n); [lia|]. }
  pose proof (fireBullet_ids
                (p_id (ServerPlayer_move width height p))
                (p_x (ServerPlayer_move width height p))
                (p_y (ServerPlayer_move width height p))
                (p_heading (ServerPlayer_move width height p))
                (p_origColor (ServerPlayer_move width height p))
                bh (S n)) as Hfire.
  destruct (BulletHouse_fireBullet _ _ _ _ _ _ _) as [bh2 m2].
  intros [= _ _ _ <- <-]. apply Hfire.
  by apply (ids_issued_mono n); [lia|].
Qed.

Lemma updatePlayers_bullet_ids ps bh n :
  ids_issued n (bullet_ids bh) ->
  ids_issued (ServerGameData_updatePlayers ps bh n).2
    (bullet_ids (ServerGameData_updatePlayers ps bh n).1.2).
Proof using uuid_inj.
  revert bh n. induction ps as [|p ps IH]; intros bh n Hids; simpl; [done|].
  unfold bind.
  pose proof (ServerPlayer_update_bullet_ids ServerGameData_width
                ServerGameData_height p bh n Hids) as Hp.
  destruct (ServerPlayer_update _ _ p bh n) as [[p' bh1] n1].
  specialize (IH bh1 n1 Hp).
  by destruct (ServerGameData_updatePlayers ps bh1 n1) as [[ps' bh2] n2].
Qed.

Lemma pushBigAsteroids_calls count gd n :
  n <= (ServerGameData_pushBigAsteroids count gd n).2.
Proof.
  revert gd n. induction count as [|c IH]; intros gd n; simpl; [done|].
  unfold bind.
  destruct (new_ServerAsteroid _ _ _ _) as [a n1] eqn:Hnew.
  apply new_ServerAsteroid_id in Hnew as [_ Hlt].
  etrans; [|apply IH]. lia.
Qed.

Lemma breakAsteroid_calls a gd n :
  n <= (ServerGameData_breakAsteroid a gd n).2.
Proof.
  unfold ServerGameData_breakAsteroid, ServerGameData_removeAsteroidById.
  destruct (list_find _ _) as [[i removed]|]; [|done].
  destruct (a_isBig removed); [|done]. unfold bind, ret.
  destruct (ServerAsteroid_createPieceOf _ _ _ n) as [p1 n1] eqn:H1.
  destruct (ServerAsteroid_createPieceOf _ _ _ n1) as [p2 n2] eqn:H2.
  destruct (ServerAsteroid_createPieceOf _ _ _ n2) as [p3 n3] eqn:H3.
  apply createPieceOf_id in H1 as [_ ?], H2 as [_ ?], H3 as [_ ?].
  simpl. lia.
Qed.

Lemma topUp_calls gd n : n <= (ServerGameData_topUp gd n).2.
Proof.
  unfold ServerGameData_topUp. case_bool_decide; [|done].
  apply pushBigAsteroids_calls.
Qed.

Lemma reachable_bullet_ids s :
  reachable s -> ids_issued (calls s) (bullet_ids (bulletHouse (gameData s))).
Proof using uuid_inj.
  apply (reachable_J (fun gd n => ids_issued n (bullet_ids (bulletHouse gd)))).
  - destruct (new_ServerGameData_fields 0) as [_ ->].
    split; [constructor|]. intros id Hid. by apply elem_of_nil in Hid.
  - intros id name color gd n. apply ids_issued_mono.
    unfold ServerGameData_addPlayer, new_ServerPlayer, bind, call, ret.
    simpl. lia.
  - intros id gd n. by rewrite (proj2 (proj2 (removePlayerById_frame id gd))).
  - intros id gd n. simpl. by rewrite recycleBulletById_ids.
  - intros id gd n. simpl.
    unfold BulletHouse_recycleBulletsByFirerId.
    by rewrite recycleBulletsByFirerId_from_ids.
  - intros a gd n Hgd. rewrite breakAsteroid_bulletHouse.
    eapply ids_issued_mono; [apply breakAsteroid_calls|done].
  - done.
  - done.
  - done.
  - intros gd n Hgd. unfold ServerGameData_advance, bind, ret.
    pose proof (updatePlayers_bullet_ids (players gd) (bulletHouse gd) n Hgd)
      as Hp.
    destruct (ServerGameData_updatePlayers _ _ _) as [[ps bh] n1].
    destruct (ServerGameData_updateAsteroids _ _ _) as [asts n2] eqn:Ha.
    apply updateAsteroids_ids in Ha as [Hle _].
    simpl in *. unfold BulletHouse_update. rewrite update_from_ids.
    by apply (ids_issued_mono n1).
  - intros gd n Hgd. rewrite topUp_bulletHouse.
    eapply ids_issued_mono; [apply topUp_calls|done].
Qed.

(** No two projectile instances of the server carry the same id, as long
    as [uuid] never returns the same id twice. *)
Theorem bullet_ids_distinct (s : Server) :
  reachable s -> NoDup (b_id <$> heap (bulletHouse (gameData s))).
Proof using uuid_inj. intros Hs. by destruct (reachable_bullet_ids s Hs). Qed.

End BulletIdProofs.

Section HitProofs.
Context {E : Externals}.

Local Arguments ServerBullet_prepareRecycle : simpl never.

Lemma delete_NoDup_filter {A} `{EqDecision A} (l : list A) i x :
  NoDup l -> l !! i = Some x -> delete i l = filter (fun y => y <> x) l.
Proof.
  intros Hnd. revert i. induction Hnd as [|y l Hy Hnd IH]; intros i Hi; [done|].
  rewrite filter_cons. destruct i as [|i]; simpl in *.
  - injection Hi as ->. rewrite decide_False by (intros H; by apply H).
    symmetry. clear IH Hnd. induction l as [|z l IH]; [done|].
    rewrite filter_cons. rewrite decide_True.
    + f_equal. apply IH. intros Hin. apply Hy. by right.
    + intros ->. apply Hy. by left.
  - rewrite decide_True.
    + f_equal. by apply IH.
    + intros ->. apply Hy. by eapply list_elem_of_lookup_2.
Qed.

Lemma recycleBulletById_finds bh r b :
  NoDup (bullets bh) -> NoDup (bullet_ids bh) ->
  r ∈ bullets bh -> heap bh !! r = Some b ->
  exists i,
    bullets bh !! i = Some r
    /\ list_find (hasId (heap bh) (b_id b)) (bullets bh) = Some (i, r).
Proof.
  intros Hnd Hids Hr Hb. apply list_elem_of_lookup_1 in Hr as [i Hi].
  exists i. split; [done|]. apply list_find_Some. split; [done|].
  split; [unfold hasId; by rewrite Hb|].
  intros j y Hj Hlt Hy. unfold hasId in Hy.
  assert (y = r) as ->.
  { apply (NoDup_lookup _ _ _ (b_id b) Hids); unfold bullet_ids;
      rewrite list_lookup_fmap; [done|by rewrite Hb]. }
  pose proof (NoDup_lookup _ _ _ _ Hnd Hi Hj). lia.
Qed.

Lemma recycleBulletById_cases (bh : BulletHouse) :
  NoDup (bullets bh) -> NoDup (b_id <$> heap bh) ->
  (forall id,
     (forall r, r ∈ bullets bh -> b_id <$> heap bh !! r <> Some id) ->
     BulletHouse_recycleBulletById id bh = bh)
  /\ (forall r b,
        r ∈ bullets bh -> heap bh !! r = Some b ->
        bullets (BulletHouse_recycleBulletById (b_id b) bh)
        = filter (fun r' => r' <> r) (bullets bh)
        /\ recycledBullets (BulletHouse_recycleBulletById (b_id b) bh)
           = recycledBullets bh ++ [r]
        /\ heap (BulletHouse_recycleBulletById (b_id b) bh) !! r
           = Some (ServerBullet_prepareRecycle b)
        /\ (forall r', r' <> r ->
              heap (BulletHouse_recycleBulletById (b_id b) bh) !! r'
              = heap bh !! r')).
Proof.
  intros Hnd Hids. split.
  - intros id Hnone. unfold BulletHouse_recycleBulletById.
    destruct (list_find _ _) as [[i r]|] eqn:Hf; [|done].
    apply list_find_Some in Hf as (Hi & Hid & _).
    destruct (Hnone r); [by eapply list_elem_of_lookup_2|exact Hid].
  - intros r b Hr Hb.
    destruct (recycleBulletById_finds bh r b Hnd Hids Hr Hb) as (i & Hi & Hf).
    unfold BulletHouse_recycleBulletById. rewrite Hf. simpl.
    unfold Array_splice1. split; [by apply delete_NoDup_filter|].
    split; [done|]. split; [by rewrite list_lookup_alter_eq, Hb|].
    intros r' Hne. by rewrite list_lookup_alter_ne.
Qed.

(** [recycleBulletById]: with no active instance of that id nothing
    happens; with distinct ids, recycling by the id of an active instance
    takes that instance, and no other, off the active array, appends it
    to the recycled array and resets it. *)
Theorem recycleBulletById_exact (bh : BulletHouse) :
  NoDup (bullets bh) -> NoDup (b_id <$> heap bh) ->
  (forall id,
     (forall r, r ∈ bullets bh -> b_id <$> heap bh !! r <> Some id) ->
     BulletHouse_recycleBulletById id bh = bh)
  /\ (forall r b,
        r ∈ bullets bh -> heap bh !! r = Some b ->
        bullets (BulletHouse_recycleBulletById (b_id b) bh)
        = filter (fun r' => r' <> r) (bullets bh)
        /\ recycledBullets (BulletHouse_recycleBulletById (b_id b) bh)
           = recycledBullets bh ++ [r]
        /\ heap (BulletHouse_recycleBulletById (b_id b) bh) !! r
           = Some (ServerBullet_prepareRecycle b)
        /\ (forall r', r' <> r ->
              heap (BulletHouse_recycleBulletById (b_id b) bh) !! r'
              = heap bh !! r')).
Proof. apply recycleBulletById_cases. Qed.

Lemma recycleBulletById_sub id bh r :
  r ∈ bullets (BulletHouse_recycleBulletById id bh) -> r ∈ bullets bh.
Proof.
  unfold BulletHouse_recycleBulletById.
  destruct (list_find _ _) as [[i r0]|]; [|done]. simpl.
  apply list_elem_of_delete_inv.
Qed.

Lemma bulletKilledAsteroid_bulletHouse r b a s :
  heap (bulletHouse (gameData s)) !! r = Some b ->
  bulletHouse (gameData (Server_bulletKilledAsteroid r a s))
  = BulletHouse_recycleBulletById (b_id b) (bulletHouse (gameData s)).
Proof.
  intros Hb. unfold Server_bulletKilledAsteroid. rewrite Hb.
  destruct (truthy _) as [fid|]; [|done].
  destruct (ServerGameData_getPlayerWithId _ _) as [firer|]; [|done].
  destruct (runGameData_breakAsteroid_fields a s) as (_ & Hbh & _).
  simpl. by rewrite Hbh.
Qed.

Lemma bulletKilledPlayer_bulletHouse r b p s :
  heap (bulletHouse (gameData s)) !! r = Some b ->
  bulletHouse (gameData (Server_bulletKilledPlayer r p s))
  = BulletHouse_recycleBulletById (b_id b) (bulletHouse (gameData s))
  \/ bulletHouse (gameData (Server_bulletKilledPlayer r p s))
     = BulletHouse_recycleBulletById (b_id b)
         (BulletHouse_recycleBulletsByFirerId (p_id p)
            (bulletHouse (gameData s))).
Proof.
  intros Hb. unfold Server_bulletKilledPlayer. rewrite Hb.
  destruct (truthy _) as [fid|]; [|by left].
  destruct (ServerGameData_getPlayerWithId _ _) as [firer|]; [|by left].
  destruct (ServerGameData_removePlayerById _ _) as [[k|] gd1] eqn:Hr;
    [|by left].
  apply removePlayerById_Some in Hr as [-> ->]. right.
  cbn [gameData withGameData ServerGameData_recycleBulletById bulletHouse
       alterPlayer].
  rewrite notifyKilled_gameData. simpl.
  by rewrite (proj2 (proj2 (removePlayerById_frame _ _))).
Qed.

Lemma heap_length_ids bh : length (heap bh) = length (bullet_ids bh).
Proof. unfold bullet_ids. by rewrite length_fmap. Qed.

Lemma pool_inv_recycled bh r :
  pool_inv bh -> r < length (heap bh) -> r ∉ bullets bh ->
  r ∈ recycledBullets bh
  /\ exists b, heap bh !! r = Some b /\ isReset b.
Proof.
  intros [Hnd Hall Hres Hact] Hlt Hnot.
  apply Hall, elem_of_app in Hlt as [?|Hrec]; [done|]. split; [done|].
  by apply Hres.
Qed.

Section Distinct.
Hypothesis uuid_inj : forall m n : nat, uuid m = uuid n -> m = n.

Lemma recycleBulletById_gone bh r b :
  pool_inv bh -> NoDup (bullet_ids bh) ->
  r < length (heap bh) ->
  (r ∈ bullets bh -> heap bh !! r = Some b) ->
  r ∉ bullets (BulletHouse_recycleBulletById (b_id b) bh).
Proof.
  intros Hinv Hids Hlt Hb Hin.
  apply recycleBulletById_sub in Hin as Hin0.
  destruct (recycleBulletById_cases bh (pool_inv_NoDup bh Hinv) Hids)
    as [_ Hex].
  destruct (Hex r b Hin0 (Hb Hin0)) as (Hbul & _).
  rewrite Hbul in Hin. by apply list_elem_of_filter in Hin as [? _].
Qed.

(** The projectile that hit cannot hit again: whichever handler resolves
    the hit, the instance is off the active array afterwards, on the
    recycled one and reset. *)
Theorem hit_projectile_is_recycled (s : Server) (r : nat) :
  reachable s ->
  r ∈ bullets (bulletHouse (gameData s)) ->
  (forall a,
     (r ∉ bullets (bulletHouse (gameData (Server_bulletKilledAsteroid r a s))))
     /\ r ∈ recycledBullets
              (bulletHouse (gameData (Server_bulletKilledAsteroid r a s)))
     /\ exists b,
          heap (bulletHouse (gameData (Server_bulletKilledAsteroid r a s)))
            !! r = Some b
          /\ isReset b)
  /\ (forall p,
        (r ∉ bullets (bulletHouse (gameData (Server_bulletKilledPlayer r p s))))
        /\ r ∈ recycledBullets
                 (bulletHouse (gameData (Server_bulletKilledPlayer r p s)))
        /\ exists b,
             heap (bulletHouse (gameData (Server_bulletKilledPlayer r p s)))
               !! r = Some b
             /\ isReset b).
Proof using uuid_inj.
  intros Hs Hr.
  destruct (reachable_pool_in_world s Hs) as [Hinv _].
  destruct (reachable_bullet_ids uuid_inj s Hs) as [Hids _].
  assert (Hlt : r < length (heap (bulletHouse (gameData s)))).
  { destruct Hinv as [_ Hall _ _]. apply Hall, elem_of_app. by left. }
  destruct (lookup_lt_is_Some_2 _ _ Hlt) as [b Hb].
  split.
  - intros a.
    assert (Hnot : r ∉ bullets
                       (bulletHouse (gameData (Server_bulletKilledAsteroid r a s)))).
    { rewrite (bulletKilledAsteroid_bulletHouse r b a s Hb).
      by apply recycleBulletById_gone. }
    split; [done|]. apply pool_inv_recycled; [| |done].
    + by apply bulletKilledAsteroid_pool.
    + rewrite (bulletKilledAsteroid_bulletHouse r b a s Hb).
      by rewrite heap_length_ids, recycleBulletById_ids, <-heap_length_ids.
  - intros p.
    pose proof (bulletKilledPlayer_pool r p s Hinv) as Hinv'.
    unfold server_pool_ok in Hinv'.
    set (bh := bulletHouse (gameData s)) in *.
    set (bh1 := BulletHouse_recycleBulletsByFirerId (p_id p) bh).
    assert (Hids1 : bullet_ids bh1 = bullet_ids bh).
    { apply recycleBulletsByFirerId_from_ids. }
    assert (Hgone1 : r ∉ bullets
                         (BulletHouse_recycleBulletById (b_id b) bh1)).
    { apply recycleBulletById_gone.
      - by apply recycleBulletsByFirerId_from_inv.
      - by rewrite Hids1.
      - by rewrite heap_length_ids, Hids1, <-heap_length_ids.
      - intros Hin.
        destruct (recycleBulletsByFirerId_lists (p_id p) bh
                    (pool_inv_NoDup bh Hinv)) as (Hbul & _ & Hoth & _).
        fold bh1 in Hbul, Hoth. rewrite Hbul in Hin.
        apply list_elem_of_filter in Hin as [Hnf _].
        by rewrite Hoth. }
    assert (Hnot : r ∉ bullets
                       (bulletHouse (gameData (Server_bulletKilledPlayer r p s)))).
    { destruct (bulletKilledPlayer_bulletHouse r b p s Hb) as [->| ->];
        [by apply recycleBulletById_gone|done]. }
    split; [done|]. apply pool_inv_recycled; [done| |done].
    destruct (bulletKilledPlayer_bulletHouse r b p s Hb) as [->| ->];
      rewrite heap_length_ids, recycleBulletById_ids, <-heap_length_ids.
    + exact Hlt.
    + fold bh bh1. rewrite heap_length_ids, Hids1, <-heap_length_ids.
      exact Hlt.
Qed.

End Distinct.

End HitProofs.

Section RunningInvariant.
Context {E : Externals}.
Variable I : Server -> Prop.
Hypothesis I_new : I new_Server.
Hypothesis I_onConnectedEvent :
  forall socket s,
    I s -> socket <> EmptyString -> socket ∉ s_id <$> connectedSockets s ->
    I (Server_onConnectedEvent socket s).
Hypothesis I_onDisconnectedEvent :
  forall socket s, I s -> I (Server_onDisconnectedEvent socket s).
Hypothesis I_onTryLoggingInEvent :
  forall socket name color s,
    I s -> I (Server_onTryLoggingInEvent socket name color s).
Hypothesis I_onPlayerInputEvent :
  forall socket input s, I s -> I (Server_onPlayerInputEvent socket input s).
Hypothesis I_advance :
  forall s, I s -> I (runGameData (ServerGameData_advance (gameData s)) s).
Hypothesis I_asteroidKilledPlayer :
  forall a p s, I s -> I (Server_asteroidKilledPlayer a p s).
Hypothesis I_bulletKilledAsteroid :
  forall r a s, I s -> I (Server_bulletKilledAsteroid r a s).
Hypothesis I_bulletKilledPlayer :
  forall r p s, I s -> I (Server_bulletKilledPlayer r p s).
Hypothesis I_topUp :
  forall s, I s -> I (runGameData (ServerGameData_topUp (gameData s)) s).
Hypothesis I_broadcast : forall s, I s -> I (broadcast s).

Lemma running_inv s : running s -> I s.
Proof using All.
  induction 1 as [|sock s _ IH Hne Hfresh|sock s _ IH|sock name color s _ IH
                  |sock input s _ IH|s s' _ IH Hloop]; auto.
  unfold Server_gameUpdateLoop in Hloop.
  destruct (ServerGameData_update s) as [s1|] eqn:Hu; [|done].
  injection Hloop as <-. apply (I_broadcast s1).
  unfold ServerGameData_update, ServerGameData_simulate in Hu.
  destruct (ServerGameData_collideAsteroids_from _ _) as [s2|] eqn:Hc;
    [|done].
  injection Hu as <-. apply I_topUp.
  apply (collidePlayers_pres I); auto.
  eapply (collideAsteroids_from_pres I); eauto.
Qed.

Lemma in_play_inv s : in_play s -> I s.
Proof using All.
  induction 1 as [s Hs|s _ IH|a p s _ IH|r a s _ IH|r p s _ IH]; auto.
  by apply running_inv.
Qed.

End RunningInvariant.

Section RunningProofs.
Context {E : Externals}.

Lemma running_reachable s : running s -> reachable s.
Proof.
  induction 1; try (by constructor). by eapply reach_gameUpdateLoop.
Qed.

Local Arguments ServerBullet_update : simpl never.
Local Arguments ServerBullet_prepareRecycle : simpl never.
Local Arguments ServerBullet_setInitValues : simpl never.

Lemma Players_ids_delete fid id ps :
  fid <> id -> fid ∈ p_id <$> ps -> fid ∈ p_id <$> Players_delete id ps.
Proof.
  intros Hne Hin. apply list_elem_of_fmap in Hin as (p & -> & Hp).
  apply list_elem_of_fmap. exists p. split; [done|].
  unfold Players_delete. by apply list_elem_of_filter.
Qed.

Lemma Players_ids_alter f id ps :
  (forall p, p_id (f p) = p_id p) ->
  p_id <$> Players_alter f id ps = p_id <$> ps.
Proof.
  intros Hf. induction ps as [|p ps IH]; [done|]. cbn [Players_alter].
  destruct (bool_decide (p_id p = id)); rewrite !fmap_cons;
    [by rewrite Hf|by rewrite IH].
Qed.

Lemma Players_get_elem id ps :
  id ∈ p_id <$> ps <-> is_Some (Players_get id ps).
Proof.
  unfold Players_get. induction ps as [|p ps IH]; simpl.
  - rewrite elem_of_nil. split; [done|]. by intros [? ?].
  - rewrite elem_of_cons, IH. case_bool_decide as Hp.
    + split; [by eexists|by left].
    + split; [intros [?|?]; [congruence|done]|by right].
Qed.

Lemma Players_ids_set fid id v ps :
  p_id v = id ->
  fid ∈ p_id <$> Players_set id v ps <-> fid = id \/ fid ∈ p_id <$> ps.
Proof.
  intros Hv. rewrite !Players_get_elem, Players_get_set by done.
  case_bool_decide as Hid.
  - split; [by left|by eexists].
  - split; [by right|]. by intros [?|?].
Qed.

Lemma updatePlayers_ids ps bh n :
  p_id <$> (ServerGameData_updatePlayers ps bh n).1.1 = p_id <$> ps.
Proof.
  pose proof (updatePlayers_countdown ps bh n) as Hf.
  induction Hf as [|p p' ps ps' [Hid _] _ IH]; [done|].
  rewrite !fmap_cons. by rewrite Hid, IH.
Qed.

Lemma update_from_sub i width height bh r :
  r ∈ bullets (BulletHouse_update_from i width height bh) -> r ∈ bullets bh.
Proof.
  revert bh. induction i as [|j IH]; intros bh; simpl; [done|].
  destruct (bullets bh !! j) as [r'|]; [|done].
  intros Hr. apply IH in Hr. destruct (flagged _ r'); [|done].
  simpl in Hr. by apply list_elem_of_delete_inv in Hr.
Qed.

Lemma fireBullet_firers ids firerId x y heading color bh n :
  firerId ∈ ids -> pool_inv bh -> firers_among ids bh ->
  firers_among ids (BulletHouse_fireBullet firerId x y heading color bh n).1.
Proof.
  intros Hid Hinv Hf.
  destruct (BulletHouse_fireBullet _ _ _ _ _ _ _) as [bh' n'] eqn:Hfire.
  destruct (fireBullet_spec _ _ _ _ _ _ _ _ _ Hinv Hfire)
    as (r & b0 & Hb & _ & _ & Hr & Hoth & _).
  simpl. intros r' Hr'. rewrite Hb in Hr'.
  apply elem_of_app in Hr' as [Hr'|Hr'].
  - destruct (decide (r' = r)) as [->|Hne].
    + eexists _, firerId. split; [exact Hr|]. done.
    + rewrite Hoth; [by apply Hf|done|].
      destruct Hinv as [_ Hall _ _]. apply Hall, elem_of_app. by left.
  - apply list_elem_of_singleton in Hr'. subst r'.
    eexists _, firerId. split; [exact Hr|]. done.
Qed.

Lemma ServerPlayer_update_firers ids width height p bh n :
  p_id p ∈ ids -> pool_inv bh -> firers_among ids bh ->
  firers_among ids (ServerPlayer_update width height p bh n).1.2.
Proof.
  intros Hid Hinv Hf. unfold ServerPlayer_update, bind, ret.
  destruct (ServerPlayer_fire _ _ _) as [[[[now then_] fireDelta] bh'] n1] eqn:Hfire.
  assert (Hbh' : firers_among ids bh').
  { revert Hfire. unfold ServerPlayer_fire, bind, call, ret.
    destruct (p_isFiring _); [|by intros [= _ _ _ <- _]].
    destruct (gtb _ _); [|by intros [= _ _ _ <- _]].
    pose proof (fireBullet_firers ids
                  (p_id (ServerPlayer_move width height p))
                  (p_x (ServerPlayer_move width height p))
                  (p_y (ServerPlayer_move width height p))
                  (p_heading (ServerPlayer_move width height p))
                  (p_origColor (ServerPlayer_move width height p))
                  bh (S n) Hid Hinv Hf) as Hfb.
    destruct (BulletHouse_fireBullet _ _ _ _ _ _ _) as [bh2 n2].
    by intros [= _ _ _ <- _]. }
  by destruct (ServerPlayer_blink _ _ _) as [color n2].
Qed.

Lemma updatePlayers_firers ids ps bh n :
  (forall p, p ∈ ps -> p_id p ∈ ids) -> pool_inv bh -> firers_among ids bh ->
  firers_among ids (ServerGameData_updatePlayers ps bh n).1.2.
Proof.
  revert bh n. induction ps as [|p ps IH]; intros bh n Hids Hinv Hf; simpl;
    [done|].
  unfold bind.
  pose proof (ServerPlayer_update_firers ids ServerGameData_width
                ServerGameData_height p bh n (Hids p ltac:(by left)) Hinv Hf)
    as Hp.
  pose proof (ServerPlayer_update_pool ServerGameData_width
                ServerGameData_height p bh n Hinv) as Hinv1.
  destruct (ServerPlayer_update _ _ p bh n) as [[p' bh1] n1].
  assert (Hids' : forall q, q ∈ ps -> p_id q ∈ ids).
  { intros q Hq. apply Hids. by right. }
  specialize (IH bh1 n1 Hids' Hinv1 Hp).
  by destruct (ServerGameData_updatePlayers ps bh1 n1) as [[ps' bh2] n2].
Qed.

Lemma update_firers ids width height bh :
  pool_inv bh -> firers_among ids bh ->
  firers_among ids (BulletHouse_update width height bh).
Proof.
  intros Hinv Hf r Hr. unfold BulletHouse_update in *.
  apply update_from_sub in Hr as Hr0.
  destruct (Hf r Hr0) as (b & fid & Hb & Hfid & Hin).
  apply list_elem_of_lookup_1 in Hr0 as [k Hk].
  pose proof (update_from_at (length (bullets bh)) width height bh k r b
                (pool_inv_NoDup bh Hinv) Hk (lookup_lt_Some _ _ _ Hk)
                (Nat.le_refl _) Hb) as Hat.
  destruct (b_needsToBeRecycled (ServerBullet_update width height b)).
  - by destruct Hat as [Hnot _].
  - destruct Hat as (_ & _ & Hh). eexists _, fid. split; [exact Hh|]. done.
Qed.

Lemma advance_firers gd n :
  pool_inv (bulletHouse gd) -> firers_live gd ->
  firers_live (ServerGameData_advance gd n).1.
Proof.
  intros Hinv Hf. unfold ServerGameData_advance, bind, ret.
  pose proof (updatePlayers_pool (players gd) (bulletHouse gd) n Hinv) as Hp.
  pose proof (updatePlayers_firers (p_id <$> players gd) (players gd)
                (bulletHouse gd) n) as Hfp.
  pose proof (updatePlayers_ids (players gd) (bulletHouse gd) n) as Hids.
  destruct (ServerGameData_updatePlayers _ _ _) as [[ps bh] n1].
  destruct (ServerGameData_updateAsteroids _ _ _) as [asts n2].
  simpl in *. unfold firers_live. simpl. rewrite Hids.
  apply update_firers; [done|]. apply Hfp; [|done|done].
  intros p Hin. apply list_elem_of_fmap. by exists p.
Qed.

Lemma killed_firers id gd :
  pool_inv (bulletHouse gd) -> firers_live gd ->
  firers_live
    (ServerGameData_recycleBulletsByFirerId id
       (ServerGameData_removePlayerById id gd).2).
Proof.
  intros Hinv Hf r Hr.
  assert (Hbh : bulletHouse (ServerGameData_removePlayerById id gd).2
                = bulletHouse gd)
    by apply removePlayerById_frame.
  cbn [ServerGameData_recycleBulletsByFirerId bulletHouse players] in *.
  rewrite Hbh in *.
  destruct (recycleBulletsByFirerId_lists id (bulletHouse gd)
              (pool_inv_NoDup _ Hinv)) as (Hbul & _ & Hoth & _).
  rewrite Hbul in Hr. apply list_elem_of_filter in Hr as [Hnf Hr].
  rewrite Hoth by done.
  destruct (Hf r Hr) as (b & fid & Hb & Hfid & Hin).
  exists b, fid. split; [done|]. split; [done|].
  assert (Hne : fid <> id).
  { unfold firedBy in Hnf. rewrite Hb in Hnf.
    apply bool_decide_eq_false in Hnf. congruence. }
  unfold ServerGameData_removePlayerById.
  destruct (Players_get id (players gd)); [|done]. simpl.
  by apply Players_ids_delete.
Qed.

Lemma recycleBulletById_firers id gd :
  pool_inv (bulletHouse gd) -> firers_live gd ->
  firers_live (ServerGameData_recycleBulletById id gd).
Proof.
  intros Hinv Hf r Hr. simpl in *.
  unfold BulletHouse_recycleBulletById in *.
  destruct (list_find _ _) as [[i r0]|] eqn:Hfind; [|by apply Hf].
  apply list_find_Some in Hfind as (Hi & _). simpl in *.
  assert (Hne : r <> r0).
  { intros ->.
    exact (NoDup_delete_notin _ _ _ (pool_inv_NoDup _ Hinv) Hi Hr). }
  rewrite list_lookup_alter_ne by done. apply Hf.
  by apply list_elem_of_delete_inv in Hr.
Qed.

Lemma alterPlayer_firers f id gd :
  (forall p, p_id (f p) = p_id p) ->
  firers_live gd -> firers_live (alterPlayer f id gd).
Proof.
  intros Hid Hf r Hr. simpl in *. rewrite Players_ids_alter by done.
  by apply Hf.
Qed.

Lemma firers_live_ext gd gd' :
  players gd' = players gd -> bulletHouse gd' = bulletHouse gd ->
  firers_live gd -> firers_live gd'.
Proof. unfold firers_live. by intros -> ->. Qed.

Lemma runBreakAsteroid_firers a s :
  pool_firers s ->
  pool_firers (runGameData (ServerGameData_breakAsteroid a (gameData s)) s).
Proof.
  intros [Hinv Hf].
  destruct (runGameData_breakAsteroid_fields a s) as (Hp & Hbh & _).
  split; [by rewrite Hbh|]. by eapply firers_live_ext.
Qed.

Lemma notifyKilled_firers id ev gd s :
  pool_inv (bulletHouse gd) -> firers_live gd ->
  pool_firers
    (Server_notifyKilled id ev
       (withGameData
          (ServerGameData_recycleBulletsByFirerId id
             (ServerGameData_removePlayerById id gd).2) s)).
Proof.
  intros Hinv Hf. unfold pool_firers. rewrite notifyKilled_gameData.
  cbn [gameData withGameData]. split; [|by apply killed_firers].
  simpl. rewrite (proj2 (proj2 (removePlayerById_frame id gd))).
  by apply recycleBulletsByFirerId_from_inv.
Qed.

Lemma asteroidKilledPlayer_firers a p s :
  pool_firers s -> pool_firers (Server_asteroidKilledPlayer a p s).
Proof.
  intros [Hinv Hf]. unfold Server_asteroidKilledPlayer.
  destruct (ServerGameData_removePlayerById _ _) as [[k|] gd1] eqn:Hr;
    apply runBreakAsteroid_firers; [|done].
  apply removePlayerById_Some in Hr as [-> ->]. by apply notifyKilled_firers.
Qed.

Lemma bulletKilledAsteroid_firers r a s :
  pool_firers s -> pool_firers (Server_bulletKilledAsteroid r a s).
Proof.
  intros Hs. unfold Server_bulletKilledAsteroid.
  destruct (_ !! r) as [b|]; [|done].
  set (s1 := match truthy _ with Some _ => _ | None => _ end).
  assert (Hs1 : pool_firers s1).
  { subst s1. destruct (truthy _) as [fid|]; [|done].
    destruct (ServerGameData_getPlayerWithId _ _) as [firer|]; [|done].
    apply (runBreakAsteroid_firers a) in Hs as [Hinv Hf].
    split; [done|]. by apply alterPlayer_firers. }
  destruct Hs1 as [Hinv Hf]. split.
  - simpl. by apply recycleBulletById_inv.
  - by apply recycleBulletById_firers.
Qed.

Lemma bulletKilledPlayer_firers r p s :
  pool_firers s -> pool_firers (Server_bulletKilledPlayer r p s).
Proof.
  intros Hs. unfold Server_bulletKilledPlayer.
  destruct (_ !! r) as [b|]; [|done].
  set (s1 := match truthy _ with Some _ => _ | None => _ end).
  assert (Hs1 : pool_firers s1).
  { subst s1. destruct (truthy _) as [fid|]; [|done].
    destruct (ServerGameData_getPlayerWithId _ _) as [firer|]; [|done].
    destruct (ServerGameData_removePlayerById _ _) as [[k|] gd1] eqn:Hr;
      [|done].
    apply removePlayerById_Some in Hr as [-> ->]. destruct Hs as [Hinv Hf].
    destruct (notifyKilled_firers (p_id p)
                (fun sock => KilledByPlayerEvent sock (p_id firer) (p_id p))
                (gameData s) s Hinv Hf) as [Hinv1 Hf1].
    split; [done|]. by apply alterPlayer_firers. }
  destruct Hs1 as [Hinv Hf]. split.
  - simpl. by apply recycleBulletById_inv.
  - by apply recycleBulletById_firers.
Qed.

Lemma new_Server_bulletHouse :
  bulletHouse (gameData new_Server) = new_BulletHouse.
Proof.
  unfold new_Server, runGameData. cbn [calls].
  pose proof (new_ServerGameData_fields 0) as [_ Hbh].
  by destruct (new_ServerGameData 0) as [gd n].
Qed.

Lemma in_play_pool_firers : forall s, in_play s -> pool_firers s.
Proof.
  apply in_play_inv.
  - destruct (reachable_pool_in_world new_Server reach_new) as [Hinv _].
    split; [done|]. intros r Hr. rewrite new_Server_bulletHouse in Hr.
    by apply elem_of_nil in Hr.
  - done.
  - intros socket s [Hinv Hf]. unfold Server_onDisconnectedEvent.
    set (s1 := match list_find _ _ with Some _ => _ | None => s end).
    assert (Hgd : gameData s1 = gameData s).
    { subst s1. by destruct (list_find _ _) as [[??]|]. }
    destruct (socketMe _ _) as [id|]; [|by unfold pool_firers; rewrite Hgd].
    unfold pool_firers. cbn [gameData emit withGameData]. rewrite Hgd.
    split; [|by apply killed_firers].
    simpl. rewrite (proj2 (proj2 (removePlayerById_frame id _))).
    by apply recycleBulletsByFirerId_from_inv.
  - intros socket name color s [Hinv Hf]. unfold Server_onTryLoggingInEvent.
    destruct (list_find _ _) as [[i sock']|]; [|done].
    destruct (s_me sock'); [done|].
    unfold ServerGameData_addPlayer, new_ServerPlayer, bind, call, ret.
    split; [done|]. intros r Hr. destruct (Hf r Hr) as (b & fid & ? & ? & ?).
    exists b, fid. split; [done|]. split; [done|].
    cbn [gameData emit players]. apply Players_ids_set; [done|]. by right.
  - intros socket input s [Hinv Hf]. unfold Server_onPlayerInputEvent.
    destruct (socketMe _ _); [|done]. split; [done|].
    by apply alterPlayer_firers.
  - intros s [Hinv Hf]. unfold pool_firers, runGameData.
    pose proof (advance_pool (gameData s) (calls s) Hinv) as Hp.
    pose proof (advance_firers (gameData s) (calls s) Hinv Hf) as Ha.
    by destruct (ServerGameData_advance _ _).
  - apply asteroidKilledPlayer_firers.
  - apply bulletKilledAsteroid_firers.
  - apply bulletKilledPlayer_firers.
  - intros s [Hinv Hf]. unfold pool_firers, runGameData.
    destruct (ServerGameData_topUp _ _) as [gd n] eqn:Ht.
    apply topUp_spec in Ht as (Hp & Hbh & _). simpl.
    split; [by rewrite Hbh|]. by eapply firers_live_ext.
  - done.
Qed.

Lemma running_pool_firers : forall s, running s -> pool_firers s.
Proof. intros s Hs. by apply in_play_pool_firers, play_running. Qed.

(** In a running server the firer of every projectile in flight is a
    player of the live collection. *)
Theorem active_bullets_have_live_firers (s : Server) (r : nat)
    (b : ServerBullet) :
  running s ->
  r ∈ bullets (bulletHouse (gameData s)) ->
  heap (bulletHouse (gameData s)) !! r = Some b ->
  exists firerId firer,
    b_firerId b = Some firerId
    /\ ServerGameData_getPlayerWithId firerId (gameData s) = Some firer.
Proof.
  intros Hs Hr Hb. destruct (running_pool_firers s Hs) as [_ Hf].
  destruct (Hf r Hr) as (b' & fid & Hb' & Hfid & Hin).
  assert (b' = b) as -> by congruence.
  apply Players_get_elem in Hin as [firer Hfirer]. by exists fid, firer.
Qed.

End RunningProofs.

Section AgreeProofs.
Context {E : Externals}.

Lemma meOf_nil id : meOf id [] = None.
Proof. done. Qed.

Lemma meOf_cons id x cs :
  meOf id (x :: cs) = if decide (s_id x = id) then s_me x else meOf id cs.
Proof.
  unfold meOf. cbn [list_find]. destruct (decide (s_id x = id)); [done|].
  by destruct (list_find _ cs) as [[??]|].
Qed.

Lemma socketMe_meOf id s : socketMe id s = meOf id (connectedSockets s).
Proof. done. Qed.

Lemma meOf_None id cs : id ∉ s_id <$> cs -> meOf id cs = None.
Proof.
  induction cs as [|x cs IH]; [done|]. rewrite fmap_cons, not_elem_of_cons.
  intros [Hne Hnot]. rewrite meOf_cons, decide_False by done. by apply IH.
Qed.

Lemma meOf_snoc id x cs :
  meOf id (cs ++ [x])
  = if bool_decide (id ∈ s_id <$> cs) then meOf id cs
    else if decide (s_id x = id) then s_me x else None.
Proof.
  induction cs as [|y cs IH].
  - rewrite app_nil_l, fmap_nil, meOf_cons.
    rewrite bool_decide_eq_false_2 by apply not_elem_of_nil. done.
  - rewrite <-app_comm_cons, !meOf_cons, fmap_cons, IH.
    destruct (decide (s_id y = id)) as [<-|Hne].
    + rewrite bool_decide_eq_true_2; [done|by left].
    + destruct (bool_decide (id ∈ s_id <$> cs)) eqn:Hin.
      * apply bool_decide_eq_true in Hin.
        rewrite bool_decide_eq_true_2; [done|by right].
      * apply bool_decide_eq_false in Hin. rewrite bool_decide_eq_false_2; [done|].
        rewrite not_elem_of_cons. split; [congruence|done].
Qed.

Lemma find_index id cs i sock :
  list_find (fun sock => s_id sock = id) cs = Some (i, sock) ->
  cs !! i = Some sock /\ s_id sock = id
  /\ forall j y, cs !! j = Some y -> j < i -> s_id y <> id.
Proof. intros Hf. by apply list_find_Some in Hf. Qed.

(** Removing the first socket of id [id]. *)
Lemma meOf_delete id id' cs i sock :
  NoDup (s_id <$> cs) ->
  list_find (fun sock => s_id sock = id) cs = Some (i, sock) ->
  meOf id' (delete i cs) = if decide (id' = id) then None else meOf id' cs.
Proof.
  intros Hnd Hf. apply find_index in Hf as (Hi & Hid & _).
  revert i Hi. induction cs as [|x cs IH]; intros i Hi; [done|].
  rewrite fmap_cons in Hnd. apply NoDup_cons in Hnd as [Hx Hnd].
  destruct i as [|i]; simpl in Hi.
  - change (delete 0 (x :: cs)) with cs.
    injection Hi as ->. rewrite meOf_cons.
    destruct (decide (id' = id)) as [->|Hne].
    + apply meOf_None. by rewrite <-Hid.
    + rewrite decide_False; [done|]. congruence.
  - change (delete (S i) (x :: cs)) with (x :: delete i cs).
    rewrite !meOf_cons, (IH Hnd i Hi).
    destruct (decide (s_id x = id')) as [Hx'|Hx']; [|done].
    rewrite decide_False; [done|]. intros ->. apply Hx. rewrite Hx', <-Hid.
    apply list_elem_of_fmap. exists sock. split; [done|].
    by eapply list_elem_of_lookup_2.
Qed.

(** Changing [me] of the first socket of id [id]. *)
Lemma meOf_alter (f : DomainSocket -> DomainSocket) id id' cs i sock :
  (forall y, s_id (f y) = s_id y) ->
  list_find (fun sock => s_id sock = id) cs = Some (i, sock) ->
  meOf id' (alter f i cs)
  = if decide (id' = id) then s_me (f sock) else meOf id' cs.
Proof.
  intros Hfid Hf. apply find_index in Hf as (Hi & Hid & Hleast).
  revert i Hi Hleast. induction cs as [|x cs IH]; intros i Hi Hleast; [done|].
  destruct i as [|i]; simpl in Hi.
  - change (alter f 0 (x :: cs)) with (f x :: cs).
    injection Hi as ->. rewrite !meOf_cons, Hfid, Hid.
    destruct (decide (id' = id)) as [->|Hne].
    + by rewrite decide_True.
    + rewrite !decide_False by congruence. done.
  - change (alter f (S i) (x :: cs)) with (x :: alter f i cs).
    rewrite !meOf_cons.
    assert (Hx : s_id x <> id) by (apply (Hleast 0); [done|lia]).
    rewrite (IH i Hi).
    2:{ intros j y Hj Hlt. apply (Hleast (S j)); [done|lia]. }
    destruct (decide (s_id x = id')) as [Hx'|Hx']; [|done].
    rewrite decide_False; [done|]. congruence.
Qed.

Lemma fmap_s_id_alter (f : DomainSocket -> DomainSocket) (i : nat)
    (cs : list DomainSocket) :
  (forall y, s_id (f y) = s_id y) -> s_id <$> alter f i cs = s_id <$> cs.
Proof.
  intros Hf. apply list_eq. intros j. rewrite !list_lookup_fmap.
  destruct (decide (j = i)) as [->|Hne].
  - rewrite list_lookup_alter_eq. destruct (cs !! i); simpl; [|done].
    by rewrite Hf.
  - by rewrite list_lookup_alter_ne.
Qed.

Lemma elem_of_alter_ids (f : DomainSocket -> DomainSocket) (i : nat)
    (cs : list DomainSocket) (P : string -> Prop) :
  (forall y, s_id (f y) = s_id y) ->
  (forall sock, sock ∈ cs -> P (s_id sock)) ->
  forall sock, sock ∈ alter f i cs -> P (s_id sock).
Proof.
  intros Hf Hall sock Hin.
  assert (Hid : s_id sock ∈ s_id <$> alter f i cs).
  { apply list_elem_of_fmap. by exists sock. }
  rewrite fmap_s_id_alter in Hid by done.
  apply list_elem_of_fmap in Hid as (y & -> & Hy). by apply Hall.
Qed.

Lemma Players_ids_delete_iff id id' ps :
  id' ∈ p_id <$> Players_delete id ps <-> id' <> id /\ id' ∈ p_id <$> ps.
Proof.
  unfold Players_delete. rewrite !list_elem_of_fmap. split.
  - intros (p & -> & Hp). apply list_elem_of_filter in Hp as [Hne Hp].
    split; [done|]. by exists p.
  - intros (Hne & p & -> & Hp). exists p. split; [done|].
    by apply list_elem_of_filter.
Qed.

Lemma ids_delete_ne id id' ps :
  id' <> id ->
  bool_decide (id' ∈ p_id <$> Players_delete id ps)
  = bool_decide (id' ∈ p_id <$> ps).
Proof.
  intros Hne. apply bool_decide_ext. rewrite Players_ids_delete_iff. tauto.
Qed.

Lemma sockets_agree_ext s s' :
  connectedSockets s' = connectedSockets s ->
  p_id <$> players (gameData s') = p_id <$> players (gameData s) ->
  sockets_agree s -> sockets_agree s'.
Proof. unfold sockets_agree. by intros -> ->. Qed.

(** The socket of a removed player forgets it. *)
Lemma killed_agree id ev gd s :
  p_id <$> players gd = p_id <$> Players_delete id (players (gameData s)) ->
  sockets_agree s ->
  sockets_agree (Server_notifyKilled id ev (withGameData gd s)).
Proof.
  intros Hps (Hnd & Hne & Hme).
  destruct (notifyKilled_spec id ev (withGameData gd s)) as [Hgd Hsock].
  unfold sockets_agree. rewrite Hgd. cbn [gameData withGameData] in *.
  cbn [connectedSockets withGameData] in Hsock.
  destruct (list_find _ (connectedSockets s)) as [[i sock]|] eqn:Hf;
    destruct Hsock as [_ ->].
  - split; [by rewrite fmap_s_id_alter|].
    split; [by apply (elem_of_alter_ids clearMe i _ (fun id => id <> EmptyString))|].
    intros id'. rewrite (meOf_alter clearMe id id' _ i sock) by done.
    rewrite Hps. destruct (decide (id' = id)) as [->|Hid].
    + rewrite bool_decide_eq_false_2; [done|].
      rewrite Players_ids_delete_iff. by intros [? _].
    + by rewrite Hme, ids_delete_ne.
  - split; [done|]. split; [done|]. intros id'. rewrite Hps, Hme.
    destruct (decide (id' = id)) as [->|Hid].
    + specialize (Hme id). unfold meOf in Hme. rewrite Hf in Hme.
      rewrite <-Hme. rewrite bool_decide_eq_false_2; [done|].
      rewrite Players_ids_delete_iff. by intros [? _].
    + by rewrite ids_delete_ne.
Qed.

Lemma removePlayerById_players id gd k gd1 :
  ServerGameData_removePlayerById id gd = (Some k, gd1) ->
  players gd1 = Players_delete id (players gd).
Proof.
  unfold ServerGameData_removePlayerById.
  destruct (Players_get id (players gd)); [|done]. by intros [= _ <-].
Qed.

Lemma runBreakAsteroid_agree a s :
  sockets_agree s ->
  sockets_agree (runGameData (ServerGameData_breakAsteroid a (gameData s)) s).
Proof.
  destruct (runGameData_breakAsteroid_fields a s) as (Hp & _ & _ & _ & _ & Hc).
  apply sockets_agree_ext; [done|by rewrite Hp].
Qed.

Lemma asteroidKilledPlayer_agree a p s :
  sockets_agree s -> sockets_agree (Server_asteroidKilledPlayer a p s).
Proof.
  intros Hs. unfold Server_asteroidKilledPlayer.
  destruct (ServerGameData_removePlayerById _ _) as [[k|] gd1] eqn:Hr;
    apply runBreakAsteroid_agree; [|done].
  apply removePlayerById_players in Hr as Hp.
  apply removePlayerById_Some in Hr as [-> _].
  apply killed_agree; [|done]. simpl. by rewrite Hp.
Qed.

Lemma bulletKilledAsteroid_agree r a s :
  sockets_agree s -> sockets_agree (Server_bulletKilledAsteroid r a s).
Proof.
  intros Hs. unfold Server_bulletKilledAsteroid.
  destruct (_ !! r) as [b|]; [|done].
  set (s1 := match truthy _ with Some _ => _ | None => _ end).
  assert (Hs1 : sockets_agree s1).
  { subst s1. destruct (truthy _) as [fid|]; [|done].
    destruct (ServerGameData_getPlayerWithId _ _) as [firer|]; [|done].
    apply (runBreakAsteroid_agree a) in Hs.
    eapply sockets_agree_ext; [| |exact Hs]; [done|].
    simpl. by rewrite Players_ids_alter. }
  eapply sockets_agree_ext; [| |exact Hs1]; done.
Qed.

Lemma bulletKilledPlayer_agree r p s :
  sockets_agree s -> sockets_agree (Server_bulletKilledPlayer r p s).
Proof.
  intros Hs. unfold Server_bulletKilledPlayer.
  destruct (_ !! r) as [b|]; [|done].
  set (s1 := match truthy _ with Some _ => _ | None => _ end).
  assert (Hs1 : sockets_agree s1).
  { subst s1. destruct (truthy _) as [fid|]; [|done].
    destruct (ServerGameData_getPlayerWithId _ _) as [firer|]; [|done].
    destruct (ServerGameData_removePlayerById _ _) as [[k|] gd1] eqn:Hr;
      [|done].
    apply removePlayerById_players in Hr as Hp.
    apply removePlayerById_Some in Hr as [-> _].
    eapply sockets_agree_ext;
      [| |apply (killed_agree (p_id p)
                   (fun sock => KilledByPlayerEvent sock (p_id firer) (p_id p))
                   (ServerGameData_recycleBulletsByFirerId (p_id p) gd1) s);
          [simpl; by rewrite Hp|exact Hs]];
      [done|].
    simpl. by rewrite Players_ids_alter. }
  eapply sockets_agree_ext; [| |exact Hs1]; done.
Qed.

Lemma onConnectedEvent_agree socket s :
  sockets_agree s -> socket <> EmptyString ->
  socket ∉ s_id <$> connectedSockets s ->
  sockets_agree (Server_onConnectedEvent socket s).
Proof.
  intros (Hnd & Hne & Hme) Hsock Hfresh. unfold sockets_agree. simpl.
  split.
  { rewrite fmap_app. simpl. apply NoDup_app. split; [done|].
    split; [|apply NoDup_singleton].
    intros id Hid Hin. apply list_elem_of_singleton in Hin. by subst id. }
  split.
  { intros sock. rewrite elem_of_app, list_elem_of_singleton.
    intros [Hin| ->]; [by apply Hne|done]. }
  intros id. rewrite meOf_snoc. simpl.
  destruct (bool_decide (id ∈ s_id <$> connectedSockets s)) eqn:Hin;
    [apply Hme|].
  apply bool_decide_eq_false in Hin. rewrite <-Hme, (meOf_None _ _ Hin).
  by destruct (decide (socket = id)).
Qed.

Lemma onDisconnectedEvent_agree socket s :
  sockets_agree s -> sockets_agree (Server_onDisconnectedEvent socket s).
Proof.
  intros (Hnd & Hne & Hme). unfold Server_onDisconnectedEvent.
  rewrite socketMe_meOf. unfold meOf at 1.
  destruct (list_find _ (connectedSockets s)) as [[i sock]|] eqn:Hf;
    [|done].
  apply find_index in Hf as Hfi. destruct Hfi as (Hi & Hid & _).
  assert (Hnd' : NoDup (s_id <$> delete i (connectedSockets s))).
  { rewrite list_fmap_delete. eapply sublist_NoDup; [exact Hnd|].
    apply sublist_delete. }
  assert (Hne' : forall x, x ∈ delete i (connectedSockets s) ->
            s_id x <> EmptyString).
  { intros x Hx. apply Hne. by apply list_elem_of_delete_inv in Hx. }
  pose proof (Hme socket) as Hown. unfold meOf in Hown. rewrite Hf in Hown.
  unfold Array_splice1.
  destruct (s_me sock) as [id|] eqn:Hsm.
  - assert (id = socket) as ->.
    { destruct (bool_decide _) in Hown; congruence. }
    unfold sockets_agree. cbn [connectedSockets gameData emit withGameData].
    split; [done|]. split; [done|]. intros id'.
    rewrite (meOf_delete socket id' _ i sock Hnd Hf).
    cbn [ServerGameData_recycleBulletsByFirerId players].
    unfold ServerGameData_removePlayerById.
    destruct (Players_get socket (players (gameData s))) as [p|] eqn:Hp.
    + cbn [snd players]. destruct (decide (id' = socket)) as [->|Hid'].
      * rewrite bool_decide_eq_false_2; [done|].
        rewrite Players_ids_delete_iff. by intros [? _].
      * by rewrite ids_delete_ne, Hme.
    + cbn [snd]. destruct (decide (id' = socket)) as [->|Hid']; [|apply Hme].
      rewrite bool_decide_eq_false_2; [done|].
      rewrite Players_get_elem, Hp. by intros [? ?].
  - unfold sockets_agree. cbn [connectedSockets gameData].
    split; [done|]. split; [done|]. intros id'.
    rewrite (meOf_delete socket id' _ i sock Hnd Hf).
    destruct (decide (id' = socket)) as [->|Hid']; [|apply Hme].
    by destruct (bool_decide _).
Qed.

Lemma onTryLoggingInEvent_agree socket name color s :
  sockets_agree s ->
  sockets_agree (Server_onTryLoggingInEvent socket name color s).
Proof.
  intros (Hnd & Hne & Hme). unfold Server_onTryLoggingInEvent.
  destruct (list_find _ (connectedSockets s)) as [[i sock]|] eqn:Hf;
    [|done].
  destruct (s_me sock) eqn:Hsm; [done|].
  apply find_index in Hf as Hfi. destruct Hfi as (Hi & Hid & _).
  unfold ServerGameData_addPlayer, new_ServerPlayer, bind, call, ret.
  unfold sockets_agree.
  cbn [connectedSockets gameData emit players fst snd p_id]. rewrite Hid.
  split; [by rewrite fmap_s_id_alter|].
  split;
    [by apply (elem_of_alter_ids (setMe socket) i _
                 (fun id => id <> EmptyString))|].
  intros id'. rewrite (meOf_alter (setMe socket) socket id' _ i sock) by done.
  destruct (decide (id' = socket)) as [->|Hid'].
  - simpl. rewrite bool_decide_eq_true_2; [done|].
    apply Players_ids_set; [done|]. by left.
  - rewrite Hme. apply (f_equal (fun c : bool => if c then Some id' else None)).
    apply bool_decide_ext. rewrite Players_ids_set by done. tauto.
Qed.

Lemma in_play_agree : forall s, in_play s -> sockets_agree s.
Proof.
  apply in_play_inv.
  - unfold sockets_agree. cbn [connectedSockets new_Server runGameData].
    unfold new_Server, runGameData. cbn [calls].
    pose proof (new_ServerGameData_fields 0) as [Hp _].
    destruct (new_ServerGameData 0) as [gd n]. simpl in *.
    split; [constructor|]. split; [intros sock Hin; by apply elem_of_nil in Hin|].
    intros id. rewrite Hp. by rewrite bool_decide_eq_false_2 by apply not_elem_of_nil.
  - intros. by apply onConnectedEvent_agree.
  - apply onDisconnectedEvent_agree.
  - apply onTryLoggingInEvent_agree.
  - intros socket input s Hs. unfold Server_onPlayerInputEvent.
    destruct (socketMe _ _); [|done].
    eapply sockets_agree_ext; [| |exact Hs]; [done|].
    simpl. by rewrite Players_ids_alter.
  - intros s Hs. eapply sockets_agree_ext; [| |exact Hs].
    + unfold runGameData. by destruct (ServerGameData_advance _ _).
    + unfold runGameData, ServerGameData_advance, bind, ret.
      pose proof (updatePlayers_ids (players (gameData s))
                    (bulletHouse (gameData s)) (calls s)) as Hids.
      destruct (ServerGameData_updatePlayers _ _ _) as [[ps bh] n1].
      by destruct (ServerGameData_updateAsteroids _ _ _) as [asts n2].
  - apply asteroidKilledPlayer_agree.
  - apply bulletKilledAsteroid_agree.
  - apply bulletKilledPlayer_agree.
  - intros s Hs. eapply sockets_agree_ext; [| |exact Hs].
    + unfold runGameData. by destruct (ServerGameData_topUp _ _).
    + unfold runGameData.
      destruct (ServerGameData_topUp _ _) as [gd n] eqn:Ht.
      apply topUp_spec in Ht as (Hp & _). simpl. by rewrite Hp.
  - done.
Qed.

Lemma running_agree : forall s, running s -> sockets_agree s.
Proof. intros s Hs. by apply in_play_agree, play_running. Qed.

(** In a running server no two sockets have the same id, and a socket
    plays the player stored under its id exactly when there is one: no
    player is without a socket and no socket plays a player that is
    gone. *)
Theorem sockets_and_players_agree (s : Server) :
  running s ->
  NoDup (s_id <$> connectedSockets s)
  /\ forall id,
       socketMe id s
       = match ServerGameData_getPlayerWithId id (gameData s) with
         | Some _ => Some id
         | None => None
         end.
Proof.
  intros Hs. destruct (running_agree s Hs) as (Hnd & _ & Hme).
  split; [done|]. intros id. rewrite socketMe_meOf, Hme.
  unfold ServerGameData_getPlayerWithId. case_bool_decide as Hin.
  - apply Players_get_elem in Hin as [p ->]. done.
  - destruct (Players_get id _) as [p|] eqn:Hp; [|done].
    destruct Hin. apply Players_get_elem. by eexists.
Qed.

Lemma recycleBulletById_heap_length id bh :
  length (heap (BulletHouse_recycleBulletById id bh)) = length (heap bh).
Proof.
  unfold BulletHouse_recycleBulletById.
  destruct (list_find _ _) as [[i r]|]; [|done]. simpl.
  by rewrite length_alter.
Qed.

Lemma recycleBulletsByFirerId_heap_length id bh :
  length (heap (BulletHouse_recycleBulletsByFirerId id bh)) = length (heap bh).
Proof.
  rewrite !heap_length_ids. unfold BulletHouse_recycleBulletsByFirerId.
  by rewrite recycleBulletsByFirerId_from_ids.
Qed.

(** What [bulletKilledPlayer] does in play, for a projectile in flight
    and a ship of the live collection. *)
Lemma hit_outcome (s : Server) (r : nat) (p victim : ServerPlayer) :
  in_play s ->
  r ∈ bullets (bulletHouse (gameData s)) ->
  ServerGameData_getPlayerWithId (p_id p) (gameData s) = Some victim ->
  exists b firerId firer,
    heap (bulletHouse (gameData s)) !! r = Some b
    /\ b_firerId b = Some firerId
    /\ ServerGameData_getPlayerWithId firerId (gameData s) = Some firer
    /\ ServerGameData_getPlayerWithId (p_id p)
         (gameData (Server_bulletKilledPlayer r p s)) = None
    /\ socketMe (p_id p) (Server_bulletKilledPlayer r p s) = None
    /\ sent (Server_bulletKilledPlayer r p s)
       = sent s ++ [KilledByPlayerEvent (p_id p) firerId (p_id p)]
    /\ (forall r',
          r' ∈ bullets (bulletHouse (gameData s)) ->
          firedBy (heap (bulletHouse (gameData s))) (p_id p) r' = true ->
          (r' ∉ bullets
                  (bulletHouse (gameData (Server_bulletKilledPlayer r p s))))
          /\ r' ∈ recycledBullets
                    (bulletHouse
                       (gameData (Server_bulletKilledPlayer r p s)))
          /\ exists b',
               heap (bulletHouse (gameData (Server_bulletKilledPlayer r p s)))
                 !! r' = Some b'
               /\ isReset b')
    /\ (firerId <> p_id p ->
        ServerGameData_getPlayerWithId firerId
          (gameData (Server_bulletKilledPlayer r p s))
        = Some (ServerPlayer_increaseKillingPoint firer))
    /\ (forall id, id <> p_id p -> id <> firerId ->
          ServerGameData_getPlayerWithId id
            (gameData (Server_bulletKilledPlayer r p s))
          = ServerGameData_getPlayerWithId id (gameData s))
    /\ asteroids (gameData (Server_bulletKilledPlayer r p s))
       = asteroids (gameData s).
Proof.
  intros Hs Hr Hv.
  destruct (in_play_pool_firers s Hs) as [Hinv Hf].
  destruct (in_play_agree s Hs) as (Hnd & Hne & Hme).
  pose proof (in_play_agree _ (play_bulletKilledPlayer r p s Hs))
    as (_ & _ & Hme').
  destruct (in_play_pool_firers _ (play_bulletKilledPlayer r p s Hs))
    as [Hinv' _].
  destruct (Hf r Hr) as (b & fid & Hb & Hfid & Hin).
  apply Players_get_elem in Hin as Hfirer. destruct Hfirer as [firer Hfirer].
  exists b, fid, firer. split; [done|]. split; [done|]. split; [done|].
  assert (Hfne : fid <> EmptyString).
  { pose proof (Hme fid) as Hown.
    rewrite bool_decide_eq_true_2 in Hown by done.
    unfold meOf in Hown.
    destruct (list_find _ _) as [[i sock]|] eqn:Hfind; [|done].
    apply find_index in Hfind as (Hi & <- & _). apply Hne.
    by eapply list_elem_of_lookup_2. }
  assert (Ht : truthy (b_firerId b) = Some fid).
  { rewrite Hfid. unfold truthy. by rewrite bool_decide_eq_false_2. }
  pose proof (Players_get_Some _ _ _ Hv) as [Hvid _].
  pose proof (Players_get_Some _ _ _ Hfirer) as [Hfirerid _].
  assert (Hbh : bulletHouse (gameData (Server_bulletKilledPlayer r p s))
                = BulletHouse_recycleBulletById (b_id b)
                    (BulletHouse_recycleBulletsByFirerId (p_id p)
                       (bulletHouse (gameData s)))
                /\ asteroids (gameData (Server_bulletKilledPlayer r p s))
                   = asteroids (gameData s)
                /\ players (gameData (Server_bulletKilledPlayer r p s))
                   = Players_alter ServerPlayer_increaseKillingPoint fid
                       (Players_delete (p_id p) (players (gameData s)))
                /\ sent (Server_bulletKilledPlayer r p s)
                   = sent s ++ [KilledByPlayerEvent (p_id p) fid (p_id p)]).
  { unfold Server_bulletKilledPlayer. rewrite Hb, Ht.
    unfold ServerGameData_getPlayerWithId in *. rewrite Hfirer.
    unfold ServerGameData_removePlayerById. rewrite Hv, Hvid, Hfirerid.
    cbn [gameData withGameData ServerGameData_recycleBulletById players
         alterPlayer sent bulletHouse asteroids].
    rewrite notifyKilled_gameData.
    cbn [gameData withGameData ServerGameData_recycleBulletsByFirerId players
         bulletHouse asteroids].
    split; [done|]. split; [done|]. split; [done|].
    match goal with
    | |- context [Server_notifyKilled ?i ?e ?s0] =>
        pose proof (notifyKilled_spec i e s0) as [_ Hsock]
    end.
    cbn [connectedSockets withGameData sent] in Hsock.
    pose proof (Hme (p_id p)) as Hown.
    rewrite bool_decide_eq_true_2 in Hown.
    2:{ apply Players_get_elem. by eexists. }
    unfold meOf in Hown.
    destruct (list_find _ (connectedSockets s)) as [[i sock]|]; [|done].
    by destruct Hsock as [-> _]. }
  destruct Hbh as (Hbh & Hast & Hps & Hsent).
  assert (Hgone : ServerGameData_getPlayerWithId (p_id p)
                    (gameData (Server_bulletKilledPlayer r p s)) = None).
  { unfold ServerGameData_getPlayerWithId. rewrite Hps.
    rewrite Players_get_alter by done.
    rewrite Players_get_delete_eq. by case_bool_decide. }
  split; [done|]. split.
  { rewrite socketMe_meOf, Hme'. rewrite bool_decide_eq_false_2; [done|].
    rewrite Players_get_elem. unfold ServerGameData_getPlayerWithId in Hgone.
    rewrite Hgone. by intros [? ?]. }
  split; [done|]. split.
  { intros r' Hr' Hfired.
    assert (Hout : r' ∉ bullets
                          (bulletHouse
                             (gameData (Server_bulletKilledPlayer r p s)))).
    { rewrite Hbh. intros Hin'. apply recycleBulletById_sub in Hin'.
      destruct (recycleBulletsByFirerId_lists (p_id p)
                  (bulletHouse (gameData s)) (pool_inv_NoDup _ Hinv))
        as (Hbul & _).
      rewrite Hbul in Hin'. apply list_elem_of_filter in Hin' as [Hnf _].
      congruence. }
    split; [done|]. apply pool_inv_recycled; [done| |done].
    rewrite Hbh, recycleBulletById_heap_length,
      recycleBulletsByFirerId_heap_length.
    apply (pool_all _ Hinv). apply elem_of_app. by left. }
  split.
  { intros Hdiff. unfold ServerGameData_getPlayerWithId in *. rewrite Hps.
    rewrite Players_get_alter by done.
    rewrite bool_decide_eq_true_2 by done.
    rewrite Players_get_delete_ne by done. by rewrite Hfirer. }
  split; [|done].
  intros id Hid Hid'. unfold ServerGameData_getPlayerWithId. rewrite Hps.
  rewrite Players_get_alter by done.
  rewrite bool_decide_eq_false_2 by done.
  by rewrite Players_get_delete_ne.
Qed.


(** In a running server a projectile in flight that hits a live ship
    kills it: its firer is found, so the ship leaves the collection, its
    socket is told and forgets it, and the firer, when it is another
    ship, has one killing point more and no other change. *)
Theorem running_hit_kills (s : Server) (r : nat) (p victim : ServerPlayer) :
  running s ->
  r ∈ bullets (bulletHouse (gameData s)) ->
  ServerGameData_getPlayerWithId (p_id p) (gameData s) = Some victim ->
  ServerGameData_getPlayerWithId (p_id p)
    (gameData (Server_bulletKilledPlayer r p s)) = None
  /\ socketMe (p_id p) (Server_bulletKilledPlayer r p s) = None
  /\ exists b firerId firer,
       heap (bulletHouse (gameData s)) !! r = Some b
       /\ b_firerId b = Some firerId
       /\ ServerGameData_getPlayerWithId firerId (gameData s) = Some firer
       /\ sent (Server_bulletKilledPlayer r p s)
          = sent s ++ [KilledByPlayerEvent (p_id p) firerId (p_id p)]
       /\ (firerId <> p_id p ->
           ServerGameData_getPlayerWithId firerId
             (gameData (Server_bulletKilledPlayer r p s))
           = Some (ServerPlayer_increaseKillingPoint firer)
           /\ p_killingPoints (ServerPlayer_increaseKillingPoint firer)
              = (p_killingPoints firer + 1)%Z
           /\ p_asteroidPoints (ServerPlayer_increaseKillingPoint firer)
              = p_asteroidPoints firer).
Proof.
  intros Hs Hr Hv.
  destruct (hit_outcome s r p victim (play_running s Hs) Hr Hv)
    as (b & fid & firer & Hb & Hfid & Hfirer & Hgone & Hme & Hsent & _
        & Hcredit & _).
  split; [done|]. split; [done|]. exists b, fid, firer.
  repeat (split; [done|]). intros Hdiff. split; [by apply Hcredit|]. done.
Qed.

End AgreeProofs.

(** ** The asteroids of a tick *)

Section AsteroidTickProofs.
Context {E : Externals}.

Lemma setTarget_fields x y a n :
  a_id (ServerAsteroid_setTarget x y a n).1 = a_id a
  /\ a_isBig (ServerAsteroid_setTarget x y a n).1 = a_isBig a
  /\ a_x (ServerAsteroid_setTarget x y a n).1 = a_x a
  /\ a_y (ServerAsteroid_setTarget x y a n).1 = a_y a
  /\ a_needNewTarget (ServerAsteroid_setTarget x y a n).1 = false.
Proof.
  unfold ServerAsteroid_setTarget, bind, call, ret. by destruct (a_isBig a).
Qed.

Lemma updateAsteroids_outcome ps todo n :
  Forall2 movedFrom (filter keptByMove todo)
    (ServerGameData_updateAsteroids ps todo n).1.
Proof.
  revert n. induction todo as [|a todo IH]; intros n; [constructor|].
  cbn [ServerGameData_updateAsteroids]. rewrite filter_cons.
  assert (Hk : keptByMove a
               <-> a_isBig a = true
                   \/ a_needNewTarget
                        (ServerAsteroid_update ServerGameData_width
                           ServerGameData_height a) = false) by done.
  set (a1 := ServerAsteroid_update _ _ a) in *.
  assert (Ha1 : a_id a1 = a_id a /\ a_isBig a1 = a_isBig a
                /\ a_x a1 = (a_x a + vx (a_velocity a))%Qc
                /\ a_y a1 = (a_y a + vy (a_velocity a))%Qc) by done.
  destruct Ha1 as (Hid & Hbig & Hx & Hy).
  destruct (a_needNewTarget a1) eqn:Hneed.
  - destruct (a_isBig a1) eqn:Hb.
    + rewrite decide_True by (apply Hk; left; congruence).
      unfold bind at 1. unfold call at 1. unfold bind at 1.
      set (m := match Utils_pickRandom ps n with Some _ => _ | None => _ end).
      assert (Hm : movedFrom a (m (S n)).1).
      { subst m. unfold movedFrom.
        destruct (Utils_pickRandom ps n) as [q|].
        - destruct (setTarget_fields (p_x q) (p_y q) a1 (S n))
            as (-> & -> & -> & -> & ->). done.
        - unfold bind, call.
          destruct (setTarget_fields
                      (Utils_randInt 0%Qc ServerGameData_width (S n))
                      (Utils_randInt 0%Qc ServerGameData_height (S (S n)))
                      a1 (S (S (S n))))
            as (-> & -> & -> & -> & ->). done. }
      destruct (m (S n)) as [a2 n2]. unfold bind.
      specialize (IH n2).
      destruct (ServerGameData_updateAsteroids ps todo n2) as [rest n3].
      by constructor.
    + rewrite decide_False by (rewrite Hk; intros [?|?]; congruence).
      apply IH.
  - rewrite decide_True by (apply Hk; by right). unfold bind.
    specialize (IH n).
    destruct (ServerGameData_updateAsteroids ps todo n) as [rest n3].
    constructor; [|done]. done.
Qed.

Lemma advance_asteroids (gd : ServerGameData) (n : nat) :
  Forall2
    (fun a a' =>
       a_id a' = a_id a /\ a_isBig a' = a_isBig a
       /\ a_x a' = (a_x a + vx (a_velocity a))%Qc
       /\ a_y a' = (a_y a + vy (a_velocity a))%Qc
       /\ a_needNewTarget a' = false)
    (filter
       (fun a =>
          a_isBig a = true
          \/ a_needNewTarget
               (ServerAsteroid_update ServerGameData_width
                  ServerGameData_height a) = false)
       (asteroids gd))
    (asteroids (ServerGameData_advance gd n).1).
Proof.
  unfold ServerGameData_advance, bind, ret.
  destruct (ServerGameData_updatePlayers _ _ _) as [[ps bh] n1].
  pose proof (updateAsteroids_outcome ps (asteroids gd) n1) as Hout.
  destruct (ServerGameData_updateAsteroids _ _ _) as [asts n2]. exact Hout.
Qed.

(** The movement step of a tick, for the asteroids: a small asteroid
    that has left the reach of the world is removed, and no other; every
    asteroid that stays has moved by its velocity and has a target. *)
Theorem movement_step_keeps_or_retargets (gd : ServerGameData) (n : nat) :
  Forall2
    (fun a a' =>
       a_id a' = a_id a /\ a_isBig a' = a_isBig a
       /\ a_x a' = (a_x a + vx (a_velocity a))%Qc
       /\ a_y a' = (a_y a + vy (a_velocity a))%Qc
       /\ a_needNewTarget a' = false)
    (filter
       (fun a =>
          a_isBig a = true
          \/ a_needNewTarget
               (ServerAsteroid_update ServerGameData_width
                  ServerGameData_height a) = false)
       (asteroids gd))
    (asteroids (ServerGameData_advance gd n).1).
Proof. apply advance_asteroids. Qed.

Lemma new_ServerAsteroid_fields width height isBig n :
  a_needNewTarget (new_ServerAsteroid width height isBig n).1 = true
  /\ a_isBig (new_ServerAsteroid width height isBig n).1 = isBig
  /\ a_velocity (new_ServerAsteroid width height isBig n).1
     = mkVictor 0%Qc 0%Qc.
Proof.
  unfold new_ServerAsteroid, bind, call, ret.
  destruct (ServerAsteroid_setRandomSpawnPoint _ _ _) as [[x y] n1].
  destruct isBig;
    by destruct (ServerAsteroid_makeVertices _ _ _ _ _ _) as [vs n2].
Qed.

Lemma createPieceOf_targeted width height big n :
  targeted (ServerAsteroid_createPieceOf width height big n).1.
Proof.
  unfold ServerAsteroid_createPieceOf, bind, call, ret.
  by destruct (new_ServerAsteroid _ _ _ _) as [a0 n1].
Qed.

Lemma pushBigAsteroids_new count gd n :
  exists new,
    asteroids (ServerGameData_pushBigAsteroids count gd n).1
    = asteroids gd ++ new
    /\ Forall justSpawned new.
Proof.
  revert gd n. induction count as [|c IH]; intros gd n.
  - exists []. by rewrite app_nil_r.
  - cbn [ServerGameData_pushBigAsteroids]. unfold bind.
    pose proof (new_ServerAsteroid_fields ServerGameData_width
                  ServerGameData_height true n) as Hnew.
    destruct (new_ServerAsteroid _ _ _ _) as [a n1].
    destruct (IH {| players := players gd; bulletHouse := bulletHouse gd;
                    asteroids := asteroids gd ++ [a];
                    curBigAsteroidsCount := (curBigAsteroidsCount gd + 1)%Z |}
                 n1) as (new & Ha & Hnew').
    exists (a :: new). split.
    + rewrite Ha. simpl. by rewrite <-(assoc_L (++)).
    + by constructor.
Qed.

Lemma breakAsteroid_targeted a gd n :
  Forall targeted (asteroids gd) ->
  Forall targeted (asteroids (ServerGameData_breakAsteroid a gd n).1).
Proof.
  intros Hall.
  unfold ServerGameData_breakAsteroid, ServerGameData_removeAsteroidById.
  destruct (list_find _ _) as [[i removed]|]; [|done].
  assert (Hdel : Forall targeted (Array_splice1 i (asteroids gd))).
  { unfold Array_splice1. rewrite Forall_forall in *. intros x Hx.
    apply Hall. by apply list_elem_of_delete_inv in Hx. }
  destruct (a_isBig removed); [|done]. unfold bind, ret.
  pose proof (createPieceOf_targeted ServerGameData_width
                ServerGameData_height removed n) as H1.
  destruct (ServerAsteroid_createPieceOf _ _ _ n) as [p1 n1].
  pose proof (createPieceOf_targeted ServerGameData_width
                ServerGameData_height removed n1) as H2.
  destruct (ServerAsteroid_createPieceOf _ _ _ n1) as [p2 n2].
  pose proof (createPieceOf_targeted ServerGameData_width
                ServerGameData_height removed n2) as H3.
  destruct (ServerAsteroid_createPieceOf _ _ _ n2) as [p3 n3].
  simpl. apply Forall_app. split; [done|]. by repeat constructor.
Qed.

Lemma all_targeted_ext s s' :
  asteroids (gameData s') = asteroids (gameData s) ->
  all_targeted s -> all_targeted s'.
Proof. unfold all_targeted. by intros ->. Qed.

Lemma runBreakAsteroid_targeted a s :
  all_targeted s ->
  all_targeted (runGameData (ServerGameData_breakAsteroid a (gameData s)) s).
Proof.
  intros Hs. unfold all_targeted.
  destruct (runGameData_breakAsteroid_fields a s) as (_ & _ & -> & _).
  by apply breakAsteroid_targeted.
Qed.

Lemma asteroidKilledPlayer_targeted a p s :
  all_targeted s -> all_targeted (Server_asteroidKilledPlayer a p s).
Proof.
  intros Hs. unfold Server_asteroidKilledPlayer.
  destruct (ServerGameData_removePlayerById _ _) as [[k|] gd1] eqn:Hr;
    apply runBreakAsteroid_targeted; [|done].
  apply removePlayerById_Some in Hr as [_ ->].
  eapply all_targeted_ext; [|exact Hs]. rewrite notifyKilled_gameData. simpl.
  apply removePlayerById_frame.
Qed.

Lemma bulletKilledAsteroid_targeted r a s :
  all_targeted s -> all_targeted (Server_bulletKilledAsteroid r a s).
Proof.
  intros Hs. unfold Server_bulletKilledAsteroid.
  destruct (_ !! r) as [b|]; [|done].
  set (s1 := match truthy _ with Some _ => _ | None => _ end).
  assert (Hs1 : all_targeted s1).
  { subst s1. destruct (truthy _) as [fid|]; [|done].
    destruct (ServerGameData_getPlayerWithId _ _) as [firer|]; [|done].
    by apply (runBreakAsteroid_targeted a) in Hs. }
  exact Hs1.
Qed.

Lemma bulletKilledPlayer_targeted r p s :
  all_targeted s -> all_targeted (Server_bulletKilledPlayer r p s).
Proof.
  intros Hs. unfold Server_bulletKilledPlayer.
  destruct (_ !! r) as [b|]; [|done].
  set (s1 := match truthy _ with Some _ => _ | None => _ end).
  assert (Hs1 : all_targeted s1).
  { subst s1. destruct (truthy _) as [fid|]; [|done].
    destruct (ServerGameData_getPlayerWithId _ _) as [firer|]; [|done].
    destruct (ServerGameData_removePlayerById _ _) as [[k|] gd1] eqn:Hr;
      [|done].
    apply removePlayerById_Some in Hr as [_ ->].
    eapply all_targeted_ext; [|exact Hs]. simpl.
    rewrite notifyKilled_gameData. simpl. apply removePlayerById_frame. }
  exact Hs1.
Qed.

(** At the end of a tick the only asteroids that wait for a target are
    the big ones the top-up has just spawned, which are at rest; every
    other asteroid of the world has one. *)
Theorem tick_leaves_only_new_asteroids_waiting (s s' : Server) :
  ServerGameData_update s = Some s' ->
  exists old new,
    asteroids (gameData s') = old ++ new
    /\ Forall (fun a => a_needNewTarget a = false) old
    /\ Forall
         (fun a =>
            a_needNewTarget a = true /\ a_isBig a = true
            /\ a_velocity a = mkVictor 0%Qc 0%Qc)
         new.
Proof.
  unfold ServerGameData_update, ServerGameData_simulate. intros Hrun.
  set (s1 := runGameData _ s) in Hrun.
  assert (Hs1 : all_targeted s1).
  { subst s1. unfold runGameData, all_targeted.
    pose proof (advance_asteroids (gameData s) (calls s)) as Hm.
    destruct (ServerGameData_advance _ _) as [gd n]. simpl in *.
    induction Hm as [|a a' l l' (_ & _ & _ & _ & Ht) _ IH]; by constructor. }
  destruct (ServerGameData_collideAsteroids_from _ _) as [s2|] eqn:Hc;
    [|done].
  injection Hrun as <-.
  assert (Hs3 : all_targeted (ServerGameData_collidePlayers s2)).
  { apply (collidePlayers_pres all_targeted);
      auto using asteroidKilledPlayer_targeted, bulletKilledAsteroid_targeted,
                 bulletKilledPlayer_targeted.
    eapply (collideAsteroids_from_pres all_targeted); eauto
      using asteroidKilledPlayer_targeted, bulletKilledAsteroid_targeted,
            bulletKilledPlayer_targeted. }
  exists (asteroids (gameData (ServerGameData_collidePlayers s2))).
  unfold runGameData, ServerGameData_topUp.
  case_bool_decide.
  - destruct (pushBigAsteroids_new
                (Z.to_nat
                   (ServerGameData_neededBigAsteroidCount
                      (gameData (ServerGameData_collidePlayers s2))
                    - curBigAsteroidsCount
                        (gameData (ServerGameData_collidePlayers s2))))
                (gameData (ServerGameData_collidePlayers s2))
                (calls (ServerGameData_collidePlayers s2)))
      as (new & Ha & Hnew).
    exists new. destruct (ServerGameData_pushBigAsteroids _ _ _) as [gd n].
    done.
  - exists []. rewrite app_nil_r. done.
Qed.

End AsteroidTickProofs.

(** ** Where an asteroid appears *)

Section SpawnProofs.
Context {E : Externals}.
Hypothesis randInt_range :
  forall (lo hi : Qc) (n : nat),
    (lo <= hi)%Qc -> (lo <= Utils_randInt lo hi n <= hi)%Qc.

Lemma setRandomSpawnPoint_outside width height n :
  (0 <= width)%Qc -> (0 <= height)%Qc ->
  let xy := (ServerAsteroid_setRandomSpawnPoint width height n).1 in
  ((xy.1 <= - num 100 \/ width + num 100 <= xy.1
    \/ xy.2 <= - num 100 \/ height + num 100 <= xy.2)
   /\ - num 200 <= xy.1 <= width + num 200
   /\ - num 200 <= xy.2 <= height + num 200)%Qc.
Proof using randInt_range.
  intros Hw Hh. unfold ServerAsteroid_setRandomSpawnPoint, bind, call, ret.
  assert (H1 : (- num 200 <= - num 100)%Qc) by (qc_to_q; lra).
  assert (H2 : (width + num 100 <= width + num 200)%Qc) by (qc_to_q; lra).
  assert (H3 : (height + num 100 <= height + num 200)%Qc) by (qc_to_q; lra).
  pose proof (randInt_range _ _ (S n) H1) as Ha.
  pose proof (randInt_range _ _ (S (S n)) H1) as Ha'.
  pose proof (randInt_range _ _ (S n) Hw) as Hb.
  pose proof (randInt_range _ _ (S (S n)) Hh) as Hb'.
  pose proof (randInt_range _ _ (S n) H2) as Hc.
  pose proof (randInt_range _ _ (S (S n)) H3) as Hc'.
  destruct (ltb (Math_random n) (frac 25 100));
    [|destruct (ltb (Math_random n) (frac 5 10));
      [|destruct (ltb (Math_random n) (frac 75 100))]];
    cbn [fst snd]; revert Ha Ha' Hb Hb' Hc Hc' Hw Hh; qc_to_q; lra.
Qed.

(** Any asteroid that the constructor makes appears outside the world,
    at least 100 and at most 200 beyond one of its four edges, as long as
    [Utils.randInt] returns a value of the range it is given. *)
Theorem new_asteroid_spawns_outside (width height : Qc) (isBig : bool)
    (n : nat) :
  (0 <= width)%Qc -> (0 <= height)%Qc ->
  ((a_x (new_ServerAsteroid width height isBig n).1 <= - num 100
    \/ width + num 100 <= a_x (new_ServerAsteroid width height isBig n).1
    \/ a_y (new_ServerAsteroid width height isBig n).1 <= - num 100
    \/ height + num 100 <= a_y (new_ServerAsteroid width height isBig n).1)
   /\ - num 200 <= a_x (new_ServerAsteroid width height isBig n).1
      <= width + num 200
   /\ - num 200 <= a_y (new_ServerAsteroid width height isBig n).1
      <= height + num 200)%Qc.
Proof using randInt_range.
  intros Hw Hh.
  pose proof (setRandomSpawnPoint_outside width height (S n) Hw Hh) as Hxy.
  cbv zeta in Hxy.
  unfold new_ServerAsteroid, bind, call, ret.
  destruct (ServerAsteroid_setRandomSpawnPoint _ _ _) as [[x y] n1].
  destruct isBig;
    by destruct (ServerAsteroid_makeVertices _ _ _ _ _ _) as [vs n2].
Qed.

End SpawnProofs.

(** ** What a tick leaves alone *)

Section TickProofs.
Context {E : Externals}.
Variable s0 : Server.

Lemma since_ext s s' :
  p_id <$> players (gameData s') = p_id <$> players (gameData s) ->
  connectedSockets s' = connectedSockets s -> sent s' = sent s ->
  since s0 s -> since s0 s'.
Proof. unfold since. by intros -> -> ->. Qed.

Lemma runBreakAsteroid_since a s :
  since s0 s ->
  since s0 (runGameData (ServerGameData_breakAsteroid a (gameData s)) s).
Proof.
  destruct (runGameData_breakAsteroid_fields a s)
    as (Hp & _ & _ & _ & Hsent & Hc).
  apply since_ext; [by rewrite Hp|done|done].
Qed.

Lemma killed_since id ev gd s :
  (forall sock, isKillNotice (ev sock)) ->
  players gd = Players_delete id (players (gameData s)) ->
  since s0 s -> since s0 (Server_notifyKilled id ev (withGameData gd s)).
Proof.
  intros Hev Hps (Hsub & Hsock & notices & Hsent & Hall).
  destruct (notifyKilled_spec id ev (withGameData gd s)) as [Hgd Hn].
  unfold since. rewrite Hgd. cbn [gameData withGameData] in *. split.
  { rewrite Hps. etrans; [|exact Hsub]. apply fmap_sublist.
    unfold Players_delete. apply sublist_filter. }
  cbn [connectedSockets withGameData sent] in Hn.
  destruct (list_find _ (connectedSockets s)) as [[i sock]|];
    destruct Hn as [-> ->].
  - split; [by rewrite fmap_s_id_alter|].
    exists (notices ++ [ev id]). rewrite Hsent, (assoc_L (++)).
    split; [done|]. apply Forall_app. split; [done|]. by constructor.
  - split; [done|]. by exists notices.
Qed.

Lemma asteroidKilledPlayer_since a p s :
  since s0 s -> since s0 (Server_asteroidKilledPlayer a p s).
Proof.
  intros Hs. unfold Server_asteroidKilledPlayer.
  destruct (ServerGameData_removePlayerById _ _) as [[k|] gd1] eqn:Hr;
    apply runBreakAsteroid_since; [|done].
  apply removePlayerById_players in Hr as Hp.
  apply removePlayerById_Some in Hr as [-> _].
  by apply killed_since.
Qed.

Lemma bulletKilledAsteroid_since r a s :
  since s0 s -> since s0 (Server_bulletKilledAsteroid r a s).
Proof.
  intros Hs. unfold Server_bulletKilledAsteroid.
  destruct (_ !! r) as [b|]; [|done].
  set (s1 := match truthy _ with Some _ => _ | None => _ end).
  assert (Hs1 : since s0 s1).
  { subst s1. destruct (truthy _) as [fid|]; [|done].
    destruct (ServerGameData_getPlayerWithId _ _) as [firer|]; [|done].
    apply (runBreakAsteroid_since a) in Hs.
    eapply since_ext; [| | |exact Hs]; [|done|done].
    simpl. by rewrite Players_ids_alter. }
  eapply since_ext; [| | |exact Hs1]; done.
Qed.

Lemma bulletKilledPlayer_since r p s :
  since s0 s -> since s0 (Server_bulletKilledPlayer r p s).
Proof.
  intros Hs. unfold Server_bulletKilledPlayer.
  destruct (_ !! r) as [b|]; [|done].
  set (s1 := match truthy _ with Some _ => _ | None => _ end).
  assert (Hs1 : since s0 s1).
  { subst s1. destruct (truthy _) as [fid|]; [|done].
    destruct (ServerGameData_getPlayerWithId _ _) as [firer|]; [|done].
    destruct (ServerGameData_removePlayerById _ _) as [[k|] gd1] eqn:Hr;
      [|done].
    apply removePlayerById_players in Hr as Hp.
    apply removePlayerById_Some in Hr as [-> _].
    eapply since_ext;
      [| | |apply (killed_since (p_id p)
                    (fun sock => KilledByPlayerEvent sock (p_id firer) (p_id p))
                    (ServerGameData_recycleBulletsByFirerId (p_id p) gd1) s);
            [done|exact Hp|exact Hs]];
      [|done|done].
    simpl. by rewrite Players_ids_alter. }
  eapply since_ext; [| | |exact Hs1]; done.
Qed.

Lemma update_since s' :
  ServerGameData_update s0 = Some s' -> since s0 s'.
Proof.
  unfold ServerGameData_update, ServerGameData_simulate. intros Hrun.
  set (s1 := runGameData _ s0) in Hrun.
  assert (Hs1 : since s0 s1).
  { subst s1. unfold runGameData, ServerGameData_advance, bind, ret.
    pose proof (updatePlayers_ids (players (gameData s0))
                  (bulletHouse (gameData s0)) (calls s0)) as Hids.
    destruct (ServerGameData_updatePlayers _ _ _) as [[ps bh] n1].
    destruct (ServerGameData_updateAsteroids _ _ _) as [asts n2].
    unfold since. simpl in *. rewrite Hids. split; [done|]. split; [done|].
    exists []. by rewrite app_nil_r. }
  destruct (ServerGameData_collideAsteroids_from _ _) as [s2|] eqn:Hc;
    [|done].
  injection Hrun as <-.
  assert (Hs3 : since s0 (ServerGameData_collidePlayers s2)).
  { apply (collidePlayers_pres (since s0));
      auto using asteroidKilledPlayer_since, bulletKilledAsteroid_since,
                 bulletKilledPlayer_since.
    eapply (collideAsteroids_from_pres (since s0)); eauto
      using asteroidKilledPlayer_since, bulletKilledAsteroid_since,
            bulletKilledPlayer_since. }
  eapply since_ext; [| | |exact Hs3].
  - unfold runGameData.
    destruct (ServerGameData_topUp _ _) as [gd n] eqn:Ht.
    apply topUp_spec in Ht as (Hp & _). simpl. by rewrite Hp.
  - unfold runGameData. by destruct (ServerGameData_topUp _ _).
  - unfold runGameData. by destruct (ServerGameData_topUp _ _).
Qed.

End TickProofs.

Section LoopProofs.
Context {E : Externals}.

(** One turn of the game loop adds no player and neither adds nor drops
    a socket; what it sends is, first, notices of death, then the game
    data, once to every connected socket, those of the ships that died in
    this turn included. *)
Theorem gameUpdateLoop_sends_and_keeps (s s' : Server) :
  Server_gameUpdateLoop s = Some s' ->
  (p_id <$> players (gameData s')) `sublist_of` (p_id <$> players (gameData s))
  /\ s_id <$> connectedSockets s' = s_id <$> connectedSockets s
  /\ exists notices,
       sent s'
       = sent s ++ notices
         ++ (GameDataEvent <$> (s_id <$> connectedSockets s))
       /\ Forall
            (fun e =>
               match e with
               | KilledByAsteroidEvent _ _ | KilledByPlayerEvent _ _ _ => True
               | _ => False
               end)
            notices.
Proof.
  unfold Server_gameUpdateLoop.
  destruct (ServerGameData_update s) as [s1|] eqn:Hu; [|done].
  intros [= <-].
  apply update_since in Hu as (Hsub & Hsock & notices & Hsent & Hall).
  cbn [gameData connectedSockets sent]. split; [done|]. split; [done|].
  exists notices. split; [|exact Hall].
  rewrite Hsent, <-Hsock, <-(assoc_L (++)), <-list_fmap_compose. done.
Qed.

End LoopProofs.

(** ** A logic for the drawing code *)

Section DrawLogic.
Local Open Scope Qc_scope.
Context {St : Type}.
Variable step : St -> P5Call -> option St.

Lemma observe_app (s : St) (a b : list P5Call) :
  observe step s (a ++ b)
  = match observe step s a with
    | Some s' => observe step s' b
    | None => None
    end.
Proof.
  revert s. induction a as [|c a IH]; intros s; [done|].
  simpl. destruct (step s c) as [s'|]; [apply IH|done].
Qed.

Lemma wp_ret {A} (a : A) s Q : Q (Some a) s -> Draw_wp step (Draw_ret a) s Q.
Proof. intros HQ n. by exists s. Qed.

Lemma wp_throw {A} s (Q : option A -> St -> Prop) :
  Q None s -> Draw_wp step Draw_throw s Q.
Proof. intros HQ n. by exists s. Qed.

Lemma wp_ext {A} (m : Ext A) s Q :
  (forall a, Q (Some a) s) -> Draw_wp step (Draw_ext m) s Q.
Proof.
  intros HQ n. exists s. unfold Draw_ext. destruct (m n) as [a n'].
  split; [done|apply HQ].
Qed.

Lemma wp_call c s s' Q :
  step s c = Some s' -> Q (Some tt) s' -> Draw_wp step (Draw_call c) s Q.
Proof. intros Hs HQ n. exists s'. simpl. by rewrite Hs. Qed.

Lemma wp_bind {A B} (m : Draw A) (k : A -> Draw B) s Q :
  Draw_wp step m s
    (fun r s1 =>
       match r with
       | Some a => Draw_wp step (k a) s1 Q
       | None => Q None s1
       end) ->
  Draw_wp step (Draw_bind m k) s Q.
Proof.
  intros Hm n. destruct (Hm n) as (s1 & Hobs & Hk). unfold Draw_bind.
  destruct (m n) as [[[a|] c1] n1]; simpl in *.
  - destruct (Hk n1) as (s2 & Hobs2 & HQ).
    destruct (k a n1) as [[r c2] n2]. simpl in *.
    exists s2. by rewrite observe_app, Hobs.
  - by exists s1.
Qed.

Lemma wp_mono {A} (m : Draw A) s (Q Q' : option A -> St -> Prop) :
  Draw_wp step m s Q -> (forall r s', Q r s' -> Q' r s') -> Draw_wp step m s Q'.
Proof.
  intros Hm HQ n. destruct (Hm n) as (s' & ? & ?). exists s'. auto.
Qed.

(** A call, then the rest. *)
Lemma wp_call_then {B} c (k : Draw B) s s' Q :
  step s c = Some s' -> Draw_wp step k s' Q ->
  Draw_wp step (Draw_bind (Draw_call c) (fun _ => k)) s Q.
Proof. intros Hs Hk. apply wp_bind. by eapply wp_call. Qed.

(** [for ... of]: the turns that complete keep [I]; the loop completes
    when every element is [ok]. *)
Lemma wp_forOf {A} (ok : A -> Prop) (I Qex : St -> Prop) (f : A -> Draw unit)
    (l : list A) s :
  (forall x s0, I s0 ->
     Draw_wp step (f x) s0
       (fun r s' =>
          match r with
          | Some _ => ok x /\ I s'
          | None => ~ ok x /\ Qex s'
          end)) ->
  I s ->
  Draw_wp step (Draw_forOf f l) s
    (fun r s' =>
       match r with
       | Some _ => Forall ok l /\ I s'
       | None => ~ Forall ok l /\ Qex s'
       end).
Proof.
  intros Hf. revert s. induction l as [|x l IH]; intros s HI.
  - apply wp_ret. by split.
  - simpl. apply wp_bind. eapply wp_mono; [by apply Hf|].
    intros [[]|] s1; simpl.
    + intros [Hx HI1]. eapply wp_mono; [by apply IH|].
      intros [[]|] s2; simpl.
      * intros [Hl ?]. split; [by constructor|done].
      * intros [Hl ?]. split; [|done].
        intros Hall. apply Hl. by inversion Hall.
    + intros [Hx ?]. split; [|done].
      intros Hall. apply Hx. by inversion Hall.
Qed.

(** [for ... of] again: what every turn keeps, thrown or not, the loop
    keeps. *)
Lemma wp_forOf_inv {A} (I : St -> Prop) (f : A -> Draw unit) (l : list A) s :
  (forall x s0, I s0 -> Draw_wp step (f x) s0 (fun _ s' => I s')) ->
  I s -> Draw_wp step (Draw_forOf f l) s (fun _ s' => I s').
Proof.
  intros Hf. revert s. induction l as [|x l IH]; intros s HI.
  - by apply wp_ret.
  - simpl. apply wp_bind. eapply wp_mono; [by apply Hf|].
    intros [[]|] s1 HI1; [by apply IH|done].
Qed.

End DrawLogic.

(** ** The saved states of the canvas *)

Section DepthProofs.
Local Open Scope Qc_scope.
Context {E : Externals} {C : ClientExternals}.

Ltac depth_calls :=
  repeat (eapply (wp_call_then depth_step); [reflexivity|]).

Lemma ClientPlayer_draw_depth (p : ClientPlayer) (d : nat) :
  Draw_wp depth_step (ClientPlayer_draw p) d
    (fun r d' =>
       match r with
       | Some _ => (3 <= length (cp_vertices p))%nat /\ d' = d
       | None => ~ (3 <= length (cp_vertices p))%nat /\ d' = S d
       end).
Proof.
  unfold ClientPlayer_draw. depth_calls. apply wp_bind.
  destruct (cp_vertices p !! 0%nat) as [v0|] eqn:H0;
    [destruct (cp_vertices p !! 1%nat) as [v1|] eqn:H1;
     [destruct (cp_vertices p !! 2%nat) as [v2|] eqn:H2|]|].
  - apply lookup_lt_Some in H2.
    eapply (wp_call depth_step); [reflexivity|].
    apply wp_bind.
    destruct (cp_showTail p).
    + depth_calls. apply wp_bind, wp_ext. intros r. depth_calls.
      eapply (wp_call depth_step); [reflexivity|].
      eapply (wp_call depth_step); [reflexivity|]. split; [lia|done].
    + apply wp_ret. eapply (wp_call depth_step); [reflexivity|].
      split; [lia|done].
  - apply lookup_ge_None in H2. apply wp_throw. split; [lia|done].
  - apply lookup_ge_None in H1. apply wp_throw. split; [lia|done].
  - apply lookup_ge_None in H0. apply wp_throw. split; [lia|done].
Qed.

Lemma ClientBullet_draw_depth (b : ClientBullet) (d : nat) :
  Draw_wp depth_step (ClientBullet_draw b) d
    (fun r d' =>
       match r with
       | Some _ => (2 <= length (cb_vertices b))%nat /\ d' = d
       | None => ~ (2 <= length (cb_vertices b))%nat /\ d' = S d
       end).
Proof.
  unfold ClientBullet_draw. depth_calls. apply wp_bind.
  destruct (cb_vertices b !! 0%nat) as [v0|] eqn:H0.
  - eapply (wp_call depth_step); [reflexivity|]. apply wp_bind.
    destruct (cb_vertices b !! 1%nat) as [v1|] eqn:H1.
    + apply lookup_lt_Some in H1.
      eapply (wp_call depth_step); [reflexivity|]. depth_calls.
      eapply (wp_call depth_step); [reflexivity|]. split; [lia|done].
    + apply lookup_ge_None in H1. apply wp_throw. split; [lia|done].
  - apply lookup_ge_None in H0. apply wp_throw. split; [lia|done].
Qed.

Lemma ClientAsteroid_draw_depth (a : ClientAsteroid) (d : nat) :
  Draw_wp depth_step (ClientAsteroid_draw a) d
    (fun r d' =>
       match r with
       | Some _ => True /\ d' = d
       | None => ~ True /\ False
       end).
Proof.
  unfold ClientAsteroid_draw. depth_calls. apply wp_bind.
  eapply wp_mono.
  { apply (wp_forOf depth_step (fun _ => True) (fun d' => d' = S d)
             (fun _ => False)); [|done].
    intros v d0 ->. eapply (wp_call depth_step); [reflexivity|]. done. }
  intros [[]|] d'; simpl; [|tauto]. intros [_ ->]. depth_calls.
  eapply (wp_call depth_step); [reflexivity|]. done.
Qed.

Lemma drawMinimapVersion_depth scaleFactor isMe (p : ClientPlayer) (d : nat) :
  Draw_wp depth_step (ClientPlayer_drawMinimapVersion scaleFactor isMe p) d
    (fun r d' =>
       match r with
       | Some _ => True /\ d' = d
       | None => ~ True /\ False
       end).
Proof.
  unfold ClientPlayer_drawMinimapVersion. depth_calls. apply wp_bind.
  destruct isMe.
  - depth_calls. eapply (wp_call depth_step); [reflexivity|].
    eapply (wp_call depth_step); [reflexivity|]. done.
  - apply wp_ret. eapply (wp_call depth_step); [reflexivity|]. done.
Qed.

Lemma drawRows_depth (players : list ClientPlayer) (k i d : nat) :
  (i + k <= length players)%nat ->
  Draw_wp depth_step (ClientGameData_drawRows players i k) d
    (fun r d' => is_Some r /\ d' = d).
Proof.
  revert i. induction k as [|k IH]; intros i Hlen.
  - apply wp_ret. by split.
  - simpl. destruct (lookup_lt_is_Some_2 players i) as [player ->]; [lia|].
    depth_calls. apply wp_bind.
    eapply wp_mono with (Q := fun r d' => is_Some r /\ d' = S d).
    { case_bool_decide; (eapply (wp_call depth_step); [reflexivity|]);
        by split. }
    intros [[]|] d' [Hr ->]; [|by destruct Hr].
    depth_calls. apply IH. lia.
Qed.

Lemma draw_depth (p5 : P5Functions) (myId : option string)
    (g : ClientGameData) :
  Draw_wp depth_step (ClientGameData_draw p5 myId g) 0%nat
    (fun r d' =>
       match r with
       | Some _ => vertices_ok g /\ d' = 0%nat
       | None => ~ vertices_ok g /\ d' = 2%nat
       end).
Proof.
  unfold ClientGameData_draw, vertices_ok. depth_calls.
  apply wp_bind.
  eapply wp_mono with (Q := fun r d' => is_Some r /\ d' = 1%nat).
  { destruct (List.find _ _) as [me|].
    - depth_calls. eapply (wp_call depth_step); [reflexivity|]. by split.
    - apply wp_ret. by split. }
  intros [[]|] d' [Hr0 ->]; [|by destruct Hr0].
  apply wp_bind. eapply wp_mono.
  { apply (wp_forOf depth_step
             (fun p => (3 <= length (cp_vertices p))%nat)
             (fun d' => d' = 1%nat) (fun d' => d' = 2%nat)); [|done].
    intros p d0 ->. eapply wp_mono; [apply ClientPlayer_draw_depth|].
    intros [[]|] d'; simpl; tauto. }
  intros [[]|] d'; simpl; [|tauto]. intros [Hplayers ->].
  apply wp_bind. eapply wp_mono.
  { apply (wp_forOf depth_step
             (fun b => (2 <= length (cb_vertices b))%nat)
             (fun d' => d' = 1%nat) (fun d' => d' = 2%nat)); [|done].
    intros b d0 ->. eapply wp_mono; [apply ClientBullet_draw_depth|].
    intros [[]|] d'; simpl; tauto. }
  intros [[]|] d'; simpl; [|tauto]. intros [Hbullets ->].
  apply wp_bind. eapply wp_mono.
  { apply (wp_forOf depth_step (fun _ => True) (fun d' => d' = 1%nat)
             (fun _ => False)); [|done].
    intros a d0 ->. eapply wp_mono; [apply ClientAsteroid_draw_depth|].
    intros [[]|] d'; simpl; tauto. }
  intros [[]|] d'; simpl; [|tauto]. intros [_ ->].
  depth_calls. apply wp_bind. eapply wp_mono.
  { apply (wp_forOf depth_step (fun _ => True) (fun d' => d' = 1%nat)
             (fun _ => False)); [|done].
    intros p d0 ->. eapply wp_mono; [apply drawMinimapVersion_depth|].
    intros [[]|] d'; simpl; tauto. }
  intros [[]|] d'; simpl; [|tauto]. intros [_ ->].
  depth_calls. apply wp_bind.
  eapply wp_mono with (Q := fun r d' => is_Some r /\ d' = 1%nat).
  { case_bool_decide.
    - depth_calls. eapply (wp_call depth_step); [reflexivity|]. by split.
    - apply wp_ret. by split. }
  intros [[]|] d' [Hr1 ->]; [|by destruct Hr1].
  apply wp_bind. eapply wp_mono; [apply drawRows_depth; lia|].
  intros [[]|] d' [Hr2 ->]; [|by destruct Hr2].
  depth_calls. apply wp_ret. done.
Qed.

(** [draw] completes exactly when every ship has the three vertices and
    every projectile the two that the drawing reads.  When it completes
    it has restored every drawing state it saved, and never restored one
    it had not saved; when it throws, it leaves two saved states on the
    canvas. *)
Theorem draw_balanced_or_throws (p5 : P5Functions) (myId : option string)
    (g : ClientGameData) (n : nat) :
  (vertices_ok g ->
   is_Some (ClientGameData_draw p5 myId g n).1.1
   /\ depth_after 0 (ClientGameData_draw p5 myId g n).1.2 = Some 0%nat)
  /\ (~ vertices_ok g ->
      (ClientGameData_draw p5 myId g n).1.1 = None
      /\ depth_after 0 (ClientGameData_draw p5 myId g n).1.2 = Some 2%nat).
Proof.
  destruct (draw_depth p5 myId g n) as (d & Hd & Hpost).
  unfold depth_after. rewrite Hd.
  destruct ((ClientGameData_draw p5 myId g n).1.1) as [g'|].
  - destruct Hpost as [Hok ->]. split; [by split|]. by intros [].
  - destruct Hpost as [Hok ->]. split; [by intros ?|]. by split.
Qed.

End DepthProofs.

(** ** The table of points *)

Section SortProofs.
Context {A : Type}.
Variable cmp : A -> A -> Z.
Variable R : relation A.
Hypothesis cmp_le : forall x y, (cmp x y <= 0)%Z -> R x y.
Hypothesis cmp_gt : forall x y, ~ (cmp x y <= 0)%Z -> R y x.
Hypothesis R_trans : Transitive R.

Lemma Array_sort_insert_Permutation (x : A) (l : list A) :
  Array_sort_insert cmp x l ≡ₚ x :: l.
Proof.
  induction l as [|y l IH]; [done|]. simpl. case_bool_decide; [done|].
  rewrite IH. apply Permutation_swap.
Qed.

Lemma Array_sort_Permutation (l : list A) : Array_sort cmp l ≡ₚ l.
Proof.
  induction l as [|x l IH]; [done|]. simpl.
  by rewrite Array_sort_insert_Permutation, IH.
Qed.

Lemma Array_sort_insert_sorted (x : A) (l : list A) :
  StronglySorted R l -> StronglySorted R (Array_sort_insert cmp x l).
Proof using cmp_le cmp_gt R_trans.
  induction 1 as [|y l Hl IH Hy]; simpl.
  - repeat constructor.
  - case_bool_decide as Hc.
    + constructor; [by constructor|]. constructor; [by apply cmp_le|].
      eapply Forall_impl; [exact Hy|]. intros z Hz.
      eapply R_trans; [by apply cmp_le|done].
    + constructor; [done|].
      rewrite Array_sort_insert_Permutation. constructor; [|done].
      by apply cmp_gt.
Qed.

Lemma Array_sort_sorted (l : list A) : StronglySorted R (Array_sort cmp l).
Proof using cmp_le cmp_gt R_trans.
  induction l as [|x l IH]; simpl; [constructor|].
  by apply Array_sort_insert_sorted.
Qed.

End SortProofs.

Section PointsProofs.
Local Open Scope Qc_scope.
Context {E : Externals} {C : ClientExternals}.

Lemma num_inj (a b : Z) : num a = num b -> a = b.
Proof.
  unfold num. intros H. apply Q2Qc_eq_iff in H.
  apply (proj1 (inject_Z_injective a b)). exact H.
Qed.

Lemma observe_text (size : Qc) (calls : list P5Call) (s : list string) :
  observe (text_step size) s calls = Some (s ++ texts_of_size size calls).
Proof.
  revert s. induction calls as [|c calls IH]; intros s; simpl.
  - by rewrite app_nil_r.
  - rewrite IH. by rewrite <- app_assoc.
Qed.

Ltac text_step_done :=
  unfold points_step, text_step; cbn [text_of_size];
  rewrite ?bool_decide_eq_false_2
    by (unfold ClientGameData_pointsTextSize; intros ?%num_inj; lia);
  rewrite ?bool_decide_eq_true_2 by reflexivity;
  rewrite ?app_nil_r; reflexivity.

Ltac text_calls :=
  repeat (eapply (wp_call_then points_step); [text_step_done|]).

Ltac text_call := eapply (wp_call points_step); [text_step_done|].

Lemma ClientPlayer_draw_texts (p : ClientPlayer) (s : list string) :
  Draw_wp points_step (ClientPlayer_draw p) s (fun _ s' => s' = s).
Proof.
  unfold ClientPlayer_draw. text_calls. apply wp_bind.
  eapply wp_mono with (Q := fun _ s' => s' = s).
  { destruct (cp_vertices p !! 0%nat) as [v0|];
      [destruct (cp_vertices p !! 1%nat) as [v1|];
       [destruct (cp_vertices p !! 2%nat) as [v2|]|]|];
      try (by apply wp_throw).
    by text_call. }
  intros [[]|] s' ->; [|done]. apply wp_bind.
  eapply wp_mono with (Q := fun _ s' => s' = s).
  { destruct (cp_showTail p); [|by apply wp_ret].
    text_calls. apply wp_bind, wp_ext. intros r. text_calls. by text_call. }
  intros [[]|] s' ->; [|done]. by text_call.
Qed.

Lemma ClientBullet_draw_texts (b : ClientBullet) (s : list string) :
  Draw_wp points_step (ClientBullet_draw b) s (fun _ s' => s' = s).
Proof.
  unfold ClientBullet_draw. text_calls. apply wp_bind.
  eapply wp_mono with (Q := fun _ s' => s' = s).
  { destruct (cb_vertices b !! 0%nat); [by text_call|by apply wp_throw]. }
  intros [[]|] s' ->; [|done]. apply wp_bind.
  eapply wp_mono with (Q := fun _ s' => s' = s).
  { destruct (cb_vertices b !! 1%nat); [by text_call|by apply wp_throw]. }
  intros [[]|] s' ->; [|done]. text_calls. by text_call.
Qed.

Lemma ClientAsteroid_draw_texts (a : ClientAsteroid) (s : list string) :
  Draw_wp points_step (ClientAsteroid_draw a) s (fun _ s' => s' = s).
Proof.
  unfold ClientAsteroid_draw. text_calls. apply wp_bind.
  eapply wp_mono.
  { apply (wp_forOf_inv points_step (fun s' => s' = s)); [|done].
    intros v s0 ->. by text_call. }
  intros [[]|] s' ->; [|done]. text_calls. by text_call.
Qed.

Lemma drawMinimapVersion_texts scaleFactor isMe (p : ClientPlayer)
    (s : list string) :
  Draw_wp points_step (ClientPlayer_drawMinimapVersion scaleFactor isMe p) s
    (fun _ s' => s' = s).
Proof.
  unfold ClientPlayer_drawMinimapVersion. text_calls. apply wp_bind.
  eapply wp_mono with (Q := fun _ s' => s' = s).
  { destruct isMe; [|by apply wp_ret]. text_calls. by text_call. }
  intros [[]|] s' ->; [|done]. by text_call.
Qed.

Lemma drawRows_texts (players : list ClientPlayer) (k i : nat)
    (s : list string) :
  (i + k <= length players)%nat ->
  Draw_wp points_step (ClientGameData_drawRows players i k) s
    (fun r s' =>
       is_Some r
       /\ s' = s ++ flat_map pointsRow (take k (drop i players))).
Proof.
  revert i s. induction k as [|k IH]; intros i s Hlen.
  - apply wp_ret. split; [done|]. by rewrite take_0, app_nil_r.
  - simpl.
    destruct (lookup_lt_is_Some_2 players i) as [player Hi]; [lia|].
    rewrite Hi. text_calls. apply wp_bind.
    eapply wp_mono with (Q := fun r s' => is_Some r /\ s' = s).
    { case_bool_decide; by text_call. }
    intros [[]|] s' [Hr ->]; [|by destruct Hr].
    text_calls. eapply wp_mono; [apply IH; lia|].
    intros r s' [Hr' ->]. split; [done|].
    rewrite (drop_S _ _ _ Hi). simpl. unfold pointsRow at 2.
    by rewrite <- !app_assoc.
Qed.

Lemma take_min_length {A} (l : list A) (k : nat) :
  take (Nat.min (length l) k) l = take k l.
Proof.
  destruct (Nat.min_spec (length l) k) as [[? ->]|[? ->]]; [|done].
  by rewrite firstn_all, take_ge by lia.
Qed.

Lemma draw_texts (p5 : P5Functions) (myId : option string)
    (g : ClientGameData) :
  Draw_wp points_step (ClientGameData_draw p5 myId g) []
    (fun r s' =>
       match r with
       | Some g' =>
           g' = withPlayers (sortedByScore (cg_players g)) g
           /\ s' = match cg_players g with
                   | [] => []
                   | _ :: _ =>
                       [ClientGameData_labelNickname;
                        ClientGameData_labelAsteroidPoint;
                        ClientGameData_labelKillingPoint]
                   end
                   ++ flat_map pointsRow
                        (take 7 (sortedByScore (cg_players g)))
       | None => True
       end).
Proof.
  unfold ClientGameData_draw. fold (sortedByScore (cg_players g)).
  text_calls. apply wp_bind.
  eapply wp_mono with (Q := fun _ s' => s' = []).
  { destruct (List.find _ _) as [me|]; [|by apply wp_ret].
    text_calls. by text_call. }
  intros [[]|] s' ->; [|done]. apply wp_bind.
  eapply wp_mono.
  { apply (wp_forOf_inv points_step (fun s' => s' = [])); [|done].
    intros p s0 ->. apply ClientPlayer_draw_texts. }
  intros [[]|] s' ->; [|done]. apply wp_bind.
  eapply wp_mono.
  { apply (wp_forOf_inv points_step (fun s' => s' = [])); [|done].
    intros b s0 ->. apply ClientBullet_draw_texts. }
  intros [[]|] s' ->; [|done]. apply wp_bind.
  eapply wp_mono.
  { apply (wp_forOf_inv points_step (fun s' => s' = [])); [|done].
    intros a s0 ->. apply ClientAsteroid_draw_texts. }
  intros [[]|] s' ->; [|done]. text_calls. apply wp_bind.
  eapply wp_mono.
  { apply (wp_forOf_inv points_step (fun s' => s' = [])); [|done].
    intros p s0 ->. apply drawMinimapVersion_texts. }
  intros [[]|] s' ->; [|done]. text_calls.
  set (sorted := sortedByScore (cg_players g)).
  assert (Hlen : length sorted = length (cg_players g)).
  { unfold sorted, sortedByScore. by rewrite Array_sort_Permutation. }
  apply wp_bind.
  eapply wp_mono
    with (Q := fun r s' =>
                 is_Some r
                 /\ s' = match cg_players g with
                         | [] => []
                         | _ :: _ =>
                             [ClientGameData_labelNickname;
                              ClientGameData_labelAsteroidPoint;
                              ClientGameData_labelKillingPoint]
                         end).
  { case_bool_decide as Hc.
    - text_calls. text_call. split; [done|].
      destruct (cg_players g); [simpl in *; lia|done].
    - apply wp_ret. split; [done|].
      destruct (cg_players g); [done|simpl in *; lia]. }
  intros [[]|] s' [Hr ->]; [|by destruct Hr].
  apply wp_bind. eapply wp_mono; [apply drawRows_texts; lia|].
  intros [[]|] s' [Hr' ->]; [|by destruct Hr'].
  text_calls. apply wp_ret. split; [done|].
  by rewrite drop_0, take_min_length.
Qed.

(** The table of points shows the seven players with the most points,
    the best first, or all of them when they are fewer: [draw] sorts the
    players of the client by their points (an asteroid counts 1, a kill
    2), keeping all of them, and what it writes at the size of the table
    is the header, when there is a player, then name, asteroid points
    and kills of the first seven. *)
Theorem draw_shows_top_seven (p5 : P5Functions) (myId : option string)
    (g g' : ClientGameData) (n n' : nat) (calls : list P5Call) :
  ClientGameData_draw p5 myId g n = (Some g', calls, n') ->
  cg_players g' ≡ₚ cg_players g
  /\ StronglySorted byScore (cg_players g')
  /\ cg_bullets g' = cg_bullets g /\ cg_asteroids g' = cg_asteroids g
  /\ texts_of_size ClientGameData_pointsTextSize calls
     = match cg_players g with
       | [] => []
       | _ :: _ => ["Name"; "Asteroid"; "PK"]
       end
       ++ flat_map pointsRow (take 7 (cg_players g')).
Proof.
  intros Hdraw. destruct (draw_texts p5 myId g n) as (s' & Hobs & Hpost).
  rewrite Hdraw in Hobs, Hpost. simpl in Hobs, Hpost.
  destruct Hpost as [-> ->]. unfold points_step in Hobs.
  rewrite observe_text in Hobs.
  injection Hobs as Hobs. simpl in Hobs. simpl.
  split; [apply Array_sort_Permutation|].
  split.
  { apply (Array_sort_sorted _ byScore); unfold byScore.
    - intros x y. lia.
    - intros x y. lia.
    - intros x y z. lia. }
  split; [done|]. split; [done|]. exact Hobs.
Qed.

End PointsProofs.

(** ** The camera *)

Section CameraProofs.
Local Open Scope Qc_scope.
Context {E : Externals} {C : ClientExternals}.



Lemma new_view_fits : view_fits new_ClientGameData.
Proof.
  unfold view_fits, new_ClientGameData; simpl.
  repeat split; unfold Qcdiv, Qcminus; ring.
Qed.

Lemma update_view_fits (newData : GameDataDTO) (g : ClientGameData) :
  view_fits g -> view_fits (ClientGameData_update newData g).
Proof.
  intros Hg. unfold ClientGameData_update.
  destruct (_ || _); [|exact Hg]. by repeat split.
Qed.

Lemma draw_result (p5 : P5Functions) (myId : option string)
    (g g' : ClientGameData) (n n' : nat) (calls : list P5Call) :
  ClientGameData_draw p5 myId g n = (Some g', calls, n') ->
  g' = withPlayers (sortedByScore (cg_players g)) g.
Proof.
  intros Hdraw. destruct (draw_texts p5 myId g n) as (s' & _ & Hpost).
  rewrite Hdraw in Hpost. by destruct Hpost.
Qed.

Lemma client_reachable_view_fits (g : ClientGameData) :
  client_reachable g -> view_fits g.
Proof.
  induction 1 as [|newData g _ IH|p5 myId g n g' calls n' _ IH Hdraw].
  - apply new_view_fits.
  - by apply update_view_fits.
  - apply draw_result in Hdraw as ->. exact IH.
Qed.




End CameraProofs.

(** ** From one frame to the next *)

Section FrameProofs.
Local Open Scope Qc_scope.
Context {E : Externals} {C : ClientExternals}.

Lemma sortedByScore_sorted (players : list ClientPlayer) :
  StronglySorted byScore players -> sortedByScore players = players.
Proof.
  unfold sortedByScore.
  induction 1 as [|x l Hl IH Hx]; [done|]. simpl. rewrite IH.
  destruct Hx as [|y l Hy _]; [done|]. simpl.
  rewrite bool_decide_eq_true_2; [done|]. unfold byScore in Hy. lia.
Qed.

Lemma sortedByScore_StronglySorted (players : list ClientPlayer) :
  StronglySorted byScore (sortedByScore players).
Proof.
  apply (Array_sort_sorted _ byScore); unfold byScore.
  - intros x y. lia.
  - intros x y. lia.
  - intros x y z. lia.
Qed.

(** Drawing again does not reorder the players: the second of two
    consecutive frames leaves the game data of the client exactly as the
    first left it, players with equal points included. *)
Theorem draw_again_keeps_order (p5 p5' : P5Functions)
    (myId myId' : option string) (g g1 g2 : ClientGameData)
    (n n1 n' n2 : nat) (calls calls' : list P5Call) :
  ClientGameData_draw p5 myId g n = (Some g1, calls, n1) ->
  ClientGameData_draw p5' myId' g1 n' = (Some g2, calls', n2) ->
  g2 = g1.
Proof.
  intros H1 H2. apply draw_result in H1 as ->. apply draw_result in H2 as ->.
  unfold withPlayers. simpl.
  by rewrite (sortedByScore_sorted _ (sortedByScore_StronglySorted _)).
Qed.

(** [update] recomputes the bounds of the camera only when the size of
    the world has changed, and that is enough: after every update the
    client has the size of the world that the server sent and the bounds
    that go with it. *)
Theorem update_tracks_world_size (newData : GameDataDTO)
    (g : ClientGameData) :
  client_reachable g ->
  cg_width (ClientGameData_update newData g) = d_width newData
  /\ cg_height (ClientGameData_update newData g) = d_height newData
  /\ cg_playerViewMinX (ClientGameData_update newData g)
     = d_width newData / num 2 / frac 36 10
  /\ cg_playerViewMaxX (ClientGameData_update newData g)
     = d_width newData - d_width newData / num 2 / frac 36 10
  /\ cg_playerViewMinY (ClientGameData_update newData g)
     = d_height newData / num 2 / frac 36 10
  /\ cg_playerViewMaxY (ClientGameData_update newData g)
     = d_height newData - d_height newData / num 2 / frac 36 10.
Proof.
  intros Hg.
  destruct (client_reachable_view_fits _ (client_update newData g Hg))
    as (Hx0 & Hx1 & Hy0 & Hy1).
  assert (Hsize : cg_width (ClientGameData_update newData g) = d_width newData
                  /\ cg_height (ClientGameData_update newData g)
                     = d_height newData).
  { unfold ClientGameData_update.
    destruct (bool_decide (cg_width g <> d_width newData)) eqn:Hw;
      [done|].
    destruct (bool_decide (cg_height g <> d_height newData)) eqn:Hh;
      [done|].
    apply bool_decide_eq_false in Hw, Hh. simpl.
    split; [by destruct (decide (cg_width g = d_width newData))|].
    by destruct (decide (cg_height g = d_height newData)). }
  destruct Hsize as [Hw Hh]. rewrite Hx1, Hy1, Hx0, Hy0, Hw, Hh. done.
Qed.

End FrameProofs.

(** ** The theorems at the sample states *)
Lemma pool_partition_and_reset_witness :
  (forall r, r < length (heap samplePool) ->
     (r ∈ bullets samplePool /\ r ∉ recycledBullets samplePool)
     \/ ((r ∉ bullets samplePool) /\ r ∈ recycledBullets samplePool))
  /\ NoDup (bullets samplePool) /\ NoDup (recycledBullets samplePool)
  /\ (forall r, r ∈ bullets samplePool ++ recycledBullets samplePool ->
        r < length (heap samplePool))
  /\ (forall r, r ∈ recycledBullets samplePool ->
        exists b, heap samplePool !! r = Some b
          /\ b_firerId b = None
          /\ b_x b = (- num 1000)%Qc /\ b_y b = (- num 1000)%Qc
          /\ b_velocity b = mkVictor 0%Qc 0%Qc
          /\ b_needsToBeRecycled b = false).
Proof.
  apply (pool_partition_and_reset (E := sampleExternals) samplePool).
  unfold samplePool, samplePoolFired.
  apply pool_update, pool_fireBullet, pool_fireBullet, pool_new.
Defined.

Lemma projectile_leaving_bounds_is_recycled_witness :
  (0 ∉ bullets samplePool) /\ 0 ∈ recycledBullets samplePool.
Proof.
  assert (Hreach : pool_reachable (E := sampleExternals) samplePoolFired).
  { unfold samplePoolFired. apply pool_fireBullet, pool_fireBullet, pool_new. }
  assert (Hin : 0 ∈ bullets samplePoolFired) by (vm_compute; constructor).
  assert (Hb : heap samplePoolFired !! 0 = Some sampleBullet)
    by (vm_compute; reflexivity).
  pose proof
    (projectile_leaving_bounds_is_recycled (E := sampleExternals)
       samplePoolFired (num 4000) (num 4000) 0 sampleBullet Hreach Hin Hb)
    as (_ & _ & _ & _ & _ & _ & _ & H).
  assert (Hfl : b_needsToBeRecycled
                  (ServerBullet_update (num 4000) (num 4000) sampleBullet)
                = true) by (vm_compute; reflexivity).
  rewrite Hfl in H. destruct H as (H1 & H2 & _).
  split; [exact H1|exact H2].
Defined.

Local Open Scope Qc_scope.

Lemma compass_quadrant_range (x : Qc) :
  compass_quadrant x = 0%Z \/ compass_quadrant x = 1%Z
  \/ compass_quadrant x = 2%Z \/ compass_quadrant x = 3%Z.
Proof.
  unfold compass_quadrant.
  pose proof (Z.mod_pos_bound (Qfloor x) 4 ltac:(lia)). lia.
Qed.

Lemma Qfloor_plus_2 (q : Q) : Qfloor (q + 2) = (Qfloor q + 2)%Z.
Proof.
  destruct q as [a d]. unfold Qfloor, Qplus. cbn [Qnum Qden].
  rewrite Pos.mul_1_r, Z.mul_1_r. apply Z.div_add. lia.
Qed.

Lemma compass_half_turn (x : Qc) :
  compass_quadrant (x + 1 + 1) = ((compass_quadrant x + 2) mod 4)%Z.
Proof.
  unfold compass_quadrant.
  assert (Hq : (this (x + 1 + 1) == this x + 2)%Q).
  { cbn [this Qcplus Q2Qc]. rewrite !Qred_correct. ring. }
  rewrite Hq, Qfloor_plus_2. by rewrite Zplus_mod_idemp_l.
Qed.

Lemma compass_laws : victor_laws (E := compassExternals).
Proof.
  unfold victor_laws.
  cbn [Math_cos Math_sin HALF_PI Victor_rotateBy Victor_norm
       Victor_normalize compassExternals].
  split.
  { intros x. unfold compass_cos, compass_sin.
    destruct (compass_quadrant_range x) as [->|[->|[->| ->]]];
      apply Qc_is_canon; reflexivity. }
  split.
  { intros x. unfold compass_cos. rewrite compass_half_turn.
    destruct (compass_quadrant_range x) as [->|[->|[->| ->]]];
      apply Qc_is_canon; reflexivity. }
  split.
  { intros x. unfold compass_sin. rewrite compass_half_turn.
    destruct (compass_quadrant_range x) as [->|[->|[->| ->]]];
      apply Qc_is_canon; reflexivity. }
  split.
  { intros a. exists 1. split; [reflexivity|]. reflexivity. }
  split; [|done].
  intros k x Hk. unfold compass_norm, compass_cos, compass_sin. cbn [vx vy].
  assert (H1 : compass_sign (k * 1) = 1).
  { unfold compass_sign, ltb. rewrite Qcmult_1_r.
    by rewrite bool_decide_eq_true_2. }
  assert (H0 : compass_sign (k * 0) = 0).
  { unfold compass_sign, ltb. rewrite Qcmult_0_r.
    by rewrite !bool_decide_eq_false_2 by (qc_to_q; intros ?; lra). }
  assert (Hm : compass_sign (k * - 1) = - 1).
  { unfold compass_sign, ltb.
    assert (Hneg : k * - 1 < 0) by (revert Hk; qc_to_q; intros; lra).
    rewrite bool_decide_eq_false_2.
    - by rewrite bool_decide_eq_true_2.
    - intros Hpos. revert Hneg Hpos. qc_to_q. intros. lra. }
  destruct (compass_quadrant_range x) as [->|[->|[->| ->]]];
    by rewrite ?H1, ?H0, ?Hm.
Qed.

Lemma fireBullet_initialises_witness :
  exists r b,
    bullets
      (BulletHouse_fireBullet (E := compassExternals) "ann" (num 2000)
         (num 2000) 1 (mkRGB (num 255) 0 0) new_BulletHouse 0%nat).1
    = [r]
    /\ heap
         (BulletHouse_fireBullet (E := compassExternals) "ann" (num 2000)
            (num 2000) 1 (mkRGB (num 255) 0 0) new_BulletHouse 0%nat).1
       !! r = Some b
    /\ b_firerId b = Some "ann"
    /\ b_x b = num 2000 /\ b_y b = num 2000
    /\ b_velocity b = mkVictor (num 10 * - 0) (num 10 * - 1).
Proof.
  destruct
    (fireBullet_initialises (E := compassExternals) new_BulletHouse 0 "ann"
       (num 2000) (num 2000) 1 (mkRGB (num 255) 0 0) compass_laws pool_new)
    as (r & b & H1 & H2 & _ & H3 & H4 & H5 & _ & _ & _ & Hv & _).
  exists r, b. split; [exact H1|]. split; [exact H2|]. split; [exact H3|].
  split; [exact H4|]. split; [exact H5|]. exact Hv.
Defined.

Local Close Scope Qc_scope.

Lemma sampleServer_reachable : reachable (E := sampleExternals) sampleServer.
Proof.
  unfold sampleServer.
  repeat first
    [ apply reach_onPlayerInputEvent | apply reach_onTryLoggingInEvent
    | apply reach_onConnectedEvent | apply reach_new ].
Qed.

Lemma counter_is_big_asteroid_count_witness :
  curBigAsteroidsCount (gameData sampleServer)
  = Z.of_nat
      (length
         (filter (fun a => a_isBig a = true) (asteroids (gameData sampleServer)))).
Proof.
  apply (counter_is_big_asteroid_count (E := sampleExternals) sampleServer).
  apply sampleServer_reachable.
Defined.

Lemma update_keeps_population_floor_witness :
  ServerGameData_update (E := sampleExternals) sampleServer
  = Some sampleServerNext
  /\ length (players (gameData sampleServerNext)) = 3
  /\ (9 <= bigAsteroidCount (asteroids (gameData sampleServerNext)))%Z.
Proof.
  assert (Hrun : ServerGameData_update (E := sampleExternals) sampleServer
                 = Some sampleServerNext) by (vm_compute; reflexivity).
  assert (Hlen : length (players (gameData sampleServerNext)) = 3)
    by (vm_compute; reflexivity).
  split; [exact Hrun|]. split; [exact Hlen|].
  destruct
    (update_keeps_population_floor (E := sampleExternals) sampleServer
       sampleServerNext sampleServer_reachable Hrun)
    as (s3 & new & _ & _ & _ & _ & _ & Hfloor).
  rewrite Hlen in Hfloor. exact Hfloor.
Defined.

Lemma sample_random_range (k : nat) :
  (0 <= Math_random (Externals := sampleExternals) k)%Qc
  /\ (Math_random (Externals := sampleExternals) k < 1)%Qc.
Proof.
  cbn [Math_random sampleExternals]. unfold sample_random.
  pose proof (Nat.mod_upper_bound (k * 7 + 3) 10 ltac:(lia)) as Hlt.
  set (m := (k * 7 + 3) mod 10) in *.
  split; qc_to_q; unfold Qle, Qlt; cbn [Qnum Qden]; lia.
Qed.

Lemma sample_map_range (v lo hi : Qc) :
  (0 <= v <= 1)%Qc -> (lo <= hi)%Qc ->
  (lo <= Utils_map (Externals := sampleExternals) v 0 1 lo hi <= hi)%Qc.
Proof.
  intros [Hv0 Hv1] Hle. cbn [Utils_map sampleExternals]. unfold sample_map.
  assert (Heq : ((v - 0) / (1 - 0) = v)%Qc) by (field; discriminate).
  rewrite Heq. revert Hv0 Hv1 Hle. qc_to_q. intros. split; nra.
Qed.

Lemma breakAsteroid_splits_big_only_witness :
  a_isBig sampleAsteroid = true
  /\ exists p1 p2 p3,
       length
         (asteroids
            (ServerGameData_breakAsteroid (E := sampleExternals) sampleAsteroid
               (gameData sampleServer) (calls sampleServer)).1)
       = length (asteroids (gameData sampleServer)) - 1 + 3
       /\ pieceOf (E := sampleExternals) sampleAsteroid p1
       /\ pieceOf (E := sampleExternals) sampleAsteroid p2
       /\ pieceOf (E := sampleExternals) sampleAsteroid p3
       /\ nearTo sampleAsteroid p1 /\ nearTo sampleAsteroid p2
       /\ nearTo sampleAsteroid p3.
Proof.
  assert (Hin : sampleAsteroid ∈ asteroids (gameData sampleServer))
    by (vm_compute; constructor).
  assert (Hnd : NoDup (a_id <$> asteroids (gameData sampleServer)))
    by (refine (bool_decide_unpack _ _); vm_compute; exact I).
  assert (Hbig : a_isBig sampleAsteroid = true) by (vm_compute; reflexivity).
  split; [exact Hbig|].
  destruct
    (breakAsteroid_splits_big_only (E := sampleExternals) sampleAsteroid
       (gameData sampleServer) (calls sampleServer) sample_random_range
       sample_map_range Hin Hnd)
    as (l1 & l2 & Hl & _ & _ & Hcase).
  destruct (a_isBig sampleAsteroid); [|discriminate Hbig].
  destruct Hcase as ((p1 & p2 & p3 & Ha & Hp) & _).
  exists p1, p2, p3.
  split; [|exact Hp].
  rewrite Ha, Hl, !length_app. simpl. lia.
Defined.

Lemma checkEdges_wraps_around_witness :
  p_x (ServerPlayer_checkEdges (num 4000) (num 4000)
         (sampleShip "ann" (num 4020) (- num 16)%Qc))
  = (- ServerPlayer_size)%Qc
  /\ p_y (ServerPlayer_checkEdges (num 4000) (num 4000)
            (sampleShip "ann" (num 4020) (- num 16)%Qc))
     = (num 4000 + ServerPlayer_size)%Qc.
Proof.
  destruct
    (checkEdges_wraps_around (num 4000) (num 4000)
       (sampleShip "ann" (num 4020) (- num 16)%Qc))
    as (Hx & _ & _ & _ & Hy & _); [done|done|].
  split; [apply Hx|apply Hy]; done.
Defined.

Lemma sample_uuid_inj (m n : nat) :
  uuid (Externals := sampleExternals) m = uuid (Externals := sampleExternals) n
  -> m = n.
Proof. apply pretty_nat_inj. Qed.

Lemma asteroid_ids_distinct_witness :
  NoDup (a_id <$> asteroids (gameData sampleServer)).
Proof.
  apply (asteroid_ids_distinct (E := sampleExternals) sample_uuid_inj
           sampleServer).
  apply sampleServer_reachable.
Defined.

Lemma update_completes_witness :
  exists s', ServerGameData_update (E := sampleExternals) sampleServer = Some s'.
Proof.
  apply (update_completes (E := sampleExternals) sample_uuid_inj sampleServer).
  apply sampleServer_reachable.
Defined.

Lemma sampleServer_loop :
  exists s',
    Server_gameUpdateLoop (E := sampleExternals) sampleServer = Some s'
    /\ gameData s' = gameData sampleServerNext.
Proof.
  unfold Server_gameUpdateLoop, sampleServerNext.
  destruct (ServerGameData_update sampleServer) as [s1|] eqn:Hu.
  - eexists. split; reflexivity.
  - vm_compute in Hu. discriminate Hu.
Qed.

Lemma server_pool_invariant_witness :
  pool_inv (bulletHouse (gameData sampleServerNext)).
Proof.
  destruct sampleServer_loop as (s' & Hloop & Hgd).
  rewrite <- Hgd.
  apply (server_pool_invariant (E := sampleExternals) s').
  exact (reach_gameUpdateLoop sampleServer s' sampleServer_reachable Hloop).
Defined.

Lemma invincible_ship_survives_tick_witness :
  exists p',
    Players_get (p_id samplePlayer) (players (gameData sampleServerNext))
    = Some p'
    /\ p_invincibleCountdown p' = (p_invincibleCountdown samplePlayer - 1)%Z.
Proof.
  apply (invincible_ship_survives_tick (E := sampleExternals) sampleServer
           sampleServerNext (p_id samplePlayer) samplePlayer).
  - vm_compute. reflexivity.
  - vm_compute. reflexivity.
  - vm_compute. reflexivity.
Defined.

(** ** The server after a turn of the loop, and the other theorems at
    the sample states *)

Lemma sampleServer_loops :
  Server_gameUpdateLoop (E := sampleExternals) sampleServer
  = Some sampleServerLooped.
Proof.
  unfold sampleServerLooped.
  destruct (Server_gameUpdateLoop sampleServer) as [s1|] eqn:Hu; [reflexivity|].
  vm_compute in Hu. discriminate Hu.
Qed.

Lemma sampleServer_running : running (E := sampleExternals) sampleServer.
Proof.
  unfold sampleServer.
  apply run_onPlayerInputEvent, run_onTryLoggingInEvent.
  apply run_onConnectedEvent;
    [|discriminate|refine (bool_decide_unpack _ _); vm_compute; exact I].
  apply run_onTryLoggingInEvent.
  apply run_onConnectedEvent;
    [|discriminate|refine (bool_decide_unpack _ _); vm_compute; exact I].
  apply run_onTryLoggingInEvent.
  apply run_onConnectedEvent;
    [|discriminate|refine (bool_decide_unpack _ _); vm_compute; exact I].
  apply run_new.
Qed.

Lemma sampleServerLooped_running :
  running (E := sampleExternals) sampleServerLooped.
Proof.
  exact (run_gameUpdateLoop sampleServer sampleServerLooped
           sampleServer_running sampleServer_loops).
Qed.

Lemma sampleServerLooped_reachable :
  reachable (E := sampleExternals) sampleServerLooped.
Proof.
  exact (reach_gameUpdateLoop sampleServer sampleServerLooped
           sampleServer_reachable sampleServer_loops).
Qed.

Lemma sampleServerLooped_bullet :
  0 ∈ bullets (bulletHouse (gameData sampleServerLooped)).
Proof. vm_compute. constructor. Qed.


Lemma connect_then_disconnect_witness :
  Server_onDisconnectedEvent "sock9"
    (Server_onConnectedEvent "sock9" sampleServer)
  = sampleServer.
Proof.
  apply (connect_then_disconnect "sock9" sampleServer).
  refine (bool_decide_unpack _ _). vm_compute. exact I.
Defined.

Lemma bulletKilledAsteroid_resolution_witness :
  bulletHouse
    (gameData
       (Server_bulletKilledAsteroid (E := sampleExternals) 0 sampleAsteroid
          duelServer))
  = BulletHouse_recycleBulletById "b0" (bulletHouse (gameData duelServer))
  /\ ServerGameData_getPlayerWithId "ann"
       (gameData
          (Server_bulletKilledAsteroid (E := sampleExternals) 0 sampleAsteroid
             duelServer))
     = Some
         (ServerPlayer_increaseAsteroidPoint
            (sampleShip "ann" (num 100) (num 100)))
  /\ p_asteroidPoints
       (ServerPlayer_increaseAsteroidPoint
          (sampleShip "ann" (num 100) (num 100)))
     = 1%Z.
Proof.
  destruct
    (bulletKilledAsteroid_resolution (E := sampleExternals) duelServer 0
       (sampleShot "b0" "ann" (num 195) (num 100)) sampleAsteroid eq_refl)
    as (Hbh & _ & _ & _ & Hfound).
  split; [exact Hbh|].
  destruct
    (Hfound "ann" (sampleShip "ann" (num 100) (num 100)) eq_refl eq_refl)
    as (_ & _ & Hscore & Hpoints & _).
  split; [exact Hscore|exact Hpoints].
Defined.

Lemma samplePlayer_live : samplePlayer ∈ players (gameData sampleServer).
Proof.
  apply (list_elem_of_lookup_2 _ 0). vm_compute. reflexivity.
Qed.

Lemma ships_stay_in_world_witness :
  (- num 15 <= p_x samplePlayer <= num 4015
   /\ - num 15 <= p_y samplePlayer <= num 4015)%Qc.
Proof.
  apply (ships_stay_in_world (E := sampleExternals) sampleServer samplePlayer).
  - exact sampleServer_reachable.
  - exact samplePlayer_live.
Defined.

Lemma countdown_in_range_witness :
  (0 <= p_invincibleCountdown samplePlayer <= 255)%Z.
Proof.
  apply (countdown_in_range (E := sampleExternals) sampleServer samplePlayer).
  - exact sampleServer_reachable.
  - exact samplePlayer_live.
Defined.

Lemma samplePoolFired_NoDup : NoDup (bullets samplePoolFired).
Proof. refine (bool_decide_unpack _ _). vm_compute. exact I. Qed.

Lemma recycleBulletsByFirerId_exact_witness :
  bullets (BulletHouse_recycleBulletsByFirerId "ann" samplePoolFired)
  = filter (fun r => firedBy (heap samplePoolFired) "ann" r = false)
      (bullets samplePoolFired)
  /\ recycledBullets (BulletHouse_recycleBulletsByFirerId "ann" samplePoolFired)
     = recycledBullets samplePoolFired
       ++ reverse
            (filter (fun r => firedBy (heap samplePoolFired) "ann" r = true)
               (bullets samplePoolFired)).
Proof.
  destruct (recycleBulletsByFirerId_exact "ann" samplePoolFired
              samplePoolFired_NoDup) as (Hb & Hr & _).
  split; [exact Hb|exact Hr].
Defined.

Lemma recycleBulletById_exact_witness :
  bullets (BulletHouse_recycleBulletById (b_id sampleBullet) samplePoolFired)
  = filter (fun r' => r' <> 0) (bullets samplePoolFired)
  /\ recycledBullets
       (BulletHouse_recycleBulletById (b_id sampleBullet) samplePoolFired)
     = recycledBullets samplePoolFired ++ [0].
Proof.
  assert (Hids : NoDup (b_id <$> heap samplePoolFired)).
  { refine (bool_decide_unpack _ _). vm_compute. exact I. }
  destruct (recycleBulletById_exact samplePoolFired samplePoolFired_NoDup Hids)
    as [_ Hex].
  assert (Hin : 0 ∈ bullets samplePoolFired) by (vm_compute; constructor).
  assert (Hb : heap samplePoolFired !! 0 = Some sampleBullet)
    by (vm_compute; reflexivity).
  destruct (Hex 0 sampleBullet Hin Hb) as (H1 & H2 & _).
  split; [exact H1|exact H2].
Defined.

Lemma active_bullets_in_world_witness :
  exists b,
    heap (bulletHouse (gameData sampleServerLooped)) !! 0 = Some b
    /\ (0 <= b_x b <= num 4000 /\ 0 <= b_y b <= num 4000)%Qc.
Proof.
  destruct (heap (bulletHouse (gameData sampleServerLooped)) !! 0)
    as [b|] eqn:Hb.
  - exists b. split; [reflexivity|].
    exact (active_bullets_in_world (E := sampleExternals) sampleServerLooped 0
             b sampleServerLooped_reachable sampleServerLooped_bullet Hb).
  - vm_compute in Hb. discriminate Hb.
Defined.

Lemma bullet_ids_distinct_witness :
  NoDup (b_id <$> heap (bulletHouse (gameData sampleServerLooped))).
Proof.
  exact (bullet_ids_distinct (E := sampleExternals) sample_uuid_inj
           sampleServerLooped sampleServerLooped_reachable).
Defined.

Lemma hit_projectile_is_recycled_witness :
  (0 ∉ bullets
         (bulletHouse
            (gameData
               (Server_bulletKilledAsteroid (E := sampleExternals) 0
                  sampleAsteroid sampleServerLooped))))
  /\ (0 ∉ bullets
            (bulletHouse
               (gameData
                  (Server_bulletKilledPlayer 0 samplePlayer
                     sampleServerLooped)))).
Proof.
  destruct
    (hit_projectile_is_recycled (E := sampleExternals) sample_uuid_inj
       sampleServerLooped 0 sampleServerLooped_reachable
       sampleServerLooped_bullet) as [Ha Hp].
  split.
  - exact (proj1 (Ha sampleAsteroid)).
  - exact (proj1 (Hp samplePlayer)).
Defined.

Lemma active_bullets_have_live_firers_witness :
  exists b firerId firer,
    heap (bulletHouse (gameData sampleServerLooped)) !! 0 = Some b
    /\ b_firerId b = Some firerId
    /\ ServerGameData_getPlayerWithId firerId (gameData sampleServerLooped)
       = Some firer.
Proof.
  destruct (heap (bulletHouse (gameData sampleServerLooped)) !! 0)
    as [b|] eqn:Hb.
  - destruct
      (active_bullets_have_live_firers (E := sampleExternals)
         sampleServerLooped 0 b sampleServerLooped_running
         sampleServerLooped_bullet Hb) as (firerId & firer & Hf & Hp).
    exists b, firerId, firer. split; [reflexivity|]. split; [exact Hf|exact Hp].
  - vm_compute in Hb. discriminate Hb.
Defined.

Lemma sockets_and_players_agree_witness :
  NoDup (s_id <$> connectedSockets sampleServer)
  /\ socketMe "sock1" sampleServer
     = match ServerGameData_getPlayerWithId "sock1" (gameData sampleServer) with
       | Some _ => Some "sock1"
       | None => None
       end.
Proof.
  destruct (sockets_and_players_agree (E := sampleExternals) sampleServer
              sampleServer_running) as [Hnd Hme].
  split; [exact Hnd|exact (Hme "sock1")].
Defined.


Lemma running_hit_kills_witness :
  ServerGameData_getPlayerWithId "sock3"
    (gameData
       (Server_bulletKilledPlayer 0
          (sampleShip "sock3" 0%Qc 0%Qc) sampleServerLooped)) = None
  /\ socketMe "sock3"
       (Server_bulletKilledPlayer 0
          (sampleShip "sock3" 0%Qc 0%Qc) sampleServerLooped) = None
  /\ exists firer,
       ServerGameData_getPlayerWithId "sock1" (gameData sampleServerLooped)
       = Some firer
       /\ ServerGameData_getPlayerWithId "sock1"
            (gameData
               (Server_bulletKilledPlayer 0
                  (sampleShip "sock3" 0%Qc 0%Qc) sampleServerLooped))
          = Some (ServerPlayer_increaseKillingPoint firer)
       /\ p_killingPoints (ServerPlayer_increaseKillingPoint firer)
          = (p_killingPoints firer + 1)%Z.
Proof.
  destruct (ServerGameData_getPlayerWithId "sock3"
              (gameData sampleServerLooped)) as [victim|] eqn:Hv.
  - destruct
      (running_hit_kills (E := sampleExternals) sampleServerLooped 0
         (sampleShip "sock3" 0%Qc 0%Qc) victim sampleServerLooped_running
         sampleServerLooped_bullet Hv)
      as (Hgone & Hme & b & fid & firer & Hb & Hfid & Hfirer & _ & Hcredit).
    vm_compute in Hb. injection Hb as <-.
    cbn [b_firerId] in Hfid. injection Hfid as <-.
    destruct Hcredit as (Hfound & Hpoints & _); [discriminate|].
    split; [exact Hgone|]. split; [exact Hme|]. exists firer.
    split; [exact Hfirer|]. split; [exact Hfound|exact Hpoints].
  - vm_compute in Hv. discriminate Hv.
Defined.

Lemma tick_leaves_only_new_asteroids_waiting_witness :
  exists s' old new,
    ServerGameData_update (E := sampleExternals) sampleServer = Some s'
    /\ asteroids (gameData s') = old ++ new
    /\ Forall (fun a => a_needNewTarget a = false) old
    /\ Forall
         (fun a =>
            a_needNewTarget a = true /\ a_isBig a = true
            /\ a_velocity a = mkVictor 0%Qc 0%Qc)
         new.
Proof.
  destruct (ServerGameData_update (E := sampleExternals) sampleServer)
    as [s'|] eqn:Hu.
  - destruct
      (tick_leaves_only_new_asteroids_waiting (E := sampleExternals)
         sampleServer s' Hu) as (old & new & Hsplit & Hold & Hnew).
    exists s', old, new. split; [reflexivity|].
    split; [exact Hsplit|]. split; [exact Hold|exact Hnew].
  - vm_compute in Hu. discriminate Hu.
Defined.

Lemma low_randInt_range (lo hi : Qc) (n : nat) :
  (lo <= hi)%Qc
  -> (lo <= Utils_randInt (Externals := lowExternals) lo hi n <= hi)%Qc.
Proof. intros Hle. split; [apply Qcle_refl|exact Hle]. Qed.

Lemma new_asteroid_spawns_outside_witness :
  ((a_x (new_ServerAsteroid (E := lowExternals) (num 4000) (num 4000) true
           0%nat).1
    <= - num 100
    \/ num 4000 + num 100
       <= a_x (new_ServerAsteroid (E := lowExternals) (num 4000) (num 4000)
                 true 0%nat).1
    \/ a_y (new_ServerAsteroid (E := lowExternals) (num 4000) (num 4000)
              true 0%nat).1
       <= - num 100
    \/ num 4000 + num 100
       <= a_y (new_ServerAsteroid (E := lowExternals) (num 4000) (num 4000)
                 true 0%nat).1)
   /\ - num 200
      <= a_x (new_ServerAsteroid (E := lowExternals) (num 4000) (num 4000)
                true 0%nat).1
      <= num 4000 + num 200
   /\ - num 200
      <= a_y (new_ServerAsteroid (E := lowExternals) (num 4000) (num 4000)
                true 0%nat).1
      <= num 4000 + num 200)%Qc.
Proof.
  apply (new_asteroid_spawns_outside (E := lowExternals) low_randInt_range
           (num 4000) (num 4000) true 0%nat);
    vm_compute; discriminate.
Defined.

Lemma gameUpdateLoop_sends_and_keeps_witness :
  (p_id <$> players (gameData sampleServerLooped))
    `sublist_of` (p_id <$> players (gameData sampleServer))
  /\ s_id <$> connectedSockets sampleServerLooped
     = s_id <$> connectedSockets sampleServer
  /\ exists notices,
       sent sampleServerLooped
       = sent sampleServer ++ notices
         ++ (GameDataEvent <$> (s_id <$> connectedSockets sampleServer))
       /\ Forall
            (fun e =>
               match e with
               | KilledByAsteroidEvent _ _ | KilledByPlayerEvent _ _ _ => True
               | _ => False
               end)
            notices.
Proof.
  exact (gameUpdateLoop_sends_and_keeps (E := sampleExternals) sampleServer
           sampleServerLooped sampleServer_loops).
Defined.

(** ** The client at its sample state *)

Local Open Scope Qc_scope.

Lemma sampleClient_reachable :
  client_reachable (E := sampleExternals) (C := sampleClientExternals)
    sampleClient.
Proof. apply client_update, client_new. Qed.

Lemma draw_shows_top_seven_witness :
  exists g' calls n',
    ClientGameData_draw (E := sampleExternals) (C := sampleClientExternals)
      sampleP5 (Some "ann") sampleClient 0%nat
    = (Some g', calls, n')
    /\ texts_of_size ClientGameData_pointsTextSize calls
       = ["Name"; "Asteroid"; "PK"]
         ++ flat_map pointsRow (take 7 (cg_players g')).
Proof.
  destruct (ClientGameData_draw (E := sampleExternals)
              (C := sampleClientExternals) sampleP5 (Some "ann")
              sampleClient 0%nat) as [[[g'|] calls] n'] eqn:Hdraw.
  - exists g', calls, n'. split; [reflexivity|].
    exact (proj2 (proj2 (proj2 (proj2
             (draw_shows_top_seven (E := sampleExternals)
                (C := sampleClientExternals) sampleP5 (Some "ann")
                sampleClient g' 0 n' calls Hdraw))))).
  - vm_compute in Hdraw. discriminate Hdraw.
Defined.


Lemma draw_again_keeps_order_witness :
  exists g1 calls n1,
    ClientGameData_draw (E := sampleExternals) (C := sampleClientExternals)
      sampleP5 (Some "ann") sampleClient 0%nat
    = (Some g1, calls, n1)
    /\ exists calls' n2,
         ClientGameData_draw (E := sampleExternals)
           (C := sampleClientExternals) sampleP5 None g1 n1
         = (Some g1, calls', n2).
Proof.
  destruct (ClientGameData_draw (E := sampleExternals)
              (C := sampleClientExternals) sampleP5 (Some "ann")
              sampleClient 0%nat) as [[[g1|] calls] n1] eqn:Hdraw.
  - exists g1, calls, n1. split; [reflexivity|].
    destruct (ClientGameData_draw (E := sampleExternals)
                (C := sampleClientExternals) sampleP5 None g1 n1)
      as [[[g2|] calls'] n2] eqn:Hdraw'.
    + exists calls', n2.
      by rewrite (draw_again_keeps_order (E := sampleExternals)
                    (C := sampleClientExternals) sampleP5 sampleP5
                    (Some "ann") None sampleClient g1 g2 0 n1 n1 n2 calls
                    calls' Hdraw Hdraw').
    + exfalso. vm_compute in Hdraw. injection Hdraw as <- <- <-.
      vm_compute in Hdraw'. discriminate Hdraw'.
  - vm_compute in Hdraw. discriminate Hdraw.
Defined.

Lemma update_tracks_world_size_witness :
  cg_width
    (ClientGameData_update (C := sampleClientExternals) sampleGameDataDTO
       sampleClient)
  = d_width sampleGameDataDTO
  /\ cg_playerViewMinX
       (ClientGameData_update (C := sampleClientExternals) sampleGameDataDTO
          sampleClient)
     = d_width sampleGameDataDTO / num 2 / frac 36 10.
Proof.
  destruct
    (update_tracks_world_size (E := sampleExternals)
       (C := sampleClientExternals) sampleGameDataDTO sampleClient
       sampleClient_reachable) as (Hw & _ & Hx & _).
  split; [exact Hw|exact Hx].
Defined.
